(** * ExoAI front end: locale tooling, direction helpers and page handlers

    A shallow embedding of the parts of the repository that carry logic:
    - [src/lib/i18n-utils.ts]          ([isRTL], [getTextDirection],
      [truncateText], [formatNumber], [formatDuration],
      [formatRelativeTime], [formatFileSize]);
    - [scripts/generate_i18n_report.js] ([deepKeys], [getValueByPath], the
      coverage report);
    - the auto-translation script      ([translateText], [deepTranslate],
      [mergeTranslations], [flattenTranslatedObject], the data of [main]);
    - the Demo page                    ([parseCsvLightCurve], [handleRunJob],
      [handleUpload], the status badges, Reset);
    - the Quantum, Adversarial and DataUpload pages (their handlers,
      [onDrop] and the upload-progress timer).

    JavaScript strings are modelled as [string] (code units below 256),
    Numbers as NaN, an infinity or a rational rounded by a floating-point
    format, JSON objects as association lists in [Object.entries] order. *)

From Stdlib Require Import List String Ascii ZArith QArith Qabs Qround Qpower Lia Lqa Bool.
From Stdlib Require Import DecimalString.
From stdpp Require Import gmap strings.
Import ListNotations.

Local Open Scope string_scope.
Local Open Scope list_scope.

(** ** src/lib/i18n-utils.ts *)

Module I18nUtils.

Inductive direction := ltr | rtl.

(** [Array.prototype.includes] on an array of strings: SameValueZero on
    strings is string equality. *)
Definition includes (xs : list string) (x : string) : bool :=
  existsb (String.eqb x) xs.

Definition rtlLocales : list string := ["ar"; "he"; "fa"; "ur"].

Definition isRTL (locale : string) : bool := includes rtlLocales locale.

Definition getTextDirection (locale : string) : direction :=
  if isRTL locale then rtl else ltr.

Lemma includes_In xs x : includes xs x = true <-> In x xs.
Proof.
  unfold includes. rewrite existsb_exists. split.
  - intros (y & Hy & E). apply String.eqb_eq in E. now subst.
  - intros H. exists x. split; [assumption | apply String.eqb_refl].
Qed.

(** C4: [getTextDirection] answers [rtl] exactly on 'ar', 'he', 'fa' and
    'ur' and [ltr] on every other locale string; so Arabic is [rtl] and
    'en' and 'es' are [ltr]. *)
Theorem getTextDirection_spec :
  (forall locale : string,
      (getTextDirection locale = rtl <->
       locale = "ar" \/ locale = "he" \/ locale = "fa" \/ locale = "ur") /\
      (getTextDirection locale = ltr <->
       ~ (locale = "ar" \/ locale = "he" \/ locale = "fa" \/ locale = "ur"))) /\
  getTextDirection "ar" = rtl /\
  getTextDirection "en" = ltr /\
  getTextDirection "es" = ltr.
Proof.
  split; [| repeat split; reflexivity].
  intros locale.
  assert (R : isRTL locale = true <->
              locale = "ar" \/ locale = "he" \/ locale = "fa" \/ locale = "ur").
  { unfold isRTL. rewrite includes_In. unfold rtlLocales. simpl.
    intuition congruence. }
  unfold getTextDirection.
  destruct (isRTL locale) eqn:E; split; split; intros H;
    try reflexivity; try discriminate.
  - apply R; reflexivity.
  - exfalso. apply H. apply R. reflexivity.
  - apply R in H. discriminate.
  - intros C. apply R in C. discriminate.
Qed.

End I18nUtils.

(** ** JavaScript numbers

    A Number is NaN, an infinity or a finite value.  Finite values are kept
    as rationals; every arithmetic operation rounds its exact result with
    the rounding function of a [float_format] and overflows to an infinity
    beyond [fmax].  The sign of a zero is not tracked. *)

Module JSNum.

Local Open Scope Q_scope.

Inductive num := NaN | Inf (negative : bool) | Fin (q : Q).

(** What the code relies on from IEEE-754 round-to-nearest: rounding is
    monotone, exact on integers up to 2^53, close to its argument, and the
    largest finite value is at least 2^53.  binary64 meets all of these. *)
Record float_format := {
  rnd : Q -> Q;
  fmax : Q;
  rnd_proper : forall x y, x == y -> rnd x == rnd y;
  rnd_mono : forall x y, x <= y -> rnd x <= rnd y;
  rnd_int : forall z : Z, (Z.abs z <= 2 ^ 53)%Z -> rnd (inject_Z z) == inject_Z z;
  rnd_near : forall x, Qabs (rnd x - x) <= (Qabs x + 1) * (1 # 1000000000);
  fmax_large : inject_Z (2 ^ 53) <= fmax
}.

(** Exact rational arithmetic is one such format. *)
Lemma exact_near (x : Q) : Qabs (x - x) <= (Qabs x + 1) * (1 # 1000000000).
Proof.
  assert (E : x - x == 0) by ring. rewrite E. simpl.
  apply Qmult_le_0_compat; [| discriminate].
  pose proof (Qabs_nonneg x). lra.
Qed.

Lemma exact_fmax_large : inject_Z (2 ^ 53) <= inject_Z (2 ^ 1024).
Proof. rewrite <- Zle_Qle. apply Z.pow_le_mono_r; lia. Qed.

Definition exact_format : float_format :=
  {| rnd := fun x => x;
     fmax := inject_Z (2 ^ 1024);
     rnd_proper := fun x y H => H;
     rnd_mono := fun x y H => H;
     rnd_int := fun z _ => Qeq_refl (inject_Z z);
     rnd_near := exact_near;
     fmax_large := exact_fmax_large |}.

(** The Number of a length or an index: these stay below 2^32 and are
    exact in every format. *)
Definition of_nat (n : nat) : num := Fin (inject_Z (Z.of_nat n)).

Definition Qlt_bool (a b : Q) : bool := negb (Qle_bool b a).

Lemma Qlt_bool_iff a b : Qlt_bool a b = true <-> a < b.
Proof.
  unfold Qlt_bool. rewrite negb_true_iff. split.
  - intros H. apply Qnot_le_lt. intros C. apply Qle_bool_iff in C. congruence.
  - intros H. destruct (Qle_bool b a) eqn:E; [| reflexivity].
    apply Qle_bool_iff in E. lra.
Qed.

Section Ops.
Variable F : float_format.

(** The Number an exact finite result becomes. *)
Definition finish (x : Q) : num :=
  let y := rnd F x in
  if Qle_bool (Qabs y) (fmax F) then Fin y else Inf (Qlt_bool y 0).

(** A numeric literal of the source text. *)
Definition lit (x : Q) : num := finish x.


Definition js_neg (a : num) : num :=
  match a with
  | NaN => NaN
  | Inf s => Inf (negb s)
  | Fin x => Fin (- x)
  end.

Definition js_add (a b : num) : num :=
  match a, b with
  | NaN, _ | _, NaN => NaN
  | Inf s, Inf t => if Bool.eqb s t then Inf s else NaN
  | Inf s, Fin _ | Fin _, Inf s => Inf s
  | Fin x, Fin y => finish (x + y)
  end.

Definition js_sub (a b : num) : num := js_add a (js_neg b).

Definition js_mul (a b : num) : num :=
  match a, b with
  | NaN, _ | _, NaN => NaN
  | Inf s, Inf t => Inf (xorb s t)
  | Inf s, Fin y | Fin y, Inf s =>
      if Qeq_bool y 0 then NaN else Inf (xorb s (Qlt_bool y 0))
  | Fin x, Fin y => finish (x * y)
  end.

Definition js_div (a b : num) : num :=
  match a, b with
  | NaN, _ | _, NaN => NaN
  | Inf _, Inf _ => NaN
  | Inf s, Fin y => Inf (xorb s (Qlt_bool y 0))
  | Fin _, Inf _ => Fin 0
  | Fin x, Fin y =>
      if Qeq_bool y 0
      then (if Qeq_bool x 0 then NaN else Inf (Qlt_bool x 0))
      else finish (x / y)
  end.

(** [a <= b] as JavaScript evaluates it: false when either side is NaN. *)
Definition js_le (a b : num) : bool :=
  match a, b with
  | NaN, _ | _, NaN => false
  | Inf true, _ => true
  | _, Inf false => true
  | Inf false, _ => false
  | _, Inf true => false
  | Fin x, Fin y => Qle_bool x y
  end.

Definition js_lt (a b : num) : bool :=
  match a, b with
  | NaN, _ | _, NaN => false
  | Inf s, Inf t => s && negb t
  | Inf s, Fin _ => s
  | Fin _, Inf t => negb t
  | Fin x, Fin y => Qlt_bool x y
  end.

Definition js_ge (a b : num) : bool := js_le b a.

(** [Math.max] and [Math.min] of two arguments: NaN if either is NaN. *)
Definition Math_max (a b : num) : num :=
  match a, b with
  | NaN, _ | _, NaN => NaN
  | _, _ => if js_le a b then b else a
  end.

Definition Math_min (a b : num) : num :=
  match a, b with
  | NaN, _ | _, NaN => NaN
  | _, _ => if js_le a b then a else b
  end.

(** [Math.round]: the nearest integer, a tie going up. *)
Definition Math_round (a : num) : num :=
  match a with
  | Fin x => Fin (inject_Z (Qfloor (x + (1 # 2))))
  | _ => a
  end.

Definition Number_isFinite (a : num) : bool :=
  match a with Fin _ => true | _ => false end.

(** Falsy numbers: zero and NaN. *)
Definition num_truthy (a : num) : bool :=
  match a with
  | NaN => false
  | Inf _ => true
  | Fin x => negb (Qeq_bool x 0)
  end.

(** [x.toFixed(3)] is a decimal numeral with three fractional digits
    (the integer n for which n / 1000 is nearest to x, the larger one on
    a tie); for NaN, an infinity or a magnitude of 10^21 and more it is
    the text of the number itself.  [Number] reads the text back. *)
Inductive numeral := NumText (a : num) | Decimal3 (n : Z).

Definition toFixed3 (a : num) : numeral :=
  match a with
  | Fin x =>
      if Qlt_bool (Qabs x) (inject_Z (10 ^ 21))
      then Decimal3 (Qfloor (x * 1000 + (1 # 2)))
      else NumText a
  | _ => NumText a
  end.

Definition Number_of_numeral (s : numeral) : num :=
  match s with
  | NumText a => a
  | Decimal3 n => finish (inject_Z n / 1000)
  end.

End Ops.

(** *** Facts about rounding *)

#[export] Instance rnd_Proper (F : float_format) : Proper (Qeq ==> Qeq) (rnd F).
Proof. intros x y H. now apply rnd_proper. Qed.

Lemma rnd_zero (F : float_format) : rnd F 0 == 0.
Proof. apply (rnd_int F 0). simpl. lia. Qed.

Lemma two_53 : inject_Z (2 ^ 53) == 9007199254740992.
Proof. reflexivity. Qed.

(** Rounding keeps a value between two representable integers. *)
Lemma rnd_between (F : float_format) (x : Q) (a b : Z) :
  (Z.abs a <= 2 ^ 53)%Z -> (Z.abs b <= 2 ^ 53)%Z ->
  inject_Z a <= x <= inject_Z b ->
  inject_Z a <= rnd F x <= inject_Z b.
Proof.
  intros Ha Hb [H1 H2]. split.
  - rewrite <- (rnd_int F a Ha). now apply rnd_mono.
  - rewrite <- (rnd_int F b Hb). now apply rnd_mono.
Qed.

(** Below 2^53 in magnitude nothing overflows. *)
Lemma finish_small (F : float_format) (x : Q) :
  - inject_Z (2 ^ 53) <= x <= inject_Z (2 ^ 53) ->
  finish F x = Fin (rnd F x).
Proof.
  intros H. unfold finish.
  assert (B : inject_Z (- 2 ^ 53) <= rnd F x <= inject_Z (2 ^ 53)).
  { apply rnd_between; try (simpl; lia).
    change (inject_Z (- 2 ^ 53)) with (- inject_Z (2 ^ 53)). exact H. }
  change (inject_Z (- 2 ^ 53)) with (- inject_Z (2 ^ 53)) in B.
  assert (L : Qabs (rnd F x) <= fmax F).
  { apply Qle_trans with (inject_Z (2 ^ 53)); [| apply fmax_large].
    apply Qabs_Qle_condition. exact B. }
  apply Qle_bool_iff in L. now rewrite L.
Qed.

Lemma rnd_close (F : float_format) (x : Q) :
  0 <= x ->
  x - (x + 1) * (1 # 1000000000) <= rnd F x <= x + (x + 1) * (1 # 1000000000).
Proof.
  intros Hx. pose proof (rnd_near F x) as N.
  rewrite (Qabs_pos x Hx) in N.
  apply Qabs_Qle_condition in N. lra.
Qed.

Lemma lit_small (F : float_format) (x : Q) :
  - inject_Z (2 ^ 53) <= x <= inject_Z (2 ^ 53) -> lit F x = Fin (rnd F x).
Proof. apply finish_small. Qed.

(** Integer constants under [inject_Z], put in the form [lra] reads. *)
Ltac inj_consts :=
  repeat match goal with
         | |- context [inject_Z (Zpos ?p)] =>
             change (inject_Z (Zpos p)) with (Zpos p # 1)
         | |- context [inject_Z Z0] => change (inject_Z Z0) with (0 # 1)
         | H : context [inject_Z (Zpos ?p)] |- _ =>
             change (inject_Z (Zpos p)) with (Zpos p # 1) in H
         | H : context [inject_Z Z0] |- _ => change (inject_Z Z0) with (0 # 1) in H
         end.

Lemma finish_between (F : float_format) (x : Q) (a b : Z) :
  (Z.abs a <= 2 ^ 53)%Z -> (Z.abs b <= 2 ^ 53)%Z ->
  inject_Z a <= x <= inject_Z b ->
  finish F x = Fin (rnd F x) /\ inject_Z a <= rnd F x <= inject_Z b.
Proof.
  intros Ha Hb H. split; [| now apply rnd_between].
  apply finish_small. destruct H as [H1 H2]. split.
  - apply Qle_trans with (inject_Z a); [| exact H1].
    change (- inject_Z (2 ^ 53)) with (inject_Z (- 2 ^ 53)).
    rewrite <- Zle_Qle. lia.
  - apply Qle_trans with (inject_Z b); [exact H2 |].
    rewrite <- Zle_Qle. lia.
Qed.

Lemma lit_100 (F : float_format) : lit F 100 = Fin (rnd F 100) /\ rnd F 100 == 100.
Proof.
  split.
  - apply lit_small. split; [discriminate | discriminate].
  - apply (rnd_int F 100). simpl. lia.
Qed.

(** An exact integer result below 2^53 is delivered as it is. *)
Lemma finish_exact (F : float_format) (x : Q) (z : Z) :
  (Z.abs z <= 2 ^ 53)%Z -> x == inject_Z z ->
  finish F x = Fin (rnd F x) /\ rnd F x == inject_Z z.
Proof.
  intros Hz E.
  destruct (finish_between F x z z Hz Hz) as [E1 [B1 B2]].
  { rewrite E. split; apply Qle_refl. }
  split; [exact E1 | apply Qle_antisym; assumption].
Qed.

(** An integer literal below 2^53 denotes itself. *)
Lemma lit_int (F : float_format) (z : Z) :
  (Z.abs z <= 2 ^ 53)%Z ->
  lit F (inject_Z z) = Fin (rnd F (inject_Z z)) /\ rnd F (inject_Z z) == inject_Z z.
Proof. intros Hz. apply finish_exact; [exact Hz | reflexivity]. Qed.

Lemma Qeq_bool_false (x y : Q) : ~ x == y -> Qeq_bool x y = false.
Proof.
  intros H. destruct (Qeq_bool x y) eqn:E; [| reflexivity].
  apply Qeq_bool_iff in E. contradiction.
Qed.

Lemma Qle_bool_false (x y : Q) : y < x -> Qle_bool x y = false.
Proof.
  intros H. destruct (Qle_bool x y) eqn:E; [| reflexivity].
  apply Qle_bool_iff in E. lra.
Qed.

Lemma Qle_bool_true (x y : Q) : x <= y -> Qle_bool x y = true.
Proof. apply Qle_bool_iff. Qed.

Lemma finish_not_nan (F : float_format) (x : Q) : finish F x <> NaN.
Proof. unfold finish. destruct (Qle_bool _ _); discriminate. Qed.

Lemma js_add_fin_l (F : float_format) (x : Q) (b : num) :
  b <> NaN -> js_add F (Fin x) b <> NaN.
Proof.
  destruct b as [| s | y]; cbn; intros H; [contradiction | discriminate |].
  apply finish_not_nan.
Qed.

Lemma js_add_fin_r (F : float_format) (a : num) (y : Q) :
  a <> NaN -> js_add F a (Fin y) <> NaN.
Proof.
  destruct a as [| s | x]; cbn; intros H; [contradiction | discriminate |].
  apply finish_not_nan.
Qed.

(** [Math.max(a, Math.min(b, x))] of a number is a finite value from a to b. *)
Lemma clamp_spec (a b : Q) (x : num) :
  a <= b -> x <> NaN ->
  exists c, Math_max (Fin a) (Math_min (Fin b) x) = Fin c /\ a <= c <= b.
Proof.
  intros Hab Hx. destruct x as [| [|] | q]; [contradiction | | |]; cbn.
  - exists a. split; [reflexivity | lra].
  - rewrite (Qle_bool_true a b Hab). exists b. split; [reflexivity | lra].
  - destruct (Qle_bool b q) eqn:E1; cbn.
    + rewrite (Qle_bool_true a b Hab). exists b. split; [reflexivity | lra].
    + assert (q < b).
      { apply Qnot_le_lt. intros C. apply Qle_bool_iff in C. congruence. }
      destruct (Qle_bool a q) eqn:E2.
      * apply Qle_bool_iff in E2. exists q. split; [reflexivity | lra].
      * exists a. split; [reflexivity | lra].
Qed.

(** A literal between 0 and 2^53 is finite and close to its decimal value. *)
Lemma lit_close (F : float_format) (q : Q) :
  0 <= q <= inject_Z (2 ^ 53) ->
  lit F q = Fin (rnd F q) /\
  q - (q + 1) * (1 # 1000000000) <= rnd F q <= q + (q + 1) * (1 # 1000000000).
Proof.
  intros [H0 H1]. split.
  - apply lit_small. split; [| exact H1].
    apply Qle_trans with 0; [discriminate | exact H0].
  - now apply rnd_close.
Qed.

Lemma js_mul_fin_r (F : float_format) (a : num) (y : Q) :
  a <> NaN -> ~ y == 0 -> js_mul F a (Fin y) <> NaN.
Proof.
  intros Ha Hy. destruct a as [| s | x]; cbn; [contradiction | |].
  - rewrite (Qeq_bool_false _ _ Hy). discriminate.
  - apply finish_not_nan.
Qed.

(** *** binary64

    IEEE-754 double precision, the format of a JavaScript Number: 53
    significant bits, round to nearest with ties to even, subnormal values
    down to 2^-1074, and 2^1024 - 2^971 as the largest finite value. *)

(** Round to the nearest integer, ties to even. *)
Definition rne (t : Q) : Z :=
  let f := Qfloor t in
  if Qlt_le_dec (t - inject_Z f) (1 # 2) then f
  else if Qlt_le_dec (1 # 2) (t - inject_Z f) then (f + 1)%Z
  else if Z.even f then f else (f + 1)%Z.

Lemma rne_proper t u : t == u -> rne t = rne u.
Proof.
  intros H. unfold rne. rewrite (Qfloor_comp _ _ H).
  destruct (Qlt_le_dec (t - inject_Z (Qfloor u)) (1 # 2));
    destruct (Qlt_le_dec (u - inject_Z (Qfloor u)) (1 # 2)); try lra; try reflexivity.
  destruct (Qlt_le_dec (1 # 2) (t - inject_Z (Qfloor u)));
    destruct (Qlt_le_dec (1 # 2) (u - inject_Z (Qfloor u))); try lra; reflexivity.
Qed.

Lemma rne_cases t :
  (rne t = Qfloor t /\ t - inject_Z (Qfloor t) <= 1 # 2) \/
  (rne t = (Qfloor t + 1)%Z /\ 1 # 2 <= t - inject_Z (Qfloor t)).
Proof.
  unfold rne.
  destruct (Qlt_le_dec (t - inject_Z (Qfloor t)) (1 # 2)).
  - left. split; [reflexivity | lra].
  - destruct (Qlt_le_dec (1 # 2) (t - inject_Z (Qfloor t))).
    + right. split; [reflexivity | lra].
    + destruct (Z.even (Qfloor t)); [left | right]; split; try reflexivity; lra.
Qed.

Lemma rne_near t : Qabs (inject_Z (rne t) - t) <= 1 # 2.
Proof.
  pose proof (Qfloor_le t) as L. pose proof (Qlt_floor t) as U.
  rewrite inject_Z_plus in U. change (inject_Z 1) with 1 in U.
  apply Qabs_Qle_condition.
  destruct (rne_cases t) as [[-> H] | [-> H]];
    [| rewrite inject_Z_plus; change (inject_Z 1) with 1]; split; lra.
Qed.

Lemma rne_int z : rne (inject_Z z) = z.
Proof.
  unfold rne. rewrite Qfloor_Z.
  destruct (Qlt_le_dec (inject_Z z - inject_Z z) (1 # 2)); [reflexivity | lra].
Qed.

Lemma rne_mono t u : t <= u -> (rne t <= rne u)%Z.
Proof.
  intros H. pose proof (Qfloor_resp_le _ _ H) as F.
  destruct (Z.eq_dec (Qfloor t) (Qfloor u)) as [E | N].
  - unfold rne. rewrite E.
    destruct (Qlt_le_dec (t - inject_Z (Qfloor u)) (1 # 2));
      destruct (Qlt_le_dec (u - inject_Z (Qfloor u)) (1 # 2)); try lra; try lia;
      destruct (Qlt_le_dec (1 # 2) (u - inject_Z (Qfloor u))); try lia;
      try (destruct (Z.even (Qfloor u)); lia);
      destruct (Qlt_le_dec (1 # 2) (t - inject_Z (Qfloor u))); try lra; try lia;
      destruct (Z.even (Qfloor u)); lia.
  - destruct (rne_cases t) as [[-> _] | [-> _]];
      destruct (rne_cases u) as [[-> _] | [-> _]]; lia.
Qed.

(** Powers of two with an integer exponent. *)
Definition pow2 (k : Z) : Q := 2 ^ k.

Lemma pow2_pos k : 0 < pow2 k.
Proof. apply Qpower_0_lt. reflexivity. Qed.

Lemma pow2_add j k : pow2 (j + k) == pow2 j * pow2 k.
Proof. apply Qpower_plus. discriminate. Qed.

Lemma pow2_le j k : (j <= k)%Z -> pow2 j <= pow2 k.
Proof. intros H. apply Qpower_le_compat_l; [exact H | discriminate]. Qed.

Lemma pow2_lt j k : (j < k)%Z -> pow2 j < pow2 k.
Proof. intros H. apply Qpower_lt_compat_l; [exact H | reflexivity]. Qed.

Lemma pow2_Z k : (0 <= k)%Z -> inject_Z (2 ^ k) == pow2 k.
Proof. intros H. unfold pow2. now rewrite Zpower_Qpower. Qed.

Lemma pow2_0 : pow2 0 == 1.
Proof. reflexivity. Qed.

(** The magnitude of a positive rational: the [m] with
    2^(m-1) <= a < 2^m. *)
Definition mag (a : Q) : Z :=
  let m0 := (Z.log2 (Qnum a) - Z.log2 (Zpos (Qden a)))%Z in
  if Qle_bool (pow2 m0) a then (m0 + 1)%Z else m0.

Lemma mag_spec a : 0 < a -> pow2 (mag a - 1) <= a < pow2 (mag a).
Proof.
  intros Ha. destruct a as [n d]. unfold mag. cbn [Qnum Qden].
  assert (Hn : (0 < n)%Z).
  { unfold Qlt in Ha. cbn in Ha. lia. }
  set (ln := Z.log2 n). set (ld := Z.log2 (Zpos d)).
  destruct (Z.log2_spec n Hn) as [Ln Un]. fold ln in Ln, Un.
  destruct (Z.log2_spec (Zpos d) ltac:(lia)) as [Ld Ud]. fold ld in Ld, Ud.
  assert (Hln : (0 <= ln)%Z) by apply Z.log2_nonneg.
  assert (Hld : (0 <= ld)%Z) by apply Z.log2_nonneg.
  assert (E : n # d == inject_Z n / inject_Z (Zpos d)) by apply Qmake_Qdiv.
  assert (Dpos : 0 < inject_Z (Zpos d)) by reflexivity.
  assert (Ln' : pow2 ln <= inject_Z n) by (rewrite <- pow2_Z by lia; now rewrite <- Zle_Qle).
  assert (Un' : inject_Z n < pow2 (ln + 1)).
  { rewrite <- pow2_Z by lia. rewrite <- Zlt_Qlt. now rewrite <- Z.add_1_r in Un. }
  assert (Ld' : pow2 ld <= inject_Z (Zpos d)) by (rewrite <- pow2_Z by lia; now rewrite <- Zle_Qle).
  assert (Ud' : inject_Z (Zpos d) < pow2 (ld + 1)).
  { rewrite <- pow2_Z by lia. rewrite <- Zlt_Qlt. now rewrite <- Z.add_1_r in Ud. }
  assert (Lo : pow2 (ln - ld - 1) < n # d).
  { rewrite E. apply Qlt_shift_div_l; [exact Dpos |].
    apply Qlt_le_trans with (pow2 (ln - ld - 1) * pow2 (ld + 1)).
    - apply Qmult_lt_l; [apply pow2_pos | exact Ud'].
    - rewrite <- pow2_add. replace (ln - ld - 1 + (ld + 1))%Z with ln by lia. exact Ln'. }
  assert (Hi : n # d < pow2 (ln - ld + 1)).
  { rewrite E. apply Qlt_shift_div_r; [exact Dpos |].
    apply Qlt_le_trans with (pow2 (ln + 1)); [exact Un' |].
    replace (ln + 1)%Z with (ln - ld + 1 + ld)%Z by lia. rewrite pow2_add.
    apply Qmult_le_l; [apply pow2_pos | exact Ld']. }
  destruct (Qle_bool (pow2 (ln - ld)) (n # d)) eqn:T.
  - apply Qle_bool_iff in T. replace (ln - ld + 1 - 1)%Z with (ln - ld)%Z by lia.
    split; assumption.
  - assert (n # d < pow2 (ln - ld)).
    { apply Qnot_le_lt. intros C. apply Qle_bool_iff in C. congruence. }
    split; [apply Qlt_le_weak; exact Lo | assumption].
Qed.

Lemma mag_unique a m m' :
  pow2 (m - 1) <= a < pow2 m -> pow2 (m' - 1) <= a < pow2 m' -> m = m'.
Proof.
  intros [L U] [L' U'].
  destruct (Z.lt_trichotomy m m') as [H | [H | H]]; [| exact H |]; exfalso.
  - assert (pow2 m <= pow2 (m' - 1)) by (apply pow2_le; lia). lra.
  - assert (pow2 m' <= pow2 (m - 1)) by (apply pow2_le; lia). lra.
Qed.

Lemma mag_proper a b : 0 < a -> a == b -> mag a = mag b.
Proof.
  intros Ha E. apply (mag_unique a); [now apply mag_spec |].
  rewrite E. apply mag_spec. now rewrite <- E.
Qed.

Lemma mag_mono a b : 0 < a -> a <= b -> (mag a <= mag b)%Z.
Proof.
  intros Ha H. destruct (mag_spec a Ha) as [La Ua].
  destruct (mag_spec b) as [Lb Ub]; [lra |].
  destruct (Z_le_gt_dec (mag a) (mag b)) as [Hle | Hgt]; [exact Hle | exfalso].
  assert (pow2 (mag b) <= pow2 (mag a - 1)) by (apply pow2_le; lia). lra.
Qed.

(** The exponent of the last place of a positive value: binary64 has 53
    significant bits and no exponent below -1074. *)
Definition ulp_exp (a : Q) : Z := Z.max (mag a - 53) (-1074).

(** Round-to-nearest-even of a positive value. *)
Definition round_pos (a : Q) : Q :=
  inject_Z (rne (a * pow2 (- ulp_exp a))) * pow2 (ulp_exp a).

Definition round64 (x : Q) : Q :=
  if Qlt_le_dec 0 x then round_pos x
  else if Qlt_le_dec x 0 then - round_pos (- x)
  else 0.

Lemma pow2_cancel e : pow2 (- e) * pow2 e == 1.
Proof. rewrite <- pow2_add. replace (- e + e)%Z with 0%Z by lia. reflexivity. Qed.

Lemma round_pos_proper a b : 0 < a -> a == b -> round_pos a == round_pos b.
Proof.
  intros Ha E. unfold round_pos, ulp_exp. rewrite (mag_proper a b Ha E).
  rewrite (rne_proper (a * pow2 (- Z.max (mag b - 53) (-1074)))
                      (b * pow2 (- Z.max (mag b - 53) (-1074)))) by now rewrite E.
  reflexivity.
Qed.

Lemma rne_nonneg t : 0 <= t -> (0 <= rne t)%Z.
Proof. intros H. rewrite <- (rne_int 0). now apply rne_mono. Qed.

Lemma round_pos_nonneg a : 0 < a -> 0 <= round_pos a.
Proof.
  intros Ha. unfold round_pos. apply Qmult_le_0_compat.
  - change 0 with (inject_Z 0). rewrite <- Zle_Qle. apply rne_nonneg.
    apply Qmult_le_0_compat; [lra | apply Qlt_le_weak, pow2_pos].
  - apply Qlt_le_weak, pow2_pos.
Qed.

(** A value below 2^k rounds to at most 2^k, when 2^k is on the grid. *)
Lemma round_pos_le_pow2 a k :
  0 < a -> a <= pow2 k -> (ulp_exp a <= k)%Z -> round_pos a <= pow2 k.
Proof.
  intros Ha H Hk. unfold round_pos. set (e := ulp_exp a) in *.
  assert (T : a * pow2 (- e) <= inject_Z (2 ^ (k - e))).
  { rewrite pow2_Z by lia. replace (k - e)%Z with (k + - e)%Z by lia.
    rewrite pow2_add. apply Qmult_le_compat_r; [exact H | apply Qlt_le_weak, pow2_pos]. }
  apply rne_mono in T. rewrite rne_int in T.
  apply Qle_trans with (inject_Z (2 ^ (k - e)) * pow2 e).
  - apply Qmult_le_compat_r; [now rewrite <- Zle_Qle | apply Qlt_le_weak, pow2_pos].
  - rewrite pow2_Z by lia. rewrite <- pow2_add.
    replace (k - e + e)%Z with k by lia. apply Qle_refl.
Qed.

(** A value of at least 2^k rounds to at least 2^k, likewise. *)
Lemma round_pos_ge_pow2 a k :
  0 < a -> pow2 k <= a -> (ulp_exp a <= k)%Z -> pow2 k <= round_pos a.
Proof.
  intros Ha H Hk. unfold round_pos. set (e := ulp_exp a) in *.
  assert (T : inject_Z (2 ^ (k - e)) <= a * pow2 (- e)).
  { rewrite pow2_Z by lia. replace (k - e)%Z with (k + - e)%Z by lia.
    rewrite pow2_add. apply Qmult_le_compat_r; [exact H | apply Qlt_le_weak, pow2_pos]. }
  apply rne_mono in T. rewrite rne_int in T.
  apply Qle_trans with (inject_Z (2 ^ (k - e)) * pow2 e).
  - rewrite pow2_Z by lia. rewrite <- pow2_add.
    replace (k - e + e)%Z with k by lia. apply Qle_refl.
  - apply Qmult_le_compat_r; [now rewrite <- Zle_Qle | apply Qlt_le_weak, pow2_pos].
Qed.

Lemma round_pos_mono a b : 0 < a -> a <= b -> round_pos a <= round_pos b.
Proof.
  intros Ha H. assert (Hb : 0 < b) by lra.
  pose proof (mag_mono a b Ha H) as M.
  destruct (mag_spec a Ha) as [La Ua]. destruct (mag_spec b Hb) as [Lb Ub].
  destruct (Z.eq_dec (ulp_exp a) (ulp_exp b)) as [E | N].
  - unfold round_pos. rewrite E.
    apply Qmult_le_compat_r; [| apply Qlt_le_weak, pow2_pos].
    rewrite <- Zle_Qle. apply rne_mono.
    apply Qmult_le_compat_r; [exact H | apply Qlt_le_weak, pow2_pos].
  - assert (Hlt : (mag a < mag b)%Z) by (unfold ulp_exp in N; lia).
    assert (Eb : ulp_exp b = (mag b - 53)%Z) by (unfold ulp_exp in *; lia).
    apply Qle_trans with (pow2 (Z.max (mag a) (ulp_exp a))).
    + apply round_pos_le_pow2; [exact Ha | | lia].
      apply Qle_trans with (pow2 (mag a)); [lra | apply pow2_le; lia].
    + apply Qle_trans with (pow2 (mag b - 1)).
      * apply pow2_le. unfold ulp_exp in *. lia.
      * apply round_pos_ge_pow2; [exact Hb | exact Lb | lia].
Qed.

Lemma round_pos_exact a (w : Z) :
  a * pow2 (- ulp_exp a) == inject_Z w -> round_pos a == a.
Proof.
  intros H. unfold round_pos. rewrite (rne_proper _ _ H), rne_int, <- H.
  rewrite <- Qmult_assoc, pow2_cancel. ring.
Qed.

Lemma round_pos_int z :
  (0 < z <= 2 ^ 53)%Z -> round_pos (inject_Z z) == inject_Z z.
Proof.
  intros Hz. set (a := inject_Z z).
  assert (Ha : 0 < a) by (unfold a; change 0 with (inject_Z 0); rewrite <- Zlt_Qlt; lia).
  destruct (mag_spec a Ha) as [La Ua].
  assert (A53 : a <= pow2 53).
  { unfold a. rewrite <- pow2_Z by lia. rewrite <- Zle_Qle. lia. }
  assert (Hm : (mag a <= 54)%Z).
  { destruct (Z_le_gt_dec (mag a) 54) as [ok | bad]; [exact ok | exfalso].
    assert (pow2 54 <= pow2 (mag a - 1)) by (apply pow2_le; lia).
    assert (pow2 53 < pow2 54) by (apply pow2_lt; lia). lra. }
  destruct (Z_le_gt_dec (ulp_exp a) 0) as [Hneg | Hpos].
  - apply (round_pos_exact a (z * 2 ^ (- ulp_exp a))).
    rewrite inject_Z_mult, pow2_Z by lia. reflexivity.
  - assert (E1 : ulp_exp a = 1%Z) by (unfold ulp_exp in *; lia).
    assert (M54 : mag a = 54%Z) by (unfold ulp_exp in *; lia).
    rewrite M54 in La. replace (54 - 1)%Z with 53%Z in La by lia.
    assert (Ez : z = (2 ^ 53)%Z).
    { rewrite <- pow2_Z in La by lia. unfold a in La. rewrite <- Zle_Qle in La. lia. }
    apply (round_pos_exact a (2 ^ 52)). rewrite E1. unfold a. rewrite Ez. reflexivity.
Qed.

Lemma round_pos_near a :
  0 < a -> Qabs (round_pos a - a) <= (a + 1) * (1 # 1000000000).
Proof.
  intros Ha. unfold round_pos. set (e := ulp_exp a). set (t := a * pow2 (- e)).
  pose proof (rne_near t) as N. apply Qabs_Qle_condition in N.
  pose proof (pow2_pos e) as Pe.
  assert (Et : a == t * pow2 e).
  { unfold t. rewrite <- Qmult_assoc, pow2_cancel. ring. }
  assert (Bound : pow2 e <= a * pow2 (-52) + pow2 (-1074)).
  { destruct (mag_spec a Ha) as [La _]. pose proof (pow2_pos (-1074)).
    pose proof (pow2_pos (-52)).
    unfold e, ulp_exp. destruct (Z.max_spec (mag a - 53) (-1074)) as [[_ ->] | [_ ->]].
    - assert (0 <= a * pow2 (-52)) by (apply Qmult_le_0_compat; lra). lra.
    - replace (mag a - 53)%Z with (mag a - 1 + -52)%Z by lia. rewrite pow2_add.
      assert (pow2 (mag a - 1) * pow2 (-52) <= a * pow2 (-52))
        by (apply Qmult_le_compat_r; lra).
      lra. }
  assert (S52 : pow2 (-52) <= 1 # 1000000000) by (vm_compute; discriminate).
  assert (S1074 : pow2 (-1074) <= pow2 (-52)) by (apply pow2_le; lia).
  assert (D : inject_Z (rne t) * pow2 e - a == (inject_Z (rne t) - t) * pow2 e).
  { rewrite Et at 1. ring. }
  rewrite D. apply Qabs_Qle_condition.
  assert (U1 : (inject_Z (rne t) - t) * pow2 e <= (1 # 2) * pow2 e)
    by (apply Qmult_le_compat_r; lra).
  assert (L1 : - (1 # 2) * pow2 e <= (inject_Z (rne t) - t) * pow2 e)
    by (apply Qmult_le_compat_r; lra).
  assert (X : a * pow2 (-52) <= a * (1 # 1000000000))
    by (apply Qmult_le_l; lra).
  split; lra.
Qed.

Lemma round64_pos x : 0 < x -> round64 x = round_pos x.
Proof. intros H. unfold round64. destruct (Qlt_le_dec 0 x); [reflexivity | lra]. Qed.

Lemma round64_neg x : x < 0 -> round64 x = - round_pos (- x).
Proof.
  intros H. unfold round64. destruct (Qlt_le_dec 0 x); [lra |].
  destruct (Qlt_le_dec x 0); [reflexivity | lra].
Qed.

Lemma round64_zero x : x == 0 -> round64 x = 0.
Proof.
  intros H. unfold round64. destruct (Qlt_le_dec 0 x); [lra |].
  destruct (Qlt_le_dec x 0); [lra | reflexivity].
Qed.

Lemma round64_proper x y : x == y -> round64 x == round64 y.
Proof.
  intros E. destruct (Q_dec 0 x) as [[H | H] | H].
  - rewrite (round64_pos x H), (round64_pos y) by lra. now apply round_pos_proper.
  - rewrite (round64_neg x H), (round64_neg y) by lra.
    apply Qopp_comp. apply round_pos_proper; [lra | now rewrite E].
  - rewrite (round64_zero x), (round64_zero y) by lra. reflexivity.
Qed.

Lemma round64_mono x y : x <= y -> round64 x <= round64 y.
Proof.
  intros H.
  destruct (Q_dec 0 x) as [[Hx | Hx] | Hx]; destruct (Q_dec 0 y) as [[Hy | Hy] | Hy];
    try lra.
  - rewrite (round64_pos x Hx), (round64_pos y Hy). now apply round_pos_mono.
  - rewrite (round64_neg x Hx), (round64_pos y Hy).
    pose proof (round_pos_nonneg (- x)). pose proof (round_pos_nonneg y). lra.
  - rewrite (round64_neg x Hx), (round64_neg y Hy).
    assert (round_pos (- y) <= round_pos (- x)) by (apply round_pos_mono; lra). lra.
  - rewrite (round64_neg x Hx), (round64_zero y) by lra.
    pose proof (round_pos_nonneg (- x)). lra.
  - rewrite (round64_zero x), (round64_pos y Hy) by lra.
    pose proof (round_pos_nonneg y). lra.
  - rewrite (round64_zero x), (round64_zero y) by lra. apply Qle_refl.
Qed.

Lemma round64_int z : (Z.abs z <= 2 ^ 53)%Z -> round64 (inject_Z z) == inject_Z z.
Proof.
  intros Hz. destruct (Z.lt_trichotomy z 0) as [H | [H | H]].
  - rewrite round64_neg by (change 0 with (inject_Z 0); rewrite <- Zlt_Qlt; lia).
    rewrite <- inject_Z_opp. rewrite round_pos_int by lia.
    rewrite inject_Z_opp. ring.
  - subst z. reflexivity.
  - rewrite round64_pos by (change 0 with (inject_Z 0); rewrite <- Zlt_Qlt; lia).
    apply round_pos_int. lia.
Qed.

Lemma round64_near x : Qabs (round64 x - x) <= (Qabs x + 1) * (1 # 1000000000).
Proof.
  destruct (Q_dec 0 x) as [[H | H] | H].
  - rewrite (round64_pos x H), (Qabs_pos x) by lra. now apply round_pos_near.
  - rewrite (round64_neg x H), (Qabs_neg x) by lra.
    assert (E : - round_pos (- x) - x == - (round_pos (- x) - - x)) by ring.
    rewrite E, Qabs_opp. apply round_pos_near. lra.
  - rewrite (round64_zero x) by lra.
    assert (E : 0 - x == 0) by lra. rewrite E. cbn [Qabs Z.abs Qnum Qden].
    apply Qmult_le_0_compat; [| discriminate].
    pose proof (Qabs_nonneg x). lra.
Qed.

Lemma binary64_fmax_large : inject_Z (2 ^ 53) <= inject_Z (2 ^ 1024 - 2 ^ 971).
Proof. rewrite <- Zle_Qle. vm_compute. discriminate. Qed.

Definition binary64 : float_format :=
  {| rnd := round64;
     fmax := inject_Z (2 ^ 1024 - 2 ^ 971);
     rnd_proper := round64_proper;
     rnd_mono := round64_mono;
     rnd_int := round64_int;
     rnd_near := round64_near;
     fmax_large := binary64_fmax_large |}.

Example binary64_tenth :
  Qred (rnd binary64 (1 # 10)) = 3602879701896397 # 36028797018963968 /\
  Qred (rnd binary64 (inject_Z (2 ^ 53 + 1))) = inject_Z (2 ^ 53).
Proof. split; vm_compute; reflexivity. Qed.

End JSNum.

(** ** JavaScript values reachable from parsed JSON

    A plain object carries its own enumerable properties in [Object.entries]
    order and its prototype: [None] is the initial [Object.prototype],
    [Some p] a prototype installed through the [__proto__] setter.  The
    built-in prototype objects and functions are opaque; a property read on
    one of them is answered by the runtime (the parameter [host_get]). *)

Module JSValue.
Import JSNum.

Inductive builtin_proto :=
| ObjectPrototype | ArrayPrototype | StringPrototype
| NumberPrototype | BooleanPrototype | FunctionPrototype.

Local Unset Elimination Schemes.

Inductive value :=
| VUndefined
| VNull
| VBool (b : bool)
| VNum (n : num)
| VStr (s : string)
| VArr (xs : list value)
| VObj (proto : option value) (entries : list (string * value))
| VProto (p : builtin_proto)
| VFun (name : string).

Local Set Elimination Schemes.

(** Induction over nested values: the hypotheses for arrays and objects
    cover every element, every property value and the prototype. *)
Section ValueInd.
Variable P : value -> Prop.
Hypothesis HUndefined : P VUndefined.
Hypothesis HNull : P VNull.
Hypothesis HBool : forall b, P (VBool b).
Hypothesis HNum : forall n, P (VNum n).
Hypothesis HStr : forall s, P (VStr s).
Hypothesis HArr : forall xs, Forall P xs -> P (VArr xs).
Hypothesis HObj : forall proto es,
    (forall p, proto = Some p -> P p) ->
    Forall (fun kv => P (snd kv)) es ->
    P (VObj proto es).
Hypothesis HProto : forall p, P (VProto p).
Hypothesis HFun : forall name, P (VFun name).

Fixpoint value_ind (v : value) : P v :=
  match v with
  | VUndefined => HUndefined
  | VNull => HNull
  | VBool b => HBool b
  | VNum n => HNum n
  | VStr s => HStr s
  | VArr xs =>
      HArr xs ((fix all (l : list value) : Forall P l :=
                  match l with
                  | [] => @List.Forall_nil _ P
                  | x :: r => @List.Forall_cons _ P x r (value_ind x) (all r)
                  end) xs)
  | VObj proto es =>
      HObj proto es
        (match proto as o return forall p, o = Some p -> P p with
         | Some q => fun p E =>
             match E in _ = o return match o with Some p' => P p' | None => True end with
             | eq_refl => value_ind q
             end
         | None => fun p E =>
             match E in _ = o return match o with Some p' => P p' | None => True end with
             | eq_refl => I
             end
         end)
        ((fix all (l : list (string * value)) : Forall (fun kv => P (snd kv)) l :=
            match l with
            | [] => @List.Forall_nil _ _
            | kv :: r => @List.Forall_cons _ _ kv r (value_ind (snd kv)) (all r)
            end) es)
  | VProto p => HProto p
  | VFun name => HFun name
  end.
End ValueInd.

(** An object literal or a [JSON.parse] result. *)
Definition obj (entries : list (string * value)) : value := VObj None entries.

Fixpoint assoc (es : list (string * value)) (key : string) : option value :=
  match es with
  | [] => None
  | (k, v) :: rest => if String.eqb k key then Some v else assoc rest key
  end.

(** Canonical array indices: decimal numerals without a leading zero. *)
Definition digit (c : ascii) : option nat :=
  let n := nat_of_ascii c in
  if (48 <=? n)%nat && (n <=? 57)%nat then Some (n - 48)%nat else None.

Fixpoint digits (s : string) (acc : nat) : option nat :=
  match s with
  | EmptyString => Some acc
  | String c r =>
      match digit c with
      | Some d => digits r (10 * acc + d)%nat
      | None => None
      end
  end.

Definition array_index (key : string) : option nat :=
  match key with
  | EmptyString => None
  | String "0"%char EmptyString => Some 0%nat
  | String "0"%char _ => None
  | _ => digits key 0
  end.

Fixpoint string_get (s : string) (i : nat) : option ascii :=
  match s, i with
  | EmptyString, _ => None
  | String c _, O => Some c
  | String _ r, S j => string_get r j
  end.

(** The own property [key] of [v], if it has one. *)
Definition own (v : value) (key : string) : option value :=
  match v with
  | VObj _ es => assoc es key
  | VArr xs =>
      if String.eqb key "length" then Some (VNum (of_nat (List.length xs)))
      else match array_index key with
           | Some i => nth_error xs i
           | None => None
           end
  | VStr s =>
      if String.eqb key "length" then Some (VNum (of_nat (String.length s)))
      else match array_index key with
           | Some i => option_map (fun c => VStr (String c EmptyString)) (string_get s i)
           | None => None
           end
  | _ => None
  end.

Definition proto_of (v : value) : value :=
  match v with
  | VObj None _ => VProto ObjectPrototype
  | VObj (Some p) _ => p
  | VArr _ => VProto ArrayPrototype
  | VStr _ => VProto StringPrototype
  | VNum _ => VProto NumberPrototype
  | VBool _ => VProto BooleanPrototype
  | VFun _ => VProto FunctionPrototype
  | VProto ObjectPrototype => VNull
  | VProto _ => VProto ObjectPrototype
  | VUndefined | VNull => VUndefined
  end.

(** Where a property look-up ends: at an own data property of the value or
    of an object on its prototype chain, at a built-in prototype, or at the
    end of a chain cut by a null prototype. *)
Inductive found := Data (x : value) | Builtin (b : value) | Absent.

Fixpoint lookup (v : value) (key : string) {struct v} : found :=
  match own v key with
  | Some x => Data x
  | None =>
      match v with
      | VObj (Some p) _ => lookup p key
      | VObj None _ => Builtin (VProto ObjectPrototype)
      | VArr _ => Builtin (VProto ArrayPrototype)
      | VStr _ => Builtin (VProto StringPrototype)
      | VNum _ => Builtin (VProto NumberPrototype)
      | VBool _ => Builtin (VProto BooleanPrototype)
      | VProto _ | VFun _ => Builtin v
      | VUndefined | VNull => Absent
      end
  end.

Definition truthy (v : value) : bool :=
  match v with
  | VUndefined | VNull => false
  | VBool b => b
  | VNum n => num_truthy n
  | VStr s => negb (String.eqb s "")
  | VArr _ | VObj _ _ | VProto _ | VFun _ => true
  end.

(** [typeof v === 'object'] *)
Definition typeof_object (v : value) : bool :=
  match v with
  | VNull | VArr _ | VObj _ _ => true
  | VProto FunctionPrototype => false
  | VProto _ => true
  | _ => false
  end.

Definition Array_isArray (v : value) : bool :=
  match v with
  | VArr _ | VProto ArrayPrototype => true
  | _ => false
  end.

Definition is_null (v : value) : bool :=
  match v with VNull => true | _ => false end.

(** [typeof v === 'object' && v !== null && !Array.isArray(v)] *)
Definition is_plain_object (v : value) : bool :=
  typeof_object v && negb (is_null v) && negb (Array_isArray v).

(** [Object.entries(v)] of a plain object. *)
Definition Object_entries (v : value) : list (string * value) :=
  match v with
  | VObj _ es => es
  | _ => []
  end.

Section Get.
(** [host_get b key]: what reading [key] on the built-in object [b]
    yields, for a key other than [__proto__]. *)
Variable host_get : value -> string -> value.

(** [v[key]] for a value that is neither null nor undefined.  The
    [__proto__] accessor of [Object.prototype] answers with the
    prototype of the value the read started from. *)
Definition get (v : value) (key : string) : value :=
  match lookup v key with
  | Data x => x
  | Builtin b => if String.eqb key "__proto__" then proto_of v else host_get b key
  | Absent => VUndefined
  end.

(** [v?.[key]] *)
Definition get_opt (v : value) (key : string) : value :=
  match v with
  | VUndefined | VNull => VUndefined
  | _ => get v key
  end.
End Get.

(** A runtime whose built-in objects carry no properties: enough wherever
    no look-up reaches a built-in object. *)
Definition bare_host (b : value) (key : string) : value := VUndefined.

End JSValue.

(** ** scripts/generate_i18n_report.js *)

Module Report.
Import JSNum JSValue.

(** [prefix ? `${prefix}.${key}` : key] *)
Definition fullKey (prefix key : string) : string :=
  if String.eqb prefix "" then key else prefix ++ "." ++ key.

Fixpoint deepKeys (obj : value) (prefix : string) {struct obj} : list string :=
  match obj with
  | VObj _ es =>
      (fix each (es : list (string * value)) : list string :=
         match es with
         | [] => []
         | (key, v) :: rest =>
             (if is_plain_object v
              then deepKeys v (fullKey prefix key)
              else [fullKey prefix key]) ++ each rest
         end) es
  | _ => []
  end.

(** [path.split('.')] *)
Fixpoint split_dot (path : string) : list string :=
  match path with
  | EmptyString => [EmptyString]
  | String c r =>
      if Ascii.eqb c "."%char then EmptyString :: split_dot r
      else match split_dot r with
           | [] => [String c EmptyString]
           | h :: t => String c h :: t
           end
  end.

(** The locale report of [main] for one language. *)
Record language_report := {
  keys_count : num;
  keys_translated : num;
  keys_missing : num;
  keys_auto_translated : num;
  coverage_percentage : num;
  missing_keys : list string
}.

(** [v === true] *)
Definition is_true (v : value) : bool :=
  match v with VBool true => true | _ => false end.

Section Script.
Variable F : float_format.
Variable host_get : value -> string -> value.

Definition getValueByPath (obj : value) (path : string) : value :=
  fold_left (fun current key => get_opt host_get current key) (split_dot path) obj.

Fixpoint countAutoTranslated (obj : value) {struct obj} : nat :=
  match obj with
  | VObj _ es =>
      (fix each (es : list (string * value)) : nat :=
         match es with
         | [] => 0%nat
         | (key, v) :: rest =>
             ((if is_plain_object v
               then if is_true (get host_get v "_autoTranslated")
                    then 1
                    else countAutoTranslated v
               else 0) + each rest)%nat
         end) es
  | _ => 0%nat
  end.

Definition missingIn (enKeys : list string) (locData : value) : list string :=
  List.filter (fun key => negb (truthy (getValueByPath locData key))) enKeys.

Definition coverage (locKeys enKeys : list string) : num :=
  js_mul F (js_div F (of_nat (List.length locKeys)) (of_nat (List.length enKeys)))
           (lit F 100).

Definition report_language (enData locData : value) : language_report :=
  let enKeys := deepKeys enData "" in
  let locKeys := deepKeys locData "" in
  let missing := missingIn enKeys locData in
  let cov := coverage locKeys enKeys in
  {| keys_count := of_nat (List.length locKeys);
     keys_translated :=
       js_sub F (of_nat (List.length locKeys)) (of_nat (List.length missing));
     keys_missing := of_nat (List.length missing);
     keys_auto_translated := of_nat (countAutoTranslated locData);
     coverage_percentage :=
       js_div F (Math_round (js_mul F cov (lit F 100))) (lit F 100);
     missing_keys := missing |}.
End Script.

(** A path of own keys of [v] that ends at a leaf: a value [deepKeys] does
    not descend into. *)
Inductive leaf_at : value -> list string -> Prop :=
| leaf_here v key x :
    In (key, x) (Object_entries v) -> is_plain_object x = false ->
    leaf_at v [key]
| leaf_below v key x path :
    In (key, x) (Object_entries v) -> is_plain_object x = true ->
    leaf_at x path -> leaf_at v (key :: path).

(** The dotted key [deepKeys] builds along a path. *)
Definition dotted (prefix : string) (path : list string) : string :=
  fold_left fullKey path prefix.

Example deepKeys_example :
  deepKeys (obj [("nav", obj [("home", VStr "Home"); ("team", VStr "Team")]);
                 ("title", VStr "ExoAI")]) ""
  = ["nav.home"; "nav.team"; "title"].
Proof. reflexivity. Qed.

Lemma deepKeys_entries proto es prefix k :
  In k (deepKeys (VObj proto es) prefix) <->
  exists key x, In (key, x) es /\
    ((is_plain_object x = false /\ k = fullKey prefix key) \/
     (is_plain_object x = true /\ In k (deepKeys x (fullKey prefix key)))).
Proof.
  cbn [deepKeys].
  induction es as [| [key x] rest IH].
  - split; [intros [] | intros (? & ? & [] & _)].
  - rewrite in_app_iff, IH. clear IH. split.
    + intros [H | (key' & x' & Hin & H)].
      * exists key, x. split; [left; reflexivity |].
        destruct (is_plain_object x); [right | left]; split; try reflexivity.
        -- exact H.
        -- destruct H as [H | []]. now subst.
      * exists key', x'. split; [right; exact Hin | exact H].
    + intros (key' & x' & [E | Hin] & H).
      * inversion E; subst. left.
        destruct H as [[Hp ->] | [Hp H]]; rewrite Hp; [left; reflexivity | exact H].
      * right. exists key', x'. split; assumption.
Qed.

(** [deepKeys] lists exactly the dotted keys of the paths to leaves. *)
Lemma deepKeys_spec v : forall prefix k,
  In k (deepKeys v prefix) <-> exists path, leaf_at v path /\ k = dotted prefix path.
Proof.
  induction v using value_ind; intros prefix k;
    try (split; [intros [] | intros (path & Hleaf & _); inversion Hleaf; subst;
                              match goal with Hin : In _ (Object_entries _) |- _ => destruct Hin end]).
  rewrite deepKeys_entries. split.
  - intros (key & x & Hin & [[Hp ->] | [Hp Hk]]).
    + exists [key]. split; [| reflexivity]. eapply leaf_here; eauto.
    + rewrite List.Forall_forall in H0. apply (H0 _ Hin) in Hk. cbn in Hk.
      destruct Hk as (path & Hl & ->).
      exists (key :: path). split; [| reflexivity]. eapply leaf_below; eauto.
  - intros (path & Hl & ->). inversion Hl; subst; cbn in *.
    + exists key, x. split; [assumption | left; split; [assumption | reflexivity]].
    + exists key, x. split; [assumption | right; split; [assumption |]].
      rewrite List.Forall_forall in H0. apply (H0 _ H1). cbn.
      exists path0. split; [assumption | reflexivity].
Qed.

(** The values [!v] holds for. *)
Definition falsy (v : value) : Prop :=
  v = VUndefined \/ v = VNull \/ v = VBool false \/ v = VStr "" \/
  v = VNum NaN \/ exists q, v = VNum (Fin q) /\ (q == 0)%Q.

Lemma truthy_false_iff v : truthy v = false <-> falsy v.
Proof.
  unfold falsy. destruct v as [| | b | n | s | xs | proto es | p | name]; cbn.
  - intuition.
  - intuition.
  - split.
    + intros ->. intuition.
    + intros [H | [H | [H | [H | [H | (q & H & _)]]]]]; congruence.
  - split.
    + destruct n as [| sg | q]; cbn; intros H; try discriminate.
      * intuition.
      * apply negb_false_iff, Qeq_bool_iff in H. do 5 right. now exists q.
    + intros [H | [H | [H | [H | [H | (q & H & Hq)]]]]]; try discriminate.
      * now inversion H.
      * inversion H; subst. cbn. apply negb_false_iff, Qeq_bool_iff, Hq.
  - split.
    + intros H. apply negb_false_iff, String.eqb_eq in H. subst. intuition.
    + intros [H | [H | [H | [H | [H | (q & H & _)]]]]]; try discriminate.
      now inversion H.
  - split; [discriminate |].
    intros [H | [H | [H | [H | [H | (q & H & _)]]]]]; discriminate.
  - split; [discriminate |].
    intros [H | [H | [H | [H | [H | (q & H & _)]]]]]; discriminate.
  - split; [discriminate |].
    intros [H | [H | [H | [H | [H | (q & H & _)]]]]]; discriminate.
  - split; [discriminate |].
    intros [H | [H | [H | [H | [H | (q & H & _)]]]]]; discriminate.
Qed.

(** C1, as the code has it: a key is listed in [missing_keys] exactly when it
    is the dotted key of a path to a leaf of the English object and looking
    it up in the locale object yields a falsy value: undefined, null, false,
    the empty string, NaN or zero. *)
Theorem missing_keys_spec (F : float_format) (host_get : value -> string -> value)
    (en loc : list (string * value)) (k : string) :
  In k (missing_keys (report_language F host_get (obj en) (obj loc))) <->
  (exists path, leaf_at (obj en) path /\ k = dotted "" path) /\
  falsy (getValueByPath host_get (obj loc) k).
Proof.
  cbn [missing_keys report_language]. unfold missingIn.
  rewrite filter_In, deepKeys_spec, negb_true_iff, truthy_false_iff.
  reflexivity.
Qed.

(** C1, counterexample to "exactly when the look-up yields no value": the
    locale holds the empty string (or zero) under the key, the look-up yields
    that value, and the key is reported missing all the same. *)
Lemma missing_keys_reports_present_value :
  (forall host_get,
      getValueByPath host_get (obj [("title", VStr "")]) "title" = VStr "" /\
      getValueByPath host_get (obj [("count", VNum (Fin 0))]) "count" = VNum (Fin 0)) /\
  (forall F host_get,
      In "title" (missing_keys (report_language F host_get
                                  (obj [("title", VStr "ExoAI")])
                                  (obj [("title", VStr "")]))) /\
      In "count" (missing_keys (report_language F host_get
                                  (obj [("count", VNum (Fin 5))])
                                  (obj [("count", VNum (Fin 0))])))).
Proof.
  split.
  - intros host_get. split; reflexivity.
  - intros F host_get. split; cbn; left; reflexivity.
Qed.

(** The percentage computed from two key counts, step by step. *)
Lemma coverage_percentage_counts (F : float_format) (a e : nat) :
  (0 < e)%nat -> (a <= e)%nat ->
  let t := (inject_Z (Z.of_nat a) / inject_Z (Z.of_nat e))%Q in
  exists (q : Q) (z : Z),
    js_div F (Math_round (js_mul F (js_mul F (js_div F (of_nat a) (of_nat e)) (lit F 100))
                                   (lit F 100)))
           (lit F 100) = Fin q /\
    (0 <= q <= 100)%Q /\
    (q == rnd F (inject_Z z / 100))%Q /\
    (Qabs (inject_Z z / 100 - 100 * t) <= (1 # 200) + (1 # 1000000))%Q.
Proof.
  intros He Hae t.
  assert (HE : (0 < inject_Z (Z.of_nat e))%Q).
  { change 0%Q with (inject_Z 0). rewrite <- Zlt_Qlt. lia. }
  assert (HA : (0 <= inject_Z (Z.of_nat a) <= inject_Z (Z.of_nat e))%Q).
  { change 0%Q with (inject_Z 0). rewrite <- !Zle_Qle. lia. }
  assert (Ht : (0 <= t <= 1)%Q).
  { unfold t. split.
    - apply Qle_shift_div_l; [exact HE | lra].
    - apply Qle_shift_div_r; [exact HE | lra]. }
  destruct (lit_100 F) as [L100 E100]. rewrite L100.
  unfold of_nat. cbn [js_div].
  assert (Z0 : Qeq_bool (inject_Z (Z.of_nat e)) 0 = false).
  { destruct (Qeq_bool (inject_Z (Z.of_nat e)) 0) eqn:E; [| reflexivity].
    apply Qeq_bool_iff in E. lra. }
  rewrite Z0. fold t.
  destruct (finish_between F t 0 1) as [E1 B1]; try (simpl; lia).
  { exact Ht. }
  rewrite E1. cbn [js_mul]. set (r1 := rnd F t) in *.
  assert (X2 : (rnd F (r1 * rnd F 100) == rnd F (r1 * 100))%Q) by now rewrite E100.
  destruct (finish_between F (r1 * rnd F 100) 0 100) as [E2 B2]; try (simpl; lia).
  { rewrite E100. inj_consts. lra. }
  rewrite E2. cbn [js_mul]. rewrite X2 in B2.
  set (r2 := rnd F (r1 * rnd F 100)) in *.
  assert (X3 : (rnd F (r2 * rnd F 100) == rnd F (r2 * 100))%Q) by now rewrite E100.
  destruct (finish_between F (r2 * rnd F 100) 0 10000) as [E3 B3]; try (simpl; lia).
  { rewrite E100. inj_consts. lra. }
  rewrite E3. cbn [Math_round js_div].
  set (r3 := rnd F (r2 * rnd F 100)) in *.
  set (z := Qfloor (r3 + (1 # 2))).
  assert (Z100 : Qeq_bool (rnd F 100) 0 = false).
  { destruct (Qeq_bool (rnd F 100) 0) eqn:E; [| reflexivity].
    apply Qeq_bool_iff in E. rewrite E100 in E. discriminate. }
  rewrite Z100.
  pose proof (Qfloor_le (r3 + (1 # 2))) as Fl. fold z in Fl.
  pose proof (Qlt_floor (r3 + (1 # 2))) as Fu. fold z in Fu.
  assert (Fu' : (r3 + (1 # 2) < inject_Z z + 1)%Q).
  { rewrite inject_Z_plus in Fu. exact Fu. }
  clear Fu. inj_consts.
  assert (X4 : (rnd F (inject_Z z / rnd F 100) == rnd F (inject_Z z / 100))%Q)
    by now rewrite E100.
  assert (Bz : (0 <= inject_Z z <= 10000)%Q).
  { split.
    - change 0%Q with (inject_Z 0). rewrite <- Zle_Qle.
      change 0%Z with (Qfloor 0). apply Qfloor_resp_le. lra.
    - change 10000%Q with (inject_Z 10000). rewrite <- Zle_Qle.
      change 10000%Z with (Qfloor (10000 + (1 # 2))). apply Qfloor_resp_le. lra. }
  destruct (finish_between F (inject_Z z / rnd F 100) 0 100) as [E4 B4];
    try (simpl; lia).
  { rewrite E100. inj_consts. split.
    - apply Qle_shift_div_l; [reflexivity | lra].
    - apply Qle_shift_div_r; [reflexivity | lra]. }
  rewrite E4. exists (rnd F (inject_Z z / rnd F 100)), z.
  split; [reflexivity |]. split; [exact B4 |]. split; [exact X4 |].
  (* accuracy: follow the three roundings *)
  pose proof (rnd_close F t (proj1 Ht)) as C1. fold r1 in C1.
  assert (P2 : (0 <= r1 * 100)%Q) by lra.
  pose proof (rnd_close F (r1 * 100) P2) as C2. rewrite <- X2 in C2. fold r2 in C2.
  assert (P3 : (0 <= r2 * 100)%Q) by lra.
  pose proof (rnd_close F (r2 * 100) P3) as C3. rewrite <- X3 in C3. fold r3 in C3.
  apply Qabs_Qle_condition.
  assert (D : (inject_Z z / 100 == inject_Z z * (1 # 100))%Q) by (field).
  rewrite D. split; lra.
Qed.

(** C2, as the code has it: when the English object has a leaf key and the
    locale object has no more leaf keys than the English one, the coverage
    percentage is finite, lies between 0 and 100, is the Number nearest to
    z / 100 for an integer z, and z / 100 is within 0.005 (and the rounding
    error of the three float operations, below 10^-6) of the exact
    percentage 100 * locale keys / English keys. *)
Theorem coverage_percentage_spec (F : float_format)
    (host_get : value -> string -> value) (en loc : list (string * value)) :
  (0 < List.length (deepKeys (obj en) ""))%nat ->
  (List.length (deepKeys (obj loc) "") <= List.length (deepKeys (obj en) ""))%nat ->
  exists (q : Q) (z : Z),
    coverage_percentage (report_language F host_get (obj en) (obj loc)) = Fin q /\
    (0 <= q <= 100)%Q /\
    (q == rnd F (inject_Z z / 100))%Q /\
    (Qabs (inject_Z z / 100
           - 100 * (inject_Z (Z.of_nat (List.length (deepKeys (obj loc) "")))
                    / inject_Z (Z.of_nat (List.length (deepKeys (obj en) "")))))
     <= (1 # 200) + (1 # 1000000))%Q.
Proof.
  intros He Hle. cbn [coverage_percentage report_language]. unfold coverage.
  exact (coverage_percentage_counts F _ _ He Hle).
Qed.

(** C2, witness: English with two leaf keys, a locale with one of them. *)
Lemma coverage_percentage_spec_witness :
  exists (q : Q) (z : Z),
    coverage_percentage
      (report_language binary64 bare_host
         (obj [("a", VStr "x"); ("b", VStr "y")]) (obj [("a", VStr "z")])) = Fin q /\
    (0 <= q <= 100)%Q /\
    (q == rnd binary64 (inject_Z z / 100))%Q /\
    (Qabs (inject_Z z / 100 - 100 * (inject_Z 1 / inject_Z 2))
     <= (1 # 200) + (1 # 1000000))%Q.
Proof.
  apply (coverage_percentage_spec binary64 bare_host
           [("a", VStr "x"); ("b", VStr "y")] [("a", VStr "z")]); cbn; lia.
Defined.

(** C2, counterexample to "always between 0 and 100": a locale with two leaf
    keys against an English object with one has a coverage above 100, and an
    English object that is not empty but has no leaf key has coverage NaN. *)
Lemma coverage_percentage_out_of_range :
  (forall F host_get,
      js_le (coverage_percentage
               (report_language F host_get
                  (obj [("a", VStr "x")]) (obj [("a", VStr "x"); ("b", VStr "y")])))
            (lit F 100) = false) /\
  (forall F host_get,
      coverage_percentage
        (report_language F host_get (obj [("nav", obj [])]) (obj [])) = NaN).
Proof.
  split; intros F host_get; [| reflexivity].
  cbn [coverage_percentage report_language]. unfold coverage. cbn [deepKeys is_plain_object
    typeof_object is_null Array_isArray obj andb negb app List.length of_nat js_div].
  destruct (lit_100 F) as [L100 E100]. rewrite L100.
  change (Qeq_bool (inject_Z (Z.of_nat 1)) 0) with false. cbn iota.
  destruct (finish_exact F (inject_Z (Z.of_nat 2) / inject_Z (Z.of_nat 1)) 2) as [E1 R1];
    [simpl; lia | reflexivity |].
  rewrite E1. cbn [js_mul].
  destruct (finish_exact F (rnd F (inject_Z (Z.of_nat 2) / inject_Z (Z.of_nat 1))
                            * rnd F 100) 200) as [E2 R2];
    [simpl; lia | rewrite R1, E100; reflexivity |].
  rewrite E2. cbn [js_mul].
  match type of E2 with _ = Fin ?r => set (r2 := r) in * end.
  destruct (finish_exact F (r2 * rnd F 100) 20000) as [E3 R3];
    [simpl; lia | rewrite R2, E100; reflexivity |].
  rewrite E3. cbn [Math_round js_div].
  match type of E3 with _ = Fin ?r => set (r3 := r) in * end.
  assert (Z100 : Qeq_bool (rnd F 100) 0 = false).
  { destruct (Qeq_bool (rnd F 100) 0) eqn:E; [| reflexivity].
    apply Qeq_bool_iff in E. rewrite E100 in E. discriminate. }
  rewrite Z100.
  assert (Zr : Qfloor (r3 + (1 # 2)) = 20000%Z) by (rewrite R3; reflexivity).
  rewrite Zr.
  destruct (finish_exact F (inject_Z 20000 / rnd F 100) 200) as [E4 R4];
    [simpl; lia | rewrite E100; reflexivity |].
  rewrite E4. cbn [js_le].
  destruct (Qle_bool _ _) eqn:E; [| reflexivity].
  apply Qle_bool_iff in E. rewrite R4, E100 in E. inj_consts. lra.
Qed.

End Report.

(** ** The auto-translation script: merging with the existing Arabic file *)

Module AutoTranslate.
Import JSNum JSValue.

(** Defining or overwriting an own data property. *)
Fixpoint set_own (es : list (string * value)) (key : string) (v : value)
  : list (string * value) :=
  match es with
  | [] => [(key, v)]
  | (k, x) :: rest =>
      if String.eqb k key then (k, v) :: rest else (k, x) :: set_own rest key v
  end.

(** The own enumerable properties an object spread copies. *)
Definition spread_source (v : value) : list (string * value) :=
  match v with
  | VObj _ es => es
  | VArr xs =>
      List.map (fun ix => (NilEmpty.string_of_uint (Nat.to_uint (fst ix)), snd ix))
               (List.combine (List.seq 0 (List.length xs)) xs)
  | VStr s =>
      List.map (fun ix => (NilEmpty.string_of_uint (Nat.to_uint (fst ix)),
                           VStr (String (snd ix) EmptyString)))
               (List.combine (List.seq 0 (String.length s)) (list_ascii_of_string s))
  | _ => []
  end.

(** [{ ...v }]: a fresh object with the initial prototype. *)
Definition spread (v : value) : value :=
  obj (fold_left (fun acc kv => set_own acc (fst kv) (snd kv)) (spread_source v) []).

(** Values of type Object. *)
Definition is_object (v : value) : bool :=
  match v with
  | VObj _ _ | VArr _ | VProto _ | VFun _ => true
  | _ => false
  end.

(** [result[key] = v] on an object built by this script.  An own property is
    overwritten; otherwise the prototype chain decides: under the initial
    [Object.prototype] the key [__proto__] is an accessor whose setter
    installs [v] as the prototype when [v] is an object or null and does
    nothing for any other value; every other key, and every key once the
    chain no longer reaches a built-in prototype, becomes an own property. *)
Definition assign (result : value) (key : string) (v : value) : value :=
  match result with
  | VObj proto es =>
      match assoc es key with
      | Some _ => VObj proto (set_own es key v)
      | None =>
          match lookup result key with
          | Builtin _ =>
              if String.eqb key "__proto__"
              then if is_object v || is_null v then VObj (Some v) es else result
              else VObj proto (set_own es key v)
          | _ => VObj proto (set_own es key v)
          end
      end
  | _ => result
  end.

Section Merge.
Variable host_get : value -> string -> value.

(** [mergeTranslations(existing, translated)]; [existing] is a plain object
    at every call. *)
Fixpoint mergeTranslations (existing translated : value) {struct existing} : value :=
  match existing with
  | VObj _ es =>
      (fix each (es : list (string * value)) (result : value) {struct es} : value :=
         match es with
         | [] => result
         | (key, v) :: rest =>
             each rest
               (if is_plain_object v
                then
                  if truthy (get host_get result key)
                     && typeof_object (get host_get result key)
                  then assign result key (mergeTranslations v (get host_get result key))
                  else assign result key v
                else assign result key v)
         end) es (spread translated)
  | _ => spread translated
  end.

End Merge.

(** The value reached from [v] by a path of own property keys. *)
Fixpoint at_path (v : value) (path : list string) : option value :=
  match path with
  | [] => Some v
  | key :: rest =>
      match own v key with
      | Some x => at_path x rest
      | None => None
      end
  end.

(** Property keys pairwise distinct, in every nested object. *)
Fixpoint distinct (keys : list string) : bool :=
  match keys with
  | [] => true
  | k :: rest => negb (existsb (String.eqb k) rest) && distinct rest
  end.

Fixpoint well_keyed (v : value) : bool :=
  match v with
  | VObj _ es =>
      distinct (List.map fst es)
      && (fix all (es : list (string * value)) : bool :=
            match es with
            | [] => true
            | (_, x) :: rest => well_keyed x && all rest
            end) es
  | VArr xs =>
      (fix all (xs : list value) : bool :=
         match xs with
         | [] => true
         | x :: rest => well_keyed x && all rest
         end) xs
  | _ => true
  end.

(** *** Preservation of the existing translations *)

Lemma assoc_set_own_eq es key v : assoc (set_own es key v) key = Some v.
Proof.
  induction es as [| [k x] rest IH]; cbn.
  - now rewrite String.eqb_refl.
  - destruct (String.eqb k key) eqn:E; cbn; rewrite E; [reflexivity | exact IH].
Qed.

Lemma assoc_set_own_ne es key v k :
  k <> key -> assoc (set_own es key v) k = assoc es k.
Proof.
  intros Hne. induction es as [| [k' x] rest IH]; cbn.
  - destruct (String.eqb key k) eqn:E; [| reflexivity].
    apply String.eqb_eq in E. congruence.
  - destruct (String.eqb k' key) eqn:E; cbn.
    + apply String.eqb_eq in E. subst k'.
      destruct (String.eqb key k) eqn:E2; [| reflexivity].
      apply String.eqb_eq in E2. congruence.
    + now rewrite IH.
Qed.

Lemma assoc_In es key x : assoc es key = Some x -> In (key, x) es.
Proof.
  induction es as [| [k v] rest IH]; cbn; [discriminate |].
  destruct (String.eqb k key) eqn:E.
  - apply String.eqb_eq in E. intros [= ->]. subst. now left.
  - intros H. right. now apply IH.
Qed.

(** An assignment yields an object again, leaves the other own properties
    alone, and for a key other than [__proto__] stores the value. *)
Lemma assign_own proto es key v :
  exists proto' es',
    assign (VObj proto es) key v = VObj proto' es' /\
    (forall k, k <> key -> assoc es' k = assoc es k) /\
    (key <> "__proto__" -> assoc es' key = Some v).
Proof.
  unfold assign.
  destruct (assoc es key) eqn:A.
  - exists proto, (set_own es key v). split; [reflexivity |]. split.
    + intros k Hk. now apply assoc_set_own_ne.
    + intros _. apply assoc_set_own_eq.
  - destruct (lookup (VObj proto es) key) eqn:L.
    1, 3: (exists proto, (set_own es key v); split; [reflexivity |]; split;
           [intros k Hk; now apply assoc_set_own_ne | intros _; apply assoc_set_own_eq]).
    destruct (String.eqb key "__proto__") eqn:E.
    + apply String.eqb_eq in E.
      destruct (is_object v || is_null v).
      * exists (Some v), es. split; [reflexivity |]. split; [reflexivity | congruence].
      * exists proto, es. split; [reflexivity |]. split; [reflexivity | congruence].
    + exists proto, (set_own es key v). split; [reflexivity |]. split.
      * intros k Hk. now apply assoc_set_own_ne.
      * intros _. apply assoc_set_own_eq.
Qed.

Section Preservation.
Variable host_get : value -> string -> value.

(** One round of the loop over [Object.entries(existing)]. *)
Definition merge_step (result : value) (kv : string * value) : value :=
  if is_plain_object (snd kv)
  then
    if truthy (get host_get result (fst kv))
       && typeof_object (get host_get result (fst kv))
    then assign result (fst kv)
           (mergeTranslations host_get (snd kv) (get host_get result (fst kv)))
    else assign result (fst kv) (snd kv)
  else assign result (fst kv) (snd kv).

Lemma mergeTranslations_fold proto es translated :
  mergeTranslations host_get (VObj proto es) translated
  = fold_left merge_step es (spread translated).
Proof.
  cbn [mergeTranslations]. generalize (spread translated).
  induction es as [| [key v] rest IH]; intros result; cbn [fold_left].
  - reflexivity.
  - rewrite IH. reflexivity.
Qed.

Lemma merge_step_own proto es key v :
  exists proto' es',
    merge_step (VObj proto es) (key, v) = VObj proto' es' /\
    (forall k, k <> key -> assoc es' k = assoc es k) /\
    (key <> "__proto__" ->
     assoc es' key = Some v \/
     (is_plain_object v = true /\
      exists cur, assoc es' key = Some (mergeTranslations host_get v cur))).
Proof.
  unfold merge_step. cbn [fst snd].
  destruct (is_plain_object v) eqn:P.
  - destruct (truthy _ && typeof_object _).
    + destruct (assign_own proto es key
                  (mergeTranslations host_get v (get host_get (VObj proto es) key)))
        as (p' & es' & E & Ho & Hk).
      exists p', es'. split; [exact E |]. split; [exact Ho |].
      intros Hne. right. split; [reflexivity |]. eexists. now apply Hk.
    + destruct (assign_own proto es key v) as (p' & es' & E & Ho & Hk).
      exists p', es'. split; [exact E |]. split; [exact Ho |].
      intros Hne. left. now apply Hk.
  - destruct (assign_own proto es key v) as (p' & es' & E & Ho & Hk).
    exists p', es'. split; [exact E |]. split; [exact Ho |].
    intros Hne. left. now apply Hk.
Qed.

(** Rounds for other keys do not touch the own property [key]. *)
Lemma fold_other_keys rest key : forall proto es,
  existsb (String.eqb key) (List.map fst rest) = false ->
  exists proto' es',
    fold_left merge_step rest (VObj proto es) = VObj proto' es' /\
    assoc es' key = assoc es key.
Proof.
  induction rest as [| [k v] rest IH]; intros proto es Hnot; cbn [fold_left].
  - now exists proto, es.
  - cbn in Hnot. apply orb_false_iff in Hnot. destruct Hnot as [Hk Hrest].
    destruct (merge_step_own proto es k v) as (p1 & es1 & E1 & Ho & _).
    rewrite E1. destruct (IH p1 es1 Hrest) as (p2 & es2 & E2 & A2).
    exists p2, es2. split; [exact E2 |]. rewrite A2. apply Ho.
    intros ->. rewrite String.eqb_refl in Hk. discriminate.
Qed.

(** After the loop, the own property [key] holds the existing value or the
    merge of the existing object with what was there. *)
Lemma fold_this_key entries key x : forall proto es,
  distinct (List.map fst entries) = true ->
  assoc entries key = Some x ->
  key <> "__proto__" ->
  exists proto' es',
    fold_left merge_step entries (VObj proto es) = VObj proto' es' /\
    (assoc es' key = Some x \/
     (is_plain_object x = true /\
      exists cur, assoc es' key = Some (mergeTranslations host_get x cur))).
Proof.
  induction entries as [| [k v] rest IH]; intros proto es Hd Ha Hne;
    [discriminate |].
  cbn in Hd, Ha. apply andb_true_iff in Hd. destruct Hd as [Hk Hd].
  apply negb_true_iff in Hk. cbn [fold_left].
  destruct (merge_step_own proto es k v) as (p1 & es1 & E1 & Ho & Hthis).
  rewrite E1. destruct (String.eqb k key) eqn:E.
  - apply String.eqb_eq in E. subst k. injection Ha as ->.
    destruct (fold_other_keys rest key p1 es1 Hk) as (p2 & es2 & E2 & A2).
    exists p2, es2. split; [exact E2 |]. rewrite A2. now apply Hthis.
  - apply (IH p1 es1 Hd Ha Hne).
Qed.

Lemma well_keyed_entry proto es key x :
  well_keyed (VObj proto es) = true -> In (key, x) es -> well_keyed x = true.
Proof.
  cbn [well_keyed]. intros H Hin. apply andb_true_iff in H. destruct H as [_ H].
  induction es as [| [k v] rest IH]; [destruct Hin |].
  apply andb_true_iff in H. destruct H as [Hv Hrest].
  destruct Hin as [[= -> ->] | Hin]; [exact Hv | now apply IH].
Qed.

Lemma merge_preserves_paths (existing : value) :
  well_keyed existing = true ->
  is_plain_object existing = true ->
  forall translated path s,
    ~ In "__proto__" path ->
    at_path existing path = Some (VStr s) ->
    at_path (mergeTranslations host_get existing translated) path = Some (VStr s).
Proof.
  induction existing as [| | b | n | s0 | xs IH | proto es IHp IH | p | name]
    using value_ind;
    intros Hwk Hplain translated path s Hnp Hat; try discriminate.
  - (* a plain object *)
    destruct path as [| key rest]; [discriminate |].
    cbn [at_path own] in Hat.
    destruct (assoc es key) as [x |] eqn:A; [| discriminate].
    rewrite mergeTranslations_fold. unfold spread, obj.
    match goal with |- context [fold_left merge_step es (VObj None ?r)] =>
      set (es0 := r) end.
    assert (Hd : distinct (List.map fst es) = true).
    { cbn [well_keyed] in Hwk. now apply andb_true_iff in Hwk. }
    assert (Hkey : key <> "__proto__") by (intros ->; apply Hnp; now left).
    destruct (fold_this_key es key x None es0 Hd A Hkey) as (p' & es' & E & Hres).
    rewrite E. cbn [at_path own].
    destruct Hres as [-> | (Hx & cur & ->)]; [exact Hat |].
    pose proof (assoc_In _ _ _ A) as Hin.
    rewrite List.Forall_forall in IH.
    apply (IH _ Hin); cbn [snd].
    + exact (well_keyed_entry _ _ _ _ Hwk Hin).
    + exact Hx.
    + intros C. apply Hnp. now right.
    + exact Hat.
  - (* a built-in prototype has no own properties *)
    destruct path; discriminate.
Qed.

End Preservation.

(** X1: every string the existing object holds at a path of own keys, none
    of them [__proto__], is held by the merged object at the same path. *)
Theorem mergeTranslations_preserves (host_get : value -> string -> value)
    (existing : list (string * value)) (translated : value)
    (path : list string) (s : string) :
  well_keyed (obj existing) = true ->
  ~ In "__proto__" path ->
  at_path (obj existing) path = Some (VStr s) ->
  at_path (mergeTranslations host_get (obj existing) translated) path = Some (VStr s).
Proof.
  intros Hwk Hnp Hat.
  now apply merge_preserves_paths.
Qed.

(** X1, witness: a manual translation under nav.home survives the merge. *)
Lemma mergeTranslations_preserves_witness :
  at_path
    (mergeTranslations bare_host
       (obj [("nav", obj [("home", VStr "Manual")])])
       (obj [("nav", obj [("home", VStr "Auto"); ("team", VStr "Auto2")])]))
    ["nav"; "home"] = Some (VStr "Manual").
Proof.
  apply (mergeTranslations_preserves bare_host
           [("nav", obj [("home", VStr "Manual")])]
           (obj [("nav", obj [("home", VStr "Auto"); ("team", VStr "Auto2")])])
           ["nav"; "home"] "Manual").
  - reflexivity.
  - intros [H | [H | []]]; discriminate H.
  - reflexivity.
Defined.

(** C3, at the failing input: the existing file holds the string "x" under
    the own key [__proto__] (as [JSON.parse] creates it); the assignment
    [result[key] = value] reaches the [__proto__] setter, which ignores a
    string, and the merged object holds nothing at that path. *)
Theorem mergeTranslations_drops_proto_key :
  at_path (obj [("__proto__", VStr "x")]) ["__proto__"] = Some (VStr "x") /\
  (forall host_get,
      mergeTranslations host_get (obj [("__proto__", VStr "x")]) (obj []) = obj [] /\
      at_path (mergeTranslations host_get (obj [("__proto__", VStr "x")]) (obj []))
              ["__proto__"] = None).
Proof.
  split; [reflexivity |]. intros host_get. split; reflexivity.
Qed.

Example merge_example :
  mergeTranslations bare_host
    (obj [("nav", obj [("home", VStr "Manual")])])
    (obj [("nav", obj [("home", VStr "Auto"); ("team", VStr "Auto2")]);
          ("title", VStr "Auto3")])
  = obj [("nav", obj [("home", VStr "Manual"); ("team", VStr "Auto2")]);
         ("title", VStr "Auto3")].
Proof. reflexivity. Qed.

(** An own key [__proto__] holding a string goes through the setter of
    [Object.prototype], which ignores it. *)
Example merge_proto_example :
  mergeTranslations bare_host (obj [("__proto__", VStr "x")]) (obj []) = obj [].
Proof. reflexivity. Qed.

End AutoTranslate.

(** ** The Demo page: the CSV reader for light curves

    Text is a sequence of code units below 256. *)

Module Csv.
Import JSNum.

(** White space and line terminators, as [trim] and the class [\s] read
    them: tab, line feed, vertical tab, form feed, carriage return, space
    and no-break space. *)
Definition is_space (c : ascii) : bool :=
  let n := nat_of_ascii c in
  ((9 <=? n)%nat && (n <=? 13)%nat) || (n =? 32)%nat || (n =? 160)%nat.

(** [text.split(/\r?\n/)]: a line feed, with the carriage return before it
    when there is one, separates two lines. *)
Fixpoint split_lines (text : string) : list string :=
  match text with
  | EmptyString => [EmptyString]
  | String c rest =>
      if Ascii.eqb c "010"%char then EmptyString :: split_lines rest
      else
        match rest with
        | String d rest' =>
            if Ascii.eqb c "013"%char && Ascii.eqb d "010"%char
            then EmptyString :: split_lines rest'
            else match split_lines rest with
                 | [] => [String c EmptyString]
                 | line :: lines => String c line :: lines
                 end
        | EmptyString => [String c EmptyString]
        end
  end.

Fixpoint trimStart (s : string) : string :=
  match s with
  | EmptyString => EmptyString
  | String c rest => if is_space c then trimStart rest else s
  end.

Fixpoint rev_string (s acc : string) : string :=
  match s with
  | EmptyString => acc
  | String c rest => rev_string rest (String c acc)
  end.

Definition trimEnd (s : string) : string :=
  rev_string (trimStart (rev_string s EmptyString)) EmptyString.

Definition trim (s : string) : string := trimEnd (trimStart s).

(** [toLowerCase] on code units below 256: A-Z, and the accented capitals
    192-222 other than the multiplication sign 215, move up by 32. *)
Definition lower (c : ascii) : ascii :=
  let n := nat_of_ascii c in
  if ((65 <=? n)%nat && (n <=? 90)%nat)
     || ((192 <=? n)%nat && (n <=? 222)%nat && negb (n =? 215)%nat)
  then ascii_of_nat (n + 32)
  else c.

Fixpoint toLowerCase (s : string) : string :=
  match s with
  | EmptyString => EmptyString
  | String c rest => String (lower c) (toLowerCase rest)
  end.

(** [s.includes(sub)] *)
Fixpoint includes (s sub : string) : bool :=
  if String.prefix sub s then true
  else match s with
       | EmptyString => false
       | String _ rest => includes rest sub
       end.

(** [line.split(/,|\t|\s+/)].  A comma or a tab is a separator by itself; any
    other white space starts a separator that runs over all the white space
    that follows ([run] is set while such a separator is being read). *)
Fixpoint split_fields (line : string) (run : bool) : list string :=
  match line with
  | EmptyString => [EmptyString]
  | String c rest =>
      if run && is_space c then split_fields rest true
      else if Ascii.eqb c ","%char then EmptyString :: split_fields rest false
      else if Ascii.eqb c "009"%char then EmptyString :: split_fields rest false
      else if is_space c then EmptyString :: split_fields rest true
      else match split_fields rest false with
           | [] => [String c EmptyString]
           | part :: parts => String c part :: parts
           end
  end.

(** [Boolean(s)] for a string. *)
Definition nonempty (s : string) : bool := negb (String.eqb s "").

Record point := { time : num; flux : num }.

(** The lines the parser works on:
    [text.split(/\r?\n/).filter((l) => l.trim().length > 0)] *)
Definition content_lines (text : string) : list string :=
  List.filter (fun l => (0 <? String.length (trim l))%nat) (split_lines text).

Definition has_header (first : string) : bool :=
  includes (toLowerCase first) "time" && includes (toLowerCase first) "flux".

Section Parser.
(** [Number(s)], the runtime's conversion of a string to a Number. *)
Variable Number : string -> num.

(** One round of the [for] loop: the point pushed for a line, if any. *)
Definition parse_line (line : string) : option point :=
  match List.filter nonempty (split_fields line false) with
  | p0 :: p1 :: _ =>
      let time := Number p0 in
      let flux := Number p1 in
      if Number_isFinite time && Number_isFinite flux
      then Some {| time := time; flux := flux |}
      else None
  | _ => None
  end.

Fixpoint parse_lines (lines : list string) : list point :=
  match lines with
  | [] => []
  | line :: rest =>
      match parse_line line with
      | Some p => p :: parse_lines rest
      | None => parse_lines rest
      end
  end.

Definition parseCsvLightCurve (text : string) : list point :=
  let lines := content_lines text in
  match lines with
  | [] => []
  | first :: _ =>
      let startIndex := if has_header first then 1%nat else 0%nat in
      parse_lines (skipn startIndex lines)
  end.

End Parser.

(** [s] has [sub] as a substring. *)
Definition contains (s sub : string) : Prop :=
  exists pre post, s = (pre ++ sub ++ post)%string.

Lemma prefix_spec sub : forall s,
  String.prefix sub s = true <-> exists post, s = (sub ++ post)%string.
Proof.
  induction sub as [| c sub IH]; intros s; destruct s as [| d s]; cbn.
  - split; [intros _; now exists "" | reflexivity].
  - split; [intros _; now exists (String d s) | reflexivity].
  - split; [discriminate | intros (post & H); discriminate].
  - destruct (ascii_dec c d) as [-> | Hne].
    + rewrite IH. split; intros (post & H); exists post.
      * now rewrite H.
      * now injection H.
    + split; [discriminate | intros (post & H); injection H; congruence].
Qed.

Lemma includes_spec sub : forall s, includes s sub = true <-> contains s sub.
Proof.
  induction s as [| c s IH]; cbn [includes].
  - destruct (String.prefix sub "") eqn:P.
    + split; [intros _ | reflexivity].
      apply prefix_spec in P. destruct P as (post & P). now exists "", post.
    + split; [discriminate |]. intros (pre & post & H).
      destruct pre; [| discriminate].
      assert (T : String.prefix sub "" = true) by (apply prefix_spec; now exists post).
      congruence.
  - destruct (String.prefix sub (String c s)) eqn:P.
    + split; [intros _ | reflexivity].
      apply prefix_spec in P. destruct P as (post & P). now exists "", post.
    + rewrite IH. split.
      * intros (pre & post & ->). now exists (String c pre), post.
      * intros (pre & post & H). destruct pre as [| d pre].
        -- assert (T : String.prefix sub (String c s) = true)
             by (apply prefix_spec; now exists post).
           congruence.
        -- injection H as -> ->. now exists pre, post.
Qed.

Section ParserFacts.
Variable Number : string -> num.

Lemma parse_line_finite line p :
  parse_line Number line = Some p ->
  Number_isFinite (time p) = true /\ Number_isFinite (flux p) = true.
Proof.
  unfold parse_line.
  destruct (List.filter nonempty (split_fields line false)) as [| p0 [| p1 parts]];
    try discriminate.
  destruct (Number_isFinite (Number p0) && Number_isFinite (Number p1)) eqn:E;
    [| discriminate].
  intros [= <-]. cbn. now apply andb_true_iff in E.
Qed.

Lemma parse_lines_finite lines :
  List.Forall (fun p => Number_isFinite (time p) = true /\ Number_isFinite (flux p) = true)
              (parse_lines Number lines).
Proof.
  induction lines as [| line rest IH]; cbn; [constructor |].
  destruct (parse_line Number line) eqn:E; [| exact IH].
  constructor; [now apply parse_line_finite with line | exact IH].
Qed.

Lemma parse_lines_length lines :
  (List.length (parse_lines Number lines) <= List.length lines)%nat.
Proof.
  induction lines as [| line rest IH]; cbn; [lia |].
  destruct (parse_line Number line); cbn; lia.
Qed.

End ParserFacts.

(** C9: for every text and whatever [Number] answers, [parseCsvLightCurve]
    returns a list whose records all have a finite time and a finite flux,
    with at most as many entries as the text has non-blank lines; it is
    empty when there is no such line; and parsing starts after the first
    non-blank line exactly when that line, in lower case, contains both
    "time" and "flux". *)
Theorem parseCsvLightCurve_spec (Number : string -> num) (text : string) :
  List.Forall (fun p => Number_isFinite (time p) = true /\ Number_isFinite (flux p) = true)
              (parseCsvLightCurve Number text) /\
  (List.length (parseCsvLightCurve Number text)
   <= List.length (content_lines text))%nat /\
  (content_lines text = [] -> parseCsvLightCurve Number text = []) /\
  (forall first rest, content_lines text = first :: rest ->
     ((contains (toLowerCase first) "time" /\ contains (toLowerCase first) "flux") ->
      parseCsvLightCurve Number text = parse_lines Number rest) /\
     (~ (contains (toLowerCase first) "time" /\ contains (toLowerCase first) "flux") ->
      parseCsvLightCurve Number text = parse_lines Number (first :: rest))).
Proof.
  unfold parseCsvLightCurve.
  destruct (content_lines text) as [| first rest] eqn:L.
  - split; [constructor |]. split; [apply le_n |]. split; [reflexivity |].
    intros first rest [=].
  - assert (H : has_header first = true <->
                contains (toLowerCase first) "time" /\ contains (toLowerCase first) "flux").
    { unfold has_header. rewrite andb_true_iff, !includes_spec. reflexivity. }
    split; [apply parse_lines_finite |].
    split.
    { destruct (has_header first); cbn iota.
      - change (skipn 1 (first :: rest)) with rest.
        pose proof (parse_lines_length Number rest). cbn [List.length]. lia.
      - apply parse_lines_length. }
    split; [discriminate |].
    intros first' rest' [= <- <-]. split.
    + intros Hc. apply H in Hc. now rewrite Hc.
    + intros Hc. destruct (has_header first); [| reflexivity].
      exfalso. apply Hc. now apply H.
Qed.

Example split_lines_example :
  split_lines ("time,flux" ++ String "013" (String "010" "1,2") ++ String "010" "")
  = ["time,flux"; "1,2"; ""].
Proof. reflexivity. Qed.

Example split_fields_example :
  split_fields ("1.5 " ++ String "009" " 2,x") false = ["1.5"; "2"; "x"]
  /\ split_fields ("a" ++ String "009" " b") false = ["a"; ""; "b"].
Proof. split; reflexivity. Qed.

Example has_header_example :
  has_header "Time (d), FLUX" = true /\ has_header "time, flu" = false.
Proof. split; reflexivity. Qed.

End Csv.

(** ** The Demo page: the simulated training job

    The records of [mockResults] are objects in a store; the array and the
    component state hold references to them. *)

Module Demo.
Import JSNum.

(** Places of the store. *)
Abbreviation loc := nat.

Record result_row := {
  id : string;
  probability : num;
  status : string;
  period : option num;
  depth : option num
}.

Record metrics := { accuracy : num; precision : num; recall : num }.

(** The store, the module-level array, the component state touched by
    [handleRunJob], and the closure of the running interval: its counter
    [current] and whether the timer is still set. *)
Record page := {
  objects : gmap loc result_row;
  mockResults : list loc;
  jobRunning : bool;
  jobProgress : num;
  jobMetrics : option metrics;
  jobResults : option (list loc);
  current : num;
  interval : bool
}.

Section Job.
Variable F : float_format.
(** [Math.log10], left to the runtime. *)
Variable Math_log10 : num -> num.
(** The slider values captured by [handleRunJob]: [learningRate[0]] and
    [epochs[0]]. *)
Variable learningRate : num.
Variable epochs : nat.

Definition mock_row_1 : result_row :=
  {| id := "KIC-12345678"; probability := lit F (94 # 100); status := "planet";
     period := Some (lit F (32 # 10)); depth := Some (lit F (12 # 1000)) |}.

Definition mock_row_2 : result_row :=
  {| id := "TIC-87654321"; probability := lit F (2 # 100); status := "no_planet";
     period := None; depth := None |}.

Definition mock_row_3 : result_row :=
  {| id := "KIC-11223344"; probability := lit F (78 # 100); status := "candidate";
     period := Some (lit F (127 # 10)); depth := Some (lit F (8 # 1000)) |}.

(** The page as first rendered. *)
Definition initial : page :=
  {| objects := <[0%nat := mock_row_1]> (<[1%nat := mock_row_2]> (<[2%nat := mock_row_3]> ∅));
     mockResults := [0%nat; 1%nat; 2%nat];
     jobRunning := false;
     jobProgress := lit F 0;
     jobMetrics := None;
     jobResults := None;
     current := lit F 0;
     interval := false |}.

Definition total : num := lit F 100.

(** [Math.max(1, Math.round(epochs[0] / 5))] *)
Definition increment : num :=
  Math_max (lit F 1) (Math_round (js_div F (of_nat epochs) (lit F 5))).

Definition acc : num :=
  Math_max (lit F (7 # 10))
    (Math_min (lit F (99 # 100))
       (js_add F
          (js_add F (lit F (75 # 100)) (Math_log10 (js_add F (lit F 1) learningRate)))
          (js_mul F (of_nat epochs) (lit F (2 # 1000))))).

Definition prec : num :=
  Math_max (lit F (65 # 100)) (Math_min (lit F (98 # 100)) (js_sub F acc (lit F (2 # 100)))).

Definition rec : num :=
  Math_max (lit F (6 # 10)) (Math_min (lit F (97 # 100)) (js_sub F acc (lit F (3 # 100)))).

Definition mock_metrics : metrics :=
  {| accuracy := Number_of_numeral F (toFixed3 acc);
     precision := Number_of_numeral F (toFixed3 prec);
     recall := Number_of_numeral F (toFixed3 rec) |}.

(** [{ ...r, probability: Math.max(0, Math.min(1, r.probability +
    (learningRate[0] - 0.001) * 5)) }]: a new record. *)
Definition shifted (r : result_row) : result_row :=
  {| id := id r;
     probability :=
       Math_max (lit F 0)
         (Math_min (lit F 1)
            (js_add F (probability r)
               (js_mul F (js_sub F learningRate (lit F (1 # 1000))) (lit F 5))));
     status := status r;
     period := period r;
     depth := depth r |}.

(** [refs.map((r) => ({ ...r, ... }))]: each new record is allocated at a
    fresh place of the store; the result is the array of the new places. *)
Fixpoint map_shifted (refs : list loc) (store : gmap loc result_row)
  : gmap loc result_row * list loc :=
  match refs with
  | [] => (store, [])
  | r :: rest =>
      match store !! r with
      | Some row =>
          let l := fresh (dom store) in
          let '(store', ls) := map_shifted rest (<[l := shifted row]> store) in
          (store', l :: ls)
      | None => map_shifted rest store
      end
  end.

Definition handleRunJob (w : page) : page :=
  {| objects := objects w;
     mockResults := mockResults w;
     jobRunning := true;
     jobProgress := lit F 0;
     jobMetrics := None;
     jobResults := None;
     current := lit F 0;
     interval := true |}.

(** One firing of the interval's callback; a cleared timer fires no more. *)
Definition tick (w : page) : page :=
  if interval w then
    let current1 := js_add F (current w) increment in
    if js_ge current1 total then
      let '(store, results) := map_shifted (mockResults w) (objects w) in
      {| objects := store;
         mockResults := mockResults w;
         jobRunning := false;
         jobProgress := total;
         jobMetrics := Some mock_metrics;
         jobResults := Some results;
         current := total;
         interval := false |}
    else
      {| objects := objects w;
         mockResults := mockResults w;
         jobRunning := jobRunning w;
         jobProgress := current1;
         jobMetrics := jobMetrics w;
         jobResults := jobResults w;
         current := current1;
         interval := true |}
  else w.

(** The page [n] timer ticks after [handleRunJob]. *)
Definition run (n : nat) : page := Nat.iter n tick (handleRunJob initial).

End Job.

(** A stand-in for [Math.log10] near 1: the first term of its series. *)
Definition log10_near_one (x : num) : num :=
  match x with
  | Fin q => if Qlt_bool 0 q then Fin ((q - 1) * (4343 # 10000)) else NaN
  | Inf false => Inf false
  | _ => NaN
  end.

(** *** Termination of the simulated run *)

Section JobFacts.
Variable F : float_format.
Variable Math_log10 : num -> num.
Variable learningRate : num.
Variable epochs : nat.

Local Abbreviation tick := (tick F Math_log10 learningRate epochs).
Local Abbreviation run := (run F Math_log10 learningRate epochs).
Local Open Scope Q_scope.

(** The increment is a whole number between 1 and 10. *)
Lemma increment_spec :
  (epochs <= 50)%nat ->
  exists (s : Q) (k : Z),
    increment F epochs = Fin s /\ s == inject_Z k /\ (1 <= k <= 10)%Z.
Proof.
  intros He. unfold increment.
  destruct (lit_int F 1) as [L1 R1]; [simpl; lia |].
  destruct (lit_int F 5) as [L5 R5]; [simpl; lia |].
  change (lit F 1) with (lit F (inject_Z 1)). rewrite L1.
  change (lit F 5) with (lit F (inject_Z 5)). rewrite L5.
  unfold of_nat. cbn [js_div].
  rewrite Qeq_bool_false by (rewrite R5; discriminate).
  destruct (finish_between F (inject_Z (Z.of_nat epochs) / rnd F (inject_Z 5)) 0 10)
    as [E B]; try (simpl; lia).
  { rewrite R5. inj_consts.
    assert (0 <= inject_Z (Z.of_nat epochs) <= 50).
    { inj_consts. change (0 # 1) with (inject_Z 0). change (50 # 1) with (inject_Z 50).
      rewrite <- !Zle_Qle. lia. }
    split.
    - apply Qle_shift_div_l; [reflexivity | lra].
    - apply Qle_shift_div_r; [reflexivity | lra]. }
  rewrite E. cbn [Math_round].
  set (x := rnd F (inject_Z (Z.of_nat epochs) / rnd F (inject_Z 5))) in *.
  set (k0 := Qfloor (x + (1 # 2))).
  assert (Bk : (0 <= k0 <= 10)%Z).
  { unfold k0. split.
    - change 0%Z with (Qfloor 0). apply Qfloor_resp_le. inj_consts. lra.
    - change 10%Z with (Qfloor (10 + (1 # 2))). apply Qfloor_resp_le. inj_consts. lra. }
  unfold Math_max. cbn [js_le].
  destruct (Qle_bool (rnd F (inject_Z 1)) (inject_Z k0)) eqn:C.
  - exists (inject_Z k0), k0. split; [reflexivity |]. split; [reflexivity |].
    apply Qle_bool_iff in C. rewrite R1 in C. rewrite <- Zle_Qle in C. lia.
  - exists (rnd F (inject_Z 1)), 1%Z. split; [reflexivity |]. split; [exact R1 | lia].
Qed.

Lemma total_spec : exists t, total F = Fin t /\ t == 100.
Proof.
  destruct (lit_int F 100) as [L R]; [simpl; lia |].
  exists (rnd F (inject_Z 100)). split; [exact L | exact R].
Qed.

(** The interval is running and the counter stands at the whole number [i]. *)
Definition counting (w : page) (i : Z) : Prop :=
  interval w = true /\ jobRunning w = true /\
  exists c, current w = Fin c /\ c == inject_Z i /\ jobProgress w = Fin c.

(** The run has ended: timer cleared, progress at the total, mock metrics
    and results in place. *)
Definition finished (w : page) : Prop :=
  interval w = false /\ jobRunning w = false /\
  (exists p, jobProgress w = Fin p /\ p == 100) /\
  jobMetrics w = Some (mock_metrics F Math_log10 learningRate epochs) /\
  exists results, jobResults w = Some results.

Lemma handleRunJob_counting w : counting (handleRunJob F w) 0.
Proof.
  destruct (lit_int F 0) as [L R]; [simpl; lia |].
  unfold counting, handleRunJob. cbn.
  split; [reflexivity |]. split; [reflexivity |].
  exists (rnd F (inject_Z 0)). split; [exact L |]. split; [exact R | exact L].
Qed.

(** One tick of a running interval: the counter moves on by the increment,
    or reaches the total and the run ends. *)
Lemma tick_counting (s : Q) (k : Z) (w : page) (i : Z) :
  increment F epochs = Fin s -> s == inject_Z k -> (1 <= k <= 10)%Z ->
  counting w i -> (0 <= i < 100)%Z ->
  ((i + k < 100)%Z /\ counting (tick w) (i + k)) \/
  ((100 <= i + k)%Z /\ finished (tick w)).
Proof.
  intros Hs Hk Bk (Hi & Hr & c & Hc & Ec & Hp) Bi.
  destruct total_spec as (t & Ht & Et).
  unfold Demo.tick. rewrite Hi, Hc, Hs. cbn [js_add].
  destruct (finish_exact F (c + s) (i + k)) as [E R].
  { lia. }
  { rewrite Ec, Hk, inject_Z_plus. reflexivity. }
  rewrite E, Ht. unfold js_ge. cbn [js_le].
  destruct (Z_lt_le_dec (i + k) 100) as [Hlt | Hge].
  - left. split; [exact Hlt |].
    rewrite Qle_bool_false.
    2:{ rewrite R, Et. change 100 with (inject_Z 100). rewrite <- Zlt_Qlt. exact Hlt. }
    unfold counting. cbn. split; [reflexivity |]. split; [exact Hr |].
    exists (rnd F (c + s)). split; [reflexivity |]. split; [exact R | reflexivity].
  - right. split; [exact Hge |].
    rewrite Qle_bool_true.
    2:{ rewrite R, Et. change 100 with (inject_Z 100). rewrite <- Zle_Qle. exact Hge. }
    destruct (map_shifted F learningRate (mockResults w) (objects w)) as [store results].
    unfold finished. cbn. split; [reflexivity |]. split; [reflexivity |].
    split; [exists t; split; [reflexivity | exact Et] |].
    split; [reflexivity | now exists results].
Qed.

Lemma tick_finished w : finished w -> tick w = w.
Proof. intros (Hi & _). unfold Demo.tick. now rewrite Hi. Qed.

Lemma iter_tick_finished w n : finished w -> Nat.iter n tick w = w.
Proof.
  intros H. induction n as [| n IH]; [reflexivity |].
  rewrite Nat.iter_succ, IH. now apply tick_finished.
Qed.

(** What the claim says of the ticks of a run that starts at [w]: [n] ticks
    end it; before that every tick finds the interval running and raises the
    progress by at least 1 without passing 100. *)
Definition ends_after (w : page) (n : nat) : Prop :=
  (forall j, (j < n)%nat ->
     interval (Nat.iter j tick w) = true /\
     jobRunning (Nat.iter j tick w) = true /\
     exists p p',
       jobProgress (Nat.iter j tick w) = Fin p /\
       jobProgress (Nat.iter (S j) tick w) = Fin p' /\
       p + 1 <= p' /\ p' <= 100) /\
  finished (Nat.iter n tick w).

Lemma counting_ends (s : Q) (k : Z) :
  increment F epochs = Fin s -> s == inject_Z k -> (1 <= k <= 10)%Z ->
  forall (m : nat) (w : page) (i : Z),
    counting w i -> (0 <= i < 100)%Z -> (100 - i <= Z.of_nat m)%Z ->
    exists n, (1 <= n <= m)%nat /\ ends_after w n.
Proof.
  intros Hs Hk Bk. induction m as [| m IH]; intros w i Hc Bi Hm; [lia |].
  destruct (tick_counting s k w i Hs Hk Bk Hc Bi) as [[Hlt Hc'] | [Hge Hf]].
  - destruct (IH (tick w) (i + k)%Z Hc') as (n & Bn & Hrun & Hfin); [lia | lia |].
    exists (S n). split; [lia |]. split.
    + intros [| j] Hj.
      * change (Nat.iter 1 tick w) with (tick w).
        change (Nat.iter 0 tick w) with w. destruct Hc as (Hi & Hr & c & Hcur & Ec & Hp).
        destruct Hc' as (_ & _ & c' & _ & Ec' & Hp').
        split; [exact Hi |]. split; [exact Hr |].
        exists c, c'. split; [exact Hp |]. split; [exact Hp' |].
        rewrite Ec, Ec'. change 1 with (inject_Z 1). change 100 with (inject_Z 100).
        rewrite <- inject_Z_plus, <- !Zle_Qle. lia.
      * rewrite (Nat.iter_succ_r (S j) tick w), (Nat.iter_succ_r j tick w).
        apply Hrun. lia.
    + rewrite Nat.iter_succ_r. exact Hfin.
  - exists 1%nat. split; [lia |]. split.
    + intros j Hj. assert (j = 0%nat) as -> by lia.
      change (Nat.iter 1 tick w) with (tick w).
      change (Nat.iter 0 tick w) with w. destruct Hc as (Hi & Hr & c & Hcur & Ec & Hp).
      destruct Hf as (_ & _ & (p' & Hp' & Ep') & _).
      split; [exact Hi |]. split; [exact Hr |].
      exists c, p'. split; [exact Hp |]. split; [exact Hp' |].
      rewrite Ec, Ep'. change 1 with (inject_Z 1). change 100 with (inject_Z 100).
      rewrite <- inject_Z_plus, <- !Zle_Qle. lia.
    + exact Hf.
Qed.

End JobFacts.

(** C7: for every epochs value from 1 to 50 the simulated run ends after
    some n ticks, 1 <= n <= 100: each of these ticks finds the interval set
    and raises the progress by at least 1 without passing 100; after the
    n-th the progress is exactly 100, the interval is cleared and jobRunning
    is false, and later ticks change nothing. *)
Theorem run_terminates (F : float_format) (Math_log10 : num -> num)
    (learningRate : num) (epochs : nat) :
  (1 <= epochs <= 50)%nat ->
  exists n, (1 <= n <= 100)%nat /\
    (forall j, (j < n)%nat ->
       interval (run F Math_log10 learningRate epochs j) = true /\
       jobRunning (run F Math_log10 learningRate epochs j) = true /\
       exists p p',
         jobProgress (run F Math_log10 learningRate epochs j) = Fin p /\
         jobProgress (run F Math_log10 learningRate epochs (S j)) = Fin p' /\
         (p + 1 <= p')%Q /\ (p' <= 100)%Q) /\
    interval (run F Math_log10 learningRate epochs n) = false /\
    jobRunning (run F Math_log10 learningRate epochs n) = false /\
    (exists p, jobProgress (run F Math_log10 learningRate epochs n) = Fin p /\ (p == 100)%Q) /\
    (forall j, (n <= j)%nat ->
       run F Math_log10 learningRate epochs j = run F Math_log10 learningRate epochs n).
Proof.
  intros He.
  destruct (increment_spec F epochs) as (s & k & Hs & Hk & Bk); [lia |].
  destruct (counting_ends F Math_log10 learningRate epochs s k Hs Hk Bk 100
              (handleRunJob F (initial F)) 0 (handleRunJob_counting F _))
    as (n & Bn & Hrun & Hfin); [lia | lia |].
  exists n. split; [exact Bn |]. split; [exact Hrun |].
  pose proof Hfin as (Hi & Hr & Hp & _).
  split; [exact Hi |]. split; [exact Hr |]. split; [exact Hp |].
  intros j Hj. unfold run. replace j with ((j - n) + n)%nat by lia.
  rewrite Nat.iter_add. apply iter_tick_finished. exact Hfin.
Qed.

(** C7, witness: ten epochs. *)
Lemma run_terminates_witness :
  exists n, (1 <= n <= 100)%nat /\
    (forall j, (j < n)%nat ->
       interval (run binary64 log10_near_one (Fin (1 # 1000)) 10 j) = true /\
       jobRunning (run binary64 log10_near_one (Fin (1 # 1000)) 10 j) = true /\
       exists p p',
         jobProgress (run binary64 log10_near_one (Fin (1 # 1000)) 10 j) = Fin p /\
         jobProgress (run binary64 log10_near_one (Fin (1 # 1000)) 10 (S j)) = Fin p' /\
         (p + 1 <= p')%Q /\ (p' <= 100)%Q) /\
    interval (run binary64 log10_near_one (Fin (1 # 1000)) 10 n) = false /\
    jobRunning (run binary64 log10_near_one (Fin (1 # 1000)) 10 n) = false /\
    (exists p, jobProgress (run binary64 log10_near_one (Fin (1 # 1000)) 10 n) = Fin p
               /\ (p == 100)%Q) /\
    (forall j, (n <= j)%nat ->
       run binary64 log10_near_one (Fin (1 # 1000)) 10 j
       = run binary64 log10_near_one (Fin (1 # 1000)) 10 n).
Proof.
  apply (run_terminates binary64 log10_near_one (Fin (1 # 1000)) 10). lia.
Defined.

(** *** The mock constants are never written *)

Section Frame.
Variable F : float_format.
Variable Math_log10 : num -> num.
Variable learningRate : num.
Variable epochs : nat.

(** [map] only adds records: every record of the store stays as it was, and
    each place of the new array was unused before. *)
Lemma map_shifted_frame (refs : list loc) :
  forall (store store' : gmap loc result_row) (ls : list loc),
    map_shifted F learningRate refs store = (store', ls) ->
    (forall l row, store !! l = Some row -> store' !! l = Some row) /\
    (forall l, In l ls -> store !! l = None).
Proof.
  induction refs as [| r rest IH]; intros store store' ls H; cbn in H.
  - injection H as <- <-. split; [auto | intros l []].
  - destruct (store !! r) as [row |] eqn:Hr; [| now apply IH].
    set (l0 := fresh (dom store)) in *.
    destruct (map_shifted F learningRate rest (<[l0 := shifted F learningRate row]> store))
      as [store1 ls1] eqn:Hrec.
    injection H as <- <-.
    destruct (IH _ _ _ Hrec) as [Hkeep Hnew].
    assert (Hfresh : store !! l0 = None).
    { apply not_elem_of_dom. apply is_fresh. }
    split.
    + intros l row' Hl. apply Hkeep. rewrite lookup_insert_ne; [exact Hl |].
      intros ->. congruence.
    + intros l [<- | Hin]; [exact Hfresh |].
      specialize (Hnew l Hin).
      destruct (decide (l0 = l)) as [-> | Hne]; [exact Hfresh |].
      now rewrite lookup_insert_ne in Hnew.
Qed.

(** The mock array and its three records are as in the source text, and no
    place of [jobResults] is one of theirs. *)
Definition mock_intact (w : page) : Prop :=
  mockResults w = [0%nat; 1%nat; 2%nat] /\
  objects w !! 0%nat = Some (mock_row_1 F) /\
  objects w !! 1%nat = Some (mock_row_2 F) /\
  objects w !! 2%nat = Some (mock_row_3 F) /\
  (forall results, jobResults w = Some results ->
     forall l, In l results -> ~ In l (mockResults w)).

Lemma initial_intact : mock_intact (handleRunJob F (initial F)).
Proof.
  unfold mock_intact. cbn. repeat split; try reflexivity. discriminate.
Qed.

Lemma tick_intact w :
  mock_intact w -> mock_intact (tick F Math_log10 learningRate epochs w).
Proof.
  intros (Hm & H0 & H1 & H2 & Hres). unfold tick.
  destruct (interval w); [| now repeat split].
  destruct (js_ge _ _).
  - destruct (map_shifted F learningRate (mockResults w) (objects w))
      as [store results] eqn:Hmap.
    destruct (map_shifted_frame _ _ _ _ Hmap) as [Hkeep Hnew].
    unfold mock_intact. cbn.
    split; [exact Hm |]. split; [now apply Hkeep |].
    split; [now apply Hkeep |]. split; [now apply Hkeep |].
    intros results' [= <-] l Hin Hl. specialize (Hnew l Hin).
    rewrite Hm in Hl. cbn in Hl.
    destruct Hl as [<- | [<- | [<- | []]]]; congruence.
  - unfold mock_intact. cbn. now repeat split.
Qed.

End Frame.

(** C8: however many ticks the run has seen (so also once it has
    completed), [mockResults] is still the array of its three records, each
    record is exactly as written in the source (its probability included),
    and the records of [jobResults] are other objects than these. *)
Theorem mockResults_never_mutated (F : float_format) (Math_log10 : num -> num)
    (learningRate : num) (epochs : nat) (n : nat) :
  mockResults (run F Math_log10 learningRate epochs n) = [0%nat; 1%nat; 2%nat] /\
  objects (run F Math_log10 learningRate epochs n) !! 0%nat = Some (mock_row_1 F) /\
  objects (run F Math_log10 learningRate epochs n) !! 1%nat = Some (mock_row_2 F) /\
  objects (run F Math_log10 learningRate epochs n) !! 2%nat = Some (mock_row_3 F) /\
  (forall results,
      jobResults (run F Math_log10 learningRate epochs n) = Some results ->
      forall l, In l results ->
                ~ In l (mockResults (run F Math_log10 learningRate epochs n))).
Proof.
  change (mock_intact F (run F Math_log10 learningRate epochs n)).
  unfold run. induction n as [| n IH].
  - apply initial_intact.
  - rewrite Nat.iter_succ. now apply tick_intact.
Qed.

(** *** The mock metrics and results *)

(** The ranges and the order the page shows for a finished job, each
    comparison as JavaScript evaluates it. *)
Definition good_metrics (F : float_format) (m : metrics) : Prop :=
  js_le (lit F (7 # 10)) (accuracy m) = true /\
  js_le (accuracy m) (lit F (99 # 100)) = true /\
  js_le (lit F (65 # 100)) (precision m) = true /\
  js_le (precision m) (lit F (98 # 100)) = true /\
  js_le (lit F (6 # 10)) (recall m) = true /\
  js_le (recall m) (lit F (97 # 100)) = true /\
  js_le (recall m) (precision m) = true /\
  js_le (precision m) (accuracy m) = true.

Definition probability_in_unit (F : float_format) (row : result_row) : Prop :=
  js_le (lit F 0) (probability row) = true /\
  js_le (probability row) (lit F 1) = true.

(** [Number(x.toFixed(3))] for x between 0 and 1. *)
Lemma toFixed3_Number (F : float_format) (x : Q) (lo hi : Z) :
  (0 <= lo)%Z -> (hi <= 1000)%Z ->
  (0 <= x <= 1)%Q ->
  (inject_Z lo <= x * 1000 + (1 # 2))%Q ->
  (x * 1000 + (1 # 2) < inject_Z hi + 1)%Q ->
  exists n,
    Number_of_numeral F (toFixed3 (Fin x)) = Fin (rnd F (inject_Z n / 1000)) /\
    n = Qfloor (x * 1000 + (1 # 2)) /\ (lo <= n <= hi)%Z.
Proof.
  intros Hlo Hhi Hx H1 H2. set (n := Qfloor (x * 1000 + (1 # 2))).
  assert (Bn : (lo <= n <= hi)%Z).
  { split.
    - rewrite <- (Qfloor_Z lo). now apply Qfloor_resp_le.
    - pose proof (Qfloor_le (x * 1000 + (1 # 2))) as Hf. fold n in Hf.
      assert (Hlt : (inject_Z n < inject_Z (hi + 1))%Q).
      { rewrite inject_Z_plus. eapply Qle_lt_trans; [exact Hf | exact H2]. }
      rewrite <- Zlt_Qlt in Hlt. lia. }
  exists n. split; [| split; [reflexivity | exact Bn]].
  unfold toFixed3.
  assert (G : Qlt_bool (Qabs x) (inject_Z (10 ^ 21)) = true).
  { apply Qlt_bool_iff. rewrite Qabs_pos by apply Hx.
    apply Qle_lt_trans with 1%Q; [apply Hx | reflexivity]. }
  rewrite G. fold n. cbn [Number_of_numeral].
  destruct (finish_between F (inject_Z n / 1000) 0 1) as [E _]; try (simpl; lia).
  { assert (0 <= inject_Z n <= 1000)%Q.
    { change 0%Q with (inject_Z 0). change 1000%Q with (inject_Z 1000).
      rewrite <- !Zle_Qle. lia. }
    inj_consts. split.
    - apply Qle_shift_div_l; [reflexivity | lra].
    - apply Qle_shift_div_r; [reflexivity | lra]. }
  exact E.
Qed.

Lemma thousandths_le (F : float_format) (a b : Z) :
  (a <= b)%Z -> (rnd F (inject_Z a / 1000) <= rnd F (inject_Z b / 1000))%Q.
Proof.
  intros H. apply rnd_mono. apply Qmult_le_compat_r; [| discriminate].
  now rewrite <- Zle_Qle.
Qed.

Section Metrics.
Variable F : float_format.
Variable Math_log10 : num -> num.
Variable learningRate : num.
Variable epochs : nat.
Local Open Scope Q_scope.

Hypothesis epochs_range : (epochs <= 50)%nat.
Hypothesis log10_is_number : Math_log10 (js_add F (lit F 1) learningRate) <> NaN.

Lemma acc_spec :
  exists A, acc F Math_log10 learningRate epochs = Fin A /\
            rnd F (7 # 10) <= A <= rnd F (99 # 100).
Proof.
  unfold acc.
  destruct (lit_close F (7 # 10)) as [L07 _]; [split; discriminate |].
  destruct (lit_close F (99 # 100)) as [L099 _]; [split; discriminate |].
  destruct (lit_close F (75 # 100)) as [L075 _]; [split; discriminate |].
  destruct (lit_close F (2 # 1000)) as [L0002 C0002]; [split; discriminate |].
  rewrite L07, L099, L075, L0002.
  apply clamp_spec.
  - apply rnd_mono. discriminate.
  - unfold of_nat. cbn [js_mul].
    destruct (finish_between F (inject_Z (Z.of_nat epochs) * rnd F (2 # 1000)) 0 1)
      as [E _]; try (simpl; lia).
    { assert (0 <= inject_Z (Z.of_nat epochs) <= 50).
      { change 0 with (inject_Z 0). change 50 with (inject_Z 50).
        rewrite <- !Zle_Qle. lia. }
      inj_consts. split.
      - apply Qmult_le_0_compat; lra.
      - apply Qle_trans with (50 * rnd F (2 # 1000)); [| lra].
        apply Qmult_le_compat_r; lra. }
    rewrite E. apply js_add_fin_r. apply js_add_fin_l. exact log10_is_number.
Qed.

Lemma mock_metrics_good :
  good_metrics F (mock_metrics F Math_log10 learningRate epochs).
Proof.
  destruct acc_spec as (A & HA & BA).
  destruct (lit_close F (7 # 10)) as [L07 C07]; [split; discriminate |].
  destruct (lit_close F (99 # 100)) as [L099 C099]; [split; discriminate |].
  destruct (lit_close F (65 # 100)) as [L065 C065]; [split; discriminate |].
  destruct (lit_close F (98 # 100)) as [L098 C098]; [split; discriminate |].
  destruct (lit_close F (6 # 10)) as [L06 C06]; [split; discriminate |].
  destruct (lit_close F (97 # 100)) as [L097 C097]; [split; discriminate |].
  destruct (lit_close F (2 # 100)) as [L002 C002]; [split; discriminate |].
  destruct (lit_close F (3 # 100)) as [L003 C003]; [split; discriminate |].
  (* precision before rounding to three decimals *)
  assert (HP : exists P, prec F Math_log10 learningRate epochs = Fin P /\
                         P = rnd F (A + - rnd F (2 # 100)) /\
                         (6799 # 10000) <= P <= (9701 # 10000) /\ P <= A).
  { unfold prec. rewrite HA, L065, L098, L002. unfold js_sub. cbn [js_neg js_add].
    destruct (finish_between F (A + - rnd F (2 # 100)) 0 1) as [E B];
      try (simpl; lia); [inj_consts; lra |].
    assert (P0 : 0 <= A + - rnd F (2 # 100)) by lra.
    pose proof (rnd_close F _ P0) as C. inj_consts.
    set (P := rnd F (A + - rnd F (2 # 100))) in *.
    rewrite E. unfold Math_min. cbn [js_le].
    rewrite Qle_bool_false by lra. unfold Math_max. cbn [js_le].
    rewrite Qle_bool_true by lra.
    exists P. split; [reflexivity |]. split; [reflexivity |]. split; lra. }
  destruct HP as (P & HP & EP & BP & PA).
  assert (HR : exists R, rec F Math_log10 learningRate epochs = Fin R /\
                         (6699 # 10000) <= R <= (9601 # 10000) /\ R <= P).
  { unfold rec. rewrite HA, L06, L097, L003. unfold js_sub. cbn [js_neg js_add].
    destruct (finish_between F (A + - rnd F (3 # 100)) 0 1) as [E B];
      try (simpl; lia); [inj_consts; lra |].
    assert (P0 : 0 <= A + - rnd F (3 # 100)) by lra.
    pose proof (rnd_close F _ P0) as C. inj_consts.
    assert (M : rnd F (A + - rnd F (3 # 100)) <= P).
    { rewrite EP. apply rnd_mono.
      assert (rnd F (2 # 100) <= rnd F (3 # 100)) by (apply rnd_mono; discriminate).
      lra. }
    set (R := rnd F (A + - rnd F (3 # 100))) in *.
    rewrite E. unfold Math_min. cbn [js_le].
    rewrite Qle_bool_false by lra. unfold Math_max. cbn [js_le].
    rewrite Qle_bool_true by lra.
    exists R. split; [reflexivity |]. split; [lra | exact M]. }
  destruct HR as (R & HR & BR & RP).
  destruct (toFixed3_Number F A 700 990) as (nA & EA & DA & BnA);
    try lia; try (inj_consts; lra).
  destruct (toFixed3_Number F P 680 970) as (nP & EnP & DP & BnP);
    try lia; try (inj_consts; lra).
  destruct (toFixed3_Number F R 670 960) as (nR & EnR & DR & BnR);
    try lia; try (inj_consts; lra).
  assert (RPn : (nR <= nP)%Z) by (rewrite DR, DP; apply Qfloor_resp_le; lra).
  assert (PAn : (nP <= nA)%Z) by (rewrite DP, DA; apply Qfloor_resp_le; lra).
  unfold good_metrics, mock_metrics. cbn [accuracy precision recall].
  rewrite HA, HP, HR, EA, EnP, EnR, L07, L099, L065, L098, L06, L097.
  cbn [js_le].
  assert (T : forall (q : Q) (z : Z), q == inject_Z z / 1000 ->
                rnd F q == rnd F (inject_Z z / 1000)) by (intros q z ->; reflexivity).
  rewrite (T (7 # 10) 700%Z), (T (99 # 100) 990%Z), (T (65 # 100) 650%Z),
    (T (98 # 100) 980%Z), (T (6 # 10) 600%Z), (T (97 # 100) 970%Z) by reflexivity.
  repeat split; apply Qle_bool_iff; apply thousandths_le; lia.
Qed.

End Metrics.

Section Results.
Variable F : float_format.
Variable Math_log10 : num -> num.
Variable rate : Q.
Variable epochs : nat.
Local Open Scope Q_scope.

(** A record copied by [handleRunJob] has its probability between 0 and 1. *)
Lemma shifted_in_unit (row : result_row) (p : Q) :
  probability row = Fin p ->
  (exists c, probability (shifted F (Fin rate) row) = Fin c) /\
  probability_in_unit F (shifted F (Fin rate) row).
Proof.
  intros Hp. unfold probability_in_unit, shifted. cbn [probability]. rewrite Hp.
  destruct (lit_int F 0) as [L0 R0]; [simpl; lia |].
  destruct (lit_int F 1) as [L1 R1]; [simpl; lia |].
  destruct (lit_int F 5) as [L5 R5]; [simpl; lia |].
  destruct (lit_close F (1 # 1000)) as [Lm _]; [split; discriminate |].
  change (lit F 0) with (lit F (inject_Z 0)).
  change (lit F 1) with (lit F (inject_Z 1)).
  change (lit F 5) with (lit F (inject_Z 5)).
  rewrite L0, L1, L5, Lm.
  destruct (clamp_spec (rnd F (inject_Z 0)) (rnd F (inject_Z 1))
              (js_add F (Fin p)
                 (js_mul F (js_sub F (Fin rate) (Fin (rnd F (1 # 1000))))
                    (Fin (rnd F (inject_Z 5))))))
    as (c & Ec & Bc).
  - apply rnd_mono. discriminate.
  - apply js_add_fin_l. apply js_mul_fin_r.
    + unfold js_sub. cbn [js_neg js_add]. apply finish_not_nan.
    + rewrite R5. discriminate.
  - rewrite Ec. split; [now exists c |]. cbn [js_le].
    split; apply Qle_bool_iff; apply Bc.
Qed.

Definition finite_store (store : gmap loc result_row) : Prop :=
  forall l row, store !! l = Some row -> exists p, probability row = Fin p.

Lemma map_shifted_unit (refs : list loc) :
  forall (store store' : gmap loc result_row) (ls : list loc),
    finite_store store ->
    map_shifted F (Fin rate) refs store = (store', ls) ->
    finite_store store' /\
    (forall l, In l ls ->
       exists row, store' !! l = Some row /\ probability_in_unit F row).
Proof.
  induction refs as [| r rest IH]; intros store store' ls Hfin H; cbn in H.
  - injection H as <- <-. split; [exact Hfin | intros l []].
  - destruct (store !! r) as [row |] eqn:Hr; [| exact (IH _ _ _ Hfin H)].
    set (l0 := fresh (dom store)) in *.
    destruct (map_shifted F (Fin rate) rest (<[l0 := shifted F (Fin rate) row]> store))
      as [store1 ls1] eqn:Hrec.
    injection H as <- <-.
    destruct (Hfin _ _ Hr) as (p & Hp).
    destruct (shifted_in_unit row p Hp) as [Hc Hu].
    assert (Hfin1 : finite_store (<[l0 := shifted F (Fin rate) row]> store)).
    { intros l row' Hl. apply lookup_insert_Some in Hl.
      destruct Hl as [[_ <-] | [_ Hl]]; [exact Hc | now apply (Hfin l)]. }
    destruct (IH _ _ _ Hfin1 Hrec) as [Hfin' Hnew].
    split; [exact Hfin' |].
    intros l [<- | Hin]; [| now apply Hnew].
    exists (shifted F (Fin rate) row). split; [| exact Hu].
    destruct (map_shifted_frame F (Fin rate) _ _ _ _ Hrec) as [Hkeep _].
    apply Hkeep. apply lookup_insert_eq.
Qed.

(** What holds of the store, the metrics and the results all along a run. *)
Definition job_inv (w : page) : Prop :=
  finite_store (objects w) /\
  (forall m, jobMetrics w = Some m -> good_metrics F m) /\
  (forall results, jobResults w = Some results ->
     forall l, In l results ->
       exists row, objects w !! l = Some row /\ probability_in_unit F row).

Lemma handleRunJob_inv : job_inv (handleRunJob F (initial F)).
Proof.
  unfold job_inv. cbn. split; [| split; discriminate].
  destruct (lit_close F (94 # 100)) as [La _]; [split; discriminate |].
  destruct (lit_close F (2 # 100)) as [Lb _]; [split; discriminate |].
  destruct (lit_close F (78 # 100)) as [Lc _]; [split; discriminate |].
  intros l row Hl.
  apply lookup_insert_Some in Hl. destruct Hl as [[_ <-] | [_ Hl]]; [eexists; exact La |].
  apply lookup_insert_Some in Hl. destruct Hl as [[_ <-] | [_ Hl]]; [eexists; exact Lb |].
  apply lookup_insert_Some in Hl. destruct Hl as [[_ <-] | [_ Hl]]; [eexists; exact Lc |].
  now rewrite lookup_empty in Hl.
Qed.

Hypothesis epochs_range : (epochs <= 50)%nat.
Hypothesis log10_is_number : Math_log10 (js_add F (lit F 1) (Fin rate)) <> NaN.

Lemma tick_inv w :
  job_inv w -> job_inv (tick F Math_log10 (Fin rate) epochs w).
Proof.
  intros (Hfin & Hm & Hres). unfold tick.
  destruct (interval w); [| exact (conj Hfin (conj Hm Hres))].
  destruct (js_ge _ _).
  - destruct (map_shifted F (Fin rate) (mockResults w) (objects w))
      as [store results] eqn:Hmap.
    destruct (map_shifted_unit _ _ _ _ Hfin Hmap) as [Hfin' Hnew].
    unfold job_inv. cbn. split; [exact Hfin' |]. split.
    + intros m [= <-]. now apply mock_metrics_good.
    + intros results' [= <-]. exact Hnew.
  - exact (conj Hfin (conj Hm Hres)).
Qed.

Lemma run_inv n : job_inv (run F Math_log10 (Fin rate) epochs n).
Proof.
  unfold run. induction n as [| n IH].
  - apply handleRunJob_inv.
  - rewrite Nat.iter_succ. now apply tick_inv.
Qed.

End Results.

(** C10: for a learning rate from 0.0001 to 0.01 and 1 to 50 epochs (and a
    [Math.log10] that answers a positive argument with a number), the run
    sets metrics and results within 100 ticks, and whenever they are set:
    accuracy is in [0.7, 0.99], precision in [0.65, 0.98], recall in
    [0.6, 0.97], recall <= precision <= accuracy, and every record of
    [jobResults] has its probability in [0, 1]. *)
Theorem job_metrics_in_range (F : float_format) (Math_log10 : num -> num)
    (rate : Q) (epochs : nat) :
  ((1 # 10000) <= rate <= (1 # 100))%Q ->
  (1 <= epochs <= 50)%nat ->
  (forall x, (0 < x)%Q -> Math_log10 (Fin x) <> NaN) ->
  (exists n, (n <= 100)%nat /\
     jobMetrics (run F Math_log10 (Fin rate) epochs n) <> None /\
     jobResults (run F Math_log10 (Fin rate) epochs n) <> None) /\
  (forall n,
     (forall m, jobMetrics (run F Math_log10 (Fin rate) epochs n) = Some m ->
                good_metrics F m) /\
     (forall results,
        jobResults (run F Math_log10 (Fin rate) epochs n) = Some results ->
        forall l, In l results ->
          exists row,
            objects (run F Math_log10 (Fin rate) epochs n) !! l = Some row /\
            probability_in_unit F row)).
Proof.
  intros Hrate He Hlog.
  assert (L : Math_log10 (js_add F (lit F 1) (Fin rate)) <> NaN).
  { destruct (lit_int F 1) as [L1 R1]; [simpl; lia |].
    change (lit F 1) with (lit F (inject_Z 1)). rewrite L1. cbn [js_add].
    destruct (finish_between F (rnd F (inject_Z 1) + rate) 1 2) as [E B];
      try (simpl; lia).
    { rewrite R1. inj_consts. lra. }
    rewrite E. apply Hlog. inj_consts. lra. }
  split.
  - destruct (increment_spec F epochs) as (s & k & Hs & Hk & Bk); [lia |].
    destruct (counting_ends F Math_log10 (Fin rate) epochs s k Hs Hk Bk 100
                (handleRunJob F (initial F)) 0 (handleRunJob_counting F _))
      as (n & Bn & _ & Hfin); [lia | lia |].
    destruct Hfin as (_ & _ & _ & Hm & results & Hr).
    exists n. split; [lia |]. unfold run. rewrite Hm, Hr. split; discriminate.
  - intros n. destruct (run_inv F Math_log10 rate epochs ltac:(lia) L n)
      as (_ & Hm & Hr).
    split; [exact Hm | exact Hr].
Qed.

Lemma log10_near_one_number (x : Q) : (0 < x)%Q -> log10_near_one (Fin x) <> NaN.
Proof.
  intros H. unfold log10_near_one.
  apply Qlt_bool_iff in H. rewrite H. discriminate.
Qed.

(** C10, witness: learning rate 0.001 and ten epochs. *)
Lemma job_metrics_in_range_witness :
  (exists n, (n <= 100)%nat /\
     jobMetrics (run binary64 log10_near_one (Fin (1 # 1000)) 10 n) <> None /\
     jobResults (run binary64 log10_near_one (Fin (1 # 1000)) 10 n) <> None) /\
  (forall n,
     (forall m, jobMetrics (run binary64 log10_near_one (Fin (1 # 1000)) 10 n) = Some m ->
                good_metrics binary64 m) /\
     (forall results,
        jobResults (run binary64 log10_near_one (Fin (1 # 1000)) 10 n) = Some results ->
        forall l, In l results ->
          exists row,
            objects (run binary64 log10_near_one (Fin (1 # 1000)) 10 n) !! l = Some row /\
            probability_in_unit binary64 row)).
Proof.
  apply (job_metrics_in_range binary64 log10_near_one (1 # 1000) 10).
  - split; discriminate.
  - lia.
  - exact log10_near_one_number.
Defined.

Example run_example :
  let w := run exact_format log10_near_one (Fin (1 # 1000)) 10 50 in
  interval w = false /\ jobRunning w = false /\ jobProgress w = Fin 100 /\
  jobProgress (run exact_format log10_near_one (Fin (1 # 1000)) 10 49) = Fin (98 # 1) /\
  jobResults w = Some [3%nat; 4%nat; 5%nat] /\
  mockResults w = [0%nat; 1%nat; 2%nat].
Proof. vm_compute. repeat split. Qed.

(** The same run in binary64, with the slider at its defaults: the metrics
    shown are 0.77, 0.75 and 0.74. *)
Example run_example_binary64 :
  let w := run binary64 log10_near_one (lit binary64 (1 # 1000)) 10 50 in
  interval w = false /\
  jobMetrics w = Some {| accuracy := lit binary64 (77 # 100);
                         precision := lit binary64 (75 # 100);
                         recall := lit binary64 (74 # 100) |} /\
  option_map (List.map (fun l => option_map probability (objects w !! l))) (jobResults w)
  = Some [Some (lit binary64 (94 # 100)); Some (lit binary64 (2 # 100));
          Some (lit binary64 (78 # 100))].
Proof. vm_compute. repeat split. Qed.

End Demo.

(** ** Page handlers: component state, requests and exceptions

    An [async] handler is run to its end against the answers the network
    gives to its successive [fetch] calls.  A computation takes the world to
    a new world and either returns a value or throws. *)

Module Async.
Import JSNum JSValue.

(** What a [catch] clause can receive: an [Error] with its message, or some
    other value. *)
Inductive thrown := ErrorObject (message : string) | NotAnError.

Inductive request_body := NoBody | JsonBody (v : value) | FormBody (file : string).

Record request := { url : string; method : string; body : request_body }.

(** What [response.json()] settles to. *)
Inductive json_outcome := JsonRejects (e : thrown) | JsonData (v : value).

Record response := { ok : bool; statusText : string; json : json_outcome }.

(** What a [fetch] settles to. *)
Inductive fetch_outcome := Rejects (e : thrown) | Responds (r : response).

Section Monad.
(** The component state of the page. *)
Variable S : Type.

Record world := {
  ui : S;
  requests : list request;   (* the requests sent, oldest first *)
  console : list thrown      (* what was passed to [console.error] *)
}.

Inductive result (A : Type) := Returned (a : A) | Throws (e : thrown).
Arguments Returned {A} a.
Arguments Throws {A} e.

Definition M (A : Type) : Type := world -> result A * world.

Definition ret {A} (a : A) : M A := fun w => (Returned a, w).

Definition throw {A} (e : thrown) : M A := fun w => (Throws e, w).

Definition bind {A B} (m : M A) (k : A -> M B) : M B :=
  fun w =>
    match m w with
    | (Returned a, w') => k a w'
    | (Throws e, w') => (Throws e, w')
    end.

(** [try { body } catch (e) { handler }] *)
Definition try_catch {A} (body : M A) (handler : thrown -> M A) : M A :=
  fun w =>
    match body w with
    | (Returned a, w') => (Returned a, w')
    | (Throws e, w') => handler e w'
    end.

(** [try { body } finally { cleanup }] with a cleanup that neither returns
    nor throws on its own account. *)
Definition try_finally {A} (body : M A) (cleanup : M unit) : M A :=
  fun w =>
    match body w with
    | (r, w') =>
        match cleanup w' with
        | (Returned _, w'') => (r, w'')
        | (Throws e, w'') => (Throws e, w'')
        end
    end.

(** A state setter. *)
Definition set (f : S -> S) : M unit :=
  fun w => (Returned tt, {| ui := f (ui w); requests := requests w; console := console w |}).

Definition console_error (e : thrown) : M unit :=
  fun w => (Returned tt,
            {| ui := ui w; requests := requests w; console := console w ++ [e] |}).

(** The world once [req] has been sent. *)
Definition sent (req : request) (w : world) : world :=
  {| ui := ui w; requests := requests w ++ [req]; console := console w |}.

(** [await fetch(...)]: the request is sent and settles to the answer the
    network gives it. *)
Definition fetch (answer : fetch_outcome) (req : request) : M response :=
  fun w =>
    match answer with
    | Rejects e => (Throws e, sent req w)
    | Responds r => (Returned r, sent req w)
    end.

(** The request fails: [fetch] throws or the response is not ok. *)
Definition failed (answer : fetch_outcome) : Prop :=
  match answer with
  | Rejects _ => True
  | Responds r => ok r = false
  end.

(** [await response.json()] *)
Definition read_json (r : response) : M value :=
  match json r with
  | JsonRejects e => throw e
  | JsonData v => ret v
  end.

(** [await new Promise((resolve) => setTimeout(resolve, ms))]: time is not
    part of the world. *)
Definition sleep (ms : nat) : M unit := ret tt.

(** A loop [for (let i = first; ...; i++)] that runs [count] times. *)
Fixpoint for_upto (i : nat) (count : nat) (body : nat -> M unit) : M unit :=
  match count with
  | O => ret tt
  | Datatypes.S count' => bind (body i) (fun _ => for_upto (Datatypes.S i) count' body)
  end.

End Monad.

Arguments ui {S} w.
Arguments requests {S} w.
Arguments console {S} w.
Arguments Returned {A} a.
Arguments Throws {A} e.
Arguments ret {S A} a.
Arguments throw {S A} e.
Arguments bind {S A B} m k.
Arguments try_catch {S A} body handler.
Arguments try_finally {S A} body cleanup.
Arguments set {S} f.
Arguments console_error {S} e.
Arguments sent {S} req w.
Arguments fetch {S} answer req.
Arguments read_json {S} r.
Arguments sleep {S} ms.
Arguments for_upto {S} i count body.

Lemma bind_returned {S A B : Type} (m : M S A) (k : A -> M S B)
    (w w' : world S) (a : A) :
  m w = (Returned a, w') -> bind m k w = k a w'.
Proof. intros H. unfold bind. now rewrite H. Qed.

Lemma bind_throws {S A B : Type} (m : M S A) (k : A -> M S B)
    (w w' : world S) (e : thrown) :
  m w = (Throws e, w') -> bind m k w = (Throws e, w').
Proof. intros H. unfold bind. now rewrite H. Qed.

Lemma try_catch_returned {S A : Type} (body : M S A) (handler : thrown -> M S A)
    (w w' : world S) (a : A) :
  body w = (Returned a, w') -> try_catch body handler w = (Returned a, w').
Proof. intros H. unfold try_catch. now rewrite H. Qed.

Lemma try_catch_throws {S A : Type} (body : M S A) (handler : thrown -> M S A)
    (w w' : world S) (e : thrown) :
  body w = (Throws e, w') -> try_catch body handler w = handler e w'.
Proof. intros H. unfold try_catch. now rewrite H. Qed.

Module Notations.
Notation "'let*' x ':=' m 'in' k" := (bind m (fun x => k))
  (at level 10, x name, m at level 100, k at level 200).
Notation "'do' m 'then' k" := (bind m (fun _ => k))
  (at level 10, m at level 100, k at level 200).
End Notations.

(** [parseInt(s)] without a radix: leading white space, a sign, an optional
    0x, then the longest run of digits; NaN when there is none. *)
Definition digit_value (radix : nat) (c : ascii) : option Z :=
  let n := nat_of_ascii c in
  let v :=
    if (48 <=? n)%nat && (n <=? 57)%nat then Some (n - 48)%nat
    else if (97 <=? n)%nat && (n <=? 122)%nat then Some (n - 87)%nat
    else if (65 <=? n)%nat && (n <=? 90)%nat then Some (n - 55)%nat
    else None in
  match v with
  | Some d => if (d <? radix)%nat then Some (Z.of_nat d) else None
  | None => None
  end.

Fixpoint digits_prefix (radix : nat) (s : string) (acc : option Z) : option Z :=
  match s with
  | EmptyString => acc
  | String c rest =>
      match digit_value radix c with
      | Some d =>
          digits_prefix radix rest
            (Some (match acc with Some a => a * Z.of_nat radix + d | None => d end)%Z)
      | None => acc
      end
  end.

Definition parseInt (F : float_format) (s : string) : num :=
  let s1 := Csv.trimStart s in
  let '(negative, s2) :=
    match s1 with
    | String "-"%char r => (true, r)
    | String "+"%char r => (false, r)
    | _ => (false, s1)
    end in
  let '(radix, s3) :=
    match s2 with
    | String "0"%char (String "x"%char r) => (16%nat, r)
    | String "0"%char (String "X"%char r) => (16%nat, r)
    | _ => (10%nat, s2)
    end in
  match digits_prefix radix s3 None with
  | Some n => finish F (inject_Z (if negative then - n else n))
  | None => NaN
  end.

Example parseInt_examples :
  parseInt exact_format "2" = Fin 2 /\ parseInt exact_format " 42px" = Fin 42 /\
  parseInt exact_format "0x1f" = Fin 31 /\ parseInt exact_format "x" = NaN.
Proof. repeat split. Qed.

End Async.

(** ** src/pages/Quantum.tsx *)

Module Quantum.
Import JSNum JSValue Async Async.Notations.

Record state := {
  isProcessing : bool;
  progress : num;
  results : value
}.

(** The settings the handler closes over: [nQubits[0]], [featureDimension]
    and [kernelType]. *)
Record settings := {
  nQubits : nat;
  featureDimension : string;
  kernelType : string
}.

Definition setIsProcessing (b : bool) (s : state) : state :=
  {| isProcessing := b; progress := progress s; results := results s |}.

Definition setProgress (p : num) (s : state) : state :=
  {| isProcessing := isProcessing s; progress := p; results := results s |}.

Definition setResults (v : value) (s : state) : state :=
  {| isProcessing := isProcessing s; progress := progress s; results := v |}.

Section Handler.
Variable F : float_format.
(** The network's answer to the one request of the handler. *)
Variable answer : fetch_outcome.
Variable cfg : settings.

Definition numbers (qs : list Q) : value :=
  VArr (List.map (fun q => VNum (lit F q)) qs).

Definition request_payload : value :=
  obj [("x_num", VArr [numbers [1 # 10; 2 # 10; 3 # 10; 4 # 10; 5 # 10]]);
       ("x_cat", VArr [numbers [1; 0]]);
       ("kernel_type", VStr (kernelType cfg));
       ("n_qubits", VNum (of_nat (nQubits cfg)));
       ("feature_dimension", VNum (parseInt F (featureDimension cfg)))]%Q.

Definition qsvc_request : request :=
  {| url := "/api/qsvc"; method := "POST"; body := JsonBody request_payload |}.

(** The object literal of the two fallback branches. *)
Definition mock_results : value :=
  obj [("predictions", numbers [2; 0; 1]);
       ("probabilities",
        VArr [numbers [1 # 10; 2 # 10; 7 # 10];
              numbers [8 # 10; 15 # 100; 5 # 100];
              numbers [2 # 10; 6 # 10; 2 # 10]]);
       ("quantum_circuit_info",
        obj [("n_qubits", VNum (of_nat (nQubits cfg)));
             ("feature_dimension", VNum (parseInt F (featureDimension cfg)));
             ("circuit_depth", VNum (lit F 4));
             ("gate_count", VNum (lit F 12));
             ("simulation_method", VStr "statevector")]);
       ("processing_time", VNum (lit F (23 # 10)))]%Q.

Definition simulate_circuit : M state unit :=
  for_upto 0 21
    (fun i =>
       do sleep 100 then
       set (setProgress (js_mul F (js_div F (of_nat i) (lit F 20)) (lit F 100)))).

Definition handleQuantumSimulation : M state unit :=
  do set (setIsProcessing true) then
  do set (setProgress (lit F 0)) then
  do simulate_circuit then
  do try_catch
       (let* response := fetch answer qsvc_request in
        if ok response
        then let* data := read_json response in set (setResults data)
        else set (setResults mock_results))
       (fun error =>
          do console_error error then
          set (setResults mock_results)) then
  set (setIsProcessing false).

(** What [results] holds after the handler, by the answer to the request. *)
Definition results_for (answer : fetch_outcome) : value :=
  match answer with
  | Rejects _ => mock_results
  | Responds r =>
      if ok r
      then match json r with
           | JsonData data => data
           | JsonRejects _ => mock_results
           end
      else mock_results
  end.

End Handler.

Section HandlerFacts.
Variable F : float_format.
(** The network's answer to the one request of the handler. *)
Variable answer : fetch_outcome.
Variable cfg : settings.

(** The progress loop touches nothing but [progress]. *)
Lemma progress_loop_frame (body_progress : nat -> num) (count : nat) :
  forall (i : nat) (w : world state),
  exists w',
    for_upto i count (fun i => do sleep 100 then set (setProgress (body_progress i))) w
    = (Returned tt, w') /\
    requests w' = requests w /\ console w' = console w /\
    isProcessing (ui w') = isProcessing (ui w) /\
    results (ui w') = results (ui w).
Proof.
  induction count as [| count IH]; intros i w; cbn [for_upto].
  - exists w. now repeat split.
  - unfold bind at 1. unfold bind at 1. unfold sleep, ret, set. cbn [ui requests console].
    destruct (IH (S i) {| ui := setProgress (body_progress i) (ui w);
                          requests := requests w; console := console w |})
      as (w' & E & Hr & Hc & Hp & Hres).
    exists w'. split; [exact E |]. cbn in Hr, Hc, Hp, Hres. now repeat split.
Qed.

Lemma handleQuantumSimulation_run (w : world state) :
  exists w',
    handleQuantumSimulation F answer cfg w = (Returned tt, w') /\
    requests w' = requests w ++ [qsvc_request F cfg] /\
    isProcessing (ui w') = false /\
    results (ui w') = results_for F cfg answer.
Proof.
  unfold handleQuantumSimulation.
  erewrite bind_returned by reflexivity.
  erewrite bind_returned by reflexivity.
  unfold simulate_circuit.
  match goal with |- context [for_upto 0 21 ?b] =>
    match goal with |- context [bind (for_upto 0 21 b) ?k ?w0] =>
      destruct (progress_loop_frame
                  (fun i => js_mul F (js_div F (of_nat i) (lit F 20)) (lit F 100)) 21 0 w0)
        as (w1 & E & Hr & Hc & Hp & Hres)
    end
  end.
  rewrite (bind_returned _ _ _ _ _ E).
  cbn [requests console ui] in Hr, Hc.
  unfold results_for. rewrite <- Hr.
  destruct answer as [e | r].
  - erewrite bind_returned.
    2:{ erewrite try_catch_throws.
        2:{ erewrite bind_throws by reflexivity. reflexivity. }
        erewrite bind_returned by reflexivity. reflexivity. }
    eexists. split; [reflexivity |]. cbn. repeat split.
  - destruct (ok r) eqn:K.
    + destruct (json r) as [e | data] eqn:J.
      * erewrite bind_returned.
        2:{ erewrite try_catch_throws.
            2:{ erewrite bind_returned by reflexivity.
                rewrite K. erewrite bind_throws.
                2:{ unfold read_json. rewrite J. reflexivity. }
                reflexivity. }
            erewrite bind_returned by reflexivity. reflexivity. }
        eexists. split; [reflexivity |]. cbn. repeat split.
      * erewrite bind_returned.
        2:{ erewrite try_catch_returned.
            2:{ erewrite bind_returned by reflexivity.
                rewrite K. erewrite bind_returned.
                2:{ unfold read_json. rewrite J. reflexivity. }
                reflexivity. }
            reflexivity. }
        eexists. split; [reflexivity |]. cbn. repeat split.
    + erewrite bind_returned.
      2:{ erewrite try_catch_returned.
          2:{ erewrite bind_returned by reflexivity.
              rewrite K. reflexivity. }
          reflexivity. }
      eexists. split; [reflexivity |]. cbn. repeat split.
Qed.

End HandlerFacts.

End Quantum.

(** ** src/pages/Adversarial.tsx *)

Module Adversarial.
Import JSNum JSValue Async Async.Notations.

Record state := {
  isProcessing : bool;
  progress : num;
  results : value
}.

(** [attackType], [epsilon[0]] and [maxIterations[0]]. *)
Record settings := {
  attackType : string;
  epsilon : num;
  maxIterations : num
}.

Definition setIsProcessing (b : bool) (s : state) : state :=
  {| isProcessing := b; progress := progress s; results := results s |}.

Definition setProgress (p : num) (s : state) : state :=
  {| isProcessing := isProcessing s; progress := p; results := results s |}.

Definition setResults (v : value) (s : state) : state :=
  {| isProcessing := isProcessing s; progress := progress s; results := v |}.

Section Handler.
Variable F : float_format.
(** The network's answer to the one request of the handler. *)
Variable answer : fetch_outcome.
Variable cfg : settings.

Definition numbers (qs : list Q) : value :=
  VArr (List.map (fun q => VNum (lit F q)) qs).

Definition request_payload : value :=
  obj [("x_num", VArr [numbers [1 # 10; 2 # 10; 3 # 10; 4 # 10; 5 # 10]]);
       ("x_cat", VArr [numbers [1; 0]]);
       ("attack_type", VStr (attackType cfg));
       ("epsilon", VNum (epsilon cfg));
       ("max_iterations", VNum (maxIterations cfg))]%Q.

Definition adversarial_request : request :=
  {| url := "/api/adversarial"; method := "POST"; body := JsonBody request_payload |}.

(** The object literal of the two fallback branches. *)
Definition mock_results : value :=
  obj [("original_predictions", numbers [2; 0; 1]);
       ("adversarial_predictions", numbers [0; 2; 0]);
       ("x_num_adv", VArr [numbers [15 # 100; 18 # 100; 25 # 100; 38 # 100; 45 # 100]]);
       ("x_cat_adv", VArr [numbers [1; 0]]);
       ("success_rate", VNum (lit F (67 # 100)));
       ("perturbation_stats",
        obj [("l0_norm", VNum (lit F (23 # 10)));
             ("l2_norm", VNum (lit F (12 # 100)));
             ("linf_norm", VNum (lit F (8 # 100)))]);
       ("attack_time", VNum (lit F (18 # 10)))]%Q.

Definition simulate_attack : M state unit :=
  for_upto 0 16
    (fun i =>
       do sleep 150 then
       set (setProgress (js_mul F (js_div F (of_nat i) (lit F 15)) (lit F 100)))).

Definition handleAdversarialAttack : M state unit :=
  do set (setIsProcessing true) then
  do set (setProgress (lit F 0)) then
  do simulate_attack then
  do try_catch
       (let* response := fetch answer adversarial_request in
        if ok response
        then let* data := read_json response in set (setResults data)
        else set (setResults mock_results))
       (fun error =>
          do console_error error then
          set (setResults mock_results)) then
  set (setIsProcessing false).

(** What [results] holds after the handler, by the answer to the request. *)
Definition results_for (answer : fetch_outcome) : value :=
  match answer with
  | Rejects _ => mock_results
  | Responds r =>
      if ok r
      then match json r with
           | JsonData data => data
           | JsonRejects _ => mock_results
           end
      else mock_results
  end.

End Handler.

Section HandlerFacts.
Variable F : float_format.
(** The network's answer to the one request of the handler. *)
Variable answer : fetch_outcome.
Variable cfg : settings.

Lemma attack_loop_frame (body_progress : nat -> num) (count : nat) :
  forall (i : nat) (w : world state),
  exists w',
    for_upto i count (fun i => do sleep 150 then set (setProgress (body_progress i))) w
    = (Returned tt, w') /\
    requests w' = requests w /\ console w' = console w /\
    isProcessing (ui w') = isProcessing (ui w) /\
    results (ui w') = results (ui w).
Proof.
  induction count as [| count IH]; intros i w; cbn [for_upto].
  - exists w. now repeat split.
  - unfold bind at 1. unfold bind at 1. unfold sleep, ret, set. cbn [ui requests console].
    destruct (IH (S i) {| ui := setProgress (body_progress i) (ui w);
                          requests := requests w; console := console w |})
      as (w' & E & Hr & Hc & Hp & Hres).
    exists w'. split; [exact E |]. cbn in Hr, Hc, Hp, Hres. now repeat split.
Qed.

Lemma handleAdversarialAttack_run (w : world state) :
  exists w',
    handleAdversarialAttack F answer cfg w = (Returned tt, w') /\
    requests w' = requests w ++ [adversarial_request F cfg] /\
    isProcessing (ui w') = false /\
    results (ui w') = results_for F answer.
Proof.
  unfold handleAdversarialAttack.
  erewrite bind_returned by reflexivity.
  erewrite bind_returned by reflexivity.
  unfold simulate_attack.
  match goal with |- context [for_upto 0 16 ?b] =>
    match goal with |- context [bind (for_upto 0 16 b) ?k ?w0] =>
      destruct (attack_loop_frame
                  (fun i => js_mul F (js_div F (of_nat i) (lit F 15)) (lit F 100)) 16 0 w0)
        as (w1 & E & Hr & Hc & Hp & Hres)
    end
  end.
  rewrite (bind_returned _ _ _ _ _ E).
  cbn [requests console ui] in Hr, Hc.
  unfold results_for. rewrite <- Hr.
  destruct answer as [e | r].
  - erewrite bind_returned.
    2:{ erewrite try_catch_throws.
        2:{ erewrite bind_throws by reflexivity. reflexivity. }
        erewrite bind_returned by reflexivity. reflexivity. }
    eexists. split; [reflexivity |]. cbn. repeat split.
  - destruct (ok r) eqn:K.
    + destruct (json r) as [e | data] eqn:J.
      * erewrite bind_returned.
        2:{ erewrite try_catch_throws.
            2:{ erewrite bind_returned by reflexivity.
                rewrite K. erewrite bind_throws.
                2:{ unfold read_json. rewrite J. reflexivity. }
                reflexivity. }
            erewrite bind_returned by reflexivity. reflexivity. }
        eexists. split; [reflexivity |]. cbn. repeat split.
      * erewrite bind_returned.
        2:{ erewrite try_catch_returned.
            2:{ erewrite bind_returned by reflexivity.
                rewrite K. erewrite bind_returned.
                2:{ unfold read_json. rewrite J. reflexivity. }
                reflexivity. }
            reflexivity. }
        eexists. split; [reflexivity |]. cbn. repeat split.
    + erewrite bind_returned.
      2:{ erewrite try_catch_returned.
          2:{ erewrite bind_returned by reflexivity.
              rewrite K. reflexivity. }
          reflexivity. }
      eexists. split; [reflexivity |]. cbn. repeat split.
Qed.

End HandlerFacts.

End Adversarial.

(** ** The fallback of the Quantum and Adversarial pages *)

Module Fallback.
Import JSNum JSValue Async.

(** C5, as the code has it: whatever the answer to the POST, the handler
    returns without throwing, has sent that one request and no other, and
    leaves isProcessing false; when the request failed, [results] is the mock
    object literal of the handler: on the Adversarial page a constant, on the
    Quantum page the literal with n_qubits and feature_dimension taken from
    the current settings. *)
Theorem fetch_failure_falls_back :
  (forall F answer cfg (w : world Quantum.state),
      exists w',
        Quantum.handleQuantumSimulation F answer cfg w = (Returned tt, w') /\
        requests w' = requests w ++ [Quantum.qsvc_request F cfg] /\
        Quantum.isProcessing (ui w') = false /\
        (failed answer -> Quantum.results (ui w') = Quantum.mock_results F cfg)) /\
  (forall F answer cfg (w : world Adversarial.state),
      exists w',
        Adversarial.handleAdversarialAttack F answer cfg w = (Returned tt, w') /\
        requests w' = requests w ++ [Adversarial.adversarial_request F cfg] /\
        Adversarial.isProcessing (ui w') = false /\
        (failed answer -> Adversarial.results (ui w') = Adversarial.mock_results F)).
Proof.
  split; intros F answer cfg w.
  - destruct (Quantum.handleQuantumSimulation_run F answer cfg w)
      as (w' & E & Hr & Hp & Hres).
    exists w'. split; [exact E |]. split; [exact Hr |]. split; [exact Hp |].
    intros Hf. rewrite Hres. destruct answer as [e | r]; [reflexivity |].
    cbn in Hf |- *. now rewrite Hf.
  - destruct (Adversarial.handleAdversarialAttack_run F answer cfg w)
      as (w' & E & Hr & Hp & Hres).
    exists w'. split; [exact E |]. split; [exact Hr |]. split; [exact Hp |].
    intros Hf. rewrite Hres. destruct answer as [e | r]; [reflexivity |].
    cbn in Hf |- *. now rewrite Hf.
Qed.

Definition quantum_page : world Quantum.state :=
  {| ui := {| Quantum.isProcessing := false;
              Quantum.progress := lit binary64 0;
              Quantum.results := VNull |};
     requests := [];
     console := [] |}.

Definition four_qubits : Quantum.settings :=
  {| Quantum.nQubits := 4; Quantum.featureDimension := "2"; Quantum.kernelType := "rbf" |}.

Definition eight_qubits : Quantum.settings :=
  {| Quantum.nQubits := 8; Quantum.featureDimension := "2"; Quantum.kernelType := "rbf" |}.

(** C5, counterexample to "a fixed mock object": the same failed request
    leaves different [results] on the Quantum page under different slider
    settings (n_qubits 4 against 8). *)
Lemma quantum_fallback_follows_settings :
  Quantum.results
    (ui (snd (Quantum.handleQuantumSimulation binary64
                (Rejects (ErrorObject "Failed to fetch")) four_qubits quantum_page)))
  = Quantum.mock_results binary64 four_qubits /\
  Quantum.results
    (ui (snd (Quantum.handleQuantumSimulation binary64
                (Rejects (ErrorObject "Failed to fetch")) eight_qubits quantum_page)))
  = Quantum.mock_results binary64 eight_qubits /\
  Quantum.mock_results binary64 four_qubits
  <> Quantum.mock_results binary64 eight_qubits /\
  get bare_host (get bare_host (Quantum.mock_results binary64 eight_qubits)
                     "quantum_circuit_info") "n_qubits" = VNum (Fin 8).
Proof.
  split; [vm_compute; reflexivity |]. split; [vm_compute; reflexivity |].
  split; [| reflexivity].
  vm_compute. intros H. discriminate H.
Qed.

End Fallback.

(** ** src/pages/DataUpload.tsx *)

Module DataUpload.
Import JSNum JSValue Async Async.Notations.

(** The component state [uploadAndAnalyze] touches, and whether the
    upload-progress timer it starts is still set. *)
Record state := {
  isUploading : bool;
  isAnalyzing : bool;
  uploadProgress : num;
  dataProfile : value;
  actionPlan : value;
  error : option string;
  activeTab : string;
  progressInterval : bool
}.

Definition setIsUploading (b : bool) (s : state) : state :=
  {| isUploading := b; isAnalyzing := isAnalyzing s; uploadProgress := uploadProgress s;
     dataProfile := dataProfile s; actionPlan := actionPlan s; error := error s;
     activeTab := activeTab s; progressInterval := progressInterval s |}.

Definition setIsAnalyzing (b : bool) (s : state) : state :=
  {| isUploading := isUploading s; isAnalyzing := b; uploadProgress := uploadProgress s;
     dataProfile := dataProfile s; actionPlan := actionPlan s; error := error s;
     activeTab := activeTab s; progressInterval := progressInterval s |}.

Definition setUploadProgress (p : num) (s : state) : state :=
  {| isUploading := isUploading s; isAnalyzing := isAnalyzing s; uploadProgress := p;
     dataProfile := dataProfile s; actionPlan := actionPlan s; error := error s;
     activeTab := activeTab s; progressInterval := progressInterval s |}.

Definition setDataProfile (v : value) (s : state) : state :=
  {| isUploading := isUploading s; isAnalyzing := isAnalyzing s;
     uploadProgress := uploadProgress s;
     dataProfile := v; actionPlan := actionPlan s; error := error s;
     activeTab := activeTab s; progressInterval := progressInterval s |}.

Definition setActionPlan (v : value) (s : state) : state :=
  {| isUploading := isUploading s; isAnalyzing := isAnalyzing s;
     uploadProgress := uploadProgress s;
     dataProfile := dataProfile s; actionPlan := v; error := error s;
     activeTab := activeTab s; progressInterval := progressInterval s |}.

Definition setError (e : option string) (s : state) : state :=
  {| isUploading := isUploading s; isAnalyzing := isAnalyzing s;
     uploadProgress := uploadProgress s;
     dataProfile := dataProfile s; actionPlan := actionPlan s; error := e;
     activeTab := activeTab s; progressInterval := progressInterval s |}.

Definition setActiveTab (t : string) (s : state) : state :=
  {| isUploading := isUploading s; isAnalyzing := isAnalyzing s;
     uploadProgress := uploadProgress s;
     dataProfile := dataProfile s; actionPlan := actionPlan s; error := error s;
     activeTab := t; progressInterval := progressInterval s |}.

(** [setInterval] and [clearInterval] on [progressInterval]. *)
Definition setProgressInterval (on : bool) (s : state) : state :=
  {| isUploading := isUploading s; isAnalyzing := isAnalyzing s;
     uploadProgress := uploadProgress s;
     dataProfile := dataProfile s; actionPlan := actionPlan s; error := error s;
     activeTab := activeTab s; progressInterval := on |}.

(** [err instanceof Error ? err.message : 'Unknown error occurred'] *)
Definition message_of (err : thrown) : string :=
  match err with
  | ErrorObject message => message
  | NotAnError => "Unknown error occurred"
  end.

Section Handler.
Variable F : float_format.
Variable host_get : value -> string -> value.
(** [String(v)], as a template literal converts a value. *)
Variable ToString : value -> string.
(** The message of the TypeError for reading a property of null or
    undefined. *)
Variable type_error_message : value -> string -> string.
(** How often the progress timer fires during each of the four awaits. *)
Variable fired : nat -> nat.
(** The network's answers to the upload and to the profile request. *)
Variable upload_answer : fetch_outcome.
Variable profile_answer : fetch_outcome.

(** The callback of the progress timer. *)
Definition progress_tick (s : state) : state :=
  if progressInterval s then
    if js_ge (uploadProgress s) (lit F 90)
    then setUploadProgress (lit F 90) (setProgressInterval false s)
    else setUploadProgress (js_add F (uploadProgress s) (lit F 10)) s
  else s.

(** [await m]: while the handler waits, the timer fires [fired j] times. *)
Definition await {A} (j : nat) (m : M state A) : M state A :=
  fun w =>
    match m w with
    | (r, w') =>
        (r, {| ui := Nat.iter (fired j) progress_tick (ui w');
               requests := requests w'; console := console w' |})
    end.

(** [v.key]: a TypeError on null and undefined. *)
Definition get_prop (v : value) (key : string) : M state value :=
  match v with
  | VUndefined | VNull => throw (ErrorObject (type_error_message v key))
  | _ => ret (get host_get v key)
  end.

Definition upload_request (file : string) : request :=
  {| url := "/api/data/upload"; method := "POST"; body := FormBody file |}.

Definition profile_request (dataset_id : value) : request :=
  {| url := "/api/data/" ++ ToString dataset_id ++ "/profile";
     method := "GET"; body := NoBody |}.

(** The body of the [try]. *)
Definition try_block (file : string) : M state unit :=
  do set (setProgressInterval true) then
  let* uploadResponse := await 0 (fetch upload_answer (upload_request file)) in
  do set (setProgressInterval false) then
  do set (setUploadProgress (lit F 100)) then
  do (if negb (ok uploadResponse)
      then throw (ErrorObject ("Upload failed: " ++ statusText uploadResponse))
      else ret tt) then
  let* uploadResult := await 1 (read_json uploadResponse) in
  do set (setIsUploading false) then
  do set (setIsAnalyzing true) then
  let* dataset_id := get_prop uploadResult "dataset_id" in
  let* analysisResponse := await 2 (fetch profile_answer (profile_request dataset_id)) in
  do (if negb (ok analysisResponse)
      then throw (ErrorObject ("Analysis failed: " ++ statusText analysisResponse))
      else ret tt) then
  let* analysisResult := await 3 (read_json analysisResponse) in
  let* profile := get_prop analysisResult "profile" in
  do set (setDataProfile profile) then
  let* action_plan := get_prop analysisResult "action_plan" in
  do set (setActionPlan action_plan) then
  set (setActiveTab "profile").

Definition uploadAndAnalyze (file : string) : M state unit :=
  do set (setIsUploading true) then
  do set (setIsAnalyzing false) then
  do set (setUploadProgress (lit F 0)) then
  do set (setError None) then
  try_finally
    (try_catch (try_block file)
       (fun err => set (setError (Some (message_of err)))))
    (do set (setIsUploading false) then
     set (setIsAnalyzing false)).

End Handler.

(** The failure points the requests offer: the upload request throws or is
    answered not ok; or it succeeds with a JSON body that has properties,
    and the profile request throws or is answered not ok.  Each comes with
    the message the catch clause derives. *)
Inductive request_failure (upload_answer profile_answer : fetch_outcome)
  : string -> Prop :=
| upload_throws e :
    upload_answer = Rejects e ->
    request_failure upload_answer profile_answer (message_of e)
| upload_not_ok r :
    upload_answer = Responds r -> ok r = false ->
    request_failure upload_answer profile_answer ("Upload failed: " ++ statusText r)
| profile_throws r data e :
    upload_answer = Responds r -> ok r = true -> json r = JsonData data ->
    data <> VNull -> data <> VUndefined ->
    profile_answer = Rejects e ->
    request_failure upload_answer profile_answer (message_of e)
| profile_not_ok r data r' :
    upload_answer = Responds r -> ok r = true -> json r = JsonData data ->
    data <> VNull -> data <> VUndefined ->
    profile_answer = Responds r' -> ok r' = false ->
    request_failure upload_answer profile_answer ("Analysis failed: " ++ statusText r').

(** *** What a failure leaves behind *)

Section Facts.
Variable F : float_format.
Variable host_get : value -> string -> value.
Variable ToString : value -> string.
Variable type_error_message : value -> string -> string.
Variable fired : nat -> nat.
Variable upload_answer : fetch_outcome.
Variable profile_answer : fetch_outcome.

Local Abbreviation try_block :=
  (try_block F host_get ToString type_error_message fired upload_answer profile_answer).
Local Abbreviation uploadAndAnalyze :=
  (uploadAndAnalyze F host_get ToString type_error_message fired
     upload_answer profile_answer).
Local Abbreviation await := (await F fired).
Local Abbreviation get_prop := (get_prop host_get type_error_message).

(** The profile and the action plan are those of [s]. *)
Definition same_data (s s' : state) : Prop :=
  dataProfile s' = dataProfile s /\ actionPlan s' = actionPlan s.

Lemma same_data_refl s : same_data s s.
Proof. now split. Qed.

Lemma same_data_trans s1 s2 s3 :
  same_data s1 s2 -> same_data s2 s3 -> same_data s1 s3.
Proof. intros [A B] [C D]. split; congruence. Qed.

(** The timer callback writes the progress and the timer only. *)
Lemma progress_ticks_frame (n : nat) (s : state) :
  isUploading (Nat.iter n (progress_tick F) s) = isUploading s /\
  isAnalyzing (Nat.iter n (progress_tick F) s) = isAnalyzing s /\
  dataProfile (Nat.iter n (progress_tick F) s) = dataProfile s /\
  actionPlan (Nat.iter n (progress_tick F) s) = actionPlan s /\
  error (Nat.iter n (progress_tick F) s) = error s.
Proof.
  induction n as [| n IH]; [now repeat split |].
  rewrite Nat.iter_succ. destruct IH as (A & B & C & D & E).
  unfold progress_tick at 1 3 5 7 9.
  destruct (progressInterval _); [| now repeat split].
  destruct (js_ge _ _); cbn; now repeat split.
Qed.

(** A computation that leaves profile and plan alone, however it ends. *)
Definition keeps {A} (m : M state A) : Prop :=
  forall w r w', m w = (r, w') -> same_data (ui w) (ui w').

(** A computation that has left them alone whenever it throws. *)
Definition keeps_if_thrown {A} (m : M state A) : Prop :=
  forall w e w', m w = (Throws e, w') -> same_data (ui w) (ui w').

Lemma keeps_thrown {A} (m : M state A) : keeps m -> keeps_if_thrown m.
Proof. intros H w e w' E. exact (H w _ w' E). Qed.

Lemma keeps_bind {A B} (m : M state A) (k : A -> M state B) :
  keeps m -> (forall a, keeps_if_thrown (k a)) -> keeps_if_thrown (bind m k).
Proof.
  intros Hm Hk w e w' E. unfold bind in E.
  destruct (m w) as [[a | e1] w1] eqn:Em.
  - eapply same_data_trans; [exact (Hm _ _ _ Em) | exact (Hk a _ _ _ E)].
  - injection E as <- <-. exact (Hm _ _ _ Em).
Qed.

Lemma keeps_set (f : state -> state) :
  (forall s, same_data s (f s)) -> keeps (set f).
Proof. intros Hf w r w' E. injection E as <- <-. cbn. apply Hf. Qed.

Lemma keeps_ret {A} (a : A) : keeps (ret (S := state) a).
Proof. intros w r w' E. injection E as <- <-. apply same_data_refl. Qed.

Lemma keeps_throw {A} (e : thrown) : keeps (throw (S := state) (A := A) e).
Proof. intros w r w' E. injection E as <- <-. apply same_data_refl. Qed.

Lemma keeps_fetch (answer : fetch_outcome) (req : request) :
  keeps (fetch (S := state) answer req).
Proof.
  intros w r w' E. unfold fetch in E.
  destruct answer; injection E as <- <-; apply same_data_refl.
Qed.

Lemma keeps_read_json (r : response) : keeps (read_json (S := state) r).
Proof. unfold read_json. destruct (json r); [apply keeps_throw | apply keeps_ret]. Qed.

Lemma keeps_get_prop (v : value) (key : string) : keeps (get_prop v key).
Proof.
  unfold DataUpload.get_prop. destruct v; try apply keeps_ret; apply keeps_throw.
Qed.

Lemma keeps_await {A} (j : nat) (m : M state A) : keeps m -> keeps (await j m).
Proof.
  intros Hm w r w' E. unfold DataUpload.await in E.
  destruct (m w) as [r1 w1] eqn:Em. injection E as <- <-. cbn [ui].
  eapply same_data_trans; [exact (Hm _ _ _ Em) |].
  destruct (progress_ticks_frame (fired j) (ui w1)) as (_ & _ & C & D & _).
  now split.
Qed.

(** From [analysisResult.profile] on: either the first read throws, or
    nothing does. *)
Lemma apply_result_keeps (analysisResult : value) :
  keeps_if_thrown
    (let* profile := get_prop analysisResult "profile" in
     do set (setDataProfile profile) then
     let* action_plan := get_prop analysisResult "action_plan" in
     do set (setActionPlan action_plan) then
     set (setActiveTab "profile")).
Proof.
  intros w e w' E.
  destruct analysisResult; cbn in E; try discriminate E;
    injection E as <- <-; apply same_data_refl.
Qed.

Lemma try_block_keeps (file : string) : keeps_if_thrown (try_block file).
Proof.
  unfold DataUpload.try_block.
  apply keeps_bind; [apply keeps_set; intros s; now split | intros _].
  apply keeps_bind; [apply keeps_await, keeps_fetch | intros uploadResponse].
  apply keeps_bind; [apply keeps_set; intros s; now split | intros _].
  apply keeps_bind; [apply keeps_set; intros s; now split | intros _].
  apply keeps_bind;
    [destruct (negb (ok uploadResponse)); [apply keeps_throw | apply keeps_ret]
    | intros _].
  apply keeps_bind; [apply keeps_await, keeps_read_json | intros uploadResult].
  apply keeps_bind; [apply keeps_set; intros s; now split | intros _].
  apply keeps_bind; [apply keeps_set; intros s; now split | intros _].
  apply keeps_bind; [apply keeps_get_prop | intros dataset_id].
  apply keeps_bind; [apply keeps_await, keeps_fetch | intros analysisResponse].
  apply keeps_bind;
    [destruct (negb (ok analysisResponse)); [apply keeps_throw | apply keeps_ret]
    | intros _].
  apply keeps_bind; [apply keeps_await, keeps_read_json | intros analysisResult].
  apply apply_result_keeps.
Qed.

(** The page as the [try] finds it. *)
Definition at_try (w : world state) : world state :=
  {| ui := setError None
             (setUploadProgress (lit F 0)
                (setIsAnalyzing false (setIsUploading true (ui w))));
     requests := requests w; console := console w |}.

(** The handler always returns, with both flags down. *)
Lemma uploadAndAnalyze_returns (file : string) (w : world state) :
  exists w',
    uploadAndAnalyze file w = (Returned tt, w') /\
    isUploading (ui w') = false /\ isAnalyzing (ui w') = false /\
    (forall e w1, try_block file (at_try w) = (Throws e, w1) ->
       error (ui w') = Some (message_of e) /\ same_data (ui w) (ui w')).
Proof.
  assert (H0 : uploadAndAnalyze file w
               = try_finally
                   (try_catch (try_block file)
                      (fun err => set (setError (Some (message_of err)))))
                   (do set (setIsUploading false) then set (setIsAnalyzing false))
                   (at_try w)) by reflexivity.
  rewrite H0. clear H0. unfold try_finally, try_catch.
  destruct (try_block file (at_try w)) as [[[] | e] w1] eqn:E.
  - eexists. split; [reflexivity |]. cbn.
    split; [reflexivity |]. split; [reflexivity |]. intros e w2 [=].
  - eexists. split; [reflexivity |]. cbn.
    split; [reflexivity |]. split; [reflexivity |].
    intros e' w2 [= <- <-]. split; [reflexivity |].
    exact (try_block_keeps file _ _ _ E).
Qed.

(** Each failure point of the requests makes the [try] throw, with the
    message the claim's alert shows. *)
Lemma request_failure_throws (file : string) (w : world state) (msg : string) :
  request_failure upload_answer profile_answer msg ->
  exists e w1, try_block file w = (Throws e, w1) /\ message_of e = msg.
Proof.
  unfold DataUpload.try_block.
  intros [e Hu | r Hu Hok | r data e Hu Hok Hj Hn1 Hn2 Hp
          | r data r' Hu Hok Hj Hn1 Hn2 Hp Hok'];
    erewrite bind_returned by reflexivity.
  - exists e. eexists. split; [| reflexivity].
    erewrite bind_throws; [reflexivity |].
    unfold DataUpload.await, fetch. rewrite Hu. reflexivity.
  - exists (ErrorObject ("Upload failed: " ++ statusText r)). eexists.
    split; [| reflexivity].
    erewrite bind_returned
      by (unfold DataUpload.await, fetch; rewrite Hu; reflexivity).
    do 2 (erewrite bind_returned by reflexivity).
    rewrite Hok. cbn [negb]. erewrite bind_throws by reflexivity. reflexivity.
  - exists e. eexists. split; [| reflexivity].
    erewrite bind_returned
      by (unfold DataUpload.await, fetch; rewrite Hu; reflexivity).
    do 2 (erewrite bind_returned by reflexivity).
    rewrite Hok. cbn [negb]. erewrite bind_returned by reflexivity.
    erewrite bind_returned
      by (unfold DataUpload.await, read_json; rewrite Hj; reflexivity).
    do 2 (erewrite bind_returned by reflexivity).
    erewrite bind_returned
      by (unfold DataUpload.get_prop; destruct data; try reflexivity; contradiction).
    erewrite bind_throws; [reflexivity |].
    unfold DataUpload.await, fetch. rewrite Hp. reflexivity.
  - exists (ErrorObject ("Analysis failed: " ++ statusText r')). eexists.
    split; [| reflexivity].
    erewrite bind_returned
      by (unfold DataUpload.await, fetch; rewrite Hu; reflexivity).
    do 2 (erewrite bind_returned by reflexivity).
    rewrite Hok. cbn [negb]. erewrite bind_returned by reflexivity.
    erewrite bind_returned
      by (unfold DataUpload.await, read_json; rewrite Hj; reflexivity).
    do 2 (erewrite bind_returned by reflexivity).
    erewrite bind_returned
      by (unfold DataUpload.get_prop; destruct data; try reflexivity; contradiction).
    erewrite bind_returned
      by (unfold DataUpload.await, fetch; rewrite Hp; reflexivity).
    rewrite Hok'. cbn [negb]. erewrite bind_throws by reflexivity. reflexivity.
Qed.

End Facts.

(** C6: when the upload request or the profile request fails, the handler
    still returns; [error] holds the message ([err.message], or "Upload
    failed: ..." / "Analysis failed: ..." with the status text),
    [dataProfile] and [actionPlan] are what they were before the call, and
    isUploading and isAnalyzing are false -- right after the handler and
    after any number of later firings of the progress timer. *)
Theorem upload_failure_shows_error (F : float_format)
    (host_get : value -> string -> value) (ToString : value -> string)
    (type_error_message : value -> string -> string) (fired : nat -> nat)
    (upload_answer profile_answer : fetch_outcome)
    (file : string) (w : world state) (msg : string) (later : nat) :
  request_failure upload_answer profile_answer msg ->
  exists w',
    uploadAndAnalyze F host_get ToString type_error_message fired
      upload_answer profile_answer file w = (Returned tt, w') /\
    error (Nat.iter later (progress_tick F) (ui w')) = Some msg /\
    dataProfile (Nat.iter later (progress_tick F) (ui w')) = dataProfile (ui w) /\
    actionPlan (Nat.iter later (progress_tick F) (ui w')) = actionPlan (ui w) /\
    isUploading (Nat.iter later (progress_tick F) (ui w')) = false /\
    isAnalyzing (Nat.iter later (progress_tick F) (ui w')) = false.
Proof.
  intros Hfail.
  destruct (uploadAndAnalyze_returns F host_get ToString type_error_message fired
              upload_answer profile_answer file w) as (w' & E & Hu & Ha & Hthrown).
  destruct (request_failure_throws F host_get ToString type_error_message fired
              upload_answer profile_answer file (at_try F w) msg Hfail)
    as (e & w1 & Et & Hm).
  destruct (Hthrown e w1 Et) as (He & Hd & Hp).
  destruct (progress_ticks_frame F later (ui w')) as (A & B & C & D & G).
  exists w'. split; [exact E |].
  rewrite A, B, C, D, G, He, Hm. now repeat split.
Qed.

Definition upload_page : world state :=
  {| ui := {| isUploading := false; isAnalyzing := false;
              uploadProgress := lit binary64 0;
              dataProfile := VNull; actionPlan := VNull; error := None;
              activeTab := "upload"; progressInterval := false |};
     requests := []; console := [] |}.

(** C6, witness: the upload request throws "Failed to fetch". *)
Lemma upload_failure_shows_error_witness :
  exists w',
    uploadAndAnalyze binary64 bare_host (fun _ => "42") (fun _ _ => "TypeError")
      (fun _ => 2%nat)
      (Rejects (ErrorObject "Failed to fetch")) (Rejects NotAnError)
      "kepler.csv" upload_page = (Returned tt, w') /\
    error (Nat.iter 3 (progress_tick binary64) (ui w')) = Some "Failed to fetch" /\
    dataProfile (Nat.iter 3 (progress_tick binary64) (ui w')) = VNull /\
    actionPlan (Nat.iter 3 (progress_tick binary64) (ui w')) = VNull /\
    isUploading (Nat.iter 3 (progress_tick binary64) (ui w')) = false /\
    isAnalyzing (Nat.iter 3 (progress_tick binary64) (ui w')) = false.
Proof.
  apply (upload_failure_shows_error binary64 bare_host (fun _ => "42")
           (fun _ _ => "TypeError") (fun _ => 2%nat)
           (Rejects (ErrorObject "Failed to fetch")) (Rejects NotAnError)
           "kepler.csv" upload_page "Failed to fetch" 3).
  apply (upload_throws _ _ (ErrorObject "Failed to fetch")). reflexivity.
Defined.

(** A run with a profile request answered 500, evaluated. *)
Example analysis_failure_example :
  let upload_ok := Responds {| ok := true; statusText := "OK";
                               json := JsonData (obj [("dataset_id", VStr "d1")]) |} in
  let profile_500 := Responds {| ok := false; statusText := "Internal Server Error";
                                 json := JsonRejects NotAnError |} in
  let w' := snd (uploadAndAnalyze binary64 bare_host (fun _ => "d1")
                   (fun _ _ => "TypeError") (fun _ => 1%nat)
                   upload_ok profile_500 "kepler.csv" upload_page) in
  error (ui w') = Some "Analysis failed: Internal Server Error" /\
  dataProfile (ui w') = VNull /\ isUploading (ui w') = false /\
  isAnalyzing (ui w') = false /\
  List.map url (requests w') = ["/api/data/upload"; "/api/data/d1/profile"].
Proof. vm_compute. repeat split. Qed.

End DataUpload.

(** ** More of JavaScript's Number operations *)

Module JSMath.
Import JSNum.
Local Open Scope Q_scope.

(** [a > b] *)
Definition js_gt (a b : num) : bool := js_lt b a.

(** [a === b] on Numbers: false when either side is NaN. *)
Definition js_eq (a b : num) : bool :=
  match a, b with
  | Fin x, Fin y => Qeq_bool x y
  | Inf s, Inf t => Bool.eqb s t
  | _, _ => false
  end.

Definition Math_floor (a : num) : num :=
  match a with
  | Fin x => Fin (inject_Z (Qfloor x))
  | _ => a
  end.

Definition Math_abs (a : num) : num :=
  match a with
  | NaN => NaN
  | Inf _ => Inf false
  | Fin x => Fin (Qabs x)
  end.

(** The integer part of a rational, towards zero. *)
Definition Qtrunc (x : Q) : Z :=
  if Qle_bool 0 x then Qfloor x else (- Qfloor (- x))%Z.

(** [a % b]: the remainder has the sign of the dividend and is exact, so
    nothing is rounded. *)
Definition js_mod (a b : num) : num :=
  match a, b with
  | NaN, _ | _, NaN => NaN
  | Inf _, _ => NaN
  | Fin x, Inf _ => Fin x
  | Fin x, Fin y =>
      if Qeq_bool y 0 then NaN else Fin (x - y * inject_Z (Qtrunc (x / y)))
  end.

End JSMath.

(** ** src/lib/i18n-utils.ts: [truncateText]

    Text is a sequence of code units below 256. *)

Module Truncate.
Import JSNum JSMath.

(** The position [substring] takes from an argument: its integer part,
    NaN read as 0, kept between 0 and the length of the string. *)
Definition clamp_index (len : nat) (x : num) : nat :=
  match x with
  | NaN => 0%nat
  | Inf true => 0%nat
  | Inf false => len
  | Fin q => Nat.min len (Z.to_nat (Qfloor q))
  end.

(** [s.substring(a, b)]: the arguments are swapped when [a] is the larger. *)
Definition substring (s : string) (a b : num) : string :=
  let i := clamp_index (String.length s) a in
  let j := clamp_index (String.length s) b in
  String.substring (Nat.min i j) (Nat.max i j - Nat.min i j) s.

(** [s.lastIndexOf(c)] for a search string of one code unit: the last
    position holding it, or -1. *)
Fixpoint last_index (s : string) (c : ascii) (i : Z) (found : Z) : Z :=
  match s with
  | EmptyString => found
  | String d rest => last_index rest c (i + 1) (if Ascii.eqb d c then i else found)
  end.

Definition lastIndexOf (s : string) (c : ascii) : Z := last_index s c 0 (-1).

Section TruncateText.
Variable F : float_format.

Definition truncateText (text : string) (maxLength : num) (locale : string) : string :=
  if js_le (of_nat (String.length text)) maxLength then text
  else if String.eqb locale "ar" then
    let truncated := substring text (lit F 0) (js_sub F maxLength (lit F 3)) in
    let lastSpace := lastIndexOf truncated " " in
    if js_gt (Fin (inject_Z lastSpace)) (js_mul F maxLength (lit F (7 # 10)))
    then substring truncated (lit F 0) (Fin (inject_Z lastSpace)) ++ "..."
    else truncated ++ "..."
  else
    let truncated := substring text (lit F 0) (js_sub F maxLength (lit F 3)) in
    let lastSpace := lastIndexOf truncated " " in
    if js_gt (Fin (inject_Z lastSpace)) (js_mul F maxLength (lit F (8 # 10)))
    then substring truncated (lit F 0) (Fin (inject_Z lastSpace)) ++ "..."
    else truncated ++ "...".

End TruncateText.

(** *** Facts *)

Lemma substring_0_length (s : string) : forall n,
  String.length (String.substring 0 n s) = Nat.min n (String.length s).
Proof.
  induction s as [| c s IH]; intros [| n]; cbn; try reflexivity.
  now rewrite IH.
Qed.

Lemma length_append (s t : string) :
  String.length (s ++ t) = (String.length s + String.length t)%nat.
Proof.
  induction s as [| c s IH]; [reflexivity |].
  change (S (String.length (s ++ t)) = S (String.length s + String.length t)).
  now f_equal.
Qed.

Lemma substring_0_twice (s : string) : forall a b,
  String.substring 0 a (String.substring 0 b s) = String.substring 0 (Nat.min a b) s.
Proof.
  induction s as [| c s IH]; intros [| a] [| b]; cbn; try reflexivity.
  now rewrite IH.
Qed.

Lemma clamp_index_zero (F : float_format) (len : nat) : clamp_index len (lit F 0) = 0%nat.
Proof.
  destruct (lit_int F 0) as [E R]; [simpl; lia |].
  change (inject_Z 0) with 0%Q in E, R. rewrite E. cbn [clamp_index].
  rewrite R. cbn. apply Nat.min_0_r.
Qed.

(** A [substring] from position 0 is a [String.substring] from 0. *)
Lemma substring_from_zero (F : float_format) (s : string) (b : num) :
  substring s (lit F 0) b = String.substring 0 (clamp_index (String.length s) b) s.
Proof.
  unfold substring. rewrite clamp_index_zero.
  rewrite Nat.min_0_l, Nat.max_0_l, Nat.sub_0_r. reflexivity.
Qed.

(** What [maxLength - 3] allows, for an integer [maxLength]. *)
Lemma clamp_index_minus_3 (F : float_format) (len : nat) (m : Z) :
  (Z.abs m <= 2 ^ 53)%Z ->
  (Z.of_nat (clamp_index len (js_sub F (Fin (inject_Z m)) (lit F 3))) <= Z.max 0 (m - 3))%Z.
Proof.
  intros Hm.
  destruct (lit_int F 3) as [E3 R3]; [simpl; lia |].
  change (inject_Z 3) with 3%Q in E3, R3. rewrite E3.
  unfold js_sub. cbn [js_neg js_add].
  assert (U : (rnd F (inject_Z m + - rnd F 3) <= inject_Z (Z.max 0 (m - 3)))%Q).
  { destruct (Z_le_gt_dec 3 m) as [H3 | H3].
    - rewrite <- (rnd_int F (Z.max 0 (m - 3))) by lia.
      apply rnd_mono. rewrite R3.
      replace (Z.max 0 (m - 3)) with (m - 3)%Z by lia.
      unfold Zminus. rewrite inject_Z_plus. apply Qle_refl.
    - rewrite <- (rnd_int F (Z.max 0 (m - 3))) by lia.
      apply rnd_mono. rewrite R3.
      replace (Z.max 0 (m - 3)) with 0%Z by lia.
      assert (inject_Z m <= inject_Z 3)%Q by (rewrite <- Zle_Qle; lia).
      change (inject_Z 3) with 3%Q in H. change (inject_Z 0) with 0%Q. lra. }
  unfold finish.
  destruct (Qle_bool (Qabs (rnd F (inject_Z m + - rnd F 3))) (fmax F)) eqn:L.
  - cbn [clamp_index].
    apply Z.le_trans with (Z.of_nat (Z.to_nat (Qfloor (rnd F (inject_Z m + - rnd F 3)))));
      [lia |].
    apply Qfloor_resp_le in U. rewrite Qfloor_Z in U. lia.
  - destruct (Qlt_bool (rnd F (inject_Z m + - rnd F 3)) 0) eqn:S; cbn [clamp_index]; [lia |].
    (* a positive overflow is excluded by the bound on [m] *)
    exfalso.
    assert (B : (rnd F (inject_Z m + - rnd F 3) <= inject_Z (2 ^ 53))%Q).
    { apply Qle_trans with (inject_Z (Z.max 0 (m - 3))); [exact U |].
      rewrite <- Zle_Qle. lia. }
    assert (N : (0 <= rnd F (inject_Z m + - rnd F 3))%Q).
    { apply Qnot_lt_le. intros C. apply Qlt_bool_iff in C. congruence. }
    assert (T : Qle_bool (Qabs (rnd F (inject_Z m + - rnd F 3))) (fmax F) = true).
    { apply Qle_bool_iff. rewrite Qabs_pos by exact N.
      apply Qle_trans with (inject_Z (2 ^ 53)); [exact B | apply fmax_large]. }
    congruence.
Qed.

(** X2: for an integer [maxLength]: a text that fits is returned as it is; a
    longer one is cut to a prefix of at most [maxLength - 3] code units
    (none when [maxLength] is below 3) followed by three dots. *)
Theorem truncateText_spec (F : float_format) (text : string) (m : Z) (locale : string) :
  (Z.abs m <= 2 ^ 53)%Z ->
  ((Z.of_nat (String.length text) <= m)%Z ->
   truncateText F text (Fin (inject_Z m)) locale = text) /\
  ((m < Z.of_nat (String.length text))%Z ->
   exists n : nat,
     truncateText F text (Fin (inject_Z m)) locale = (String.substring 0 n text ++ "...")%string /\
     (Z.of_nat n <= Z.max 0 (m - 3))%Z /\
     (Z.of_nat (String.length (truncateText F text (Fin (inject_Z m)) locale))
      <= Z.max 3 m)%Z).
Proof.
  intros Hm. unfold truncateText, of_nat. cbn [js_le]. split.
  - intros Hfit. rewrite Qle_bool_true; [reflexivity |]. now rewrite <- Zle_Qle.
  - intros Hlong. rewrite Qle_bool_false by (now rewrite <- Zlt_Qlt).
    rewrite !substring_from_zero.
    set (k := clamp_index (String.length text) (js_sub F (Fin (inject_Z m)) (lit F 3))).
    assert (Hk : (Z.of_nat k <= Z.max 0 (m - 3))%Z) by apply clamp_index_minus_3, Hm.
    set (truncated := String.substring 0 k text).
    set (j := clamp_index (String.length truncated)
                (Fin (inject_Z (lastIndexOf truncated " ")))).
    assert (Hcut : String.substring 0 j truncated = String.substring 0 (Nat.min j k) text)
      by apply substring_0_twice.
    assert (done : forall n, (Z.of_nat n <= Z.max 0 (m - 3))%Z ->
              exists n0 : nat,
                (String.substring 0 n text ++ "...")%string = (String.substring 0 n0 text ++ "...")%string /\
                (Z.of_nat n0 <= Z.max 0 (m - 3))%Z /\
                (Z.of_nat (String.length ((String.substring 0 n text ++ "...")%string)) <= Z.max 3 m)%Z).
    { intros n Hn. exists n. split; [reflexivity |]. split; [exact Hn |].
      rewrite length_append, substring_0_length. cbn [String.length]. lia. }
    destruct (String.eqb locale "ar");
      match goal with |- context [if ?b then _ else _] => destruct b end;
      try rewrite Hcut; apply done; lia.
Qed.

Lemma truncateText_spec_witness :
  ((Z.of_nat (String.length "Transit depth and period") <= 12)%Z ->
   truncateText binary64 "Transit depth and period" (Fin (inject_Z 12)) "en"
   = "Transit depth and period") /\
  ((12 < Z.of_nat (String.length "Transit depth and period"))%Z ->
   exists n : nat,
     truncateText binary64 "Transit depth and period" (Fin (inject_Z 12)) "en"
     = (String.substring 0 n "Transit depth and period" ++ "...")%string /\
     (Z.of_nat n <= Z.max 0 (12 - 3))%Z /\
     (Z.of_nat (String.length
                  (truncateText binary64 "Transit depth and period" (Fin (inject_Z 12)) "en"))
      <= Z.max 3 12)%Z).
Proof.
  apply (truncateText_spec binary64 "Transit depth and period" 12 "en"). simpl. lia.
Defined.

Example truncateText_examples :
  truncateText binary64 "The quick brown fox jumps over" (Fin 30) "en"
  = "The quick brown fox jumps over" /\
  truncateText binary64 "The quick brown fox jumps over the lazy dog" (Fin 30) "en"
  = "The quick brown fox jumps..." /\
  truncateText binary64 "The quick brown fox jumps over the lazy dog" (Fin 25) "en"
  = "The quick brown fox ju..." /\
  truncateText binary64 "The quick brown fox jumps over the lazy dog" (Fin 25) "ar"
  = "The quick brown fox..." /\
  truncateText binary64 "abc" (Fin 2) "en" = "..." /\
  truncateText binary64 "" (Fin (-1)) "en" = "..." /\
  truncateText binary64 "abc" NaN "en" = "...".
Proof. vm_compute. repeat split. Qed.

End Truncate.

(** ** src/lib/i18n-utils.ts: [formatNumber] and [formatDuration] *)

Module Format.
Import JSNum JSMath JSValue Async.
Local Open Scope Q_scope.

Definition LOCALE_MAP : value :=
  obj [("en", VStr "en-US"); ("ar", VStr "ar-SA"); ("es", VStr "es-ES")].

(** [m >>= k] for code that may throw. *)
Definition and_then {A B} (m : result A) (k : A -> result B) : result B :=
  match m with
  | Returned a => k a
  | Throws e => Throws e
  end.

Section Formatters.
Variable F : float_format.
Variable host_get : value -> string -> value.
(** [new Intl.NumberFormat(locales, options).format(value)]; the
    constructor throws a RangeError on a locale or an option it rejects. *)
Variable NumberFormat_format : value -> value -> num -> result string.

Definition formatNumber (value : num) (locale : string) (options : JSValue.value)
  : result string :=
  let mapped := get host_get LOCALE_MAP locale in
  let intlLocale := if truthy mapped then mapped else VStr locale in
  NumberFormat_format intlLocale options value.

(** [if (cond) parts.push(formatNumber(n, locale) + unit)] *)
Definition push_part (cond : bool) (n : num) (unit : string) (locale : string)
    (parts : list string) : result (list string) :=
  if cond
  then and_then (formatNumber n locale (obj []))
         (fun text => Returned (parts ++ [(text ++ unit)%string]))
  else Returned parts.

Definition formatDuration (seconds : num) (locale : string) : result string :=
  let hours := Math_floor (js_div F seconds (lit F 3600)) in
  let minutes := Math_floor (js_div F (js_mod seconds (lit F 3600)) (lit F 60)) in
  let secs := Math_floor (js_mod seconds (lit F 60)) in
  and_then (push_part (js_gt hours (lit F 0)) hours "h" locale []) (fun parts =>
  and_then (push_part (js_gt minutes (lit F 0)) minutes "m" locale parts) (fun parts =>
  and_then (push_part (js_gt secs (lit F 0) || (List.length parts =? 0)%nat)
              secs "s" locale parts) (fun parts =>
  Returned (String.concat " " parts)))).

End Formatters.

Section Relative.
Variable F : float_format.
Variable host_get : value -> string -> value.
(** [new Intl.RelativeTimeFormat(locales, { numeric: 'auto' })
    .format(value, unit)] *)
Variable RelativeTimeFormat_format : value -> num -> string -> result string.

Definition units : list (string * num) :=
  [("year", js_mul F (js_mul F (js_mul F (lit F 365) (lit F 24)) (lit F 60)) (lit F 60));
   ("month", js_mul F (js_mul F (js_mul F (lit F 30) (lit F 24)) (lit F 60)) (lit F 60));
   ("week", js_mul F (js_mul F (js_mul F (lit F 7) (lit F 24)) (lit F 60)) (lit F 60));
   ("day", js_mul F (js_mul F (lit F 24) (lit F 60)) (lit F 60));
   ("hour", js_mul F (lit F 60) (lit F 60));
   ("minute", lit F 60);
   ("second", lit F 1)].

(** The loop over [units]: the value and the unit of the first unit that
    fits into the difference, if one does. *)
Fixpoint pick_unit (units : list (string * num)) (diffInSeconds : num)
  : option (num * string) :=
  match units with
  | [] => None
  | (unit, secondsInUnit) :: rest =>
      if js_ge (Math_abs diffInSeconds) secondsInUnit
      then Some (Math_round (js_div F diffInSeconds secondsInUnit), unit)
      else pick_unit rest diffInSeconds
  end.

(** [date] and [now] are the time values ([getTime()], in milliseconds) of
    [new Date(date)] and of [new Date()]; the time value of an invalid date
    is NaN. *)
Definition formatRelativeTime (date now : num) (locale : string) : result string :=
  let mapped := get host_get LOCALE_MAP locale in
  let intlLocale := if truthy mapped then mapped else VStr locale in
  let diffInSeconds := js_div F (js_sub F now date) (lit F 1000) in
  match pick_unit units diffInSeconds with
  | Some (value, unit) => RelativeTimeFormat_format intlLocale (js_neg value) unit
  | None => RelativeTimeFormat_format intlLocale (lit F 0) "second"
  end.

End Relative.

(** *** Facts *)

Lemma Qfloor_unique (x : Q) (k : Z) :
  inject_Z k <= x -> x < inject_Z (k + 1) -> Qfloor x = k.
Proof.
  intros H1 H2.
  assert (A : (k <= Qfloor x)%Z).
  { rewrite <- (Qfloor_Z k). now apply Qfloor_resp_le. }
  assert (B : (Qfloor x < k + 1)%Z).
  { rewrite Zlt_Qlt. apply Qle_lt_trans with x; [apply Qfloor_le | exact H2]. }
  lia.
Qed.

(** The quotient of two integers as a rational, around its integer part. *)
Lemma quotient_bounds (n d : Z) :
  (0 <= n)%Z -> (0 < d)%Z ->
  inject_Z (n / d) <= inject_Z n / inject_Z d /\
  inject_Z n / inject_Z d <= inject_Z (n / d) + 1 - 1 / inject_Z d.
Proof.
  intros Hn Hd.
  assert (D : 0 < inject_Z d) by (change 0 with (inject_Z 0); rewrite <- Zlt_Qlt; lia).
  pose proof (Z.div_mod n d ltac:(lia)) as E.
  pose proof (Z.mod_pos_bound n d Hd) as M.
  assert (En : inject_Z n == inject_Z d * inject_Z (n / d) + inject_Z (n mod d)).
  { rewrite <- inject_Z_mult, <- inject_Z_plus. now rewrite <- E. }
  assert (M0 : 0 <= inject_Z (n mod d))
    by (change 0 with (inject_Z 0); rewrite <- Zle_Qle; lia).
  assert (M1 : inject_Z (n mod d) <= inject_Z d - 1).
  { change 1 with (inject_Z 1). unfold Qminus. rewrite <- inject_Z_opp, <- inject_Z_plus.
    rewrite <- Zle_Qle. lia. }
  split.
  - apply Qle_shift_div_l; [exact D |]. rewrite En. nra.
  - apply Qle_shift_div_r; [exact D |]. rewrite En.
    assert (X : (inject_Z (n / d) + 1 - 1 / inject_Z d) * inject_Z d
                == inject_Z d * inject_Z (n / d) + inject_Z d - 1).
    { field. lra. }
    rewrite X. lra.
Qed.

(** Dividing in floating point and taking the floor gives the integer
    quotient, for operands far below the precision of the format. *)
Lemma floor_of_rounded_quotient (F : float_format) (n d : Z) :
  (0 <= n)%Z -> (0 < d)%Z -> (n + d < 10 ^ 9)%Z ->
  Qfloor (rnd F (inject_Z n / inject_Z d)) = (n / d)%Z.
Proof.
  intros Hn Hd Hsmall.
  destruct (quotient_bounds n d Hn Hd) as [Q1 Q2].
  assert (D : 0 < inject_Z d) by (change 0 with (inject_Z 0); rewrite <- Zlt_Qlt; lia).
  set (x := inject_Z n / inject_Z d) in *.
  assert (K0 : (0 <= n / d)%Z) by (apply Z.div_pos; lia).
  assert (Kn : (n / d <= n)%Z) by (apply Z.div_le_upper_bound; nia).
  assert (X0 : 0 <= x).
  { apply Qle_trans with (inject_Z (n / d)); [| exact Q1].
    change 0 with (inject_Z 0). rewrite <- Zle_Qle. exact K0. }
  apply Qfloor_unique.
  - rewrite <- (rnd_int F (n / d)) by lia. now apply rnd_mono.
  - pose proof (rnd_close F x X0) as [_ C].
    rewrite inject_Z_plus. change (inject_Z 1) with 1.
    assert (S : (x + 1) * (1 # 1000000000) < 1 / inject_Z d).
    { apply Qlt_shift_div_l; [exact D |].
      assert (XD : x * inject_Z d == inject_Z n) by (unfold x; field; lra).
      assert (T : (x + 1) * (1 # 1000000000) * inject_Z d
                  == (inject_Z n + inject_Z d) * (1 # 1000000000)).
      { rewrite <- XD. ring. }
      rewrite T.
      assert (B : inject_Z n + inject_Z d < inject_Z (10 ^ 9)).
      { rewrite <- inject_Z_plus, <- Zlt_Qlt. exact Hsmall. }
      change (inject_Z (10 ^ 9)) with 1000000000 in B. lra. }
    lra.
Qed.


Lemma Qfloor_quotient (n d : Z) :
  (0 <= n)%Z -> (0 < d)%Z -> Qfloor (inject_Z n / inject_Z d) = (n / d)%Z.
Proof.
  intros Hn Hd. destruct (quotient_bounds n d Hn Hd) as [Q1 Q2].
  assert (D : 0 < inject_Z d) by (change 0 with (inject_Z 0); rewrite <- Zlt_Qlt; lia).
  apply Qfloor_unique; [exact Q1 |].
  rewrite inject_Z_plus. change (inject_Z 1) with 1.
  assert (P : 0 < 1 / inject_Z d) by (apply Qlt_shift_div_l; [exact D | lra]).
  lra.
Qed.

Lemma lit_pos_int (F : float_format) (d : Z) :
  (0 < d <= 2 ^ 53)%Z ->
  exists y, lit F (inject_Z d) = Fin y /\ y == inject_Z d /\ Qeq_bool y 0 = false.
Proof.
  intros Hd. destruct (lit_int F d) as [E R]; [lia |].
  exists (rnd F (inject_Z d)). split; [exact E |]. split; [exact R |].
  apply Qeq_bool_false. rewrite R. intros C.
  assert (0 < inject_Z d) by (change 0 with (inject_Z 0); rewrite <- Zlt_Qlt; lia).
  lra.
Qed.

(** [Math.floor(x / d)] for a whole number [x] and a literal [d]. *)
Lemma floor_div_lit (F : float_format) (x : Q) (n d : Z) :
  x == inject_Z n -> (0 <= n)%Z -> (0 < d)%Z -> (n + d < 10 ^ 9)%Z ->
  Math_floor (js_div F (Fin x) (lit F (inject_Z d))) = Fin (inject_Z (n / d)).
Proof.
  intros Hx Hn Hd Hsmall.
  destruct (lit_pos_int F d) as (y & -> & Hy & Hy0); [lia |].
  cbn [js_div]. rewrite Hy0.
  assert (E : x / y == inject_Z n / inject_Z d) by now rewrite Hx, Hy.
  destruct (quotient_bounds n d Hn Hd) as [Q1 Q2].
  assert (D : 0 < inject_Z d) by (change 0 with (inject_Z 0); rewrite <- Zlt_Qlt; lia).
  assert (K0 : (0 <= n / d)%Z) by (apply Z.div_pos; lia).
  assert (Kn : (n / d <= n)%Z) by (apply Z.div_le_upper_bound; nia).
  assert (P : 0 < 1 / inject_Z d) by (apply Qlt_shift_div_l; [exact D | lra]).
  destruct (finish_between F (x / y) 0 (n / d + 1)) as [Ef _]; try lia.
  { rewrite E. split.
    - apply Qle_trans with (inject_Z (n / d)); [| exact Q1].
      rewrite <- Zle_Qle. exact K0.
    - rewrite inject_Z_plus. change (inject_Z 1) with 1. lra. }
  rewrite Ef. cbn [Math_floor]. do 2 f_equal.
  rewrite E. now apply floor_of_rounded_quotient.
Qed.

(** [x % d] for a whole number [x] and a literal [d]. *)
Lemma mod_lit (F : float_format) (x : Q) (n d : Z) :
  x == inject_Z n -> (0 <= n)%Z -> (0 < d <= 2 ^ 53)%Z ->
  exists r, js_mod (Fin x) (lit F (inject_Z d)) = Fin r /\ r == inject_Z (n mod d).
Proof.
  intros Hx Hn Hd.
  destruct (lit_pos_int F d) as (y & -> & Hy & Hy0); [lia |].
  cbn [js_mod]. rewrite Hy0. eexists. split; [reflexivity |].
  assert (E : x / y == inject_Z n / inject_Z d) by now rewrite Hx, Hy.
  destruct (quotient_bounds n d Hn) as [Q1 _]; [lia |].
  assert (K0 : (0 <= n / d)%Z) by (apply Z.div_pos; lia).
  unfold Qtrunc. rewrite Qle_bool_true.
  2:{ rewrite E. apply Qle_trans with (inject_Z (n / d)); [| exact Q1].
      change 0 with (inject_Z 0). rewrite <- Zle_Qle. exact K0. }
  rewrite E, Qfloor_quotient by lia. rewrite Hx, Hy.
  rewrite <- inject_Z_mult. unfold Qminus. rewrite <- inject_Z_opp, <- inject_Z_plus.
  rewrite (Z.mod_eq n d) by lia. reflexivity.
Qed.

Lemma gt_zero (F : float_format) (k : Z) :
  js_gt (Fin (inject_Z k)) (lit F 0) = (0 <? k)%Z.
Proof.
  destruct (lit_int F 0) as [E R]; [simpl; lia |].
  change (inject_Z 0) with 0 in E, R. rewrite E. unfold js_gt. cbn [js_lt].
  destruct (0 <? k)%Z eqn:K.
  - apply Qlt_bool_iff. rewrite R. change 0 with (inject_Z 0). rewrite <- Zlt_Qlt. lia.
  - destruct (Qlt_bool (rnd F 0) (inject_Z k)) eqn:L; [| reflexivity].
    apply Qlt_bool_iff in L. rewrite R in L. change 0 with (inject_Z 0) in L.
    rewrite <- Zlt_Qlt in L. lia.
Qed.

(** X3: for a whole number of seconds (below 10^8) that [Intl] formats without
    throwing, [formatDuration] shows the hours, minutes and seconds of the
    exact integer decomposition, leaves out the parts that are zero, and
    shows the seconds alone when hours and minutes are both zero. *)
Theorem formatDuration_spec (F : float_format) (host_get : value -> string -> value)
    (NumberFormat_format : value -> value -> num -> result string)
    (show : num -> string) (locale : string) (n : nat) :
  (Z.of_nat n < 10 ^ 8)%Z ->
  (forall v, formatNumber host_get NumberFormat_format v locale (obj []) = Returned (show v)) ->
  exists h m s : nat,
    n = (3600 * h + 60 * m + s)%nat /\ (m < 60)%nat /\ (s < 60)%nat /\
    formatDuration F host_get NumberFormat_format (of_nat n) locale
    = Returned (String.concat " "
        ((if (0 <? h)%nat then [(show (of_nat h) ++ "h")%string] else []) ++
         (if (0 <? m)%nat then [(show (of_nat m) ++ "m")%string] else []) ++
         (if (0 <? s)%nat || ((h =? 0)%nat && (m =? 0)%nat)
          then [(show (of_nat s) ++ "s")%string] else []))).
Proof.
  intros Hn Hshow.
  exists (n / 3600)%nat, ((n mod 3600) / 60)%nat, (n mod 60)%nat.
  assert (Hdecomp : n = (3600 * (n / 3600) + 60 * ((n mod 3600) / 60) + n mod 60)%nat).
  { pose proof (Nat.div_mod_eq n 3600) as A.
    pose proof (Nat.div_mod_eq (n mod 3600) 60) as B.
    assert (C : ((n mod 3600) mod 60 = n mod 60)%nat).
    { change 3600%nat with (60 * 60)%nat.
      rewrite Nat.Div0.mod_mul_r, Nat.mul_comm, Nat.Div0.mod_add.
      apply Nat.Div0.mod_mod. }
    lia. }
  split; [exact Hdecomp |].
  split; [apply Nat.Div0.div_lt_upper_bound; apply Nat.mod_upper_bound; lia |].
  split; [apply Nat.mod_upper_bound; lia |].
  unfold formatDuration, of_nat.
  change (lit F 3600) with (lit F (inject_Z 3600)).
  change (lit F 60) with (lit F (inject_Z 60)).
  rewrite (floor_div_lit F _ (Z.of_nat n) 3600) by (try reflexivity; lia).
  destruct (mod_lit F (inject_Z (Z.of_nat n)) (Z.of_nat n) 3600) as (r1 & -> & R1);
    [reflexivity | lia | lia |].
  rewrite (floor_div_lit F r1 (Z.of_nat n mod 3600) 60)
    by (try exact R1; pose proof (Z.mod_pos_bound (Z.of_nat n) 3600); lia).
  destruct (mod_lit F (inject_Z (Z.of_nat n)) (Z.of_nat n) 60) as (r2 & -> & R2);
    [reflexivity | lia | lia |].
  cbn [Math_floor]. rewrite (Qfloor_comp _ _ R2), Qfloor_Z.
  rewrite !gt_zero.
  assert (Eh : (Z.of_nat n / 3600)%Z = Z.of_nat (n / 3600))
    by (rewrite Nat2Z.inj_div; reflexivity).
  assert (Em : ((Z.of_nat n mod 3600) / 60)%Z = Z.of_nat ((n mod 3600) / 60))
    by (rewrite Nat2Z.inj_div, Nat2Z.inj_mod; reflexivity).
  assert (Es : (Z.of_nat n mod 60)%Z = Z.of_nat (n mod 60))
    by (rewrite Nat2Z.inj_mod; reflexivity).
  rewrite Eh, Em, Es.
  set (h := (n / 3600)%nat). set (m := ((n mod 3600) / 60)%nat). set (s := (n mod 60)%nat).
  replace (0 <? Z.of_nat h)%Z with (0 <? h)%nat
    by (destruct (Nat.ltb_spec 0 h), (Z.ltb_spec 0 (Z.of_nat h)); lia || reflexivity).
  replace (0 <? Z.of_nat m)%Z with (0 <? m)%nat
    by (destruct (Nat.ltb_spec 0 m), (Z.ltb_spec 0 (Z.of_nat m)); lia || reflexivity).
  replace (0 <? Z.of_nat s)%Z with (0 <? s)%nat
    by (destruct (Nat.ltb_spec 0 s), (Z.ltb_spec 0 (Z.of_nat s)); lia || reflexivity).
  unfold push_part, and_then. rewrite !Hshow.
  destruct (Nat.ltb_spec 0 h) as [Hh | Hh], (Nat.ltb_spec 0 m) as [Hm | Hm];
    cbn [List.length Nat.eqb app orb andb];
    try (replace (h =? 0)%nat with false by (symmetry; apply Nat.eqb_neq; lia));
    try (replace (m =? 0)%nat with false by (symmetry; apply Nat.eqb_neq; lia));
    try (replace (h =? 0)%nat with true by (symmetry; apply Nat.eqb_eq; lia));
    try (replace (m =? 0)%nat with true by (symmetry; apply Nat.eqb_eq; lia));
    cbn [andb]; rewrite ?orb_false_r, ?orb_true_r;
    destruct (0 <? s)%nat; reflexivity.
Qed.


(** *** [formatRelativeTime] *)

Lemma js_mul_int (F : float_format) (x y : Q) (a b : Z) :
  x == inject_Z a -> y == inject_Z b -> (Z.abs (a * b) <= 2 ^ 53)%Z ->
  exists c, js_mul F (Fin x) (Fin y) = Fin c /\ c == inject_Z (a * b).
Proof.
  intros Hx Hy Hab. cbn [js_mul].
  destruct (finish_exact F (x * y) (a * b) Hab) as [E R].
  { rewrite Hx, Hy, inject_Z_mult. reflexivity. }
  eexists. split; [exact E | exact R].
Qed.

(** A Number that is a whole number of seconds, at least one. *)
Definition whole_seconds (sv : num) : Prop :=
  exists (s : Q) (z : Z), sv = Fin s /\ s == inject_Z z /\ (1 <= z <= 2 ^ 53)%Z.

Lemma units_whole (F : float_format) :
  List.Forall (fun us => whole_seconds (snd us)) (units F).
Proof.
  assert (W : forall a z (b : Z),
             (exists s za, a = Fin s /\ s == inject_Z za /\ (1 <= za <= b)%Z) ->
             (1 <= z)%Z -> (b * z <= 2 ^ 53)%Z ->
             exists s za, js_mul F a (lit F (inject_Z z)) = Fin s /\
                          s == inject_Z za /\ (1 <= za <= b * z)%Z).
  { intros a z b (s & za & -> & Hs & Hza) Hz Hb.
    destruct (lit_int F z) as [E R]; [nia |]. rewrite E.
    destruct (js_mul_int F s (rnd F (inject_Z z)) za z Hs R) as (c & Ec & Rc); [nia |].
    exists c, (za * z)%Z. split; [exact Ec |]. split; [exact Rc | nia]. }
  assert (L : forall z, (1 <= z <= 2 ^ 53)%Z ->
             exists s za, lit F (inject_Z z) = Fin s /\ s == inject_Z za /\ (1 <= za <= z)%Z).
  { intros z Hz. destruct (lit_int F z) as [E R]; [lia |].
    exists (rnd F (inject_Z z)), z. split; [exact E |]. split; [exact R | lia]. }
  assert (U : forall a b, (exists s za, a = Fin s /\ s == inject_Z za /\ (1 <= za <= b)%Z) ->
                          (b <= 2 ^ 53)%Z -> whole_seconds a).
  { intros a b (s & za & E & Hs & Hza) Hb. exists s, za. split; [exact E |].
    split; [exact Hs | lia]. }
  unfold units. repeat constructor; cbn [snd].
  - apply (U _ (365 * 24 * 60 * 60)%Z); [| simpl; lia].
    apply (W _ 60%Z (365 * 24 * 60)%Z); [| lia | simpl; lia].
    apply (W _ 60%Z (365 * 24)%Z); [| lia | simpl; lia].
    apply (W _ 24%Z 365%Z); [| lia | simpl; lia].
    apply (L 365%Z). simpl; lia.
  - apply (U _ (30 * 24 * 60 * 60)%Z); [| simpl; lia].
    apply (W _ 60%Z (30 * 24 * 60)%Z); [| lia | simpl; lia].
    apply (W _ 60%Z (30 * 24)%Z); [| lia | simpl; lia].
    apply (W _ 24%Z 30%Z); [| lia | simpl; lia].
    apply (L 30%Z). simpl; lia.
  - apply (U _ (7 * 24 * 60 * 60)%Z); [| simpl; lia].
    apply (W _ 60%Z (7 * 24 * 60)%Z); [| lia | simpl; lia].
    apply (W _ 60%Z (7 * 24)%Z); [| lia | simpl; lia].
    apply (W _ 24%Z 7%Z); [| lia | simpl; lia].
    apply (L 7%Z). simpl; lia.
  - apply (U _ (24 * 60 * 60)%Z); [| simpl; lia].
    apply (W _ 60%Z (24 * 60)%Z); [| lia | simpl; lia].
    apply (W _ 60%Z 24%Z); [| lia | simpl; lia].
    apply (L 24%Z). simpl; lia.
  - apply (U _ (60 * 60)%Z); [| simpl; lia].
    apply (W _ 60%Z 60%Z); [| lia | simpl; lia].
    apply (L 60%Z). simpl; lia.
  - apply (U _ 60%Z); [| simpl; lia]. apply (L 60%Z). simpl; lia.
  - apply (U _ 1%Z); [| simpl; lia]. apply (L 1%Z). simpl; lia.
Qed.

Lemma pick_unit_nan (F : float_format) (us : list (string * num)) :
  pick_unit F us NaN = None.
Proof.
  induction us as [| [u sv] rest IH]; [reflexivity |].
  cbn [pick_unit Math_abs]. unfold js_ge.
  destruct sv as [| [|] | s]; exact IH.
Qed.

(** Less than a second apart: no unit fits. *)
Lemma pick_unit_none (F : float_format) (us : list (string * num)) (d : Q) :
  List.Forall (fun us => whole_seconds (snd us)) us ->
  Qabs d < 1 -> pick_unit F us (Fin d) = None.
Proof.
  intros Hw Hd. induction Hw as [| [u sv] rest (s & z & E & Hs & Hz) _ IH];
    [reflexivity |].
  cbn [snd] in E. subst sv. cbn [pick_unit Math_abs]. unfold js_ge. cbn [js_le].
  rewrite Qle_bool_false; [exact IH |].
  rewrite Hs. apply Qlt_le_trans with 1; [exact Hd |].
  change 1 with (inject_Z 1). rewrite <- Zle_Qle. lia.
Qed.

(** A difference of at least a second: the first unit that fits gives a
    whole number, of the sign of the difference and not zero. *)
Lemma pick_unit_some (F : float_format) (us : list (string * num)) (d : Q) :
  List.Forall (fun us => whole_seconds (snd us)) us ->
  List.Exists (fun us => exists s, snd us = Fin s /\ s <= Qabs d) us ->
  1 <= Qabs d <= inject_Z (2 ^ 53) ->
  exists k u,
    pick_unit F us (Fin d) = Some (Fin (inject_Z k), u) /\
    In u (List.map fst us) /\
    (0 <= d -> (1 <= k)%Z) /\ (d <= 0 -> (k <= -1)%Z).
Proof.
  intros Hw Hex Hd.
  induction Hw as [| [u sv] rest (s & z & E & Hs & Hz) Hrest IH];
    [inversion Hex |].
  cbn [snd] in E. subst sv. cbn [pick_unit Math_abs]. unfold js_ge. cbn [js_le].
  destruct (Qle_bool s (Qabs d)) eqn:Fit.
  - apply Qle_bool_iff in Fit.
    assert (S1 : 1 <= s).
    { rewrite Hs. change 1 with (inject_Z 1). rewrite <- Zle_Qle. lia. }
    assert (S0 : Qeq_bool s 0 = false) by (apply Qeq_bool_false; lra).
    cbn [js_div]. rewrite S0.
    assert (Q1 : Qabs (d / s) == Qabs d / s).
    { unfold Qdiv. rewrite Qabs_Qmult. rewrite (Qabs_pos (/ s)); [reflexivity |].
      apply Qinv_le_0_compat. lra. }
    assert (Q2 : 1 <= Qabs d / s <= inject_Z (2 ^ 53)).
    { split.
      - apply Qle_shift_div_l; lra.
      - apply Qle_shift_div_r; [lra |].
        apply Qle_trans with (inject_Z (2 ^ 53) * 1); [lra |].
        apply Qmult_le_l; [reflexivity | exact S1]. }
    destruct (Qlt_le_dec d 0) as [Neg | Pos].
    + (* in the future *)
      assert (A : Qabs d == - d) by (apply Qabs_neg; lra).
      assert (B : inject_Z (- 2 ^ 53) <= d / s <= inject_Z (- 1)).
      { assert (X : d / s == - (Qabs d / s)) by (rewrite A; field; lra).
        rewrite X. change (inject_Z (- 2 ^ 53)) with (- inject_Z (2 ^ 53)).
        change (inject_Z (- 1)) with (- (1)). lra. }
      destruct (finish_between F (d / s) (- 2 ^ 53) (- 1)) as [Ef [_ Bf]];
        try (simpl; lia); [exact B |].
      rewrite Ef. cbn [Math_round]. eexists. exists u.
      split; [reflexivity |]. split; [now left |]. split; [intros C; lra |].
      intros _. change (inject_Z (- 1)) with (- (1)) in Bf.
      assert (G : (Qfloor (rnd F (d / s) + (1 # 2)) <= Qfloor (- (1 # 2)))%Z)
        by (apply Qfloor_resp_le; lra).
      exact G.
    + assert (A : Qabs d == d) by (apply Qabs_pos; lra).
      assert (B : inject_Z 1 <= d / s <= inject_Z (2 ^ 53)).
      { assert (X : d / s == Qabs d / s) by now rewrite A.
        rewrite X. exact Q2. }
      destruct (finish_between F (d / s) 1 (2 ^ 53)) as [Ef [Bf _]];
        try (simpl; lia); [exact B |].
      rewrite Ef. cbn [Math_round]. eexists. exists u.
      split; [reflexivity |]. split; [now left |]. split.
      * intros _. change (inject_Z 1) with 1 in Bf.
        assert (G : (Qfloor 1 <= Qfloor (rnd F (d / s) + (1 # 2)))%Z)
          by (apply Qfloor_resp_le; lra).
        exact G.
      * intros C. exfalso. destruct Hd as [Hd _]. lra.
  - assert (Hex' : List.Exists (fun us => exists s, snd us = Fin s /\ s <= Qabs d) rest).
    { inversion Hex as [x l (s' & E' & Hs') | x l Hl]; subst; [| exact Hl].
      cbn [snd] in E'. injection E' as <-.
      apply Qle_bool_iff in Hs'. congruence. }
    destruct (IH Hex') as (k & u' & Ep & Hin & Hk).
    exists k, u'. split; [exact Ep |]. split; [right; exact Hin | exact Hk].
Qed.

(** The difference in seconds of two time values. *)
Lemma diff_in_seconds (F : float_format) (date now : Z) :
  (Z.abs (now - date) <= 2 ^ 53)%Z ->
  exists d,
    js_div F (js_sub F (Fin (inject_Z now)) (Fin (inject_Z date))) (lit F 1000) = Fin d /\
    Qabs d <= inject_Z (2 ^ 53) /\
    ((date + 1000 <= now)%Z -> 1 <= d) /\
    ((now + 1000 <= date)%Z -> d <= - (1)) /\
    ((Z.abs (now - date) < 1000)%Z -> Qabs d < 1).
Proof.
  intros Hd. unfold js_sub. cbn [js_neg js_add].
  destruct (finish_exact F (inject_Z now + - inject_Z date) (now - date) Hd) as [E R].
  { unfold Zminus. now rewrite inject_Z_plus, inject_Z_opp. }
  rewrite E. destruct (lit_pos_int F 1000) as (y & Ey & Hy & Hy0); [simpl; lia |].
  change (lit F 1000) with (lit F (inject_Z 1000)). rewrite Ey.
  cbn [js_div]. rewrite Hy0.
  set (x := rnd F (inject_Z now + - inject_Z date) / y).
  assert (X : x == inject_Z (now - date) / 1000).
  { unfold x. rewrite R, Hy. reflexivity. }
  assert (B : inject_Z (- 2 ^ 53) <= x <= inject_Z (2 ^ 53)).
  { rewrite X. split.
    - apply Qle_shift_div_l; [reflexivity |].
      apply Qle_trans with (inject_Z (- 2 ^ 53)); [discriminate |].
      rewrite <- Zle_Qle. lia.
    - apply Qle_shift_div_r; [reflexivity |].
      apply Qle_trans with (inject_Z (2 ^ 53)); [| discriminate].
      rewrite <- Zle_Qle. lia. }
  destruct (finish_between F x (- 2 ^ 53) (2 ^ 53)) as [Ef Bf];
    try (simpl; lia); [exact B |].
  exists (rnd F x). split; [exact Ef |]. split.
  { apply Qabs_Qle_condition. change (inject_Z (- 2 ^ 53)) with (- inject_Z (2 ^ 53)) in Bf.
    exact Bf. }
  split; [| split].
  - intros H. rewrite <- (rnd_int F 1) by (simpl; lia). apply rnd_mono.
    change (inject_Z 1) with 1. rewrite X. apply Qle_shift_div_l; [reflexivity |].
    assert (G : inject_Z 1000 <= inject_Z (now - date)) by (rewrite <- Zle_Qle; lia).
    inj_consts. lra.
  - intros H. change (- (1)) with (inject_Z (- 1)).
    rewrite <- (rnd_int F (- 1)) by (simpl; lia). apply rnd_mono.
    rewrite X. apply Qle_shift_div_r; [reflexivity |].
    assert (G : inject_Z (now - date) <= inject_Z (- 1000)) by (rewrite <- Zle_Qle; lia).
    change (inject_Z (- 1000)) with (- (1000)) in G. change (inject_Z (- 1)) with (- (1)).
    lra.
  - intros H. pose proof (rnd_near F x) as N.
    assert (A : Qabs x <= 999 # 1000).
    { rewrite X. apply Qabs_Qle_condition. split.
      - apply Qle_shift_div_l; [reflexivity |].
        assert (G : inject_Z (- 999) <= inject_Z (now - date)) by (rewrite <- Zle_Qle; lia).
        change (inject_Z (- 999)) with (- (999)) in G. lra.
      - apply Qle_shift_div_r; [reflexivity |].
        assert (G : inject_Z (now - date) <= inject_Z 999) by (rewrite <- Zle_Qle; lia).
        inj_consts. lra. }
    assert (T : Qabs (rnd F x) <= Qabs (rnd F x - x) + Qabs x).
    { assert (Y : rnd F x == (rnd F x - x) + x) by ring.
      rewrite Y at 1. apply Qabs_triangle. }
    lra.
Qed.


(** A printer of whole numbers, standing in for [Intl] in the examples. *)
Definition show_plain (v : num) : string :=
  match v with
  | NaN => "NaN"
  | Inf s => if s then "-Infinity" else "Infinity"
  | Fin q => NilZero.string_of_int (Z.to_int (Qfloor q))
  end.

Lemma formatDuration_spec_witness :
  exists h m s : nat,
    3725%nat = (3600 * h + 60 * m + s)%nat /\ (m < 60)%nat /\ (s < 60)%nat /\
    formatDuration binary64 bare_host (fun _ _ v => Returned (show_plain v))
      (of_nat 3725) "en"
    = Returned (String.concat " "
        ((if (0 <? h)%nat then [(show_plain (of_nat h) ++ "h")%string] else []) ++
         (if (0 <? m)%nat then [(show_plain (of_nat m) ++ "m")%string] else []) ++
         (if (0 <? s)%nat || ((h =? 0)%nat && (m =? 0)%nat)
          then [(show_plain (of_nat s) ++ "s")%string] else []))).
Proof.
  apply (formatDuration_spec binary64 bare_host (fun _ _ v => Returned (show_plain v))
           show_plain "en" 3725).
  - reflexivity.
  - intros v. reflexivity.
Defined.

Example formatDuration_examples :
  let fmt := formatDuration binary64 bare_host (fun _ _ v => Returned (show_plain v)) in
  fmt (of_nat 3725) "en" = Returned "1h 2m 5s" /\
  fmt (of_nat 3600) "en" = Returned "1h" /\
  fmt (of_nat 59) "ar" = Returned "59s" /\
  fmt (of_nat 0) "en" = Returned "0s" /\
  fmt (Fin (181 # 2)) "en" = Returned "1m 30s" /\
  fmt (Fin (- (90))) "en" = Returned "-30s" /\
  fmt NaN "en" = Returned "NaNs".
Proof. vm_compute. repeat split. Qed.

(** The locale handed to [Intl]: the mapped identifier, or the locale as it
    is when the look-up in [LOCALE_MAP] gives nothing truthy. *)
Definition intl_locale (host_get : value -> string -> value) (locale : string) : value :=
  if truthy (get host_get LOCALE_MAP locale)
  then get host_get LOCALE_MAP locale else VStr locale.

(** X4: [formatRelativeTime] on two time values less than 2^53 ms apart: a date
    at least a second in the past is formatted with a whole number that is
    -1 or less, a date at least a second ahead with 1 or more, each in one of
    the seven units; less than a second apart gives 0 seconds; and so does
    an invalid date, whose time value is NaN. *)
Theorem formatRelativeTime_spec (F : float_format) (host_get : value -> string -> value)
    (RelativeTimeFormat_format : value -> num -> string -> result string)
    (locale : string) (date now : Z) :
  (Z.abs (now - date) <= 2 ^ 53)%Z ->
  (exists (value : num) (unit : string),
      formatRelativeTime F host_get RelativeTimeFormat_format
        (Fin (inject_Z date)) (Fin (inject_Z now)) locale
      = RelativeTimeFormat_format (intl_locale host_get locale) value unit /\
      In unit ["year"; "month"; "week"; "day"; "hour"; "minute"; "second"] /\
      ((date + 1000 <= now)%Z -> exists k, value = Fin (inject_Z k) /\ (k <= -1)%Z) /\
      ((now + 1000 <= date)%Z -> exists k, value = Fin (inject_Z k) /\ (1 <= k)%Z) /\
      ((Z.abs (now - date) < 1000)%Z -> value = lit F 0 /\ unit = "second")) /\
  (forall t : num,
      formatRelativeTime F host_get RelativeTimeFormat_format NaN t locale
      = RelativeTimeFormat_format (intl_locale host_get locale) (lit F 0) "second").
Proof.
  intros Hd. split.
  - unfold formatRelativeTime. fold (intl_locale host_get locale).
    destruct (diff_in_seconds F date now Hd) as (d & -> & Hb & Hpast & Hfut & Hnow).
    pose proof (units_whole F) as Hw.
    assert (Hsec : 1 <= Qabs d ->
              List.Exists (fun us => exists s, snd us = Fin s /\ s <= Qabs d) (units F)).
    { intros H1. unfold units. do 6 apply List.Exists_cons_tl. apply List.Exists_cons_hd.
      cbn [snd]. destruct (lit_int F 1) as [E R]; [simpl; lia |].
      change (lit F 1) with (lit F (inject_Z 1)). rewrite E.
      eexists. split; [reflexivity |]. rewrite R. exact H1. }
    destruct (Z_lt_le_dec (Z.abs (now - date)) 1000) as [Hsmall | Hbig].
    + rewrite (pick_unit_none F _ d Hw (Hnow Hsmall)).
      exists (lit F 0), "second". split; [reflexivity |].
      split; [cbn; tauto |]. split; [lia |]. split; [lia |]. intros _. now split.
    + assert (H1 : 1 <= Qabs d).
      { destruct (Z_le_gt_dec (date + 1000) now) as [P | P].
        - rewrite Qabs_pos; [now apply Hpast |].
          apply Qle_trans with 1; [discriminate | now apply Hpast].
        - assert (P' : (now + 1000 <= date)%Z) by lia.
          rewrite Qabs_neg; [specialize (Hfut P'); lra |].
          specialize (Hfut P'). lra. }
      destruct (pick_unit_some F _ d Hw (Hsec H1) (conj H1 Hb))
        as (k & u & -> & Hin & Hpos & Hneg).
      exists (js_neg (Fin (inject_Z k))), u. split; [reflexivity |].
      split; [exact Hin |]. split; [| split].
      * intros P. exists (- k)%Z. split; [reflexivity |].
        assert (0 <= d) by (specialize (Hpast P); lra). specialize (Hpos H). lia.
      * intros P. exists (- k)%Z. split; [reflexivity |].
        assert (d <= 0) by (specialize (Hfut P); lra). specialize (Hneg H). lia.
      * lia.
  - intros t. unfold formatRelativeTime. fold (intl_locale host_get locale).
    assert (E : js_div F (js_sub F t NaN) (lit F 1000) = NaN).
    { unfold js_sub. cbn [js_neg]. destruct t; reflexivity. }
    rewrite E, pick_unit_nan. reflexivity.
Qed.


(** [rtf.format] standing in for [Intl] in the examples: the value and the
    unit side by side. *)
Definition show_relative (locales : value) (v : num) (unit : string) : result string :=
  Returned (show_plain v ++ " " ++ unit)%string.

Lemma formatRelativeTime_spec_witness :
  (exists (value : num) (unit : string),
      formatRelativeTime binary64 bare_host show_relative
        (Fin (inject_Z 0)) (Fin (inject_Z 7200000)) "en"
      = show_relative (intl_locale bare_host "en") value unit /\
      In unit ["year"; "month"; "week"; "day"; "hour"; "minute"; "second"] /\
      ((0 + 1000 <= 7200000)%Z -> exists k, value = Fin (inject_Z k) /\ (k <= -1)%Z) /\
      ((7200000 + 1000 <= 0)%Z -> exists k, value = Fin (inject_Z k) /\ (1 <= k)%Z) /\
      ((Z.abs (7200000 - 0) < 1000)%Z -> value = lit binary64 0 /\ unit = "second")) /\
  (forall t : num,
      formatRelativeTime binary64 bare_host show_relative NaN t "en"
      = show_relative (intl_locale bare_host "en") (lit binary64 0) "second").
Proof.
  apply (formatRelativeTime_spec binary64 bare_host show_relative "en" 0 7200000).
  simpl. lia.
Defined.

Example formatRelativeTime_examples :
  let fmt := formatRelativeTime binary64 bare_host show_relative in
  fmt (Fin 0) (Fin 7200000) "en" = Returned "-2 hour" /\
  fmt (Fin 7200000) (Fin 0) "en" = Returned "2 hour" /\
  fmt (Fin 0) (Fin 3599600) "en" = Returned "-60 minute" /\
  fmt (Fin 0) (Fin 31017600000) "en" = Returned "-12 month" /\
  fmt (Fin 0) (Fin 999) "en" = Returned "0 second" /\
  fmt NaN (Fin 7200000) "en" = Returned "0 second".
Proof. vm_compute. repeat split. Qed.

End Format.

(** ** The Demo page: status badges, the uploaded light curve, Reset *)

Module DemoPage.
Import JSNum JSMath Csv Demo.

(** The element [getStatusIcon] returns, by its component. *)
Inductive icon := CheckCircle | XCircle | AlertTriangle.

(** The element [getStatusBadge] returns, by the key of its text. *)
Inductive badge := confirmedPlanet | noPlanet | planetCandidate.

Section Guided.
(** [threshold[0]] *)
Variable threshold : num.

Definition getStatusIcon (status : string) (probability : num) : icon :=
  if js_ge probability threshold && String.eqb status "planet" then CheckCircle
  else if js_lt probability threshold || String.eqb status "no_planet" then XCircle
  else AlertTriangle.

Definition getStatusBadge (status : string) (probability : num) : badge :=
  if js_ge probability threshold && String.eqb status "planet" then confirmedPlanet
  else if js_lt probability threshold || String.eqb status "no_planet" then noPlanet
  else planetCandidate.

End Guided.

(** The file handed to [handleUpload]: its name and what [file.text()]
    resolves to. *)
Record file := { name : string; text : string }.

(** The state of the advanced tab: the upload and the training job. *)
Record sandbox := {
  uploadedName : option string;
  uploadedCurve : option (list point);
  job : page
}.

Section Advanced.
Variable F : float_format.
Variable Number : string -> num.
(** [Math.sin], and what the i-th call of [Math.random] returns. *)
Variable Math_sin : num -> num.
Variable Math_random : nat -> num.

(** [Array.from({ length: 200 }, (_, i) => ({ time: ..., flux: ... }))] *)
Definition mockLightCurve : list point :=
  List.map
    (fun i =>
       {| time := js_mul F (of_nat i) (lit F (1 # 10));
          flux :=
            js_sub F
              (js_add F
                 (js_add F (lit F 1)
                    (js_mul F (lit F (2 # 100))
                       (Math_sin (js_mul F (of_nat i) (lit F (3 # 10))))))
                 (js_mul F (lit F (1 # 100)) (Math_random i)))
              (if (80 <? i)%nat && (i <? 100)%nat then lit F (15 # 1000) else lit F 0) |})
    (List.seq 0 200).

(** [uploadedCurve || mockLightCurve]: an array, even an empty one, is
    truthy. *)
Definition displayedCurve (s : sandbox) : list point :=
  match uploadedCurve s with
  | Some curve => curve
  | None => mockLightCurve
  end.

(** [uploadedCurve?.length ?? 0], the count shown beside the file name. *)
Definition loaded_points (s : sandbox) : nat :=
  match uploadedCurve s with
  | Some curve => List.length curve
  | None => 0%nat
  end.

Definition handleUpload (f : file) (s : sandbox) : sandbox :=
  let parsed := parseCsvLightCurve Number (text f) in
  {| uploadedName := Some (name f);
     uploadedCurve := if (0 <? List.length parsed)%nat then Some parsed else None;
     job := job s |}.

(** The click handler of the Reset button. *)
Definition reset (s : sandbox) : sandbox :=
  {| uploadedName := None;
     uploadedCurve := None;
     job := {| objects := objects (job s);
               mockResults := mockResults (job s);
               jobRunning := jobRunning (job s);
               jobProgress := jobProgress (job s);
               jobMetrics := None;
               jobResults := None;
               current := current (job s);
               interval := interval (job s) |} |}.

(** The advanced tab as first rendered. *)
Definition first_render : sandbox :=
  {| uploadedName := None; uploadedCurve := None; job := initial F |}.

(** An upload ([Some f]) or a click on Reset ([None]), one after another. *)
Fixpoint after (events : list (option file)) (s : sandbox) : sandbox :=
  match events with
  | [] => s
  | Some f :: rest => after rest (handleUpload f s)
  | None :: rest => after rest (reset s)
  end.

End Advanced.


(** *** Facts *)

Lemma not_le_lt (a b : num) :
  a <> NaN -> b <> NaN -> js_le a b = false -> js_lt b a = true.
Proof.
  intros Ha Hb. destruct a as [| [|] | x], b as [| [|] | y]; cbn;
    try contradiction; try discriminate; try reflexivity.
  unfold Qlt_bool. now intros ->.
Qed.

(** X5: icon and badge always tell the same class; a row whose status is
    no_planet is shown as no planet whatever its probability; and a row
    whose status is planet is never shown as a candidate when probability
    and threshold are numbers: it is confirmed from the threshold on and no
    planet below it. *)
Theorem status_badge_spec (threshold : num) (status : string) (probability : num) :
  (getStatusIcon threshold status probability = CheckCircle <->
   getStatusBadge threshold status probability = confirmedPlanet) /\
  (getStatusIcon threshold status probability = XCircle <->
   getStatusBadge threshold status probability = noPlanet) /\
  (getStatusIcon threshold status probability = AlertTriangle <->
   getStatusBadge threshold status probability = planetCandidate) /\
  (status = "no_planet" -> getStatusBadge threshold status probability = noPlanet) /\
  (status = "planet" -> probability <> NaN -> threshold <> NaN ->
   (js_ge probability threshold = true /\
    getStatusBadge threshold status probability = confirmedPlanet) \/
   (js_lt probability threshold = true /\
    getStatusBadge threshold status probability = noPlanet)) /\
  (status <> "planet" -> status <> "no_planet" -> js_ge probability threshold = true ->
   getStatusBadge threshold status probability = planetCandidate).
Proof.
  unfold getStatusIcon, getStatusBadge.
  split; [| split; [| split; [| split; [| split]]]].
  - destruct (js_ge _ _ && _); [tauto |].
    destruct (js_lt _ _ || _); split; discriminate.
  - destruct (js_ge _ _ && _); [split; discriminate |].
    destruct (js_lt _ _ || _); [tauto | split; discriminate].
  - destruct (js_ge _ _ && _); [split; discriminate |].
    destruct (js_lt _ _ || _); [split; discriminate | tauto].
  - intros ->. cbn. rewrite andb_false_r, orb_true_r. reflexivity.
  - intros -> Hp Ht. cbn. rewrite andb_true_r, orb_false_r.
    destruct (js_ge probability threshold) eqn:G; [left; now split |].
    right. unfold js_ge in G. rewrite (not_le_lt _ _ Ht Hp G). now split.
  - intros H1 H2 G. rewrite G.
    apply String.eqb_neq in H1, H2. rewrite H1, H2. cbn.
    destruct (js_lt probability threshold) eqn:L; [| reflexivity].
    exfalso. unfold js_ge in G.
    destruct probability as [| [|] | x], threshold as [| [|] | y]; cbn in G, L;
      try discriminate.
    unfold Qlt_bool in L. rewrite G in L. discriminate.
Qed.

Section CurveFacts.
Variable F : float_format.
Variable Number : string -> num.
Variable Math_sin : num -> num.
Variable Math_random : nat -> num.
Local Open Scope Q_scope.

Local Abbreviation mockLightCurve := (mockLightCurve F Math_sin Math_random).
Local Abbreviation displayedCurve := (displayedCurve F Math_sin Math_random).

Definition finite_point (p : point) : Prop :=
  Number_isFinite (time p) = true /\ Number_isFinite (flux p) = true.

Lemma mockLightCurve_length : List.length mockLightCurve = 200%nat.
Proof. unfold DemoPage.mockLightCurve. now rewrite List.length_map, List.length_seq. Qed.

(** An exact result of magnitude at most [b] is delivered as a finite
    Number of magnitude at most [b]. *)
Lemma finish_within (x : Q) (b : Z) :
  (0 <= b <= 2 ^ 53)%Z -> - inject_Z b <= x <= inject_Z b ->
  exists y, finish F x = Fin y /\ - inject_Z b <= y <= inject_Z b.
Proof.
  intros Hb H. destruct (finish_between F x (- b) b) as [E B]; try lia.
  { now rewrite inject_Z_opp. }
  exists (rnd F x). split; [exact E |]. now rewrite inject_Z_opp in B.
Qed.

Lemma lit_near (q : Q) :
  0 <= q <= 1 -> exists y, lit F q = Fin y /\ 0 <= y <= 1.
Proof.
  intros H. destruct (finish_between F q 0 1) as [E B]; try (simpl; lia).
  { exact H. }
  exists (rnd F q). split; [exact E | exact B].
Qed.

Hypothesis sin_range : forall x, exists y, Math_sin (Fin x) = Fin y /\ - (1) <= y <= 1.
Hypothesis random_range : forall i, exists y, Math_random i = Fin y /\ 0 <= y <= 1.

Lemma mockLightCurve_finite : List.Forall finite_point mockLightCurve.
Proof.
  unfold DemoPage.mockLightCurve. apply List.Forall_forall. intros p Hin.
  apply List.in_map_iff in Hin. destruct Hin as (i & <- & Hi).
  apply List.in_seq in Hi. unfold finite_point. cbn [time flux].
  assert (Bi : 0 <= inject_Z (Z.of_nat i) <= 199).
  { change 0 with (inject_Z 0). change 199 with (inject_Z 199).
    rewrite <- !Zle_Qle. lia. }
  assert (Hmul : forall t, 0 <= t <= 1 ->
            exists y, js_mul F (of_nat i) (Fin t) = Fin y).
  { intros t Bt. unfold of_nat. cbn [js_mul].
    destruct (finish_between F (inject_Z (Z.of_nat i) * t) 0 200) as [E _];
      try (simpl; lia); [| rewrite E; now eexists].
    inj_consts. nra. }
  split.
  - destruct (lit_near (1 # 10)) as (t & -> & Bt); [lra |].
    destruct (Hmul t Bt) as (y & ->). reflexivity.
  - destruct (lit_near (3 # 10)) as (t & -> & Bt); [lra |].
    destruct (Hmul t Bt) as (y & ->).
    destruct (sin_range y) as (sn & -> & Bs).
    destruct (random_range i) as (r & -> & Br).
    destruct (lit_near (2 # 100)) as (c2 & -> & B2); [lra |].
    destruct (lit_near (1 # 100)) as (c1 & -> & B1); [lra |].
    destruct (lit_near 1) as (one & -> & B0); [lra |].
    assert (Hdip : exists dip,
              (if (80 <? i)%nat && (i <? 100)%nat then lit F (15 # 1000) else lit F 0)
              = Fin dip /\ 0 <= dip <= 1).
    { destruct ((80 <? i)%nat && (i <? 100)%nat); apply lit_near; lra. }
    destruct Hdip as (dip & -> & Bd).
    cbn [js_mul].
    destruct (finish_within (c2 * sn) 1) as (m1 & -> & M1);
      [simpl; lia | change (inject_Z 1) with 1; nra |].
    destruct (finish_within (c1 * r) 1) as (m2 & -> & M2);
      [simpl; lia | change (inject_Z 1) with 1; nra |].
    change (inject_Z 1) with 1 in M1, M2.
    cbn [js_add].
    destruct (finish_within (one + m1) 2) as (a1 & -> & A1);
      [simpl; lia | change (inject_Z 2) with 2; lra |].
    change (inject_Z 2) with 2 in A1. cbn [js_add].
    destruct (finish_within (a1 + m2) 3) as (a2 & -> & A2);
      [simpl; lia | change (inject_Z 3) with 3; lra |].
    change (inject_Z 3) with 3 in A2. unfold js_sub. cbn [js_neg js_add].
    destruct (finish_within (a2 + - dip) 4) as (a3 & -> & A3);
      [simpl; lia | change (inject_Z 4) with 4; lra |].
    reflexivity.
Qed.

(** After any sequence of uploads and clicks on Reset the curve handed to
    the chart is never empty and all its points are finite: it is the
    curve parsed from the last upload if that has a point, and the mock
    curve of 200 points otherwise. *)
Lemma displayedCurve_after (events : list (option file)) : forall s,
  (uploadedCurve s <> Some []) ->
  (forall c, uploadedCurve s = Some c -> List.Forall finite_point c) ->
  let s' := after Number events s in
  displayedCurve s' <> [] /\ List.Forall finite_point (displayedCurve s').
Proof.
  induction events as [| [f |] rest IH]; intros s Hne Hfin; cbn [after].
  - unfold DemoPage.displayedCurve. destruct (uploadedCurve s) as [c |] eqn:U.
    + split; [intros ->; now apply Hne | now apply Hfin].
    + split; [| apply mockLightCurve_finite].
      intros C. pose proof mockLightCurve_length as L. rewrite C in L. discriminate.
  - apply IH; unfold handleUpload; cbn [uploadedCurve].
    + destruct (parseCsvLightCurve Number (text f)) as [| p ps]; cbn; discriminate.
    + intros c. destruct (0 <? _)%nat; [| discriminate]. intros [= <-].
      unfold parseCsvLightCurve.
      destruct (content_lines (text f)) as [| first others]; [constructor |].
      apply parse_lines_finite.
  - apply IH; unfold reset; cbn [uploadedCurve]; [discriminate |].
    intros c [=].
Qed.

End CurveFacts.


(** X6: whatever was uploaded or reset before, the curve handed to the chart
    has at least one point and only finite points (for a [Math.sin] and a
    [Math.random] that stay in their ranges); an upload without a usable row
    leaves the mock curve of 200 points on display, under the name of the
    file and a count of 0 points. *)
Theorem displayedCurve_never_empty (F : float_format) (Number : string -> num)
    (Math_sin : num -> num) (Math_random : nat -> num) (events : list (option file)) :
  (forall x, exists y, Math_sin (Fin x) = Fin y /\ (- (1) <= y <= 1)%Q) ->
  (forall i, exists y, Math_random i = Fin y /\ (0 <= y <= 1)%Q) ->
  displayedCurve F Math_sin Math_random (after Number events (first_render F)) <> [] /\
  List.Forall finite_point
    (displayedCurve F Math_sin Math_random (after Number events (first_render F))) /\
  List.length (mockLightCurve F Math_sin Math_random) = 200%nat /\
  (forall f s,
      parseCsvLightCurve Number (text f) = [] ->
      displayedCurve F Math_sin Math_random (handleUpload Number f s)
      = mockLightCurve F Math_sin Math_random /\
      uploadedName (handleUpload Number f s) = Some (name f) /\
      loaded_points (handleUpload Number f s) = 0%nat) /\
  (forall f s,
      parseCsvLightCurve Number (text f) <> [] ->
      displayedCurve F Math_sin Math_random (handleUpload Number f s)
      = parseCsvLightCurve Number (text f)).
Proof.
  intros Hsin Hrandom.
  destruct (displayedCurve_after F Number Math_sin Math_random Hsin Hrandom events
              (first_render F)) as [Hne Hfin]; [discriminate | intros c [=] |].
  split; [exact Hne |]. split; [exact Hfin |].
  split; [apply mockLightCurve_length |]. split.
  - intros f s E. unfold displayedCurve, loaded_points, handleUpload.
    cbn [uploadedCurve uploadedName]. rewrite E. now repeat split.
  - intros f s E. unfold displayedCurve, handleUpload. cbn [uploadedCurve].
    destruct (parseCsvLightCurve Number (text f)); [contradiction | reflexivity].
Qed.

Lemma displayedCurve_never_empty_witness :
  let events := [Some {| name := "kepler.csv";
                         text := "time,flux" ++ String "010" "1,2" |}; None] in
  displayedCurve binary64 (fun _ => Fin 0) (fun _ => Fin (1 # 2))
    (after (Async.parseInt binary64) events (first_render binary64)) <> [] /\
  List.Forall finite_point
    (displayedCurve binary64 (fun _ => Fin 0) (fun _ => Fin (1 # 2))
       (after (Async.parseInt binary64) events (first_render binary64))) /\
  List.length (mockLightCurve binary64 (fun _ => Fin 0) (fun _ => Fin (1 # 2))) = 200%nat /\
  (forall f s,
      parseCsvLightCurve (Async.parseInt binary64) (text f) = [] ->
      displayedCurve binary64 (fun _ => Fin 0) (fun _ => Fin (1 # 2))
        (handleUpload (Async.parseInt binary64) f s)
      = mockLightCurve binary64 (fun _ => Fin 0) (fun _ => Fin (1 # 2)) /\
      uploadedName (handleUpload (Async.parseInt binary64) f s) = Some (name f) /\
      loaded_points (handleUpload (Async.parseInt binary64) f s) = 0%nat) /\
  (forall f s,
      parseCsvLightCurve (Async.parseInt binary64) (text f) <> [] ->
      displayedCurve binary64 (fun _ => Fin 0) (fun _ => Fin (1 # 2))
        (handleUpload (Async.parseInt binary64) f s)
      = parseCsvLightCurve (Async.parseInt binary64) (text f)).
Proof.
  apply (displayedCurve_never_empty binary64 (Async.parseInt binary64)
           (fun _ => Fin 0) (fun _ => Fin (1 # 2))).
  - intros x. exists 0%Q. split; [reflexivity | split; discriminate].
  - intros i. exists (1 # 2)%Q. split; [reflexivity | split; discriminate].
Defined.

Section ResetFacts.
Variable F : float_format.
Variable Math_log10 : num -> num.
Variable learningRate : num.
Variable epochs : nat.
Hypothesis epochs_range : (1 <= epochs <= 50)%nat.

Local Abbreviation tick := (tick F Math_log10 learningRate epochs).
Local Abbreviation run := (run F Math_log10 learningRate epochs).

(** A run is counting below 100 or has ended. *)
Lemma run_state (j : nat) :
  (exists i, (0 <= i < 100)%Z /\ counting (run j) i) \/
  finished F Math_log10 learningRate epochs (run j).
Proof.
  destruct (increment_spec F epochs) as (s & k & Hs & Hk & Bk); [lia |].
  induction j as [| j IH].
  - left. exists 0%Z. split; [lia |]. apply handleRunJob_counting.
  - unfold Demo.run in *. rewrite Nat.iter_succ.
    destruct IH as [(i & Bi & Hc) | Hf].
    + destruct (tick_counting F Math_log10 learningRate epochs s k _ i Hs Hk Bk Hc Bi)
        as [[Hlt Hc'] | [_ Hf]].
      * left. exists (i + k)%Z. split; [lia | exact Hc'].
      * right. exact Hf.
    + right. now rewrite tick_finished.
Qed.

Lemma reset_counting (s : sandbox) (i : Z) :
  counting (job s) i -> counting (job (reset s)) i.
Proof. intros H. exact H. Qed.

End ResetFacts.

(** X7: a click on Reset while a job is running clears the metrics and the
    results for the moment but does not stop the timer: the job runs on,
    and within 100 ticks it ends and sets metrics and results again. *)
Theorem reset_does_not_cancel (F : float_format) (Math_log10 : num -> num)
    (learningRate : num) (epochs : nat) (j : nat) (s : sandbox) :
  (1 <= epochs <= 50)%nat ->
  job s = run F Math_log10 learningRate epochs j ->
  jobRunning (job s) = true ->
  jobMetrics (job (reset s)) = None /\ jobResults (job (reset s)) = None /\
  interval (job (reset s)) = true /\
  exists n, (1 <= n <= 100)%nat /\
    jobRunning (Nat.iter n (tick F Math_log10 learningRate epochs) (job (reset s))) = false /\
    interval (Nat.iter n (tick F Math_log10 learningRate epochs) (job (reset s))) = false /\
    jobMetrics (Nat.iter n (tick F Math_log10 learningRate epochs) (job (reset s)))
    = Some (mock_metrics F Math_log10 learningRate epochs) /\
    exists results,
      jobResults (Nat.iter n (tick F Math_log10 learningRate epochs) (job (reset s)))
      = Some results.
Proof.
  intros He Hjob Hrun.
  destruct (run_state F Math_log10 learningRate epochs He j) as [(i & Bi & Hc) | Hf].
  - rewrite <- Hjob in Hc. pose proof (reset_counting s i Hc) as Hc'.
    split; [reflexivity |]. split; [reflexivity |].
    split; [exact (proj1 Hc') |].
    destruct (increment_spec F epochs) as (sq & k & Hs & Hk & Bk); [lia |].
    destruct (counting_ends F Math_log10 learningRate epochs sq k Hs Hk Bk 100
                (job (reset s)) i Hc') as (n & Bn & _ & Hfin); [lia | lia |].
    exists n. split; [exact Bn |].
    destruct Hfin as (Hi & Hr & _ & Hm & Hres). now repeat split.
  - rewrite <- Hjob in Hf. destruct Hf as (_ & Hr & _). congruence.
Qed.

Lemma reset_does_not_cancel_witness :
  let s := {| uploadedName := None; uploadedCurve := None;
              job := run binary64 log10_near_one (Fin (1 # 1000)) 10 7 |} in
  jobMetrics (job (reset s)) = None /\ jobResults (job (reset s)) = None /\
  interval (job (reset s)) = true /\
  exists n, (1 <= n <= 100)%nat /\
    jobRunning (Nat.iter n (tick binary64 log10_near_one (Fin (1 # 1000)) 10)
                  (job (reset s))) = false /\
    interval (Nat.iter n (tick binary64 log10_near_one (Fin (1 # 1000)) 10)
                (job (reset s))) = false /\
    jobMetrics (Nat.iter n (tick binary64 log10_near_one (Fin (1 # 1000)) 10)
                  (job (reset s)))
    = Some (mock_metrics binary64 log10_near_one (Fin (1 # 1000)) 10) /\
    exists results,
      jobResults (Nat.iter n (tick binary64 log10_near_one (Fin (1 # 1000)) 10)
                    (job (reset s)))
      = Some results.
Proof.
  apply (reset_does_not_cancel binary64 log10_near_one (Fin (1 # 1000)) 10 7).
  - lia.
  - reflexivity.
  - vm_compute. reflexivity.
Defined.

End DemoPage.

(** ** The Demo page: reading back a light curve written as CSV *)

Module CsvRoundTrip.
Import JSNum Csv.

Fixpoint all_chars (p : ascii -> bool) (s : string) : bool :=
  match s with
  | EmptyString => true
  | String c rest => p c && all_chars p rest
  end.

(** A code unit of a field: neither a comma nor white space. *)
Definition is_field_char (c : ascii) : bool :=
  negb (Ascii.eqb c ","%char) && negb (is_space c).

(** A code unit between two fields: a comma, or white space other than the
    line terminators. *)
Definition is_gap_char (c : ascii) : bool :=
  Ascii.eqb c ","%char
  || (is_space c && negb (Ascii.eqb c "010"%char) && negb (Ascii.eqb c "013"%char)).

Definition no_line_end (c : ascii) : bool :=
  negb (Ascii.eqb c "010"%char) && negb (Ascii.eqb c "013"%char).

Definition is_field (s : string) : bool := nonempty s && all_chars is_field_char s.
Definition is_gap (s : string) : bool := nonempty s && all_chars is_gap_char s.

(** A row of the file: the text of the time, what separates the two
    columns, and the text of the flux. *)
Record row := { time_text : string; gap : string; flux_text : string }.

Definition line (r : row) : string := time_text r ++ gap r ++ flux_text r.

Section RoundTrip.
Variable Number : string -> num.

Definition readable (r : row) : Prop :=
  is_field (time_text r) = true /\ is_gap (gap r) = true /\
  is_field (flux_text r) = true /\
  Number_isFinite (Number (time_text r)) = true /\
  Number_isFinite (Number (flux_text r)) = true.

Definition point_of (r : row) : point :=
  {| time := Number (time_text r); flux := Number (flux_text r) |}.

End RoundTrip.

(** *** Lines *)

Lemma field_char_no_line_end c : is_field_char c = true -> no_line_end c = true.
Proof.
  unfold is_field_char, no_line_end. intros H. apply andb_true_iff in H.
  destruct H as [_ H]. apply negb_true_iff in H.
  destruct (Ascii.eqb c "010"%char) eqn:E1.
  { apply Ascii.eqb_eq in E1. subst. discriminate. }
  destruct (Ascii.eqb c "013"%char) eqn:E2.
  { apply Ascii.eqb_eq in E2. subst. discriminate. }
  reflexivity.
Qed.

Lemma gap_char_no_line_end c : is_gap_char c = true -> no_line_end c = true.
Proof.
  unfold is_gap_char, no_line_end. intros H. apply orb_true_iff in H.
  destruct H as [H | H].
  - apply Ascii.eqb_eq in H. subst. reflexivity.
  - apply andb_true_iff in H. destruct H as [H H2]. apply andb_true_iff in H.
    destruct H as [_ H1]. now rewrite H1, H2.
Qed.

Lemma all_chars_impl (p q : ascii -> bool) (s : string) :
  (forall c, p c = true -> q c = true) -> all_chars p s = true -> all_chars q s = true.
Proof.
  intros Hpq. induction s as [| c s IH]; cbn; [reflexivity |].
  intros H. apply andb_true_iff in H. destruct H as [Hc Hs].
  now rewrite (Hpq c Hc), IH.
Qed.

Lemma all_chars_append (p : ascii -> bool) (s t : string) :
  all_chars p (s ++ t) = all_chars p s && all_chars p t.
Proof.
  induction s as [| c s IH]; simpl; [reflexivity |].
  now rewrite IH, andb_assoc.
Qed.

(** A text without line terminators is one line. *)
Lemma split_lines_one (l : string) :
  all_chars no_line_end l = true -> split_lines l = [l].
Proof.
  induction l as [| c l IH]; [reflexivity |].
  cbn [all_chars]. intros H. apply andb_true_iff in H. destruct H as [Hc Hl].
  unfold no_line_end in Hc. apply andb_true_iff in Hc. destruct Hc as [C1 C2].
  apply negb_true_iff in C1, C2.
  cbn [split_lines]. rewrite C1, C2. cbn [andb].
  destruct l as [| d l']; [reflexivity |].
  now rewrite (IH Hl).
Qed.

Lemma split_lines_cons (eol l rest : string) :
  eol = String "010" "" \/ eol = String "013" (String "010" "") ->
  all_chars no_line_end l = true ->
  split_lines (l ++ eol ++ rest) = l :: split_lines rest.
Proof.
  intros Heol. induction l as [| c l IH].
  - intros _. destruct Heol as [-> | ->]; reflexivity.
  - cbn [all_chars]. intros H. apply andb_true_iff in H. destruct H as [Hc Hl].
    unfold no_line_end in Hc. apply andb_true_iff in Hc. destruct Hc as [C1 C2].
    apply negb_true_iff in C1, C2.
    change (String c l ++ eol ++ rest)%string with (String c (l ++ eol ++ rest)%string).
    cbn [split_lines]. rewrite C1, C2. cbn [andb].
    rewrite (IH Hl).
    destruct (l ++ eol ++ rest)%string eqn:E; [| reflexivity].
    exfalso. destruct l; [destruct Heol as [-> | ->] |]; discriminate.
Qed.

Lemma split_lines_concat (eol : string) (ls : list string) (l : string) :
  eol = String "010" "" \/ eol = String "013" (String "010" "") ->
  List.Forall (fun l => all_chars no_line_end l = true) (l :: ls) ->
  split_lines (String.concat eol (l :: ls)) = l :: ls.
Proof.
  intros Heol. revert l. induction ls as [| l' ls IH]; intros l H.
  - cbn. apply split_lines_one. now inversion H.
  - change (String.concat eol (l :: l' :: ls))
      with (l ++ eol ++ String.concat eol (l' :: ls))%string.
    inversion H as [| ? ? Hl Hrest]; subst.
    rewrite (split_lines_cons eol l _ Heol Hl). now rewrite IH.
Qed.

(** *** Blank lines *)

(** A text with a code unit that is not white space. *)
Fixpoint has_ink (s : string) : bool :=
  match s with
  | EmptyString => false
  | String c rest => negb (is_space c) || has_ink rest
  end.

Lemma has_ink_nonempty s : has_ink s = true -> (0 <? String.length s)%nat = true.
Proof. destruct s; [discriminate | reflexivity]. Qed.

Lemma has_ink_trimStart s : has_ink (trimStart s) = has_ink s.
Proof.
  induction s as [| c s IH]; [reflexivity |].
  cbn [trimStart]. destruct (is_space c) eqn:E; [| reflexivity].
  cbn [has_ink]. now rewrite E, IH.
Qed.

Lemma has_ink_rev s : forall acc, has_ink (rev_string s acc) = has_ink s || has_ink acc.
Proof.
  induction s as [| c s IH]; intros acc; cbn [rev_string has_ink]; [reflexivity |].
  rewrite IH. cbn [has_ink]. destruct (is_space c), (has_ink s), (has_ink acc); reflexivity.
Qed.

Lemma has_ink_trim s : has_ink (trim s) = has_ink s.
Proof.
  unfold trim, trimEnd. rewrite has_ink_rev, has_ink_trimStart, has_ink_rev.
  cbn [has_ink]. rewrite !orb_false_r. apply has_ink_trimStart.
Qed.

Lemma has_ink_append s t : has_ink (s ++ t) = has_ink s || has_ink t.
Proof.
  induction s as [| c s IH]; simpl; [reflexivity |].
  now rewrite IH, orb_assoc.
Qed.

Lemma field_has_ink s : is_field s = true -> has_ink s = true.
Proof.
  unfold is_field. destruct s as [| c s]; [discriminate |].
  cbn. intros H. apply andb_true_iff in H. destruct H as [H _].
  unfold is_field_char in H. apply andb_true_iff in H. destruct H as [_ H].
  now rewrite H.
Qed.

Lemma lower_space c : is_space c = true -> lower c = c.
Proof.
  unfold is_space, lower. intros H.
  destruct ((65 <=? nat_of_ascii c)%nat && (nat_of_ascii c <=? 90)%nat
            || (192 <=? nat_of_ascii c)%nat && (nat_of_ascii c <=? 222)%nat
               && negb (nat_of_ascii c =? 215)%nat) eqn:U; [| reflexivity].
  exfalso.
  repeat match goal with
         | H : _ || _ = true |- _ => apply orb_true_iff in H; destruct H as [H | H]
         | H : _ && _ = true |- _ => apply andb_true_iff in H; destruct H as [? H]
         | H : (_ <=? _)%nat = true |- _ => apply Nat.leb_le in H
         | H : (_ =? _)%nat = true |- _ => apply Nat.eqb_eq in H
         end; lia.
Qed.

(** Lower-casing keeps white space and ink apart. *)
Lemma has_ink_lower s : has_ink (toLowerCase s) = true -> has_ink s = true.
Proof.
  induction s as [| c s IH]; [discriminate |].
  cbn [toLowerCase has_ink]. intros H. apply orb_true_iff in H.
  destruct (is_space c) eqn:E; cbn [negb orb]; [| reflexivity].
  destruct H as [H | H]; [| now apply IH].
  rewrite (lower_space c E), E in H. discriminate.
Qed.

Lemma header_has_ink h : has_header h = true -> has_ink h = true.
Proof.
  unfold has_header. intros H. apply andb_true_iff in H. destruct H as [H _].
  apply includes_spec in H. destruct H as (pre & post & E).
  apply has_ink_lower. rewrite E, has_ink_append. cbn. apply orb_true_r.
Qed.

Lemma ink_is_content l :
  has_ink l = true -> (0 <? String.length (trim l))%nat = true.
Proof. intros H. apply has_ink_nonempty. now rewrite has_ink_trim. Qed.


(** *** Fields *)

Lemma field_char_facts c :
  is_field_char c = true ->
  is_space c = false /\ Ascii.eqb c ","%char = false /\ Ascii.eqb c "009"%char = false.
Proof.
  unfold is_field_char. intros H. apply andb_true_iff in H. destruct H as [H1 H2].
  apply negb_true_iff in H1, H2. split; [exact H2 |]. split; [exact H1 |].
  destruct (Ascii.eqb c "009"%char) eqn:E; [| reflexivity].
  apply Ascii.eqb_eq in E. subst. discriminate.
Qed.

Lemma append_empty_r (s : string) : (s ++ "")%string = s.
Proof.
  induction s as [| c s IH]; [reflexivity |].
  change (String c s ++ "")%string with (String c (s ++ "")%string). now rewrite IH.
Qed.

Lemma split_fields_not_nil (line : string) : forall run, split_fields line run <> [].
Proof.
  induction line as [| c rest IH]; intros run; cbn [split_fields]; [discriminate |].
  destruct (run && is_space c); [apply IH |].
  destruct (Ascii.eqb c ","%char); [discriminate |].
  destruct (Ascii.eqb c "009"%char); [discriminate |].
  destruct (is_space c); [discriminate |].
  destruct (split_fields rest false); discriminate.
Qed.

(** A field at the start of a line runs up to the next separator. *)
Lemma split_fields_field (a rest : string) (run : bool) :
  all_chars is_field_char a = true -> a <> "" ->
  split_fields (a ++ rest) run
  = (a ++ List.hd "" (split_fields rest false))%string :: List.tl (split_fields rest false).
Proof.
  revert run. induction a as [| c a IH]; intros run Ha Hne; [contradiction |].
  cbn [all_chars] in Ha. apply andb_true_iff in Ha. destruct Ha as [Hc Ha].
  destruct (field_char_facts c Hc) as (S & C & T).
  change (String c a ++ rest)%string with (String c (a ++ rest)%string).
  cbn [split_fields]. rewrite S, C, T, andb_false_r.
  destruct a as [| d a'].
  - change ("" ++ rest)%string with rest.
    destruct (split_fields rest false) eqn:E; [now apply split_fields_not_nil in E |].
    reflexivity.
  - rewrite (IH false Ha) by discriminate. reflexivity.
Qed.

Lemma split_fields_last (b : string) (run : bool) :
  is_field b = true -> split_fields b run = [b].
Proof.
  unfold is_field. intros H. apply andb_true_iff in H. destruct H as [Hne Hb].
  assert (N : b <> "") by (intros ->; discriminate).
  rewrite <- (append_empty_r b) at 1.
  rewrite (split_fields_field b "" run Hb N). cbn. now rewrite append_empty_r.
Qed.

(** What lies between two fields yields empty strings only, and at least
    one when it does not continue a run of white space. *)
Lemma split_fields_gap (g b : string) :
  all_chars is_gap_char g = true -> is_field b = true ->
  forall run, exists es,
    List.Forall (fun e => e = "") es /\
    split_fields (g ++ b) run = es ++ [b] /\
    (run = false -> g <> "" -> es <> []).
Proof.
  intros Hg Hb. induction g as [| c g IH]; intros run.
  - exists []. split; [constructor |]. split; [| intros _ C; now contradiction C].
    now apply split_fields_last.
  - cbn [all_chars] in Hg. apply andb_true_iff in Hg. destruct Hg as [Hc Hg].
    change (String c g ++ b)%string with (String c (g ++ b)%string).
    cbn [split_fields]. unfold is_gap_char in Hc.
    destruct (Ascii.eqb c ","%char) eqn:C.
    + apply Ascii.eqb_eq in C. subst c. cbn [is_space nat_of_ascii]. rewrite andb_false_r.
      destruct (IH Hg false) as (es & Hes & E & _).
      exists ("" :: es). split; [now constructor |]. split; [now rewrite E |].
      intros _ _. discriminate.
    + cbn [orb] in Hc. apply andb_true_iff in Hc. destruct Hc as [Hc _].
      apply andb_true_iff in Hc. destruct Hc as [Hs _]. rewrite Hs, andb_true_r.
      destruct run.
      * destruct (IH Hg true) as (es & Hes & E & _).
        exists es. split; [exact Hes |]. split; [exact E |]. discriminate.
      * destruct (Ascii.eqb c "009"%char).
        -- destruct (IH Hg false) as (es & Hes & E & _).
           exists ("" :: es). split; [now constructor |]. split; [now rewrite E |].
           intros _ _. discriminate.
        -- destruct (IH Hg true) as (es & Hes & E & _).
           exists ("" :: es). split; [now constructor |]. split; [now rewrite E |].
           intros _ _. discriminate.
Qed.

Lemma filter_empties (es : list string) :
  List.Forall (fun e => e = "") es -> List.filter nonempty es = [].
Proof.
  induction 1 as [| e es He _ IH]; [reflexivity |]. subst e. cbn. exact IH.
Qed.

Lemma content_lines_rows (eol : string) (l : string) (ls : list string) :
  eol = String "010" "" \/ eol = String "013" (String "010" "") ->
  List.Forall (fun l => all_chars no_line_end l = true /\ has_ink l = true) (l :: ls) ->
  content_lines (String.concat eol (l :: ls)) = l :: ls.
Proof.
  intros Heol H. unfold content_lines.
  rewrite (split_lines_concat eol ls l Heol).
  2:{ eapply List.Forall_impl; [| exact H]. cbn. tauto. }
  generalize (l :: ls) H. clear. intros ls H.
  induction H as [| x xs [_ Hx] _ IH]; [reflexivity |].
  cbn [List.filter]. now rewrite (ink_is_content x Hx), IH.
Qed.

Section RoundTripFacts.
Variable Number : string -> num.

Lemma parse_line_row (r : row) :
  readable Number r -> parse_line Number (line r) = Some (point_of Number r).
Proof.
  intros (Ha & Hg & Hb & Ft & Ff).
  unfold is_field in Ha. apply andb_true_iff in Ha. destruct Ha as [Na Ca].
  unfold is_gap in Hg. apply andb_true_iff in Hg. destruct Hg as [Ng Cg].
  assert (Nb : nonempty (flux_text r) = true).
  { unfold is_field in Hb. now apply andb_true_iff in Hb. }
  assert (Na' : time_text r <> "") by (intros E; rewrite E in Na; discriminate).
  assert (Ng' : gap r <> "") by (intros E; rewrite E in Ng; discriminate).
  unfold parse_line, line.
  rewrite (split_fields_field (time_text r) _ false Ca Na').
  destruct (split_fields_gap (gap r) (flux_text r) Cg Hb false) as (es & Hes & E & Hne).
  rewrite E. destruct es as [| e es]; [now contradiction (Hne eq_refl Ng') |].
  inversion Hes as [| ? ? He Hes']; subst.
  cbn [List.hd List.tl app]. rewrite append_empty_r.
  cbn [List.filter]. rewrite Na. rewrite List.filter_app, (filter_empties es Hes').
  cbn [List.filter app]. rewrite Nb.
  unfold point_of. now rewrite Ft, Ff.
Qed.

Lemma parse_lines_rows (rows : list row) :
  List.Forall (readable Number) rows ->
  parse_lines Number (List.map line rows) = List.map (point_of Number) rows.
Proof.
  induction 1 as [| r rows Hr _ IH]; [reflexivity |].
  cbn [List.map parse_lines]. now rewrite (parse_line_row r Hr), IH.
Qed.

Lemma line_one_line (r : row) :
  readable Number r -> all_chars no_line_end (line r) = true.
Proof.
  intros (Ha & Hg & Hb & _). unfold line. rewrite !all_chars_append.
  unfold is_field in Ha, Hb. unfold is_gap in Hg.
  apply andb_true_iff in Ha, Hb, Hg. destruct Ha as [_ Ha], Hb as [_ Hb], Hg as [_ Hg].
  rewrite (all_chars_impl _ _ _ field_char_no_line_end Ha).
  rewrite (all_chars_impl _ _ _ gap_char_no_line_end Hg).
  now rewrite (all_chars_impl _ _ _ field_char_no_line_end Hb).
Qed.

Lemma line_has_ink (r : row) : readable Number r -> has_ink (line r) = true.
Proof.
  intros (Ha & _). unfold line. rewrite has_ink_append.
  now rewrite (field_has_ink _ Ha).
Qed.

End RoundTripFacts.

(** X8: a light curve written one row per line -- the time, then commas, tabs
    or blanks, then the flux, lines ended by LF or by CR LF -- is read back
    row by row as the Numbers of the two texts, in order: after a header
    line that names time and flux, and without a header as well when the
    first row does not itself read as one. *)
Theorem csv_round_trip (Number : string -> num) (eol header : string) (rows : list row) :
  eol = String "010" "" \/ eol = String "013" (String "010" "") ->
  List.Forall (readable Number) rows ->
  (has_header header = true -> all_chars no_line_end header = true ->
   parseCsvLightCurve Number (String.concat eol (header :: List.map line rows))
   = List.map (point_of Number) rows) /\
  (match rows with r :: _ => has_header (line r) = false | [] => True end ->
   parseCsvLightCurve Number (String.concat eol (List.map line rows))
   = List.map (point_of Number) rows).
Proof.
  intros Heol Hrows.
  assert (Hlines : List.Forall (fun l => all_chars no_line_end l = true /\ has_ink l = true)
                     (List.map line rows)).
  { apply List.Forall_map. eapply List.Forall_impl; [| exact Hrows].
    intros r Hr. split; [now apply (line_one_line Number) | now apply (line_has_ink Number)]. }
  split.
  - intros Hh H1. unfold parseCsvLightCurve.
    rewrite (content_lines_rows eol header _ Heol).
    2:{ constructor; [| exact Hlines]. split; [exact H1 | now apply header_has_ink]. }
    rewrite Hh. change (skipn 1 (header :: List.map line rows)) with (List.map line rows).
    now apply parse_lines_rows.
  - intros Hfirst. unfold parseCsvLightCurve.
    destruct rows as [| r rows]; [reflexivity |].
    cbn [List.map] in Hlines |- *.
    rewrite (content_lines_rows eol (line r) _ Heol Hlines).
    rewrite Hfirst. change (skipn 0 (line r :: List.map line rows))
      with (List.map line (r :: rows)).
    now apply parse_lines_rows.
Qed.


Definition sample_rows : list row :=
  [{| time_text := "0"; gap := ","; flux_text := "1" |};
   {| time_text := "1"; gap := ", "; flux_text := "2" |};
   {| time_text := "2"; gap := String "009" ""; flux_text := "3" |}].

Lemma csv_round_trip_witness :
  let eol := String "013" (String "010" "") in
  (has_header "Time (d), FLUX" = true -> all_chars no_line_end "Time (d), FLUX" = true ->
   parseCsvLightCurve (Async.parseInt binary64)
     (String.concat eol ("Time (d), FLUX" :: List.map line sample_rows))
   = List.map (point_of (Async.parseInt binary64)) sample_rows) /\
  (match sample_rows with r :: _ => has_header (line r) = false | [] => True end ->
   parseCsvLightCurve (Async.parseInt binary64)
     (String.concat eol (List.map line sample_rows))
   = List.map (point_of (Async.parseInt binary64)) sample_rows).
Proof.
  apply (csv_round_trip (Async.parseInt binary64) (String "013" (String "010" ""))
           "Time (d), FLUX" sample_rows).
  - right. reflexivity.
  - repeat constructor.
Defined.

Example csv_example :
  List.map (fun p => (time p, flux p))
    (parseCsvLightCurve (Async.parseInt exact_format)
       ("time,flux" ++ String "010" "0,1" ++ String "013" (String "010" "1, 2")
        ++ String "010" "" ++ String "010" ("2" ++ String "009" "3") ++ String "010" "x,4"))
  = [(Fin 0, Fin 1); (Fin 1, Fin 2); (Fin 2, Fin 3)].
Proof. reflexivity. Qed.

End CsvRoundTrip.

(** ** The auto-translation script: [translateText], [deepTranslate],
    [flattenTranslatedObject] and the data [main] writes

    Texts are kept here as the bytes of their UTF-8 encoding: the script
    compares them, looks them up, searches them for ASCII terms and joins
    them, which reads the same on bytes as on code units. *)

Module Translate.
Import JSNum JSValue Report AutoTranslate.

Definition TRANSLATION_MAP : value :=
  obj [("Home", VStr "الرئيسية");
       ("Demo", VStr "العرض التوضيحي");
       ("Team", VStr "الفريق");
       ("Resources", VStr "الموارد");
       ("Loading", VStr "جارٍ التحميل");
       ("Save", VStr "حفظ");
       ("Cancel", VStr "إلغاء");
       ("Delete", VStr "حذف");
       ("Edit", VStr "تعديل");
       ("View", VStr "عرض");
       ("Download", VStr "تنزيل");
       ("Upload", VStr "رفع");
       ("Search", VStr "بحث");
       ("Filter", VStr "تصفية");
       ("Sort", VStr "ترتيب");
       ("Settings", VStr "الإعدادات");
       ("Help", VStr "مساعدة");
       ("Close", VStr "إغلاق");
       ("Open", VStr "فتح");
       ("Yes", VStr "نعم");
       ("No", VStr "لا");
       ("OK", VStr "موافق");
       ("Error", VStr "خطأ");
       ("Success", VStr "نجاح");
       ("Warning", VStr "تحذير");
       ("Info", VStr "معلومات");
       ("Name", VStr "الاسم");
       ("Email", VStr "البريد الإلكتروني");
       ("Password", VStr "كلمة المرور");
       ("Submit", VStr "إرسال");
       ("Reset", VStr "إعادة تعيين");
       ("Required", VStr "مطلوب");
       ("Optional", VStr "اختياري");
       ("TabKANet", VStr "TabKANet");
       ("QSVC", VStr "QSVC");
       (".csv", VStr ".csv");
       (".json", VStr ".json");
       (".parquet", VStr ".parquet");
       (".pt", VStr ".pt");
       (".onnx", VStr ".onnx");
       ("Machine Learning", VStr "التعلم الآلي");
       ("Deep Learning", VStr "التعلم العميق");
       ("Neural Network", VStr "الشبكة العصبية");
       ("Dataset", VStr "مجموعة البيانات");
       ("Training", VStr "التدريب");
       ("Validation", VStr "التحقق");
       ("Testing", VStr "الاختبار");
       ("Accuracy", VStr "الدقة");
       ("Precision", VStr "الدقة");
       ("Recall", VStr "الاستدعاء");
       ("Model", VStr "النموذج");
       ("Algorithm", VStr "الخوارزمية");
       ("Performance", VStr "الأداء");
       ("Optimization", VStr "الأمثلة");
       ("Parameters", VStr "المعلمات");
       ("Hyperparameters", VStr "المعلمات الفائقة");
       ("Configuration", VStr "الإعداد");
       ("Start Training", VStr "بدء التدريب");
       ("View Results", VStr "عرض النتائج");
       ("Export Model", VStr "تصدير النموذج");
       ("Upload Data", VStr "رفع البيانات");
       ("Select File", VStr "اختر ملفًا");
       ("Process Data", VStr "معالجة البيانات");
       ("Train Model", VStr "تدريب النموذج");
       ("Evaluate Model", VStr "تقييم النموذج")].

(** [v !== s] for a string [s] *)
Definition differs_from (v : value) (s : string) : bool :=
  match v with
  | VStr t => negb (String.eqb t s)
  | _ => true
  end.

Definition isModelName (text : string) : bool :=
  existsb (fun name => Csv.includes text name)
          ["TabKANet"; "QSVC"; "CNN"; "RNN"; "LSTM"; "GAN"; "VAE"].

Definition isTechnicalTerm (text : string) : bool :=
  existsb (fun term => Csv.includes text term)
          [".csv"; ".json"; ".pt"; ".onnx"; "CLI"; "API"; "HTTP"; "GPU"; "CPU"].

(** The object literal [deepTranslate] stores for an entry to review. *)
Definition review_marker (translated : value) (original : string) : value :=
  obj [("_value", translated);
       ("_autoTranslated", VBool true);
       ("_originalValue", VStr original);
       ("_needsReview", VBool true)].

Section Script.
Variable host_get : value -> string -> value.

Definition translateText (text : string) (targetLang : string) : value :=
  if truthy (get host_get TRANSLATION_MAP text)
  then get host_get TRANSLATION_MAP text
  else if String.eqb targetLang "ar"
       then if isModelName text || isTechnicalTerm text
            then VStr text
            else VStr ("[AR: " ++ text ++ "]")
       else VStr text.

(** What [deepTranslate] stores for a value that is not a plain object. *)
Definition translate_leaf (v : value) (targetLang : string) : value :=
  match v with
  | VStr s =>
      let translated := translateText s targetLang in
      if differs_from translated s && negb (truthy (get host_get TRANSLATION_MAP s))
      then review_marker translated s
      else translated
  | _ => v
  end.

(** [deepTranslate(obj, targetLang, prefix)]; [obj] is a plain object at
    every call. *)
Fixpoint deepTranslate (obj : value) (targetLang prefix : string) {struct obj} : value :=
  match obj with
  | VObj _ es =>
      (fix each (es : list (string * value)) (result : value) {struct es} : value :=
         match es with
         | [] => result
         | (key, v) :: rest =>
             each rest
               (if is_plain_object v
                then assign result key (deepTranslate v targetLang (fullKey prefix key))
                else assign result key (translate_leaf v targetLang))
         end) es (JSValue.obj [])
  | _ => JSValue.obj []
  end.

(** What [flattenTranslatedObject] stores for the value of an entry. *)
Definition flatten_entry (flatten : value -> value) (v : value) : value :=
  if is_plain_object v
  then if truthy (get host_get v "_autoTranslated")
       then get host_get v "_value"
       else flatten v
  else v.

Fixpoint flattenTranslatedObject (obj : value) {struct obj} : value :=
  match obj with
  | VObj _ es =>
      (fix each (es : list (string * value)) (result : value) {struct es} : value :=
         match es with
         | [] => result
         | (key, v) :: rest =>
             each rest
               (if is_plain_object v
                then if truthy (get host_get v "_autoTranslated")
                     then assign result key (get host_get v "_value")
                     else assign result key (flattenTranslatedObject v)
                else assign result key v)
         end) es (JSValue.obj [])
  | _ => JSValue.obj []
  end.

(** The data [main] writes to the Arabic file, from the parsed English file
    and the parsed Arabic file ([{}] when there is none). *)
Definition finalData (enData arData : value) : value :=
  let translatedData := deepTranslate enData "ar" "" in
  let mergedData := mergeTranslations host_get arData translatedData in
  flattenTranslatedObject mergedData.

End Script.


(** *** Objects built entry by entry *)

(** The value reached from [v] through nested objects by a path of own
    property keys. *)
Fixpoint descend (v : value) (path : list string) : option value :=
  match path with
  | [] => Some v
  | key :: rest =>
      match v with
      | VObj _ es =>
          match assoc es key with
          | Some x => descend x rest
          | None => None
          end
      | _ => None
      end
  end.

(** A value as [JSON.parse] yields a locale file that uses neither
    [__proto__] nor [_autoTranslated] as a key: objects have the initial
    prototype and pairwise distinct keys, and no property holds a function,
    a built-in object or undefined.  Arrays are not looked into. *)
Fixpoint tidy (v : value) : bool :=
  match v with
  | VObj proto es =>
      match proto with None => true | Some _ => false end
      && distinct (List.map fst es)
      && negb (existsb (String.eqb "__proto__") (List.map fst es))
      && negb (existsb (String.eqb "_autoTranslated") (List.map fst es))
      && (fix all (es : list (string * value)) : bool :=
            match es with
            | [] => true
            | (_, x) :: rest => tidy x && all rest
            end) es
  | VUndefined | VProto _ | VFun _ => false
  | _ => true
  end.

(** A runtime whose [Object.prototype] carries functions only, and none
    under the name [_autoTranslated]. *)
Definition standard_prototype (host_get : value -> string -> value) : Prop :=
  (forall key, host_get (VProto ObjectPrototype) key = VUndefined \/
               exists name, host_get (VProto ObjectPrototype) key = VFun name) /\
  host_get (VProto ObjectPrototype) "_autoTranslated" = VUndefined.

Lemma assoc_none es key : assoc es key = None <-> ~ In key (List.map fst es).
Proof.
  induction es as [| [k v] rest IH]; cbn; [tauto |].
  destruct (String.eqb k key) eqn:E.
  - apply String.eqb_eq in E. split; [discriminate | intros H; exfalso; apply H; now left].
  - apply String.eqb_neq in E. rewrite IH. tauto.
Qed.

Lemma existsb_eqb_In key keys : existsb (String.eqb key) keys = true <-> In key keys.
Proof.
  rewrite existsb_exists. split.
  - intros (x & Hx & E). apply String.eqb_eq in E. now subst.
  - intros H. exists key. split; [exact H | apply String.eqb_refl].
Qed.

Lemma existsb_eqb_notin key keys : existsb (String.eqb key) keys = false <-> ~ In key keys.
Proof.
  rewrite <- existsb_eqb_In. destruct (existsb _ _); split; congruence.
Qed.

Lemma set_own_fresh es key v : assoc es key = None -> set_own es key v = es ++ [(key, v)].
Proof.
  induction es as [| [k x] rest IH]; cbn; [reflexivity |].
  destruct (String.eqb k key); [discriminate |]. intros H. now rewrite IH.
Qed.

Lemma assign_fresh es key v :
  assoc es key = None -> key <> "__proto__" ->
  assign (VObj None es) key v = VObj None (es ++ [(key, v)]).
Proof.
  intros A Hk. unfold assign. rewrite A. cbn [lookup own]. rewrite A.
  apply String.eqb_neq in Hk. rewrite Hk. now rewrite set_own_fresh.
Qed.

Lemma distinct_app_notin (a b : list string) key :
  distinct (a ++ key :: b) = true -> ~ In key a.
Proof.
  induction a as [| k a IH]; cbn; [tauto |].
  intros H. apply andb_true_iff in H. destruct H as [Hk Hd].
  apply negb_true_iff, existsb_eqb_notin in Hk.
  intros [-> | Hin]; [apply Hk; apply in_or_app; right; now left | now apply IH].
Qed.

(** Assigning the entries of a list with distinct keys, none of them
    [__proto__], to a fresh object lists them in their order. *)
Lemma build_entries (f : string * value -> value) (es : list (string * value)) :
  forall acc,
    distinct (List.map fst acc ++ List.map fst es) = true ->
    ~ In "__proto__" (List.map fst es) ->
    fold_left (fun result kv => assign result (fst kv) (f kv)) es (VObj None acc)
    = VObj None (acc ++ List.map (fun kv => (fst kv, f kv)) es).
Proof.
  induction es as [| [k v] rest IH]; intros acc Hd Hp; cbn [fold_left List.map].
  - now rewrite app_nil_r.
  - cbn [fst]. rewrite assign_fresh.
    + rewrite IH.
      * now rewrite <- app_assoc.
      * rewrite List.map_app, <- app_assoc. exact Hd.
      * intros C. apply Hp. now right.
    + apply assoc_none. cbn [List.map fst] in Hd. now apply distinct_app_notin in Hd.
    + intros ->. apply Hp. now left.
Qed.

Lemma assoc_map (f : string * value -> value) es key :
  assoc (List.map (fun kv => (fst kv, f kv)) es) key
  = option_map (fun x => f (key, x)) (assoc es key).
Proof.
  induction es as [| [k v] rest IH]; cbn; [reflexivity |].
  destruct (String.eqb k key) eqn:E; [| exact IH].
  apply String.eqb_eq in E. now subst.
Qed.

Lemma map_fst_map (f : string * value -> value) (es : list (string * value)) :
  List.map fst (List.map (fun kv => (fst kv, f kv)) es) = List.map fst es.
Proof. rewrite List.map_map. reflexivity. Qed.

Lemma tidy_object proto es :
  tidy (VObj proto es) = true ->
  proto = None /\ distinct (List.map fst es) = true /\
  ~ In "__proto__" (List.map fst es) /\ ~ In "_autoTranslated" (List.map fst es) /\
  (forall key x, assoc es key = Some x -> tidy x = true).
Proof.
  cbn [tidy]. intros H.
  apply andb_true_iff in H. destruct H as [H Hall].
  apply andb_true_iff in H. destruct H as [H Hauto].
  apply andb_true_iff in H. destruct H as [H Hproto].
  apply andb_true_iff in H. destruct H as [Hp Hd].
  split; [destruct proto; [discriminate | reflexivity] |].
  split; [exact Hd |].
  split; [now apply existsb_eqb_notin, negb_true_iff |].
  split; [now apply existsb_eqb_notin, negb_true_iff |].
  intros key x A. apply assoc_In in A. clear - Hall A.
  induction es as [| [k v] rest IH]; [destruct A |].
  apply andb_true_iff in Hall. destruct Hall as [Hv Hrest].
  destruct A as [[= -> ->] | A]; [exact Hv | now apply IH].
Qed.

Lemma set_own_keys es key v k :
  In k (List.map fst (set_own es key v)) <-> In k (List.map fst es) \/ k = key.
Proof.
  induction es as [| [k0 x] rest IH]; cbn.
  - intuition.
  - destruct (String.eqb k0 key) eqn:E; cbn.
    + apply String.eqb_eq in E. subst. intuition.
    + rewrite IH. intuition.
Qed.

Lemma set_own_distinct es key v :
  distinct (List.map fst es) = true -> distinct (List.map fst (set_own es key v)) = true.
Proof.
  induction es as [| [k0 x] rest IH]; cbn; [reflexivity |].
  intros H. apply andb_true_iff in H. destruct H as [Hk Hd].
  destruct (String.eqb k0 key) eqn:E; cbn.
  - now rewrite Hk, Hd.
  - rewrite (IH Hd), andb_true_r. apply negb_true_iff, existsb_eqb_notin.
    apply negb_true_iff, existsb_eqb_notin in Hk.
    intros C. apply set_own_keys in C. destruct C as [C | C]; [now apply Hk |].
    subst. rewrite String.eqb_refl in E. discriminate.
Qed.

Lemma assign_plain es key v :
  key <> "__proto__" -> assign (VObj None es) key v = VObj None (set_own es key v).
Proof.
  intros Hk. unfold assign. destruct (assoc es key) eqn:A; [reflexivity |].
  cbn [lookup own]. rewrite A. apply String.eqb_neq in Hk. now rewrite Hk.
Qed.

Lemma fold_set_own (es : list (string * value)) : forall acc,
  distinct (List.map fst acc ++ List.map fst es) = true ->
  fold_left (fun acc kv => set_own acc (fst kv) (snd kv)) es acc = acc ++ es.
Proof.
  induction es as [| [k v] rest IH]; intros acc Hd; cbn [fold_left fst snd].
  - now rewrite app_nil_r.
  - rewrite set_own_fresh.
    + rewrite IH; [now rewrite <- app_assoc |].
      rewrite List.map_app, <- app_assoc. exact Hd.
    + apply assoc_none. cbn [List.map fst] in Hd. now apply distinct_app_notin in Hd.
Qed.

(** Spreading an object with distinct keys copies its entries. *)
Lemma spread_plain proto es :
  distinct (List.map fst es) = true -> spread (VObj proto es) = VObj None es.
Proof.
  intros Hd. unfold spread, obj. cbn [spread_source]. now rewrite fold_set_own.
Qed.

Section Facts.
Variable host_get : value -> string -> value.
Hypothesis standard : standard_prototype host_get.

Local Abbreviation translateText := (translateText host_get).
Local Abbreviation translate_leaf := (translate_leaf host_get).
Local Abbreviation deepTranslate := (deepTranslate host_get).
Local Abbreviation flattenTranslatedObject := (flattenTranslatedObject host_get).

(** What [deepTranslate] and [flattenTranslatedObject] store under a key. *)
Definition translated_entry (targetLang prefix : string) (kv : string * value) : value :=
  if is_plain_object (snd kv)
  then deepTranslate (snd kv) targetLang (fullKey prefix (fst kv))
  else translate_leaf (snd kv) targetLang.

Definition flattened_entry (kv : string * value) : value :=
  flatten_entry host_get flattenTranslatedObject (snd kv).

Lemma deepTranslate_fold proto es targetLang prefix :
  deepTranslate (VObj proto es) targetLang prefix
  = fold_left (fun result kv => assign result (fst kv) (translated_entry targetLang prefix kv))
      es (obj []).
Proof.
  cbn [Translate.deepTranslate]. generalize (obj []).
  induction es as [| [key v] rest IH]; intros result; cbn [fold_left]; [reflexivity |].
  rewrite <- IH. unfold translated_entry. cbn [fst snd].
  destruct (is_plain_object v); reflexivity.
Qed.

Lemma flatten_fold proto es :
  flattenTranslatedObject (VObj proto es)
  = fold_left (fun result kv => assign result (fst kv) (flattened_entry kv)) es (obj []).
Proof.
  cbn [Translate.flattenTranslatedObject]. generalize (obj []).
  induction es as [| [key v] rest IH]; intros result; cbn [fold_left]; [reflexivity |].
  rewrite <- IH. unfold flattened_entry, flatten_entry. cbn [fst snd].
  destruct (is_plain_object v); [| reflexivity].
  destruct (truthy _); reflexivity.
Qed.

Lemma deepTranslate_entries proto es targetLang prefix :
  distinct (List.map fst es) = true -> ~ In "__proto__" (List.map fst es) ->
  deepTranslate (VObj proto es) targetLang prefix
  = VObj None (List.map (fun kv => (fst kv, translated_entry targetLang prefix kv)) es).
Proof.
  intros Hd Hp. rewrite deepTranslate_fold. unfold obj.
  now rewrite build_entries.
Qed.

Lemma flatten_entries proto es :
  distinct (List.map fst es) = true -> ~ In "__proto__" (List.map fst es) ->
  flattenTranslatedObject (VObj proto es)
  = VObj None (List.map (fun kv => (fst kv, flattened_entry kv)) es).
Proof.
  intros Hd Hp. rewrite flatten_fold. unfold obj.
  now rewrite build_entries.
Qed.

(** A key that is not an own property of an object with the initial
    prototype is answered by [Object.prototype]. *)
Lemma get_absent es key :
  assoc es key = None -> key <> "__proto__" ->
  get host_get (VObj None es) key = host_get (VProto ObjectPrototype) key.
Proof.
  intros A Hk. unfold get. cbn [lookup own]. rewrite A.
  apply String.eqb_neq in Hk. now rewrite Hk.
Qed.

Lemma get_own proto es key x :
  assoc es key = Some x -> get host_get (VObj proto es) key = x.
Proof. intros A. unfold get. cbn [lookup own]. now rewrite A. Qed.

Lemma not_marked es :
  ~ In "_autoTranslated" (List.map fst es) ->
  truthy (get host_get (VObj None es) "_autoTranslated") = false.
Proof.
  intros H. rewrite get_absent; [| now apply assoc_none | discriminate].
  destruct standard as [_ ->]. reflexivity.
Qed.

(** What the pipeline leaves of a leaf: a string is replaced by its
    translation, any other value stays. *)
Definition leaf_text (targetLang : string) (leaf : value) : value :=
  match leaf with
  | VStr s => translateText s targetLang
  | _ => leaf
  end.

Lemma flatten_translated_leaf targetLang leaf :
  is_plain_object leaf = false ->
  is_plain_object (leaf_text targetLang leaf) = false ->
  flatten_entry host_get flattenTranslatedObject (translate_leaf leaf targetLang)
  = leaf_text targetLang leaf.
Proof.
  intros Hleaf Htext. unfold flatten_entry.
  destruct leaf as [| | b | n | s | xs | proto es | p | name];
    try (cbn [Translate.translate_leaf leaf_text]; now rewrite Hleaf).
  cbn [Translate.translate_leaf leaf_text] in *.
  destruct (differs_from _ _ && _).
  - cbn. reflexivity.
  - now rewrite Htext.
Qed.

Lemma flatten_deepTranslate_at (en : value) :
  tidy en = true ->
  forall targetLang prefix path leaf,
    path <> [] ->
    descend en path = Some leaf ->
    is_plain_object leaf = false ->
    is_plain_object (leaf_text targetLang leaf) = false ->
    descend (flattenTranslatedObject (deepTranslate en targetLang prefix)) path
    = Some (leaf_text targetLang leaf).
Proof.
  induction en as [| | b | n | s0 | xs IH | proto es IHp IH | p | name] using value_ind;
    intros Htidy targetLang prefix path leaf Hpath Hat Hleaf Htext;
    try (destruct path; [contradiction | discriminate]).
  destruct path as [| key rest]; [contradiction |].
  cbn [descend] in Hat. destruct (assoc es key) as [x |] eqn:A; [| discriminate].
  destruct (tidy_object _ _ Htidy) as (_ & Hd & Hp & Ha & Hsub).
  rewrite deepTranslate_entries by assumption.
  rewrite flatten_entries by (rewrite map_fst_map; assumption).
  cbn [descend]. rewrite !assoc_map, A. cbn [option_map].
  unfold flattened_entry, translated_entry. cbn [fst snd].
  destruct rest as [| key2 rest].
  - cbn [descend] in Hat |- *. injection Hat as ->. rewrite Hleaf.
    now rewrite flatten_translated_leaf.
  - destruct x as [| | b | n | s | xs | px ex | p | name]; try discriminate.
    change (is_plain_object (VObj px ex)) with true. cbn iota.
    pose proof (Hsub _ _ A) as Hx.
    destruct (tidy_object _ _ Hx) as (_ & Hdx & Hpx & Hax & _).
    unfold flatten_entry.
    rewrite (deepTranslate_entries px ex) by assumption.
    change (is_plain_object (VObj None ?l)) with true. cbn iota.
    rewrite not_marked by (rewrite map_fst_map; exact Hax).
    rewrite <- (deepTranslate_entries px ex targetLang (fullKey prefix key)) by assumption.
    rewrite List.Forall_forall in IH.
    apply (IH (key, VObj px ex) (assoc_In _ _ _ A)); try assumption. discriminate.
Qed.


(** *** Merging with the existing file *)

(** What the merge leaves under a key of the existing object; [cur] is what
    the result held there before. *)
Definition merged_value (x cur : value) : value :=
  if is_plain_object x && truthy cur && typeof_object cur
  then mergeTranslations host_get x cur
  else x.

Lemma merge_step_plain es key v :
  key <> "__proto__" ->
  merge_step host_get (VObj None es) (key, v)
  = VObj None (set_own es key (merged_value v (get host_get (VObj None es) key))).
Proof.
  intros Hk. unfold merge_step, merged_value. cbn [fst snd].
  destruct (is_plain_object v); cbn [andb];
    [destruct (truthy _ && typeof_object _) |]; now rewrite assign_plain.
Qed.

Lemma get_same_assoc es es' key :
  assoc es key = assoc es' key ->
  get host_get (VObj None es) key = get host_get (VObj None es') key.
Proof. intros H. unfold get. cbn [lookup own proto_of]. now rewrite H. Qed.

(** The loop of [mergeTranslations] over existing entries with distinct
    keys: the other keys of the result stay, and each existing key holds its
    merged value. *)
Lemma merge_fold_entries (xs : list (string * value)) : forall es0,
  distinct (List.map fst xs) = true -> ~ In "__proto__" (List.map fst xs) ->
  distinct (List.map fst es0) = true ->
  exists es,
    fold_left (merge_step host_get) xs (VObj None es0) = VObj None es /\
    distinct (List.map fst es) = true /\
    (forall k, In k (List.map fst es) -> In k (List.map fst es0) \/ In k (List.map fst xs)) /\
    (forall k, ~ In k (List.map fst xs) -> assoc es k = assoc es0 k) /\
    (forall k x, assoc xs k = Some x ->
       assoc es k = Some (merged_value x (get host_get (VObj None es0) k))).
Proof.
  induction xs as [| [k1 v1] rest IH]; intros es0 Hd Hp Hd0; cbn [fold_left].
  - exists es0. split; [reflexivity |]. split; [exact Hd0 |].
    split; [intros k Hk; now left |]. split; [reflexivity |]. intros k x [=].
  - cbn [List.map fst distinct] in Hd, Hp.
    apply andb_true_iff in Hd. destruct Hd as [Hk1 Hd].
    apply negb_true_iff, existsb_eqb_notin in Hk1.
    rewrite merge_step_plain by (intros ->; apply Hp; now left).
    set (mv := merged_value v1 (get host_get (VObj None es0) k1)).
    destruct (IH (set_own es0 k1 mv) Hd) as (es & E & Hdes & Hkeys & Hother & Hthis).
    { intros C. apply Hp. now right. }
    { now apply set_own_distinct. }
    exists es. split; [exact E |]. split; [exact Hdes |]. split; [| split].
    + intros k Hk. destruct (Hkeys k Hk) as [H | H].
      * apply set_own_keys in H. destruct H as [H | ->]; [now left | right; now left].
      * right. now right.
    + intros k Hk. rewrite Hother by (intros C; apply Hk; now right).
      apply assoc_set_own_ne. intros ->. apply Hk. now left.
    + intros k x A. cbn [assoc] in A. destruct (String.eqb k1 k) eqn:K.
      * apply String.eqb_eq in K. subst k. injection A as <-.
        rewrite (Hother k1 Hk1). apply assoc_set_own_eq.
      * apply String.eqb_neq in K. rewrite (Hthis k x A). do 2 f_equal.
        apply get_same_assoc. apply assoc_set_own_ne. congruence.
Qed.

(** The merge of a tidy existing object with a translated object. *)
Lemma merge_entries (px : option value) (xs ts : list (string * value)) (pt : option value) :
  distinct (List.map fst xs) = true -> ~ In "__proto__" (List.map fst xs) ->
  distinct (List.map fst ts) = true ->
  exists es,
    mergeTranslations host_get (VObj px xs) (VObj pt ts) = VObj None es /\
    distinct (List.map fst es) = true /\
    (forall k, In k (List.map fst es) -> In k (List.map fst ts) \/ In k (List.map fst xs)) /\
    (forall k, ~ In k (List.map fst xs) -> assoc es k = assoc ts k) /\
    (forall k x, assoc xs k = Some x ->
       assoc es k = Some (merged_value x (get host_get (VObj None ts) k))).
Proof.
  intros Hdx Hpx Hdt. rewrite mergeTranslations_fold, spread_plain by exact Hdt.
  now apply merge_fold_entries.
Qed.

(** Flattening leaves a tidy object as it is, leaf by leaf. *)
Lemma flatten_tidy_at (x : value) :
  tidy x = true ->
  forall path leaf,
    path <> [] -> descend x path = Some leaf -> is_plain_object leaf = false ->
    descend (flattenTranslatedObject x) path = Some leaf.
Proof.
  induction x as [| | b | n | s0 | xs IH | proto es IHp IH | p | name] using value_ind;
    intros Htidy path leaf Hpath Hat Hleaf;
    try (destruct path; [contradiction | discriminate]).
  destruct path as [| key rest]; [contradiction |].
  cbn [descend] in Hat. destruct (assoc es key) as [x |] eqn:A; [| discriminate].
  destruct (tidy_object _ _ Htidy) as (_ & Hd & Hp & Ha & Hsub).
  rewrite flatten_entries by assumption.
  cbn [descend]. rewrite assoc_map, A. cbn [option_map].
  unfold flattened_entry, flatten_entry. cbn [snd].
  destruct rest as [| key2 rest].
  - cbn [descend] in Hat |- *. injection Hat as ->. now rewrite Hleaf.
  - destruct x as [| | b | n | s | xs | px ex | p | name]; try discriminate.
    change (is_plain_object (VObj px ex)) with true. cbn iota.
    pose proof (Hsub _ _ A) as Hx.
    destruct (tidy_object _ _ Hx) as (-> & _ & _ & Hax & _).
    rewrite not_marked by exact Hax.
    rewrite List.Forall_forall in IH.
    apply (IH (key, VObj None ex) (assoc_In _ _ _ A)); try assumption. discriminate.
Qed.

(** The English side holds neither a text nor an array above the end of
    the path. *)
Fixpoint object_above (e : value) (path : list string) : Prop :=
  match path with
  | [] => True
  | key :: rest =>
      match rest with
      | [] => True
      | _ :: _ =>
          match e with
          | VObj _ es =>
              match assoc es key with
              | Some (VStr _) | Some (VArr _) => False
              | Some ek => object_above ek rest
              | None => True
              end
          | _ => True
          end
      end
  end.

(** The existing object has no property at the path, or at a prefix of it. *)
Fixpoint lacks (x : value) (path : list string) : Prop :=
  match path with
  | [] => False
  | key :: rest =>
      match x with
      | VObj _ es =>
          match assoc es key with
          | None => True
          | Some xk => lacks xk rest
          end
      | _ => False
      end
  end.

Lemma merged_not_marked px xs pt ts es :
  mergeTranslations host_get (VObj px xs) (VObj pt ts) = VObj None es ->
  (forall k, In k (List.map fst es) -> In k (List.map fst ts) \/ In k (List.map fst xs)) ->
  ~ In "_autoTranslated" (List.map fst xs) -> ~ In "_autoTranslated" (List.map fst ts) ->
  truthy (get host_get (mergeTranslations host_get (VObj px xs) (VObj pt ts))
            "_autoTranslated") = false.
Proof.
  intros E Hkeys Hx Ht. rewrite E. apply not_marked.
  intros C. destruct (Hkeys _ C); contradiction.
Qed.


(** Reading a key of the translated object that the English object does
    not have, or has with a value that is no object, gives nothing to merge
    with. *)
Lemma nothing_to_merge (v : value) :
  match v with
  | VUndefined | VNull | VBool _ | VNum _ | VFun _ => True
  | _ => False
  end ->
  truthy v && typeof_object v = false.
Proof. destruct v; try contradiction; intros _; cbn; try reflexivity; apply andb_false_r. Qed.

Lemma host_nothing_to_merge key :
  truthy (host_get (VProto ObjectPrototype) key)
  && typeof_object (host_get (VProto ObjectPrototype) key) = false.
Proof.
  destruct standard as [H _]. destruct (H key) as [-> | (name & ->)]; reflexivity.
Qed.

Lemma merged_keeps (x : value) :
  tidy x = true ->
  forall pe ee targetLang prefix path s,
    tidy (VObj pe ee) = true ->
    path <> [] ->
    descend x path = Some (VStr s) ->
    object_above (VObj pe ee) path ->
    descend (flattenTranslatedObject
               (mergeTranslations host_get x (deepTranslate (VObj pe ee) targetLang prefix)))
            path
    = Some (VStr s).
Proof.
  induction x as [| | b | n | s0 | xs IH | px xs IHp IH | p | name] using value_ind;
    intros Htidy pe ee targetLang prefix path s He Hpath Hat Habove;
    try (destruct path; [contradiction | discriminate]).
  destruct path as [| key rest]; [contradiction |].
  cbn [descend] in Hat. destruct (assoc xs key) as [xk |] eqn:A; [| discriminate].
  destruct (tidy_object _ _ Htidy) as (_ & Hdx & Hpx & Hax & Hsubx).
  destruct (tidy_object _ _ He) as (_ & Hde & Hpe & Hae & Hsube).
  rewrite (deepTranslate_entries pe ee) by assumption.
  set (ts := List.map (fun kv => (fst kv, translated_entry targetLang prefix kv)) ee).
  assert (Kts : List.map fst ts = List.map fst ee) by apply map_fst_map.
  destruct (merge_entries px xs ts None Hdx Hpx) as (es & E & Hdes & Hkeys & Hother & Hthis).
  { now rewrite Kts. }
  rewrite E.
  assert (Hpes : ~ In "__proto__" (List.map fst es)).
  { intros C. destruct (Hkeys _ C) as [C' | C']; [rewrite Kts in C' |]; contradiction. }
  rewrite flatten_entries by assumption.
  cbn [descend]. rewrite assoc_map, (Hthis _ _ A). cbn [option_map].
  unfold flattened_entry. cbn [snd].
  assert (Hkey : key <> "__proto__").
  { intros ->. apply Hpx. apply assoc_In in A.
    change "__proto__" with (fst ("__proto__", xk)). now apply List.in_map. }
  destruct rest as [| key2 rest].
  - cbn [descend] in Hat |- *. injection Hat as ->. reflexivity.
  - destruct xk as [| | b | n | s1 | ys | pxk exk | p | name]; try discriminate.
    pose proof (Hsubx _ _ A) as Hxk.
    destruct (tidy_object _ _ Hxk) as (-> & Hdk & Hpk & Hak & _).
    assert (Kept : flatten_entry host_get flattenTranslatedObject (VObj None exk)
                   = flattenTranslatedObject (VObj None exk)).
    { unfold flatten_entry. change (is_plain_object (VObj None exk)) with true. cbn iota.
      now rewrite not_marked. }
    assert (Hplain : descend (flattenTranslatedObject (VObj None exk)) (key2 :: rest)
                     = Some (VStr s)).
    { apply flatten_tidy_at; try assumption; [discriminate | reflexivity]. }
    unfold merged_value. change (is_plain_object (VObj None exk)) with true. cbn [andb].
    destruct (assoc ee key) as [ek |] eqn:Ae.
    + assert (Ats : assoc ts key = Some (translated_entry targetLang prefix (key, ek))).
      { unfold ts. now rewrite assoc_map, Ae. }
      rewrite (get_own None ts key _ Ats).
      cbn [object_above] in Habove. rewrite Ae in Habove.
      pose proof (Hsube _ _ Ae) as Hek.
      unfold translated_entry. cbn [fst snd].
      destruct ek as [| | b | n | s1 | ys | pek eek | p | name];
        try discriminate Hek; try contradiction;
        try (match goal with
             | |- context [if is_plain_object ?v then _ else _] =>
                 change (is_plain_object v) with false
             end;
             cbn iota; cbn [Translate.translate_leaf];
             rewrite nothing_to_merge by exact I; rewrite Kept; exact Hplain).
      (* an object on both sides *)
      { change (is_plain_object (VObj pek eek)) with true. cbn iota.
        destruct (tidy_object _ _ Hek) as (_ & Hdek & Hpek & Haek & _).
        rewrite (deepTranslate_entries pek eek) by assumption.
        change (truthy (VObj None ?l) && typeof_object (VObj None ?l)) with true.
        cbn iota.
        set (ts' := List.map (fun kv => (fst kv,
                       translated_entry targetLang (fullKey prefix key) kv)) eek).
        assert (Kts' : List.map fst ts' = List.map fst eek) by apply map_fst_map.
        destruct (merge_entries None exk ts' None Hdk Hpk) as (es' & E' & _ & Hkeys' & _).
        { now rewrite Kts'. }
        unfold flatten_entry. rewrite E' at 1.
        change (is_plain_object (VObj None es')) with true. cbn iota.
        rewrite (merged_not_marked None exk None ts' es' E' Hkeys' Hak)
          by (rewrite Kts'; exact Haek).
        unfold ts'. rewrite <- (deepTranslate_entries pek eek) by assumption.
        rewrite List.Forall_forall in IH.
        apply (IH (key, VObj None exk) (assoc_In _ _ _ A)); try assumption. discriminate. }
    + assert (Ats : assoc ts key = None).
      { unfold ts. now rewrite assoc_map, Ae. }
      rewrite (get_absent ts key Ats Hkey), host_nothing_to_merge.
      rewrite Kept. exact Hplain.
Qed.

Lemma merged_fills (x : value) :
  tidy x = true ->
  forall pe ee targetLang prefix path leaf,
    tidy (VObj pe ee) = true ->
    descend (VObj pe ee) path = Some leaf ->
    is_plain_object leaf = false ->
    is_plain_object (leaf_text targetLang leaf) = false ->
    lacks x path ->
    descend (flattenTranslatedObject
               (mergeTranslations host_get x (deepTranslate (VObj pe ee) targetLang prefix)))
            path
    = Some (leaf_text targetLang leaf).
Proof.
  induction x as [| | b | n | s0 | xs IH | px xs IHp IH | p | name] using value_ind;
    intros Htidy pe ee targetLang prefix path leaf He Hat Hleaf Htext Hlacks;
    try (destruct path; contradiction).
  destruct path as [| key rest]; [contradiction |].
  cbn [descend] in Hat. destruct (assoc ee key) as [ek |] eqn:Ae; [| discriminate].
  cbn [lacks] in Hlacks.
  destruct (tidy_object _ _ Htidy) as (_ & Hdx & Hpx & Hax & Hsubx).
  destruct (tidy_object _ _ He) as (_ & Hde & Hpe & Hae & Hsube).
  rewrite (deepTranslate_entries pe ee) by assumption.
  set (ts := List.map (fun kv => (fst kv, translated_entry targetLang prefix kv)) ee).
  assert (Kts : List.map fst ts = List.map fst ee) by apply map_fst_map.
  destruct (merge_entries px xs ts None Hdx Hpx) as (es & E & Hdes & Hkeys & Hother & Hthis).
  { now rewrite Kts. }
  rewrite E.
  assert (Hpes : ~ In "__proto__" (List.map fst es)).
  { intros C. destruct (Hkeys _ C) as [C' | C']; [rewrite Kts in C' |]; contradiction. }
  rewrite flatten_entries by assumption.
  assert (Ats : assoc ts key = Some (translated_entry targetLang prefix (key, ek))).
  { unfold ts. now rewrite assoc_map, Ae. }
  pose proof (Hsube _ _ Ae) as Hek.
  cbn [descend]. rewrite assoc_map.
  destruct (assoc xs key) as [xk |] eqn:A.
  - (* the existing object has the key: both sides hold an object *)
    rewrite (Hthis _ _ A). cbn [option_map]. unfold flattened_entry. cbn [snd].
    destruct rest as [| key2 rest]; [destruct xk; contradiction |].
    destruct xk as [| | b | n | s1 | ys | pxk exk | p | name]; try contradiction.
    destruct ek as [| | b | n | s1 | ys | pek eek | p | name]; try discriminate.
    pose proof (Hsubx _ _ A) as Hxk.
    destruct (tidy_object _ _ Hxk) as (-> & Hdk & Hpk & Hak & _).
    destruct (tidy_object _ _ Hek) as (_ & Hdek & Hpek & Haek & _).
    unfold merged_value. change (is_plain_object (VObj None exk)) with true. cbn [andb].
    rewrite (get_own None ts key _ Ats). unfold translated_entry. cbn [fst snd].
    change (is_plain_object (VObj pek eek)) with true. cbn iota.
    rewrite (deepTranslate_entries pek eek) by assumption.
    change (truthy (VObj None ?l) && typeof_object (VObj None ?l)) with true. cbn iota.
    set (ts' := List.map (fun kv => (fst kv,
                   translated_entry targetLang (fullKey prefix key) kv)) eek).
    assert (Kts' : List.map fst ts' = List.map fst eek) by apply map_fst_map.
    destruct (merge_entries None exk ts' None Hdk Hpk) as (es' & E' & _ & Hkeys' & _).
    { now rewrite Kts'. }
    unfold flatten_entry. rewrite E' at 1.
    change (is_plain_object (VObj None es')) with true. cbn iota.
    rewrite (merged_not_marked None exk None ts' es' E' Hkeys' Hak)
      by (rewrite Kts'; exact Haek).
    unfold ts'. rewrite <- (deepTranslate_entries pek eek) by assumption.
    rewrite List.Forall_forall in IH.
    apply (IH (key, VObj None exk) (assoc_In _ _ _ A)); assumption.
  - (* the existing object lacks the key: the translation stands *)
    rewrite Hother by (now apply assoc_none). rewrite Ats. cbn [option_map].
    unfold flattened_entry, translated_entry. cbn [fst snd].
    destruct rest as [| key2 rest].
    + cbn [descend] in Hat |- *. injection Hat as ->. rewrite Hleaf.
      now rewrite flatten_translated_leaf.
    + destruct ek as [| | b | n | s1 | ys | pek eek | p | name]; try discriminate.
      change (is_plain_object (VObj pek eek)) with true. cbn iota.
      destruct (tidy_object _ _ Hek) as (_ & Hdek & Hpek & Haek & _).
      unfold flatten_entry.
      set (T := deepTranslate (VObj pek eek) targetLang (fullKey prefix key)).
      assert (HT : is_plain_object T = true).
      { unfold T. now rewrite (deepTranslate_entries pek eek) by assumption. }
      assert (HM : truthy (get host_get T "_autoTranslated") = false).
      { unfold T. rewrite (deepTranslate_entries pek eek) by assumption.
        apply not_marked. now rewrite map_fst_map. }
      rewrite HT, HM.
      apply (flatten_deepTranslate_at (VObj pek eek)); try assumption. discriminate.
Qed.


Lemma object_above_of_prefixes (path : list string) : forall e,
  (forall q r, path = q ++ r -> q <> [] -> r <> [] ->
     match descend e q with
     | Some (VStr _) | Some (VArr _) => False
     | _ => True
     end) ->
  object_above e path.
Proof.
  induction path as [| key rest IH]; intros e H; cbn [object_above]; [exact I |].
  destruct rest as [| key2 rest]; [exact I |].
  destruct e as [| | b | n | s | xs | pe ee | p | name]; try exact I.
  destruct (assoc ee key) as [ek |] eqn:A; [| exact I].
  pose proof (H [key] (key2 :: rest) eq_refl ltac:(discriminate) ltac:(discriminate)) as H1.
  cbn [descend] in H1. rewrite A in H1.
  assert (Hrec : object_above ek (key2 :: rest)).
  { apply IH. intros q r E Hq Hr.
    pose proof (H (key :: q) r ltac:(cbn; now rewrite E) ltac:(discriminate) Hr) as H2.
    cbn [descend] in H2. now rewrite A in H2. }
  destruct ek; try exact Hrec; contradiction.
Qed.

(** The values of [TRANSLATION_MAP] are strings, none of them empty. *)
Lemma map_values key x :
  assoc (Object_entries TRANSLATION_MAP) key = Some x ->
  exists t, x = VStr t /\ t <> "".
Proof.
  intros A. apply assoc_In in A.
  assert (H : forallb (fun kv => match snd kv with
                                 | VStr t => negb (String.eqb t "")
                                 | _ => false
                                 end) (Object_entries TRANSLATION_MAP) = true)
    by (vm_compute; reflexivity).
  rewrite forallb_forall in H. specialize (H _ A). cbn [snd] in H.
  destruct x; try discriminate. exists s. split; [reflexivity |].
  intros ->. discriminate.
Qed.

(** Under a standard [Object.prototype], [translateText] gives a string or
    a function inherited under the name of the text -- except for the text
    [__proto__], which reads the prototype itself. *)
Lemma translateText_value (text targetLang : string) :
  text <> "__proto__" ->
  (exists t, translateText text targetLang = VStr t) \/
  (exists name, translateText text targetLang = VFun name).
Proof.
  intros Hne. unfold Translate.translateText.
  change TRANSLATION_MAP with (VObj None (Object_entries TRANSLATION_MAP)).
  destruct (assoc (Object_entries TRANSLATION_MAP) text) as [x |] eqn:A.
  - destruct (map_values _ _ A) as (t & -> & Ht).
    rewrite (get_own None _ _ _ A). cbn [truthy].
    apply String.eqb_neq in Ht. rewrite Ht. left. now exists t.
  - rewrite (get_absent _ _ A Hne).
    destruct standard as [H _]. destruct (H text) as [-> | (name & ->)].
    + cbn [truthy]. left.
      destruct (String.eqb targetLang "ar"); [destruct (_ || _) |]; eexists; reflexivity.
    + right. now exists name.
Qed.

Lemma leaf_text_not_plain (targetLang : string) (leaf : value) :
  is_plain_object leaf = false -> leaf <> VStr "__proto__" ->
  is_plain_object (leaf_text targetLang leaf) = false.
Proof.
  intros Hleaf Hne. destruct leaf as [| | b | n | s | xs | pe ee | p | name];
    try exact Hleaf.
  cbn [leaf_text].
  destruct (translateText_value s targetLang) as [(t & ->) | (name & ->)];
    [congruence | reflexivity | reflexivity].
Qed.

End Facts.


(** X9: the data [main] writes keeps every manual translation of the Arabic
    file: a string the Arabic object holds at a path is held at the same
    path by the final data, provided both files are tidy and the English
    file holds no text and no array at a proper prefix of the path. *)
Theorem finalData_keeps_existing (host_get : value -> string -> value)
    (en ar : list (string * value)) (path : list string) (s : string) :
  standard_prototype host_get ->
  tidy (obj en) = true -> tidy (obj ar) = true ->
  descend (obj ar) path = Some (VStr s) ->
  (forall q r, path = q ++ r -> q <> [] -> r <> [] ->
     match descend (obj en) q with
     | Some (VStr _) | Some (VArr _) => False
     | _ => True
     end) ->
  descend (finalData host_get (obj en) (obj ar)) path = Some (VStr s).
Proof.
  intros Hstd Hen Har Hat Hshape. unfold finalData, obj.
  apply merged_keeps; try assumption.
  - intros ->. discriminate.
  - now apply object_above_of_prefixes.
Qed.

Lemma finalData_keeps_existing_witness :
  descend
    (finalData bare_host
       (obj [("nav", obj [("home", VStr "Home"); ("lab", VStr "Light curve lab")]);
             ("title", VStr "ExoAI")])
       (obj [("nav", obj [("home", VStr "Manual")])]))
    ["nav"; "home"] = Some (VStr "Manual").
Proof.
  apply (finalData_keeps_existing bare_host
           [("nav", obj [("home", VStr "Home"); ("lab", VStr "Light curve lab")]);
            ("title", VStr "ExoAI")]
           [("nav", obj [("home", VStr "Manual")])] ["nav"; "home"] "Manual").
  - split; [intros key; now left | reflexivity].
  - reflexivity.
  - reflexivity.
  - reflexivity.
  - intros q r E Hq Hr. destruct q as [| k1 q]; [contradiction |].
    injection E as <- E. destruct q as [| k2 q]; [exact I |].
    injection E as <- E. destruct q; [| discriminate E].
    cbn in E. subst r. contradiction.
Defined.

(** X10: a leaf of the English file at a path the Arabic file does not have is
    filled in: the final data holds there the translation of a string
    ([translateText], without the review marker) and any other value as it
    is. *)
Theorem finalData_fills_missing (host_get : value -> string -> value)
    (en ar : list (string * value)) (path : list string) (leaf : value) :
  standard_prototype host_get ->
  tidy (obj en) = true -> tidy (obj ar) = true ->
  descend (obj en) path = Some leaf ->
  is_plain_object leaf = false -> leaf <> VStr "__proto__" ->
  lacks (obj ar) path ->
  descend (finalData host_get (obj en) (obj ar)) path
  = Some (match leaf with
          | VStr s => translateText host_get s "ar"
          | _ => leaf
          end).
Proof.
  intros Hstd Hen Har Hat Hleaf Hne Hlacks. unfold finalData, obj.
  apply (merged_fills host_get Hstd (VObj None ar) Har None en "ar" "" path leaf);
    try assumption.
  now apply leaf_text_not_plain.
Qed.

Lemma finalData_fills_missing_witness :
  descend
    (finalData bare_host
       (obj [("nav", obj [("home", VStr "Home"); ("lab", VStr "Light curve lab")]);
             ("title", VStr "ExoAI")])
       (obj [("nav", obj [("home", VStr "Manual")])]))
    ["nav"; "lab"]
  = Some (translateText bare_host "Light curve lab" "ar").
Proof.
  apply (finalData_fills_missing bare_host
           [("nav", obj [("home", VStr "Home"); ("lab", VStr "Light curve lab")]);
            ("title", VStr "ExoAI")]
           [("nav", obj [("home", VStr "Manual")])] ["nav"; "lab"]
           (VStr "Light curve lab")).
  - split; [intros key; now left | reflexivity].
  - reflexivity.
  - reflexivity.
  - reflexivity.
  - reflexivity.
  - discriminate.
  - exact I.
Defined.

Example finalData_example :
  finalData bare_host
    (obj [("nav", obj [("home", VStr "Home"); ("lab", VStr "Light curve lab");
                       ("api", VStr "REST API")]);
          ("title", VStr "ExoAI"); ("steps", VArr [VStr "Upload"])])
    (obj [("nav", obj [("home", VStr "Manual")])])
  = obj [("nav", obj [("home", VStr "Manual"); ("lab", VStr "[AR: Light curve lab]");
                      ("api", VStr "REST API")]);
         ("title", VStr "[AR: ExoAI]"); ("steps", VArr [VStr "Upload"])].
Proof. vm_compute. reflexivity. Qed.

(** English holds a text where Arabic holds an object: the placeholder for
    the text wins and the manual translation below is lost. *)
Example finalData_shape_mismatch :
  finalData bare_host
    (obj [("nav", VStr "Navigation bar")])
    (obj [("nav", obj [("home", VStr "Manual")])])
  = obj [("nav", VStr "[AR: Navigation bar]")].
Proof. vm_compute. reflexivity. Qed.


(** X11: [TRANSLATION_MAP[text]] is read through the prototype chain: a text
    that is no key of the map but names a method of [Object.prototype]
    (constructor, toString, ...) is translated to that function, and
    [deepTranslate] stores the function, unmarked, in place of the text; the
    text [__proto__] is translated to [Object.prototype] itself. *)
Theorem translateText_inherited (host_get : value -> string -> value)
    (text name targetLang : string) :
  assoc (Object_entries TRANSLATION_MAP) text = None ->
  text <> "__proto__" ->
  host_get (VProto ObjectPrototype) text = VFun name ->
  translateText host_get text targetLang = VFun name /\
  (forall key, key <> "__proto__" ->
     deepTranslate host_get (obj [(key, VStr text)]) targetLang ""
     = obj [(key, VFun name)]) /\
  translateText host_get "__proto__" targetLang = VProto ObjectPrototype.
Proof.
  intros A Hne Hfun.
  assert (G : get host_get TRANSLATION_MAP text = VFun name).
  { change TRANSLATION_MAP with (VObj None (Object_entries TRANSLATION_MAP)).
    unfold get. cbn [lookup own]. rewrite A.
    apply String.eqb_neq in Hne. now rewrite Hne. }
  assert (T : translateText host_get text targetLang = VFun name).
  { unfold translateText. now rewrite G. }
  split; [exact T |]. split; [| reflexivity].
  intros key Hkey. cbn [deepTranslate obj is_plain_object typeof_object andb].
  unfold translate_leaf. rewrite T, G. cbn [differs_from truthy negb andb].
  now rewrite assign_fresh.
Qed.

(** A runtime whose [Object.prototype] has its constructor and nothing
    else. *)
Definition constructor_host (b : value) (key : string) : value :=
  match b with
  | VProto ObjectPrototype => if String.eqb key "constructor" then VFun "Object" else VUndefined
  | _ => VUndefined
  end.

Lemma translateText_inherited_witness :
  translateText constructor_host "constructor" "ar" = VFun "Object" /\
  (forall key, key <> "__proto__" ->
     deepTranslate constructor_host (obj [(key, VStr "constructor")]) "ar" ""
     = obj [(key, VFun "Object")]) /\
  translateText constructor_host "__proto__" "ar" = VProto ObjectPrototype.
Proof.
  apply (translateText_inherited constructor_host "constructor" "Object" "ar").
  - vm_compute. reflexivity.
  - discriminate.
  - reflexivity.
Defined.

End Translate.

(** ** The report script: dotted keys read back, and the empty locale *)

Module ReportFacts.
Import JSNum JSValue Report Translate.

(** A key that [path.split('.')] gives back as it is: not empty and
    without a dot. *)
Fixpoint dot_free (key : string) : bool :=
  match key with
  | EmptyString => true
  | String c rest => negb (Ascii.eqb c "."%char) && dot_free rest
  end.

Definition plain_key (key : string) : bool :=
  negb (String.eqb key "") && dot_free key.

Lemma split_dot_not_nil (s : string) : split_dot s <> [].
Proof.
  induction s as [| c s IH]; cbn [split_dot]; [discriminate |].
  destruct (Ascii.eqb c "."%char); [discriminate |].
  destruct (split_dot s); discriminate.
Qed.

Lemma split_dot_plain (key : string) : dot_free key = true -> split_dot key = [key].
Proof.
  induction key as [| c key IH]; [reflexivity |].
  cbn [dot_free split_dot]. intros H. apply andb_true_iff in H. destruct H as [Hc Hk].
  apply negb_true_iff in Hc. rewrite Hc, (IH Hk). reflexivity.
Qed.

Lemma split_dot_join (a b : string) :
  split_dot (a ++ "." ++ b) = split_dot a ++ split_dot b.
Proof.
  induction a as [| c a IH].
  - reflexivity.
  - change (String c a ++ "." ++ b)%string with (String c (a ++ "." ++ b)%string).
    cbn [split_dot]. destruct (Ascii.eqb c "."%char).
    + now rewrite IH.
    + rewrite IH. destruct (split_dot a) eqn:E; [now apply split_dot_not_nil in E |].
      reflexivity.
Qed.

(** A dotted key splits into the keys it was built from. *)
Lemma split_dot_dotted (path : list string) : forall prefix,
  prefix <> "" -> List.Forall (fun key => plain_key key = true) path ->
  split_dot (dotted prefix path) = split_dot prefix ++ path.
Proof.
  induction path as [| key rest IH]; intros prefix Hne Hp; cbn [dotted fold_left].
  - now rewrite app_nil_r.
  - inversion Hp as [| ? ? Hk Hrest]; subst.
    unfold plain_key in Hk. apply andb_true_iff in Hk. destruct Hk as [Hk Hd].
    fold (dotted (fullKey prefix key) rest). rewrite IH; [| | exact Hrest].
    + unfold fullKey. apply String.eqb_neq in Hne. rewrite Hne.
      rewrite split_dot_join, (split_dot_plain key Hd), <- app_assoc. reflexivity.
    + unfold fullKey. apply String.eqb_neq in Hne. rewrite Hne.
      destruct prefix; [now apply String.eqb_neq in Hne | discriminate].
Qed.

Lemma split_dot_key (path : list string) :
  path <> [] -> List.Forall (fun key => plain_key key = true) path ->
  split_dot (dotted "" path) = path.
Proof.
  destruct path as [| key rest]; [contradiction |]. intros _ Hp.
  inversion Hp as [| ? ? Hk Hrest]; subst.
  unfold plain_key in Hk. apply andb_true_iff in Hk. destruct Hk as [Hk Hd].
  cbn [dotted fold_left]. change (fullKey "" key) with key.
  fold (dotted key rest). rewrite split_dot_dotted; [| | exact Hrest].
  - now rewrite (split_dot_plain key Hd).
  - intros ->. discriminate.
Qed.

Section Lookup.
Variable host_get : value -> string -> value.

Lemma getValueByPath_descend (path : list string) : forall v x,
  descend v path = Some x ->
  fold_left (fun current key => get_opt host_get current key) path v = x.
Proof.
  induction path as [| key rest IH]; intros v x H; cbn [fold_left].
  - now injection H.
  - cbn [descend] in H. destruct v as [| | | | | | proto es | |]; try discriminate.
    destruct (assoc es key) as [y |] eqn:A; [| discriminate].
    apply IH. unfold get_opt, get. cbn [lookup own]. rewrite A. exact H.
Qed.

Lemma undefined_stays (path : list string) :
  fold_left (fun current key => get_opt host_get current key) path VUndefined = VUndefined.
Proof. induction path as [| key rest IH]; [reflexivity | exact IH]. Qed.

End Lookup.

(** X12: a key of the English file whose path leads, in the locale object, to a
    truthy value through own properties is not reported missing -- provided
    the keys on the path are not empty and contain no dot, so that the
    dotted key splits back into the path. *)
Theorem present_key_not_missing (F : float_format) (host_get : value -> string -> value)
    (en loc : list (string * value)) (path : list string) (x : value) :
  path <> [] ->
  List.Forall (fun key => plain_key key = true) path ->
  descend (obj loc) path = Some x ->
  truthy x = true ->
  getValueByPath host_get (obj loc) (dotted "" path) = x /\
  ~ In (dotted "" path) (missing_keys (report_language F host_get (obj en) (obj loc))).
Proof.
  intros Hne Hp Hat Ht.
  assert (G : getValueByPath host_get (obj loc) (dotted "" path) = x).
  { unfold getValueByPath. rewrite (split_dot_key path Hne Hp).
    now apply getValueByPath_descend. }
  split; [exact G |].
  cbn [missing_keys report_language]. unfold missingIn. rewrite filter_In.
  intros [_ H]. rewrite G, Ht in H. discriminate.
Qed.

Lemma present_key_not_missing_witness :
  getValueByPath bare_host (obj [("nav", obj [("home", VStr "Inicio")])])
    (dotted "" ["nav"; "home"]) = VStr "Inicio" /\
  ~ In (dotted "" ["nav"; "home"])
       (missing_keys (report_language binary64 bare_host
                        (obj [("nav", obj [("home", VStr "Home"); ("team", VStr "Team")])])
                        (obj [("nav", obj [("home", VStr "Inicio")])]))).
Proof.
  apply (present_key_not_missing binary64 bare_host
           [("nav", obj [("home", VStr "Home"); ("team", VStr "Team")])]
           [("nav", obj [("home", VStr "Inicio")])] ["nav"; "home"] (VStr "Inicio")).
  - discriminate.
  - repeat constructor.
  - reflexivity.
  - reflexivity.
Defined.

(** A key with a dot of its own does not split back into its path: the
    English file, compared with itself, misses it. *)
Example dotted_key_reported_missing :
  missing_keys (report_language binary64 bare_host
                  (obj [("v1.0", VStr "Version 1.0")]) (obj [("v1.0", VStr "Version 1.0")]))
  = ["v1.0"].
Proof. reflexivity. Qed.


(** X13: with no Arabic file the script compares English with the empty object:
    every English key is missing (as long as the first part of the key reads
    as undefined on an empty object), the locale has no keys, and
    keys_translated, the difference of the two counts, is the negated number
    of English keys; the coverage is 0 when English has a key. *)
Theorem empty_locale_report (F : float_format) (host_get : value -> string -> value)
    (en : list (string * value)) :
  (Z.of_nat (List.length (deepKeys (obj en) "")) <= 2 ^ 53)%Z ->
  (forall k, In k (deepKeys (obj en) "") ->
     get host_get (obj []) (List.hd "" (split_dot k)) = VUndefined) ->
  missing_keys (report_language F host_get (obj en) (obj [])) = deepKeys (obj en) "" /\
  keys_count (report_language F host_get (obj en) (obj [])) = of_nat 0 /\
  keys_missing (report_language F host_get (obj en) (obj []))
  = of_nat (List.length (deepKeys (obj en) "")) /\
  (exists q, keys_translated (report_language F host_get (obj en) (obj [])) = Fin q /\
             (q == - inject_Z (Z.of_nat (List.length (deepKeys (obj en) ""))))%Q) /\
  ((0 < List.length (deepKeys (obj en) ""))%nat ->
   exists q, coverage_percentage (report_language F host_get (obj en) (obj [])) = Fin q /\
             (q == 0)%Q).
Proof.
  intros Hn Hfirst.
  assert (M : missingIn host_get (deepKeys (obj en) "") (obj []) = deepKeys (obj en) "").
  { unfold missingIn. revert Hfirst. generalize (deepKeys (obj en) "").
    induction l as [| k ks IH]; intros H; [reflexivity |].
    cbn [List.filter].
    assert (G : getValueByPath host_get (obj []) k = VUndefined).
    { unfold getValueByPath. destruct (split_dot k) as [| seg rest] eqn:E;
        [now apply split_dot_not_nil in E |].
      cbn [fold_left]. change (get_opt host_get (obj []) seg) with (get host_get (obj []) seg).
      specialize (H k (or_introl eq_refl)). rewrite E in H. cbn [List.hd] in H.
      rewrite H. apply undefined_stays. }
    rewrite G. cbn [truthy negb]. f_equal. apply IH. intros k' Hk'. apply H. now right. }
  cbn [missing_keys keys_count keys_missing keys_translated coverage_percentage
       report_language].
  rewrite M. change (deepKeys (obj []) "") with (@nil string). cbn [List.length].
  split; [reflexivity |]. split; [reflexivity |]. split; [reflexivity |].
  set (n := List.length (deepKeys (obj en) "")) in *.
  split.
  - unfold js_sub, of_nat. cbn [js_neg js_add].
    destruct (finish_exact F (inject_Z (Z.of_nat 0) + - inject_Z (Z.of_nat n))
                (- Z.of_nat n)) as [E R]; [lia | |].
    { rewrite inject_Z_opp. change (inject_Z (Z.of_nat 0)) with 0%Q. ring. }
    eexists. split; [exact E |]. now rewrite R, inject_Z_opp.
  - intros Hpos. unfold coverage, of_nat. cbn [js_div List.length]. fold n.
    assert (Nz : Qeq_bool (inject_Z (Z.of_nat n)) 0 = false).
    { apply Qeq_bool_false. intros C.
      assert (0 < inject_Z (Z.of_nat n))%Q
        by (change 0%Q with (inject_Z 0); rewrite <- Zlt_Qlt; lia).
      lra. }
    rewrite Nz.
    destruct (lit_100 F) as [L100 E100]. rewrite L100.
    destruct (finish_exact F (inject_Z (Z.of_nat 0) / inject_Z (Z.of_nat n)) 0) as [E1 R1];
      [simpl; lia | reflexivity |].
    rewrite E1. cbn [js_mul].
    destruct (finish_exact F (rnd F (inject_Z (Z.of_nat 0) / inject_Z (Z.of_nat n))
                              * rnd F 100) 0) as [E2 R2];
      [simpl; lia | rewrite R1; reflexivity |].
    rewrite E2. cbn [js_mul].
    match type of E2 with _ = Fin ?r => set (r2 := r) in * end.
    destruct (finish_exact F (r2 * rnd F 100) 0) as [E3 R3];
      [simpl; lia | rewrite R2; reflexivity |].
    rewrite E3. cbn [Math_round js_div].
    match type of E3 with _ = Fin ?r => set (r3 := r) in * end.
    assert (Z100 : Qeq_bool (rnd F 100) 0 = false).
    { apply Qeq_bool_false. rewrite E100. discriminate. }
    rewrite Z100.
    assert (Zr : Qfloor (r3 + (1 # 2)) = 0%Z) by (rewrite R3; reflexivity).
    rewrite Zr.
    destruct (finish_exact F (inject_Z 0 / rnd F 100) 0) as [E4 R4];
      [simpl; lia | reflexivity |].
    rewrite E4. eexists. split; [reflexivity | exact R4].
Qed.

Lemma empty_locale_report_witness :
  let en := [("nav", obj [("home", VStr "Home"); ("team", VStr "Team")]);
             ("title", VStr "ExoAI")] in
  missing_keys (report_language binary64 bare_host (obj en) (obj []))
  = deepKeys (obj en) "" /\
  keys_count (report_language binary64 bare_host (obj en) (obj [])) = of_nat 0 /\
  keys_missing (report_language binary64 bare_host (obj en) (obj []))
  = of_nat (List.length (deepKeys (obj en) "")) /\
  (exists q, keys_translated (report_language binary64 bare_host (obj en) (obj [])) = Fin q /\
             (q == - inject_Z (Z.of_nat (List.length (deepKeys (obj en) ""))))%Q) /\
  ((0 < List.length (deepKeys (obj en) ""))%nat ->
   exists q, coverage_percentage (report_language binary64 bare_host (obj en) (obj []))
             = Fin q /\ (q == 0)%Q).
Proof.
  apply (empty_locale_report binary64 bare_host
           [("nav", obj [("home", VStr "Home"); ("team", VStr "Team")]);
            ("title", VStr "ExoAI")]).
  - vm_compute. discriminate.
  - intros k [<- | [<- | [<- | []]]]; reflexivity.
Defined.

Example empty_locale_example :
  let r := report_language exact_format bare_host
             (obj [("nav", obj [("home", VStr "Home"); ("team", VStr "Team")]);
                   ("title", VStr "ExoAI")]) (obj []) in
  keys_translated r = Fin (- (3)) /\ keys_missing r = Fin 3 /\ keys_count r = Fin 0.
Proof. vm_compute. repeat split. Qed.

End ReportFacts.

(** ** The Quantum and Adversarial pages: every outcome of the request *)

Module Outcomes.
Import JSNum JSValue Async Async.Notations.
Local Open Scope Q_scope.

(** The last value of the progress loop: [(steps / steps) * 100]. *)
Lemma full_progress (F : float_format) (steps : nat) :
  (1 <= Z.of_nat steps <= 2 ^ 53)%Z ->
  exists q,
    js_mul F (js_div F (of_nat steps) (lit F (inject_Z (Z.of_nat steps)))) (lit F 100) = Fin q /\
    q == 100.
Proof.
  intros Hs. destruct (lit_int F (Z.of_nat steps)) as [E R]; [lia |].
  rewrite E. unfold of_nat. cbn [js_div].
  assert (P : 0 < inject_Z (Z.of_nat steps))
    by (change 0 with (inject_Z 0); rewrite <- Zlt_Qlt; lia).
  rewrite Qeq_bool_false by (rewrite R; lra).
  destruct (finish_exact F (inject_Z (Z.of_nat steps) / rnd F (inject_Z (Z.of_nat steps))) 1)
    as [E1 R1]; [simpl; lia | rewrite R; field; lra |].
  rewrite E1. destruct (lit_100 F) as [L100 E100]. rewrite L100. cbn [js_mul].
  destruct (finish_exact F (rnd F (inject_Z (Z.of_nat steps)
                                   / rnd F (inject_Z (Z.of_nat steps))) * rnd F 100) 100)
    as [E2 R2]; [simpl; lia | rewrite R1, E100; reflexivity |].
  rewrite E2. eexists. split; [reflexivity | exact R2].
Qed.

(** What the page shows and what the console has received after the
    handler, by the answer to the request. *)
Definition settled {S : Type} (results_of : S -> value) (mock : value)
    (answer : fetch_outcome) (w w' : world S) : Prop :=
  match answer with
  | Rejects e => results_of (ui w') = mock /\ console w' = console w ++ [e]
  | Responds r =>
      if ok r
      then match json r with
           | JsonData data => results_of (ui w') = data /\ console w' = console w
           | JsonRejects e => results_of (ui w') = mock /\ console w' = console w ++ [e]
           end
      else results_of (ui w') = mock /\ console w' = console w
  end.

(** The [try]/[catch] block the two handlers share, over any page state. *)
Lemma request_block {S : Type} (setResults : value -> S -> S) (mock : value)
    (answer : fetch_outcome) (req : request) (w : world S) :
  exists (v : value) (logged : list thrown),
    try_catch
      (let* response := fetch answer req in
       if ok response
       then let* data := read_json response in set (setResults data)
       else set (setResults mock))
      (fun error => do console_error error then set (setResults mock)) w
    = (Returned tt, {| ui := setResults v (ui w);
                       requests := requests w ++ [req];
                       console := console w ++ logged |}) /\
    match answer with
    | Rejects e => v = mock /\ logged = [e]
    | Responds r =>
        if ok r
        then match json r with
             | JsonData data => v = data /\ logged = []
             | JsonRejects e => v = mock /\ logged = [e]
             end
        else v = mock /\ logged = []
    end.
Proof.
  destruct answer as [e | r]; [| destruct (ok r) eqn:K; [destruct (json r) eqn:J |]];
    cbv [bind set sleep ret try_catch fetch read_json console_error sent throw];
    cbn [ui requests console]; rewrite ?K, ?J; cbn [ui requests console].
  - exists mock, [e]. split; [reflexivity | now split].
  - exists mock, [e]. split; [reflexivity | now split].
  - exists v, []. rewrite app_nil_r. split; [reflexivity | now split].
  - exists mock, []. rewrite app_nil_r. split; [reflexivity | now split].
Qed.

(** The progress loops: after at least one round nothing but [progress]
    has changed, and [progress] holds the value of the last round. *)
Lemma circuit_loop (f : nat -> num) (count : nat) :
  forall (i : nat) (w : world Quantum.state),
    for_upto i (Datatypes.S count)
      (fun i => do sleep 100 then set (Quantum.setProgress (f i))) w
    = (Returned tt, {| ui := Quantum.setProgress (f (i + count)%nat) (ui w);
                       requests := requests w; console := console w |}).
Proof.
  induction count as [| count IH]; intros i w.
  - cbv [for_upto bind sleep ret set]. now rewrite Nat.add_0_r.
  - change (for_upto i (Datatypes.S (Datatypes.S count)) ?b)
      with (bind (b i) (fun _ => for_upto (Datatypes.S i) (Datatypes.S count) b)).
    erewrite bind_returned by reflexivity.
    rewrite IH. cbn [ui requests console]. now rewrite Nat.add_succ_r.
Qed.

Lemma attack_loop (f : nat -> num) (count : nat) :
  forall (i : nat) (w : world Adversarial.state),
    for_upto i (Datatypes.S count)
      (fun i => do sleep 150 then set (Adversarial.setProgress (f i))) w
    = (Returned tt, {| ui := Adversarial.setProgress (f (i + count)%nat) (ui w);
                       requests := requests w; console := console w |}).
Proof.
  induction count as [| count IH]; intros i w.
  - cbv [for_upto bind sleep ret set]. now rewrite Nat.add_0_r.
  - change (for_upto i (Datatypes.S (Datatypes.S count)) ?b)
      with (bind (b i) (fun _ => for_upto (Datatypes.S i) (Datatypes.S count) b)).
    erewrite bind_returned by reflexivity.
    rewrite IH. cbn [ui requests console]. now rewrite Nat.add_succ_r.
Qed.

Lemma settled_of {S : Type} (results_of : S -> value) (mock : value)
    (answer : fetch_outcome) (w w' : world S) (v : value) (logged : list thrown) :
  results_of (ui w') = v -> console w' = console w ++ logged ->
  match answer with
  | Rejects e => v = mock /\ logged = [e]
  | Responds r =>
      if ok r
      then match json r with
           | JsonData data => v = data /\ logged = []
           | JsonRejects e => v = mock /\ logged = [e]
           end
      else v = mock /\ logged = []
  end ->
  settled results_of mock answer w w'.
Proof.
  intros Hv Hc H. unfold settled.
  destruct answer as [e | r]; [| destruct (ok r); [destruct (json r) |]];
    destruct H as [-> ->]; rewrite ?app_nil_r in Hc; now split.
Qed.

Lemma quantum_run (F : float_format) (answer : fetch_outcome) (cfg : Quantum.settings)
    (w : world Quantum.state) :
  exists w',
    Quantum.handleQuantumSimulation F answer cfg w = (Returned tt, w') /\
    Quantum.progress (ui w')
    = js_mul F (js_div F (of_nat 20) (lit F 20)) (lit F 100) /\
    Quantum.isProcessing (ui w') = false /\
    requests w' = requests w ++ [Quantum.qsvc_request F cfg] /\
    settled Quantum.results (Quantum.mock_results F cfg) answer w w'.
Proof.
  unfold Quantum.handleQuantumSimulation, Quantum.simulate_circuit.
  erewrite bind_returned by reflexivity.
  erewrite bind_returned by reflexivity.
  erewrite bind_returned
    by apply (circuit_loop (fun i => js_mul F (js_div F (of_nat i) (lit F 20)) (lit F 100))).
  match goal with |- context [bind (try_catch _ _) _ ?w0] =>
    destruct (request_block Quantum.setResults (Quantum.mock_results F cfg) answer
                (Quantum.qsvc_request F cfg) w0) as (v & logged & E & H)
  end.
  erewrite bind_returned by exact E.
  eexists. split; [reflexivity |].
  cbn [ui requests console] in *.
  split; [reflexivity |]. split; [reflexivity |]. split; [reflexivity |].
  now apply (settled_of _ _ _ _ _ v logged).
Qed.

Lemma adversarial_run (F : float_format) (answer : fetch_outcome)
    (cfg : Adversarial.settings) (w : world Adversarial.state) :
  exists w',
    Adversarial.handleAdversarialAttack F answer cfg w = (Returned tt, w') /\
    Adversarial.progress (ui w')
    = js_mul F (js_div F (of_nat 15) (lit F 15)) (lit F 100) /\
    Adversarial.isProcessing (ui w') = false /\
    requests w' = requests w ++ [Adversarial.adversarial_request F cfg] /\
    settled Adversarial.results (Adversarial.mock_results F) answer w w'.
Proof.
  unfold Adversarial.handleAdversarialAttack, Adversarial.simulate_attack.
  erewrite bind_returned by reflexivity.
  erewrite bind_returned by reflexivity.
  erewrite bind_returned
    by apply (attack_loop (fun i => js_mul F (js_div F (of_nat i) (lit F 15)) (lit F 100))).
  match goal with |- context [bind (try_catch _ _) _ ?w0] =>
    destruct (request_block Adversarial.setResults (Adversarial.mock_results F) answer
                (Adversarial.adversarial_request F cfg) w0) as (v & logged & E & H)
  end.
  erewrite bind_returned by exact E.
  eexists. split; [reflexivity |].
  cbn [ui requests console] in *.
  split; [reflexivity |]. split; [reflexivity |]. split; [reflexivity |].
  now apply (settled_of _ _ _ _ _ v logged).
Qed.

(** A number that is exactly one hundred. *)
Definition is_100 (x : num) : Prop := exists q, x = Fin q /\ q == 100.

(** X14: on the Quantum and on the Adversarial page the handler returns
    for every answer of the network, having sent its one request; the
    progress bar then stands at exactly 100 and the page is no longer
    processing.  The results are the parsed body of an ok response; they are
    the mock object, with the error passed to [console.error], when the
    request rejects or the body of an ok response does not parse, and the
    mock object with nothing logged when the response is not ok. *)
Theorem handlers_settle (F : float_format) (answer : fetch_outcome) :
  (forall (cfg : Quantum.settings) (w : world Quantum.state),
     exists w',
       Quantum.handleQuantumSimulation F answer cfg w = (Returned tt, w') /\
       is_100 (Quantum.progress (ui w')) /\
       Quantum.isProcessing (ui w') = false /\
       requests w' = requests w ++ [Quantum.qsvc_request F cfg] /\
       settled Quantum.results (Quantum.mock_results F cfg) answer w w') /\
  (forall (cfg : Adversarial.settings) (w : world Adversarial.state),
     exists w',
       Adversarial.handleAdversarialAttack F answer cfg w = (Returned tt, w') /\
       is_100 (Adversarial.progress (ui w')) /\
       Adversarial.isProcessing (ui w') = false /\
       requests w' = requests w ++ [Adversarial.adversarial_request F cfg] /\
       settled Adversarial.results (Adversarial.mock_results F) answer w w').
Proof.
  split; intros cfg w.
  - destruct (quantum_run F answer cfg w) as (w' & E & P & rest).
    exists w'. split; [exact E |]. split; [| exact rest].
    rewrite P. apply (full_progress F 20). cbn. lia.
  - destruct (adversarial_run F answer cfg w) as (w' & E & P & rest).
    exists w'. split; [exact E |]. split; [| exact rest].
    rewrite P. apply (full_progress F 15). cbn. lia.
Qed.

(** The three kinds of answer on the Quantum page, from a fresh page. *)
Example handlers_settle_examples :
  let fresh := {| ui := {| Quantum.isProcessing := false;
                           Quantum.progress := lit exact_format 0;
                           Quantum.results := VNull |};
                  requests := []; console := [] |} in
  let cfg := {| Quantum.nQubits := 4; Quantum.featureDimension := "2";
                Quantum.kernelType := "rbf" |} in
  let after answer :=
    snd (Quantum.handleQuantumSimulation exact_format answer cfg fresh) in
  let body := obj [("predictions", VArr [])] in
  (Quantum.results (ui (after (Responds {| ok := true; statusText := "OK";
                                           json := JsonData body |}))) = body) /\
  console (after (Responds {| ok := true; statusText := "OK";
                              json := JsonRejects (ErrorObject "Unexpected token") |}))
  = [ErrorObject "Unexpected token"] /\
  console (after (Responds {| ok := false; statusText := "Bad Gateway";
                              json := JsonData body |})) = [] /\
  console (after (Rejects (ErrorObject "Failed to fetch")))
  = [ErrorObject "Failed to fetch"].
Proof. vm_compute. repeat split; reflexivity. Qed.

End Outcomes.

(** ** The upload page: a run that succeeds, and the progress timer *)

Module UploadFacts.
Import JSNum JSValue Async Async.Notations DataUpload.
Local Open Scope Q_scope.

Section Run.
Variable F : float_format.
Variable host_get : value -> string -> value.
Variable ToString : value -> string.
Variable type_error_message : value -> string -> string.
Variable fired : nat -> nat.

Local Abbreviation tick := (progress_tick F).

(** A value whose properties can be read. *)
Definition readable (v : value) : Prop := v <> VNull /\ v <> VUndefined.

Lemma get_prop_readable (v : value) (key : string) (w : world state) :
  readable v ->
  get_prop host_get type_error_message v key w = (Returned (get host_get v key), w).
Proof. intros [A B]. destruct v; try reflexivity; contradiction. Qed.

(** Once the timer is cleared its callback does nothing. *)
Lemma ticks_cleared (n : nat) (s : state) :
  progressInterval s = false -> Nat.iter n tick s = s.
Proof.
  intros H. induction n as [| n IH]; [reflexivity |].
  rewrite Nat.iter_succ, IH. unfold progress_tick. now rewrite H.
Qed.

(** The timer callback writes the progress and the timer only. *)
Lemma tick_frame (s : state) :
  isUploading (tick s) = isUploading s /\ isAnalyzing (tick s) = isAnalyzing s /\
  dataProfile (tick s) = dataProfile s /\ actionPlan (tick s) = actionPlan s /\
  error (tick s) = error s /\ activeTab (tick s) = activeTab s.
Proof.
  unfold progress_tick. destruct (progressInterval s); [| now repeat split].
  destruct (js_ge _ _); now repeat split.
Qed.

Lemma ticks_frame (n : nat) (s : state) :
  isUploading (Nat.iter n tick s) = isUploading s /\
  isAnalyzing (Nat.iter n tick s) = isAnalyzing s /\
  dataProfile (Nat.iter n tick s) = dataProfile s /\
  actionPlan (Nat.iter n tick s) = actionPlan s /\
  error (Nat.iter n tick s) = error s /\
  activeTab (Nat.iter n tick s) = activeTab s.
Proof.
  induction n as [| n IH]; [now repeat split |].
  rewrite Nat.iter_succ. destruct IH as (A & B & C & D & E & G).
  destruct (tick_frame (Nat.iter n tick s)) as (A' & B' & C' & D' & E' & G').
  repeat split; congruence.
Qed.

(** The timer is running and the bar stands at [10 * k] percent. *)
Definition climbing (k : nat) (s : state) : Prop :=
  progressInterval s = true /\
  exists q, uploadProgress s = Fin q /\ q == inject_Z (10 * Z.of_nat k).

Lemma tick_climbs (k : nat) (s : state) :
  (k < 9)%nat -> climbing k s -> climbing (Datatypes.S k) (tick s).
Proof.
  intros Hk (Hi & q & Hq & E).
  destruct (lit_int F 90) as [L90 R90]; [simpl; lia |].
  destruct (lit_int F 10) as [L10 R10]; [simpl; lia |].
  change (lit F (inject_Z 90)) with (lit F 90) in L90.
  change (lit F (inject_Z 10)) with (lit F 10) in L10.
  assert (B : q < 90).
  { rewrite E. change 90 with (inject_Z 90). rewrite <- Zlt_Qlt. lia. }
  unfold progress_tick. rewrite Hi, Hq, L90. unfold js_ge, js_le.
  rewrite Qle_bool_false by (rewrite R90; exact B).
  rewrite L10. cbn [js_add].
  destruct (finish_exact F (q + rnd F (inject_Z 10)) (10 * Z.of_nat (Datatypes.S k)))
    as [E1 R1].
  { lia. }
  { rewrite E, R10, <- inject_Z_plus. apply inject_Z_injective. lia. }
  split; [exact Hi |]. cbn [uploadProgress setUploadProgress].
  rewrite E1. eexists. split; [reflexivity | exact R1].
Qed.

Lemma ticks_climb (n k : nat) (s : state) :
  (k + n <= 9)%nat -> climbing k s -> climbing (k + n) (Nat.iter n tick s).
Proof.
  induction n as [| n IH]; intros Hk H.
  - now rewrite Nat.add_0_r.
  - rewrite Nat.iter_succ, Nat.add_succ_r. apply tick_climbs; [lia |].
    apply IH; [lia | exact H].
Qed.

(** At ninety percent the callback clears its own timer. *)
Lemma tick_stops (s : state) :
  climbing 9 s ->
  uploadProgress (tick s) = lit F 90 /\ progressInterval (tick s) = false.
Proof.
  intros (Hi & q & Hq & E).
  destruct (lit_int F 90) as [L90 R90]; [simpl; lia |].
  change (lit F (inject_Z 90)) with (lit F 90) in L90.
  assert (T : tick s = setUploadProgress (lit F 90) (setProgressInterval false s)).
  { unfold progress_tick. rewrite Hi, Hq. rewrite L90 at 1. unfold js_ge, js_le.
    now rewrite Qle_bool_true by (rewrite R90, E; apply Qle_refl). }
  rewrite T. now split.
Qed.

(** Ten firings from a running timer at zero percent, or more. *)
Lemma ticks_stop (n k : nat) (s : state) :
  (k <= 9)%nat -> (10 <= k + n)%nat -> climbing k s ->
  uploadProgress (Nat.iter n tick s) = lit F 90 /\
  progressInterval (Nat.iter n tick s) = false.
Proof.
  intros Hk Hn H.
  replace n with ((n - (10 - k)) + (1 + (9 - k)))%nat by lia.
  rewrite Nat.iter_add. rewrite (Nat.iter_add 1). cbn [Nat.iter Nat.add].
  assert (C : climbing 9 (Nat.iter (9 - k) tick s)).
  { replace 9%nat with (k + (9 - k))%nat at 1 by lia. apply ticks_climb; [lia | exact H]. }
  destruct (tick_stops _ C) as [P I].
  rewrite ticks_cleared by exact I. now split.
Qed.

(** One statement of the handler that returns. *)
Ltac step tac :=
  erewrite bind_returned by tac; cbn [ui requests console sent].

Section Success.
Variables (upload_response profile_response : response).
Variables (uploadResult analysisResult : value).

Local Abbreviation uploadAndAnalyze :=
  (uploadAndAnalyze F host_get ToString type_error_message fired
     (Responds upload_response) (Responds profile_response)).

Lemma await_returned {A} (j : nat) (m : M state A) (w w' : world state) (a : A) :
  m w = (Returned a, w') ->
  await F fired j m w
  = (Returned a, {| ui := Nat.iter (fired j) tick (ui w');
                    requests := requests w'; console := console w' |}).
Proof. intros E. unfold await. now rewrite E. Qed.

Lemma uploadAndAnalyze_success (file : string) (w : world state) :
  ok upload_response = true -> json upload_response = JsonData uploadResult ->
  readable uploadResult ->
  ok profile_response = true -> json profile_response = JsonData analysisResult ->
  readable analysisResult ->
  exists s,
    uploadAndAnalyze file w
    = (Returned tt,
       {| ui := s;
          requests := requests w
                      ++ [upload_request file;
                          profile_request ToString (get host_get uploadResult "dataset_id")];
          console := console w |}) /\
    progressInterval s = false /\ uploadProgress s = lit F 100 /\
    isUploading s = false /\ isAnalyzing s = false /\
    dataProfile s = get host_get analysisResult "profile" /\
    actionPlan s = get host_get analysisResult "action_plan" /\
    activeTab s = "profile" /\ error s = None.
Proof.
  intros K1 J1 R1 K2 J2 R2.
  unfold DataUpload.uploadAndAnalyze.
  do 4 step ltac:(reflexivity).
  unfold try_finally.
  erewrite try_catch_returned.
  2:{ unfold try_block.
      step ltac:(reflexivity).
      step ltac:(apply await_returned; reflexivity).
      do 2 step ltac:(reflexivity).
      rewrite K1. cbn [negb]. step ltac:(reflexivity).
      step ltac:(apply await_returned; unfold read_json; rewrite J1; reflexivity).
      do 2 step ltac:(reflexivity).
      step ltac:(apply get_prop_readable; exact R1).
      step ltac:(apply await_returned; reflexivity).
      rewrite K2. cbn [negb]. step ltac:(reflexivity).
      step ltac:(apply await_returned; unfold read_json; rewrite J2; reflexivity).
      step ltac:(apply get_prop_readable; exact R2).
      step ltac:(reflexivity).
      step ltac:(apply get_prop_readable; exact R2).
      step ltac:(reflexivity).
      reflexivity. }
  step ltac:(reflexivity).
  cbv [set]. cbn [ui requests console].
  eexists. split.
  { rewrite <- app_assoc. reflexivity. }
  match goal with |- context [Nat.iter (fired 1) tick ?s] => set (s1 := s) end.
  rewrite (ticks_cleared (fired 1) s1) by reflexivity.
  set (s2 := setIsAnalyzing true (setIsUploading false s1)).
  rewrite (ticks_cleared (fired 2) s2) by reflexivity.
  rewrite (ticks_cleared (fired 3) s2) by reflexivity.
  subst s2 s1. repeat split.
  cbn [error setIsAnalyzing setIsUploading setActiveTab setActionPlan setDataProfile
       setUploadProgress setProgressInterval].
  match goal with |- error (Nat.iter ?n tick ?s) = _ =>
    destruct (ticks_frame n s) as (_ & _ & _ & _ & E & _); now rewrite E
  end.
Qed.

End Success.

Section Rejected.
Variable e : thrown.
Variable profile_answer : fetch_outcome.

Local Abbreviation uploadAndAnalyze :=
  (uploadAndAnalyze F host_get ToString type_error_message fired
     (Rejects e) profile_answer).

(** The catch and finally clauses write neither the progress nor the
    timer, so the callback works through them. *)
Lemma tick_setError (m : option string) (s : state) :
  tick (setError m s) = setError m (tick s).
Proof.
  unfold progress_tick. cbn [progressInterval uploadProgress setError].
  destruct (progressInterval s); [| reflexivity]. now destruct (js_ge _ _).
Qed.

Lemma tick_setIsUploading (b : bool) (s : state) :
  tick (setIsUploading b s) = setIsUploading b (tick s).
Proof.
  unfold progress_tick. cbn [progressInterval uploadProgress setIsUploading].
  destruct (progressInterval s); [| reflexivity]. now destruct (js_ge _ _).
Qed.

Lemma tick_setIsAnalyzing (b : bool) (s : state) :
  tick (setIsAnalyzing b s) = setIsAnalyzing b (tick s).
Proof.
  unfold progress_tick. cbn [progressInterval uploadProgress setIsAnalyzing].
  destruct (progressInterval s); [| reflexivity]. now destruct (js_ge _ _).
Qed.

Lemma ticks_through (n : nat) (m : option string) (s : state) :
  Nat.iter n tick (setIsAnalyzing false (setIsUploading false (setError m s)))
  = setIsAnalyzing false (setIsUploading false (setError m (Nat.iter n tick s))).
Proof.
  induction n as [| n IH]; [reflexivity |].
  rewrite !Nat.iter_succ, IH.
  now rewrite tick_setIsAnalyzing, tick_setIsUploading, tick_setError.
Qed.

(** The page when the timer has just been set. *)
Definition timer_set (s : state) : state :=
  setProgressInterval true
    (setError None (setUploadProgress (lit F 0)
                      (setIsAnalyzing false (setIsUploading true s)))).

Lemma timer_set_climbing (s : state) : climbing 0 (timer_set s).
Proof.
  destruct (lit_int F 0) as [L0 R0]; [simpl; lia |].
  change (lit F (inject_Z 0)) with (lit F 0) in L0.
  split; [reflexivity |].
  unfold timer_set.
  cbn [uploadProgress setProgressInterval setError setUploadProgress].
  rewrite L0. eexists. split; [reflexivity | exact R0].
Qed.

Lemma uploadAndAnalyze_rejected (file : string) (w : world state) :
  uploadAndAnalyze file w
  = (Returned tt,
     {| ui := setIsAnalyzing false
                (setIsUploading false
                   (setError (Some (message_of e))
                      (Nat.iter (fired 0) tick (timer_set (ui w)))));
        requests := requests w ++ [upload_request file];
        console := console w |}).
Proof.
  unfold DataUpload.uploadAndAnalyze.
  do 4 step ltac:(reflexivity).
  unfold try_finally.
  erewrite try_catch_throws.
  2:{ unfold try_block.
      step ltac:(reflexivity).
      erewrite bind_throws; [reflexivity |].
      unfold await, fetch. reflexivity. }
  reflexivity.
Qed.

End Rejected.

End Run.

(** The bar stands at the whole number [p]. *)
Definition at_percent (p : nat) (x : num) : Prop :=
  exists q, x = Fin q /\ q == inject_Z (Z.of_nat p).

(** X15: when both requests are answered ok with JSON bodies whose
    properties can be read, the handler returns having sent the upload and
    then the profile request for [uploadResult.dataset_id]; it shows
    [analysisResult.profile] and [analysisResult.action_plan] on the
    "profile" tab with no error, both flags are down, the bar stands at the
    literal 100 and the timer is cleared -- and nothing of this changes
    however often the timer's callback would still run. *)
Theorem upload_success_shows_profile (F : float_format)
    (host_get : value -> string -> value) (ToString : value -> string)
    (type_error_message : value -> string -> string) (fired : nat -> nat)
    (upload_response profile_response : response)
    (uploadResult analysisResult : value)
    (file : string) (w : world state) (later : nat) :
  ok upload_response = true -> json upload_response = JsonData uploadResult ->
  readable uploadResult ->
  ok profile_response = true -> json profile_response = JsonData analysisResult ->
  readable analysisResult ->
  exists w',
    uploadAndAnalyze F host_get ToString type_error_message fired
      (Responds upload_response) (Responds profile_response) file w
    = (Returned tt, w') /\
    requests w'
    = requests w
      ++ [upload_request file;
          profile_request ToString (get host_get uploadResult "dataset_id")] /\
    console w' = console w /\
    Nat.iter later (progress_tick F) (ui w') = ui w' /\
    dataProfile (ui w') = get host_get analysisResult "profile" /\
    actionPlan (ui w') = get host_get analysisResult "action_plan" /\
    activeTab (ui w') = "profile" /\ error (ui w') = None /\
    isUploading (ui w') = false /\ isAnalyzing (ui w') = false /\
    uploadProgress (ui w') = lit F 100 /\ progressInterval (ui w') = false.
Proof.
  intros K1 J1 R1 K2 J2 R2.
  destruct (uploadAndAnalyze_success F host_get ToString type_error_message fired
              upload_response profile_response uploadResult analysisResult file w
              K1 J1 R1 K2 J2 R2)
    as (s & E & I & P & U & A & D & L & T & Er).
  eexists. split; [exact E |]. cbn [ui requests console].
  rewrite ticks_cleared by exact I. now repeat split.
Qed.

Definition ok_response (body : value) : response :=
  {| ok := true; statusText := "OK"; json := JsonData body |}.

Definition sample_upload_result : value := obj [("dataset_id", VStr "ds-1")].

Definition sample_analysis_result : value :=
  obj [("profile", obj [("dataset_id", VStr "ds-1")]);
       ("action_plan", obj [("quick_train_recommended", VBool true)])].

Lemma upload_success_shows_profile_witness :
  exists w',
    uploadAndAnalyze binary64 bare_host (fun _ => "ds-1") (fun _ _ => "TypeError")
      (fun _ => 2%nat)
      (Responds (ok_response sample_upload_result))
      (Responds (ok_response sample_analysis_result)) "kepler.csv" upload_page
    = (Returned tt, w') /\
    requests w'
    = requests upload_page
      ++ [upload_request "kepler.csv";
          profile_request (fun _ => "ds-1")
            (get bare_host sample_upload_result "dataset_id")] /\
    console w' = console upload_page /\
    Nat.iter 5 (progress_tick binary64) (ui w') = ui w' /\
    dataProfile (ui w') = get bare_host sample_analysis_result "profile" /\
    actionPlan (ui w') = get bare_host sample_analysis_result "action_plan" /\
    activeTab (ui w') = "profile" /\ error (ui w') = None /\
    isUploading (ui w') = false /\ isAnalyzing (ui w') = false /\
    uploadProgress (ui w') = lit binary64 100 /\ progressInterval (ui w') = false.
Proof.
  apply (upload_success_shows_profile binary64 bare_host (fun _ => "ds-1")
           (fun _ _ => "TypeError") (fun _ => 2%nat)
           (ok_response sample_upload_result) (ok_response sample_analysis_result)
           sample_upload_result sample_analysis_result "kepler.csv" upload_page 5);
    try reflexivity; split; discriminate.
Defined.

(** X16: when the upload request rejects, the handler returns with the
    error shown and both flags down, but it has not cleared the progress
    timer.  The callback goes on adding ten percent at each firing; at its
    tenth firing since the timer was set it finds ninety percent, writes
    the literal 90 and clears the timer itself.  The bar never reaches 100
    and the error stays. *)
Theorem rejected_upload_leaves_timer (F : float_format)
    (host_get : value -> string -> value) (ToString : value -> string)
    (type_error_message : value -> string -> string) (fired : nat -> nat)
    (e : thrown) (profile_answer : fetch_outcome)
    (file : string) (w : world state) (later : nat) :
  exists w',
    uploadAndAnalyze F host_get ToString type_error_message fired
      (Rejects e) profile_answer file w = (Returned tt, w') /\
    requests w' = requests w ++ [upload_request file] /\
    error (Nat.iter later (progress_tick F) (ui w')) = Some (message_of e) /\
    isUploading (Nat.iter later (progress_tick F) (ui w')) = false /\
    isAnalyzing (Nat.iter later (progress_tick F) (ui w')) = false /\
    ((fired 0 + later <= 9)%nat ->
       progressInterval (Nat.iter later (progress_tick F) (ui w')) = true /\
       at_percent (10 * (fired 0 + later))%nat
         (uploadProgress (Nat.iter later (progress_tick F) (ui w')))) /\
    ((10 <= fired 0 + later)%nat ->
       progressInterval (Nat.iter later (progress_tick F) (ui w')) = false /\
       uploadProgress (Nat.iter later (progress_tick F) (ui w')) = lit F 90).
Proof.
  eexists. split; [apply uploadAndAnalyze_rejected |]. cbn [ui requests console].
  split; [reflexivity |].
  rewrite ticks_through, <- Nat.iter_add.
  cbn [error isUploading isAnalyzing progressInterval uploadProgress
       setIsAnalyzing setIsUploading setError].
  split; [reflexivity |]. split; [reflexivity |]. split; [reflexivity |].
  split; intros H.
  - destruct (ticks_climb F (later + fired 0%nat) 0 (timer_set F (ui w)))
      as (I & q & Hq & E); [lia | apply timer_set_climbing |].
    split; [exact I |]. exists q. split; [exact Hq |].
    rewrite E. apply inject_Z_injective. lia.
  - apply and_comm.
    apply (ticks_stop F (later + fired 0%nat) 0); [lia | lia | apply timer_set_climbing].
Qed.

(** The upload rejects while the timer has fired twice: two firings later
    the timer still runs; eight firings later it has stopped, at ninety. *)
Example rejected_upload_example :
  let after later :=
    Nat.iter later (progress_tick exact_format)
      (ui (snd (uploadAndAnalyze exact_format bare_host (fun _ => "ds-1")
                  (fun _ _ => "TypeError") (fun _ => 2%nat)
                  (Rejects (ErrorObject "Failed to fetch")) (Rejects NotAnError)
                  "kepler.csv" upload_page))) in
  (uploadProgress (after 2%nat), progressInterval (after 2%nat)) = (Fin 40, true) /\
  (uploadProgress (after 8%nat), progressInterval (after 8%nat)) = (Fin 90, false) /\
  (uploadProgress (after 20%nat), progressInterval (after 20%nat)) = (Fin 90, false) /\
  error (after 20%nat) = Some "Failed to fetch".
Proof. vm_compute. repeat split; reflexivity. Qed.

End UploadFacts.

(** ** src/pages/DataUpload.tsx: [onDrop], with [formatFileSize] of
    src/lib/i18n-utils.ts *)

Module Drop.
Import JSNum JSValue JSMath Async Async.Notations Csv Report Format DataUpload.

(** What [onDrop] reads of a [File]: its name, in code units below 256 as
    for [toLowerCase], and its size in bytes. *)
Record file := { name : string; size : N }.

(** A size as a Number. *)
Definition of_N (n : N) : num := Fin (inject_Z (Z.of_N n)).

(** The component state: [uploadedFile] beside the state of
    [uploadAndAnalyze]. *)
Record page := { uploadedFile : option file; panel : state }.

Definition setUploadedFile (f : option file) (p : page) : page :=
  {| uploadedFile := f; panel := panel p |}.

(** A setter of the other state variables. *)
Definition on_panel (f : state -> state) (p : page) : page :=
  {| uploadedFile := uploadedFile p; panel := f (panel p) |}.

(** A handler of the other state variables, run on the page. *)
Definition on_page {A} (m : M state A) : M page A :=
  fun w =>
    match m {| ui := panel (ui w); requests := requests w; console := console w |} with
    | (r, w') =>
        (r, {| ui := {| uploadedFile := uploadedFile (ui w); panel := ui w' |};
               requests := requests w'; console := console w' |})
    end.

(** A call that may throw, inside a handler. *)
Definition call {S A} (r : result A) : M S A :=
  match r with
  | Returned a => ret a
  | Throws e => throw e
  end.

Definition sizes : list string := ["Bytes"; "KB"; "MB"; "GB"; "TB"].

(** [`${sizes[i]}`]: an element for the indices 0 to 4, "undefined" for
    every other number. *)
Definition size_name (i : num) : string :=
  match i with
  | Fin q =>
      if Qeq_bool (inject_Z (Qfloor q)) q && (0 <=? Qfloor q)%Z
      then nth (Z.to_nat (Qfloor q)) sizes "undefined"
      else "undefined"
  | _ => "undefined"
  end.

Definition allowedTypes : list string := [".csv"; ".parquet"; ".json"].

Section Component.
Variable F : float_format.
Variable host_get : value -> string -> value.
Variable ToString : value -> string.
Variable type_error_message : value -> string -> string.
Variable fired : nat -> nat.
Variable upload_answer : fetch_outcome.
Variable profile_answer : fetch_outcome.
Variable NumberFormat_format : value -> value -> num -> result string.
Variable Math_log : num -> num.
Variable Math_pow : num -> num -> num.
(** [t(key, options)] of react-i18next, and [i18n.language]. *)
Variable t : string -> list (string * string) -> string.
Variable language : string.

Definition formatFileSize (bytes : num) (locale : string) (decimals : num)
  : result string :=
  if js_eq bytes (lit F 0) then Returned "0 Bytes"
  else
    let k := lit F 1024 in
    let i := Math_floor (js_div F (Math_log bytes) (Math_log k)) in
    let value := js_div F bytes (Math_pow k i) in
    and_then
      (formatNumber host_get NumberFormat_format value locale
         (obj [("minimumFractionDigits", VNum decimals);
               ("maximumFractionDigits", VNum decimals)]))
      (fun formattedValue => Returned (formattedValue ++ " " ++ size_name i)%string).

(** [uploadAndAnalyze(file)] is not awaited: the rest of it runs after
    [onDrop] has returned.  Nothing follows the call in [onDrop], so the
    handler is run here to its end; the form data is named by the file. *)
Definition onDrop (acceptedFiles : list file) : M page unit :=
  match acceptedFiles with
  | [] => ret tt
  | file :: _ =>
      let fileExtension :=
        ("." ++ match last (split_dot (name file)) with
                | Some segment => toLowerCase segment
                | None => "undefined"
                end)%string in
      if negb (I18nUtils.includes allowedTypes fileExtension)
      then set (on_panel (setError
                  (Some (t "upload.error.unsupportedFormat"
                           [("format", fileExtension)]))))
      else
        let maxSize := js_mul F (js_mul F (lit F 100) (lit F 1024)) (lit F 1024) in
        if js_gt (of_N (size file)) maxSize
        then
          let* size_text := call (formatFileSize (of_N (size file)) language (lit F 2)) in
          let* maxSize_text := call (formatFileSize maxSize language (lit F 2)) in
          set (on_panel (setError
                 (Some (t "upload.error.fileTooLarge"
                          [("size", size_text); ("maxSize", maxSize_text)]))))
        else
          do set (setUploadedFile (Some file)) then
          do set (on_panel (setError None)) then
          do set (on_panel (setActiveTab "upload")) then
          on_page (uploadAndAnalyze F host_get ToString type_error_message fired
                     upload_answer profile_answer (name file))
  end.

End Component.

(** *** The requests of [uploadAndAnalyze] *)

Section Requests.
Variable F : float_format.
Variable host_get : value -> string -> value.
Variable ToString : value -> string.
Variable type_error_message : value -> string -> string.
Variable fired : nat -> nat.
Variable upload_answer : fetch_outcome.
Variable profile_answer : fetch_outcome.

(** A computation that only adds to the requests sent. *)
Definition extends {A} (m : M state A) : Prop :=
  forall w r w', m w = (r, w') -> exists more, requests w' = requests w ++ more.

Lemma extends_bind {A B} (m : M state A) (k : A -> M state B) :
  extends m -> (forall a, extends (k a)) -> extends (bind m k).
Proof.
  intros Hm Hk w r w' E. unfold bind in E.
  destruct (m w) as [[a | e] w1] eqn:Em.
  - destruct (Hm _ _ _ Em) as [m1 E1]. destruct (Hk a _ _ _ E) as [m2 E2].
    exists (m1 ++ m2). now rewrite E2, E1, app_assoc.
  - injection E as <- <-. exact (Hm _ _ _ Em).
Qed.

Lemma extends_set (f : state -> state) : extends (set f).
Proof. intros w r w' E. injection E as <- <-. exists []. cbn. now rewrite app_nil_r. Qed.

Lemma extends_ret {A} (a : A) : extends (ret (S := state) a).
Proof. intros w r w' E. injection E as <- <-. exists []. now rewrite app_nil_r. Qed.

Lemma extends_throw {A} (e : thrown) : extends (throw (S := state) (A := A) e).
Proof. intros w r w' E. injection E as <- <-. exists []. now rewrite app_nil_r. Qed.

Lemma extends_fetch (answer : fetch_outcome) (req : request) :
  extends (fetch (S := state) answer req).
Proof.
  intros w r w' E. unfold fetch in E.
  destruct answer; injection E as <- <-; now exists [req].
Qed.

Lemma extends_read_json (r : response) : extends (read_json (S := state) r).
Proof. unfold read_json. destruct (json r); [apply extends_throw | apply extends_ret]. Qed.

Lemma extends_get_prop (v : value) (key : string) :
  extends (get_prop host_get type_error_message v key).
Proof. unfold get_prop. destruct v; try apply extends_ret; apply extends_throw. Qed.

Lemma extends_await {A} (j : nat) (m : M state A) :
  extends m -> extends (await F fired j m).
Proof.
  intros Hm w r w' E. unfold await in E.
  destruct (m w) as [r1 w1] eqn:Em. injection E as <- <-. exact (Hm _ _ _ Em).
Qed.

(** The upload request is the first thing the [try] sends. *)
Lemma try_block_requests (file : string) (w : world state) (r : result unit)
    (w' : world state) :
  try_block F host_get ToString type_error_message fired upload_answer profile_answer
    file w = (r, w') ->
  exists more, requests w' = requests w ++ upload_request file :: more.
Proof.
  unfold try_block. erewrite bind_returned by reflexivity.
  unfold bind at 1. unfold await at 1. unfold fetch at 1.
  destruct upload_answer as [e | uploadResponse]; cbn [ui requests console sent].
  - intros [= <- <-]. now exists [].
  - match goal with |- ?k ?w0 = _ -> _ => assert (H : extends (fun w => k w)) end.
    { apply extends_bind; [apply extends_set | intros _].
      apply extends_bind; [apply extends_set | intros _].
      apply extends_bind;
        [destruct (negb (ok uploadResponse)); [apply extends_throw | apply extends_ret]
        | intros _].
      apply extends_bind; [apply extends_await, extends_read_json | intros uploadResult].
      apply extends_bind; [apply extends_set | intros _].
      apply extends_bind; [apply extends_set | intros _].
      apply extends_bind; [apply extends_get_prop | intros dataset_id].
      apply extends_bind; [apply extends_await, extends_fetch | intros analysisResponse].
      apply extends_bind;
        [destruct (negb (ok analysisResponse)); [apply extends_throw | apply extends_ret]
        | intros _].
      apply extends_bind; [apply extends_await, extends_read_json | intros analysisResult].
      apply extends_bind; [apply extends_get_prop | intros profile].
      apply extends_bind; [apply extends_set | intros _].
      apply extends_bind; [apply extends_get_prop | intros action_plan].
      apply extends_bind; [apply extends_set | intros _].
      apply extends_set. }
    intros E. destruct (H _ _ _ E) as [more Hm]. cbn [requests] in Hm.
    exists more. now rewrite Hm, <- app_assoc.
Qed.

(** The handler returns, and the upload request is the first it sent. *)
Lemma uploadAndAnalyze_requests (file : string) (w : world state) :
  exists w' more,
    uploadAndAnalyze F host_get ToString type_error_message fired
      upload_answer profile_answer file w = (Returned tt, w') /\
    requests w' = requests w ++ upload_request file :: more.
Proof.
  unfold uploadAndAnalyze.
  do 4 (erewrite bind_returned by reflexivity; cbn [ui requests console]).
  unfold try_finally, try_catch.
  match goal with |- context [try_block _ _ _ _ _ _ _ file ?w0] =>
    destruct (try_block F host_get ToString type_error_message fired upload_answer
                profile_answer file w0) as [[[] | e] w1] eqn:E;
    destruct (try_block_requests _ _ _ _ E) as [more Hm]
  end; cbn [requests] in Hm.
  - eexists. exists more. split; [reflexivity | exact Hm].
  - eexists. exists more. split; [reflexivity | exact Hm].
Qed.

End Requests.

(** *** What [onDrop] lets through *)

(** [ext] is what follows the last dot of the name; the whole name, when
    there is no dot in it. *)
Definition has_extension (filename ext : string) : Prop :=
  (ReportFacts.dot_free filename = true /\ ext = filename) \/
  (exists stem, filename = (stem ++ "." ++ ext)%string /\
                ReportFacts.dot_free ext = true).

Definition supported (ext : string) : bool :=
  I18nUtils.includes ["csv"; "parquet"; "json"] (toLowerCase ext).

(** One hundred megabytes. *)
Definition max_bytes : N := 104857600.

Lemma last_segment (filename ext : string) :
  has_extension filename ext -> last (split_dot filename) = Some ext.
Proof.
  intros [[H ->] | (stem & -> & H)].
  - now rewrite ReportFacts.split_dot_plain.
  - rewrite ReportFacts.split_dot_join, (ReportFacts.split_dot_plain ext H).
    apply last_snoc.
Qed.

Lemma includes_allowedTypes (s : string) :
  I18nUtils.includes allowedTypes ("." ++ s)
  = I18nUtils.includes ["csv"; "parquet"; "json"] s.
Proof. reflexivity. Qed.

Lemma maxSize_exact (F : float_format) :
  exists q,
    js_mul F (js_mul F (lit F 100) (lit F 1024)) (lit F 1024) = Fin q /\
    q == inject_Z (Z.of_N max_bytes).
Proof.
  destruct (lit_int F 100) as [L1 R1]; [simpl; lia |].
  destruct (lit_int F 1024) as [L2 R2]; [simpl; lia |].
  change (lit F (inject_Z 100)) with (lit F 100) in L1.
  change (lit F (inject_Z 1024)) with (lit F 1024) in L2.
  rewrite L1, L2.
  destruct (js_mul_int F _ _ 100 1024 R1 R2) as (c & -> & Rc); [simpl; lia |].
  destruct (js_mul_int F _ _ (100 * 1024) 1024 Rc R2) as (d & -> & Rd); [simpl; lia |].
  exists d. split; [reflexivity |]. rewrite Rd. reflexivity.
Qed.

Lemma too_large (F : float_format) (bytes : N) :
  js_gt (of_N bytes) (js_mul F (js_mul F (lit F 100) (lit F 1024)) (lit F 1024))
  = negb (bytes <=? max_bytes)%N.
Proof.
  destruct (maxSize_exact F) as (q & -> & R).
  unfold js_gt, of_N, js_lt, Qlt_bool. f_equal.
  destruct (bytes <=? max_bytes)%N eqn:E.
  - apply N.leb_le in E. apply Qle_bool_true. rewrite R, <- Zle_Qle. lia.
  - apply N.leb_gt in E. apply Qle_bool_false. rewrite R, <- Zlt_Qlt. lia.
Qed.

(** X17: [onDrop] looks at the first file only.  With [ext] the text after
    the last dot of its name (the whole name, when there is no dot), the
    file goes to [uploadAndAnalyze] exactly when [ext], lowercased, is csv,
    parquet or json and the size is at most 104857600 bytes: then [onDrop]
    returns, [uploadedFile] is this file and the upload request for it is
    the first request sent.  Otherwise no request is sent and
    [uploadedFile] is left as it was; an unsupported extension always ends
    with an error message shown, and so does an oversized file unless
    formatting the sizes throws. *)
Theorem onDrop_validates (F : float_format)
    (host_get : value -> string -> value) (ToString : value -> string)
    (type_error_message : value -> string -> string) (fired : nat -> nat)
    (upload_answer profile_answer : fetch_outcome)
    (NumberFormat_format : value -> value -> num -> result string)
    (Math_log : num -> num) (Math_pow : num -> num -> num)
    (t : string -> list (string * string) -> string) (language : string)
    (first : file) (rest : list file) (ext : string) (w : world page) :
  has_extension (name first) ext ->
  exists r w',
    onDrop F host_get ToString type_error_message fired upload_answer profile_answer
      NumberFormat_format Math_log Math_pow t language (first :: rest) w = (r, w') /\
    if supported ext && (size first <=? max_bytes)%N
    then r = Returned tt /\ uploadedFile (ui w') = Some first /\
         exists more, requests w' = requests w ++ upload_request (name first) :: more
    else requests w' = requests w /\ uploadedFile (ui w') = uploadedFile (ui w) /\
         (supported ext = false -> r = Returned tt) /\
         (r = Returned tt -> exists message, error (panel (ui w')) = Some message).
Proof.
  intros Hext. unfold onDrop.
  rewrite (last_segment _ _ Hext), includes_allowedTypes. fold (supported ext).
  destruct (supported ext); cbn [negb andb].
  - rewrite too_large. destruct (size first <=? max_bytes)%N; cbn [negb].
    + do 3 (erewrite bind_returned by reflexivity; cbn [ui requests console]).
      unfold on_page. cbn [ui requests console panel uploadedFile on_panel setUploadedFile].
      match goal with |- context [uploadAndAnalyze _ _ _ _ _ _ _ _ ?w0] =>
        destruct (uploadAndAnalyze_requests F host_get ToString type_error_message fired
                    upload_answer profile_answer (name first) w0) as (w1 & more & E & Hm)
      end.
      rewrite E. cbn [requests] in Hm.
      eexists. eexists. split; [reflexivity |]. cbn [ui requests uploadedFile].
      split; [reflexivity |]. split; [reflexivity |]. now exists more.
    + destruct (formatFileSize F host_get NumberFormat_format Math_log Math_pow
                  (of_N (size first)) language (lit F 2)) as [size_text | e] eqn:E1.
      * destruct (formatFileSize F host_get NumberFormat_format Math_log Math_pow
                    (js_mul F (js_mul F (lit F 100) (lit F 1024)) (lit F 1024))
                    language (lit F 2)) as [maxSize_text | e] eqn:E2.
        -- eexists. eexists. split; [reflexivity |]. cbn.
           split; [reflexivity |]. split; [reflexivity |].
           split; [discriminate |]. intros _. now eexists.
        -- eexists. eexists. split; [reflexivity |]. cbn.
           split; [reflexivity |]. split; [reflexivity |].
           split; discriminate.
      * eexists. eexists. split; [reflexivity |]. cbn.
        split; [reflexivity |]. split; [reflexivity |].
        split; discriminate.
  - eexists. eexists. split; [reflexivity |]. cbn.
    split; [reflexivity |]. split; [reflexivity |].
    split; [reflexivity |]. intros _. now eexists.
Qed.

Definition empty_page : world page :=
  {| ui := {| uploadedFile := None; panel := ui upload_page |};
     requests := []; console := [] |}.

Definition kepler : file := {| name := "Kepler-10.CSV"; size := 2048 |}.

Lemma onDrop_validates_witness :
  exists r w',
    onDrop binary64 bare_host (fun _ => "ds-1") (fun _ _ => "TypeError") (fun _ => 2%nat)
      (Rejects NotAnError) (Rejects NotAnError)
      (fun _ _ _ => Returned "100.00") (fun x => x) (fun x _ => x)
      (fun key _ => key) "en" (kepler :: []) empty_page = (r, w') /\
    if supported "CSV" && (size kepler <=? max_bytes)%N
    then r = Returned tt /\ uploadedFile (ui w') = Some kepler /\
         exists more,
           requests w' = requests empty_page ++ upload_request (name kepler) :: more
    else requests w' = requests empty_page /\
         uploadedFile (ui w') = uploadedFile (ui empty_page) /\
         (supported "CSV" = false -> r = Returned tt) /\
         (r = Returned tt -> exists message, error (panel (ui w')) = Some message).
Proof.
  apply (onDrop_validates binary64 bare_host (fun _ => "ds-1") (fun _ _ => "TypeError")
           (fun _ => 2%nat) (Rejects NotAnError) (Rejects NotAnError)
           (fun _ _ _ => Returned "100.00") (fun x => x) (fun x _ => x)
           (fun key _ => key) "en" kepler [] "CSV" empty_page).
  right. exists "Kepler-10". split; reflexivity.
Defined.

(** A name without a dot counts as its own extension; only the last
    extension counts; the size limit is inclusive. *)
Example onDrop_examples :
  let drop f :=
    snd (onDrop exact_format bare_host (fun _ => "ds-1") (fun _ _ => "TypeError")
           (fun _ => 2%nat) (Rejects NotAnError) (Rejects NotAnError)
           (fun _ _ _ => Returned "100.00") (fun x => x) (fun x _ => x)
           (fun key _ => key) "en" [f] empty_page) in
  requests (drop {| name := "json"; size := 104857600 |}) = [upload_request "json"] /\
  requests (drop {| name := "lightcurve.csv.gz"; size := 10 |}) = [] /\
  error (panel (ui (drop {| name := "lightcurve.csv.gz"; size := 10 |})))
  = Some "upload.error.unsupportedFormat" /\
  requests (drop {| name := "lightcurve.csv"; size := 104857601 |}) = [] /\
  error (panel (ui (drop {| name := "lightcurve.csv"; size := 104857601 |})))
  = Some "upload.error.fileTooLarge".
Proof. vm_compute. repeat split; reflexivity. Qed.

End Drop.

(** ** The auto-translation script, run again on the file it wrote *)

Module Rerun.
Import JSNum JSValue Report AutoTranslate Translate.

(** A locale file of texts: nested objects with the initial prototype and
    pairwise distinct keys, none of them [__proto__], [_autoTranslated] or
    [_value], whose leaves are strings. *)
Fixpoint text_tree (v : value) : bool :=
  match v with
  | VObj proto es =>
      match proto with None => true | Some _ => false end
      && distinct (List.map fst es)
      && negb (existsb (String.eqb "__proto__") (List.map fst es))
      && negb (existsb (String.eqb "_autoTranslated") (List.map fst es))
      && negb (existsb (String.eqb "_value") (List.map fst es))
      && (fix all (es : list (string * value)) : bool :=
            match es with
            | [] => true
            | (_, x) :: rest =>
                match x with VStr _ => true | _ => text_tree x end && all rest
            end) es
  | _ => false
  end.

(** The texts of a file, at every depth. *)
Fixpoint texts (v : value) : list string :=
  match v with
  | VStr s => [s]
  | VObj _ es =>
      (fix all (es : list (string * value)) : list string :=
         match es with
         | [] => []
         | (_, x) :: rest => texts x ++ all rest
         end) es
  | _ => []
  end.

(** A text or a file of texts. *)
Definition text_entry (x : value) : bool :=
  match x with VStr _ => true | _ => text_tree x end.

Lemma text_tree_object proto es :
  text_tree (VObj proto es) = true <->
  proto = None /\ distinct (List.map fst es) = true /\
  ~ In "__proto__" (List.map fst es) /\ ~ In "_autoTranslated" (List.map fst es) /\
  ~ In "_value" (List.map fst es) /\
  List.Forall (fun kv => text_entry (snd kv) = true) es.
Proof.
  cbn [text_tree]. rewrite !andb_true_iff, !negb_true_iff, !existsb_eqb_notin.
  assert (A : (fix all (es : list (string * value)) : bool :=
                 match es with
                 | [] => true
                 | (_, x) :: rest =>
                     match x with VStr _ => true | _ => text_tree x end && all rest
                 end) es = true
              <-> List.Forall (fun kv => text_entry (snd kv) = true) es).
  { induction es as [| [k x] es IH]; [split; [constructor | reflexivity] |].
    rewrite andb_true_iff, IH. split.
    - intros [H1 H2]. constructor; assumption.
    - intros H. inversion H; subst. split; assumption. }
  rewrite A. destruct proto; intuition (try discriminate; try reflexivity).
Qed.

Lemma texts_entry proto es key x s :
  In (key, x) es -> In s (texts x) -> In s (texts (VObj proto es)).
Proof.
  cbn [texts]. induction es as [| [k y] es IH]; [intros [] |].
  intros [E | H] Hs; apply in_or_app.
  - injection E as -> ->. now left.
  - right. now apply IH.
Qed.

Lemma text_tree_tidy (v : value) : text_tree v = true -> tidy v = true.
Proof.
  induction v as [| | b | n | s0 | xs IH | proto es IHp IH | p | name] using value_ind;
    try discriminate.
  intros H. apply text_tree_object in H. destruct H as (-> & Hd & Hp & Ha & _ & Hall).
  cbn [tidy]. rewrite Hd. apply existsb_eqb_notin in Hp, Ha. rewrite Hp, Ha. cbn [andb negb].
  induction es as [| [k x] es IHes]; [reflexivity |].
  inversion Hall as [| ? ? Hx Hrest]; subst. inversion IH as [| ? ? Px Prest]; subst.
  cbn [snd] in Hx, Px.
  assert (Hd' : distinct (List.map fst es) = true).
  { cbn [List.map distinct] in Hd. now apply andb_true_iff in Hd. }
  rewrite IHes; try assumption.
  - destruct x; try discriminate Hx; try reflexivity. cbn [text_entry] in Hx.
    rewrite (Px Hx). reflexivity.
  - apply existsb_eqb_notin. apply existsb_eqb_notin in Hp. intros C. apply Hp. now right.
  - apply existsb_eqb_notin. apply existsb_eqb_notin in Ha. intros C. apply Ha. now right.
Qed.

(** *** The merged object, entry by entry *)

Lemma distinct_snoc (keys : list string) (k : string) :
  distinct keys = true -> ~ In k keys -> distinct (keys ++ [k]) = true.
Proof.
  induction keys as [| a keys IH]; intros Hd Hk; [reflexivity |].
  cbn [distinct app] in *. apply andb_true_iff in Hd. destruct Hd as [Ha Hd].
  apply andb_true_iff. split.
  - apply negb_true_iff, existsb_eqb_notin. apply negb_true_iff, existsb_eqb_notin in Ha.
    intros C. apply in_app_or in C. destruct C as [C | [C | []]]; [now apply Ha |].
    subst. apply Hk. now left.
  - apply IH; [exact Hd |]. intros C. apply Hk. now right.
Qed.

Lemma distinct_cons (keys : list string) (k : string) :
  distinct (k :: keys) = true <-> ~ In k keys /\ distinct keys = true.
Proof.
  cbn [distinct]. now rewrite andb_true_iff, negb_true_iff, existsb_eqb_notin.
Qed.

Lemma set_own_present es key v :
  assoc es key <> None -> List.map fst (set_own es key v) = List.map fst es.
Proof.
  induction es as [| [k x] es IH]; intros H; [now contradiction H |].
  cbn [set_own assoc] in *. destruct (String.eqb k key) eqn:E; [reflexivity |].
  cbn [List.map fst]. now rewrite IH.
Qed.

(** Not a key of [es]. *)
Definition fresh (es : list (string * value)) (kv : string * value) : bool :=
  negb (existsb (String.eqb (fst kv)) (List.map fst es)).

Section Exact.
Variable host_get : value -> string -> value.
Hypothesis standard : standard_prototype host_get.

Local Abbreviation merged_value := (merged_value host_get).

(** What the merge leaves of an entry of the translated object. *)
Definition overlaid (xs : list (string * value)) (kv : string * value)
  : string * value :=
  (fst kv, match assoc xs (fst kv) with
           | Some x => merged_value x (snd kv)
           | None => snd kv
           end).

Lemma merged_value_host (x : value) (key : string) :
  merged_value x (host_get (VProto ObjectPrototype) key) = x.
Proof.
  unfold Translate.merged_value. rewrite <- andb_assoc.
  rewrite (host_nothing_to_merge host_get standard). now rewrite andb_false_r.
Qed.

Lemma overlaid_set_own (acc : list (string * value)) (k : string) (v : value)
    (rest : list (string * value)) :
  distinct (List.map fst acc) = true -> assoc rest k = None ->
  forall cur, assoc acc k = Some cur ->
  List.map (overlaid rest) (set_own acc k (merged_value v cur))
  = List.map (overlaid ((k, v) :: rest)) acc.
Proof.
  intros Hd Hr. induction acc as [| [a c] acc IH]; intros cur Hc; [discriminate |].
  apply distinct_cons in Hd. destruct Hd as [Ha Hd].
  cbn [set_own assoc] in *. destruct (String.eqb a k) eqn:E.
  - apply String.eqb_eq in E. subst a. injection Hc as ->.
    cbn [List.map]. f_equal.
    + unfold overlaid. cbn [fst snd assoc]. now rewrite Hr, String.eqb_refl.
    + apply map_ext_in. intros [b d] Hin. unfold overlaid. cbn [fst snd assoc].
      destruct (String.eqb k b) eqn:Eb; [| reflexivity].
      apply String.eqb_eq in Eb. subst b. exfalso. apply Ha.
      apply (in_map fst) in Hin. exact Hin.
  - cbn [List.map]. f_equal.
    + unfold overlaid. cbn [fst snd assoc]. rewrite String.eqb_sym, E. reflexivity.
    + now apply IH.
Qed.

Lemma merge_fold_exact (xs : list (string * value)) : forall acc,
  distinct (List.map fst xs) = true -> ~ In "__proto__" (List.map fst xs) ->
  distinct (List.map fst acc) = true ->
  fold_left (merge_step host_get) xs (VObj None acc)
  = VObj None (List.map (overlaid xs) acc ++ List.filter (fresh acc) xs).
Proof.
  induction xs as [| [k v] xs IH]; intros acc Hd Hp Ha.
  - cbn [fold_left List.filter]. rewrite app_nil_r. f_equal.
    rewrite <- (map_id acc) at 1. apply map_ext. now intros [a c].
  - cbn [List.map fst] in Hd, Hp. apply distinct_cons in Hd. destruct Hd as [Hk Hd].
    assert (Hkp : k <> "__proto__") by (intros ->; apply Hp; now left).
    assert (Hp' : ~ In "__proto__" (List.map fst xs)) by (intros C; apply Hp; now right).
    assert (Hr : assoc xs k = None) by now apply assoc_none.
    cbn [fold_left]. rewrite (merge_step_plain host_get) by exact Hkp.
    destruct (assoc acc k) as [cur |] eqn:A.
    + rewrite (get_own host_get None acc k cur A).
      rewrite IH; [| exact Hd | exact Hp' | now apply set_own_distinct].
      rewrite (overlaid_set_own acc k v xs Ha Hr cur A).
      assert (Hf : fresh acc (k, v) = false).
      { unfold fresh. cbn [fst]. apply negb_false_iff, existsb_eqb_In.
        destruct (in_dec string_dec k (List.map fst acc)) as [Y | N]; [exact Y |].
        apply assoc_none in N. congruence. }
      f_equal. f_equal. cbn [List.filter]. rewrite Hf.
      apply filter_ext. intros kv. unfold fresh.
      rewrite set_own_present by congruence. reflexivity.
    + rewrite (get_absent host_get acc k A Hkp), merged_value_host.
      rewrite set_own_fresh by exact A.
      assert (Hn : ~ In k (List.map fst acc)) by now apply assoc_none.
      rewrite IH; [| exact Hd | exact Hp' |].
      2:{ rewrite List.map_app. cbn [List.map fst]. now apply distinct_snoc. }
      rewrite List.map_app, <- app_assoc. cbn [List.map app]. f_equal. f_equal.
      * apply map_ext_in. intros [a c] Hin. unfold overlaid. cbn [fst snd assoc].
        destruct (String.eqb k a) eqn:E; [| reflexivity].
        apply String.eqb_eq in E. subst a. exfalso. apply Hn.
        apply (in_map fst) in Hin. exact Hin.
      * assert (Hf : fresh acc (k, v) = true).
        { unfold fresh. cbn [fst]. now apply negb_true_iff, existsb_eqb_notin. }
        cbn [List.filter]. rewrite Hf.
        unfold overlaid at 1. cbn [fst snd]. rewrite Hr. f_equal.
        apply filter_ext_in. intros [a c] Hin. unfold fresh. cbn [fst]. f_equal.
        rewrite List.map_app, existsb_app. cbn [List.map fst existsb].
        rewrite orb_false_r.
        destruct (String.eqb a k) eqn:E; [| now rewrite orb_false_r].
        apply String.eqb_eq in E. subst a. exfalso. apply Hk.
        apply (in_map fst) in Hin. exact Hin.
Qed.

(** The merge of two objects with distinct keys: the translated entries in
    their order, each overlaid with the existing entry of its key, then the
    existing entries under other keys. *)
Lemma merge_exact (px pt : option value) (xs ts : list (string * value)) :
  distinct (List.map fst xs) = true -> ~ In "__proto__" (List.map fst xs) ->
  distinct (List.map fst ts) = true ->
  mergeTranslations host_get (VObj px xs) (VObj pt ts)
  = VObj None (List.map (overlaid xs) ts ++ List.filter (fresh ts) xs).
Proof.
  intros Hx Hp Ht.
  rewrite mergeTranslations_fold, spread_plain by exact Ht.
  now apply merge_fold_exact.
Qed.

(** *** Flattening a file of texts *)

Lemma map_entries_id (f : string * value -> value) (es : list (string * value)) :
  List.Forall (fun kv => f kv = snd kv) es ->
  List.map (fun kv => (fst kv, f kv)) es = es.
Proof.
  induction 1 as [| [k x] es H _ IH]; [reflexivity |].
  cbn [List.map fst]. cbn [snd] in H. now rewrite H, IH.
Qed.

Lemma flatten_text_tree (x : value) :
  text_tree x = true -> flattenTranslatedObject host_get x = x.
Proof.
  induction x as [| | b | n | s0 | xs IH | proto es IHp IH | p | name] using value_ind;
    try discriminate.
  intros H. apply text_tree_object in H. destruct H as (-> & Hd & Hp & Ha & _ & Hall).
  rewrite (flatten_entries host_get) by assumption. f_equal.
  apply map_entries_id. rewrite List.Forall_forall in *.
  intros [k y] Hin. unfold flattened_entry, flatten_entry. cbn [snd].
  specialize (Hall _ Hin). specialize (IH _ Hin). cbn [snd] in Hall, IH.
  destruct y as [| | b | n | s | ys | py ey | p | name]; try discriminate Hall;
    [reflexivity |].
  cbn [text_entry] in Hall. change (is_plain_object (VObj py ey)) with true. cbn iota.
  pose proof Hall as Hy. apply text_tree_object in Hy.
  destruct Hy as (-> & _ & _ & Hay & _ & _).
  rewrite (not_marked host_get standard) by exact Hay. now apply IH.
Qed.

Lemma flatten_text_entry (x : value) :
  text_entry x = true -> flatten_entry host_get (flattenTranslatedObject host_get) x = x.
Proof.
  intros H. unfold flatten_entry.
  destruct x as [| | b | n | s | ys | py ey | p | name]; try discriminate H;
    [reflexivity |].
  cbn [text_entry] in H. change (is_plain_object (VObj py ey)) with true. cbn iota.
  pose proof H as Hy. apply text_tree_object in Hy.
  destruct Hy as (-> & _ & _ & Hay & _ & _).
  rewrite (not_marked host_get standard) by exact Hay. now apply flatten_text_tree.
Qed.

(** A text that names nothing [Object.prototype] has. *)
Definition own_word (s : string) : Prop :=
  s <> "__proto__" /\ host_get (VProto ObjectPrototype) s = VUndefined.

Lemma translateText_string (s : string) :
  own_word s -> exists t, translateText host_get s "ar" = VStr t.
Proof.
  intros [Hp Hu]. unfold translateText.
  destruct (assoc (Object_entries TRANSLATION_MAP) s) as [x |] eqn:A.
  - destruct (map_values _ _ A) as (t & -> & Ht).
    change TRANSLATION_MAP with (VObj None (Object_entries TRANSLATION_MAP)).
    rewrite (get_own host_get None _ s (VStr t) A). cbn [truthy].
    apply String.eqb_neq in Ht. rewrite Ht. cbn [negb]. now exists t.
  - change TRANSLATION_MAP with (VObj None (Object_entries TRANSLATION_MAP)).
    rewrite (get_absent host_get _ s A Hp), Hu. cbn [truthy String.eqb Ascii.eqb].
    cbn [Bool.eqb]. destruct (isModelName s || isTechnicalTerm s); now eexists.
Qed.

(** What [deepTranslate] stores for a text: the translation, or the marker
    that holds it. *)
Lemma translate_leaf_text (s : string) :
  own_word s ->
  exists t,
    translate_leaf host_get (VStr s) "ar" = VStr t \/
    translate_leaf host_get (VStr s) "ar" = review_marker (VStr t) s.
Proof.
  intros H. destruct (translateText_string s H) as [t E].
  exists t. cbn [translate_leaf]. rewrite E.
  destruct (differs_from _ _ && _); [now right | now left].
Qed.

(** An existing object merged into a marker is flattened to the marked
    translation. *)
Lemma marker_wins (x : value) (t s : string) :
  text_tree x = true ->
  flatten_entry host_get (flattenTranslatedObject host_get)
    (merged_value x (review_marker (VStr t) s))
  = VStr t.
Proof.
  intros H. destruct x as [| | b | n | s0 | ys | px xs | p | name]; try discriminate H.
  apply text_tree_object in H. destruct H as (-> & Hd & Hp & Ha & Hv & _).
  unfold Translate.merged_value, review_marker, obj.
  change (is_plain_object (VObj None xs)) with true. cbn [truthy typeof_object andb].
  rewrite merge_exact by (try assumption; reflexivity).
  unfold flatten_entry. change (is_plain_object (VObj None ?l)) with true. cbn iota.
  apply assoc_none in Ha, Hv.
  assert (A : get host_get
                (VObj None
                   (List.map (overlaid xs)
                      [("_value", VStr t); ("_autoTranslated", VBool true);
                       ("_originalValue", VStr s); ("_needsReview", VBool true)]
                    ++ List.filter
                         (fresh [("_value", VStr t); ("_autoTranslated", VBool true);
                                 ("_originalValue", VStr s); ("_needsReview", VBool true)])
                         xs))
                "_autoTranslated" = VBool true).
  { apply (get_own host_get). cbn [List.map overlaid fst snd app assoc].
    rewrite Ha. reflexivity. }
  rewrite A. cbn [truthy].
  apply (get_own host_get). cbn [List.map overlaid fst snd app assoc].
  rewrite Hv. reflexivity.
Qed.

(** *** One run, entry by entry *)

(** [flattenTranslatedObject(mergeTranslations(arData, deepTranslate(enData,
    'ar', prefix)))]. *)
Definition run (prefix : string) (enData arData : value) : value :=
  flattenTranslatedObject host_get
    (mergeTranslations host_get arData (deepTranslate host_get enData "ar" prefix)).

(** What a run stores under a key of the English object. *)
Definition run_entry (prefix : string) (xs : list (string * value))
    (kv : string * value) : value :=
  flatten_entry host_get (flattenTranslatedObject host_get)
    (match assoc xs (fst kv) with
     | Some x => merged_value x (translated_entry host_get "ar" prefix kv)
     | None => translated_entry host_get "ar" prefix kv
     end).

Lemma fresh_keys (es es' : list (string * value)) :
  List.map fst es = List.map fst es' -> forall kv, fresh es kv = fresh es' kv.
Proof. intros E kv. unfold fresh. now rewrite E. Qed.

Lemma run_exact (prefix : string) (pe px : option value)
    (ee xs : list (string * value)) :
  text_tree (VObj pe ee) = true -> text_tree (VObj px xs) = true ->
  run prefix (VObj pe ee) (VObj px xs)
  = VObj None (List.map (fun kv => (fst kv, run_entry prefix xs kv)) ee
               ++ List.filter (fresh ee) xs) /\
  distinct (List.map fst (List.map (fun kv => (fst kv, run_entry prefix xs kv)) ee
                          ++ List.filter (fresh ee) xs)) = true.
Proof.
  intros He Hx.
  apply text_tree_object in He. destruct He as (-> & Hde & Hpe & Hae & Hve & Halle).
  apply text_tree_object in Hx. destruct Hx as (-> & Hdx & Hpx & Hax & Hvx & Hallx).
  unfold run. rewrite (deepTranslate_entries host_get None ee) by assumption.
  set (ts := List.map (fun kv => (fst kv, translated_entry host_get "ar" prefix kv)) ee).
  assert (Kts : List.map fst ts = List.map fst ee) by apply map_fst_map.
  destruct (merge_entries host_get None xs ts None Hdx Hpx)
    as (es & E & Hdes & Hkeys & _); [now rewrite Kts |].
  rewrite merge_exact in E by (try assumption; now rewrite Kts).
  injection E as E. rewrite merge_exact by (try assumption; now rewrite Kts).
  rewrite (flatten_entries host_get).
  2:{ now rewrite E. }
  2:{ rewrite E. intros C. destruct (Hkeys _ C) as [C' | C'];
        [rewrite Kts in C' |]; contradiction. }
  assert (R : List.map (fun kv => (fst kv, flattened_entry host_get kv))
                (List.map (overlaid xs) ts ++ List.filter (fresh ts) xs)
              = List.map (fun kv => (fst kv, run_entry prefix xs kv)) ee
                ++ List.filter (fresh ee) xs).
  { rewrite List.map_app. f_equal.
    - unfold ts. rewrite !List.map_map. apply map_ext. intros [k ev].
      unfold overlaid, run_entry, flattened_entry. cbn [fst snd]. reflexivity.
    - rewrite (filter_ext _ _ (fresh_keys ts ee Kts)).
      apply map_entries_id. apply List.Forall_forall. intros [k x] Hin.
      apply filter_In in Hin. destruct Hin as [Hin _].
      rewrite List.Forall_forall in Hallx. specialize (Hallx _ Hin).
      unfold flattened_entry. now apply flatten_text_entry. }
  rewrite R. split; [reflexivity |].
  rewrite <- R, map_fst_map, E. exact Hdes.
Qed.

Lemma assoc_app_l (es es' : list (string * value)) (key : string) (x : value) :
  assoc es key = Some x -> assoc (es ++ es') key = Some x.
Proof.
  induction es as [| [k y] es IH]; [discriminate |].
  cbn [assoc app]. destruct (String.eqb k key); [trivial | exact IH].
Qed.

Lemma assoc_entries (f : string * value -> value) (es : list (string * value))
    (k : string) (x : value) :
  distinct (List.map fst es) = true -> In (k, x) es ->
  assoc (List.map (fun kv => (fst kv, f kv)) es) k = Some (f (k, x)).
Proof.
  induction es as [| [a y] es IH]; intros Hd Hin; [destruct Hin |].
  cbn [List.map fst] in Hd. apply distinct_cons in Hd. destruct Hd as [Ha Hd].
  cbn [List.map fst assoc]. destruct Hin as [E | Hin].
  - injection E as -> ->. now rewrite String.eqb_refl.
  - destruct (String.eqb a k) eqn:E; [| now apply IH].
    apply String.eqb_eq in E. subst a. exfalso. apply Ha.
    apply (in_map fst) in Hin. exact Hin.
Qed.

Lemma filter_fresh_entries (f : string * value -> value) (es : list (string * value)) :
  List.filter (fresh es) (List.map (fun kv => (fst kv, f kv)) es) = [].
Proof.
  assert (G : forall l, incl l es ->
                List.filter (fresh es) (List.map (fun kv => (fst kv, f kv)) l) = []).
  { induction l as [| [k x] l IH]; intros Hl; [reflexivity |].
    cbn [List.map List.filter fst]. unfold fresh at 1. cbn [fst].
    assert (Hin : In k (List.map fst es)).
    { apply (in_map fst es (k, x)). apply Hl. now left. }
    apply existsb_eqb_In in Hin. rewrite Hin. cbn [negb].
    apply IH. intros kv Hkv. apply Hl. now right. }
  apply G, incl_refl.
Qed.

Lemma filter_twice (p : string * value -> bool) (l : list (string * value)) :
  List.filter p (List.filter p l) = List.filter p l.
Proof.
  induction l as [| a l IH]; [reflexivity |].
  cbn [List.filter]. destruct (p a) eqn:E; [| exact IH].
  cbn [List.filter]. now rewrite E, IH.
Qed.

(** *** The second run *)

Lemma text_tree_entry (x : value) : text_tree x = true -> text_entry x = true.
Proof. destruct x; try discriminate. trivial. Qed.

Lemma translated_object (prefix : string) (pe : option value)
    (ee : list (string * value)) :
  text_tree (VObj pe ee) = true ->
  exists ts,
    deepTranslate host_get (VObj pe ee) "ar" prefix = VObj None ts /\
    List.map fst ts = List.map fst ee.
Proof.
  intros H. apply text_tree_object in H. destruct H as (-> & Hd & Hp & _).
  rewrite (deepTranslate_entries host_get None ee) by assumption.
  eexists. split; [reflexivity | apply map_fst_map].
Qed.

(** Over an English object, an existing object is merged and flattened as
    a run of its own. *)
Lemma object_entry (prefix : string) (ev x0 : value) :
  text_tree ev = true -> text_tree x0 = true ->
  flatten_entry host_get (flattenTranslatedObject host_get)
    (merged_value x0 (deepTranslate host_get ev "ar" prefix))
  = run prefix ev x0.
Proof.
  intros He Hx.
  destruct ev as [| | b | n | s0 | ys | pe ee | p | name]; try discriminate He.
  destruct x0 as [| | b | n | s0 | ys | px xs | p | name]; try discriminate Hx.
  destruct (translated_object prefix pe ee He) as (ts & E & Kts).
  apply text_tree_object in He. destruct He as (-> & Hde & Hpe & Hae & _).
  apply text_tree_object in Hx. destruct Hx as (-> & Hdx & Hpx & Hax & _).
  unfold run, Translate.merged_value. rewrite E.
  change (is_plain_object (VObj None xs)) with true. cbn [truthy typeof_object andb].
  destruct (merge_entries host_get None xs ts None Hdx Hpx)
    as (es & Em & Hdes & Hkeys & _); [now rewrite Kts |].
  rewrite Em. unfold flatten_entry. change (is_plain_object (VObj None es)) with true.
  cbn iota. rewrite (not_marked host_get standard); [reflexivity |].
  intros C. destruct (Hkeys _ C) as [C' | C']; [rewrite Kts in C' |]; contradiction.
Qed.

(** With no existing file the merge is the translated object. *)
Lemma merged_with_nothing (ts : list (string * value)) :
  distinct (List.map fst ts) = true ->
  merged_value (obj []) (VObj None ts) = VObj None ts.
Proof.
  intros Hd. unfold Translate.merged_value, obj.
  change (is_plain_object (VObj None [])) with true. cbn [truthy typeof_object andb].
  rewrite merge_exact by (try assumption; try reflexivity; intros []).
  cbn [List.filter]. rewrite app_nil_r. f_equal.
  rewrite <- (map_id ts) at 2. apply map_ext. now intros [k x].
Qed.

(** A second run over the same English file gives the file of the first
    run, which is a file of texts again. *)
Definition settles (en : value) : Prop :=
  text_tree en = true -> (forall s, In s (texts en) -> own_word s) ->
  forall prefix ar,
    text_tree ar = true ->
    text_tree (run prefix en ar) = true /\
    run prefix en (run prefix en ar) = run prefix en ar.

Lemma entry_settles (prefix : string) (xs : list (string * value))
    (k : string) (ev : value) :
  text_entry ev = true -> (forall s, In s (texts ev) -> own_word s) ->
  settles ev ->
  (forall x, assoc xs k = Some x -> text_entry x = true) ->
  text_entry (run_entry prefix xs (k, ev)) = true /\
  flatten_entry host_get (flattenTranslatedObject host_get)
    (merged_value (run_entry prefix xs (k, ev))
       (translated_entry host_get "ar" prefix (k, ev)))
  = run_entry prefix xs (k, ev).
Proof.
  intros Hev Hwords IH Hxs. unfold run_entry, translated_entry. cbn [fst snd].
  destruct ev as [| | b | n | s | ys | pe ee | p | name]; try discriminate Hev.
  - (* a text *)
    change (is_plain_object (VStr s)) with false. cbn iota.
    destruct (translate_leaf_text s (Hwords s (or_introl eq_refl))) as [t [E | E]];
      rewrite E.
    + (* stored as it is *)
      destruct (assoc xs k) as [x |] eqn:A.
      * specialize (Hxs x eq_refl).
        assert (M : merged_value x (VStr t) = x).
        { unfold Translate.merged_value. cbn [typeof_object]. now rewrite andb_false_r. }
        rewrite M, (flatten_text_entry x Hxs), M, (flatten_text_entry x Hxs).
        now split.
      * now split.
    + (* stored under a marker *)
      destruct (assoc xs k) as [x |] eqn:A.
      * specialize (Hxs x eq_refl).
        destruct x as [| | b | n | a | ys | px xo | p | name]; try discriminate Hxs.
        -- now split.
        -- cbn [text_entry] in Hxs. rewrite (marker_wins _ t s Hxs). now split.
      * now split.
  - (* an object *)
    cbn [text_entry] in Hev. change (is_plain_object (VObj pe ee)) with true. cbn iota.
    destruct (translated_object (fullKey prefix k) pe ee Hev) as (ts & E & Kts).
    assert (Hdts : distinct (List.map fst ts) = true).
    { rewrite Kts. apply text_tree_object in Hev. tauto. }
    assert (G : forall x0, text_tree x0 = true ->
              text_entry (flatten_entry host_get (flattenTranslatedObject host_get)
                            (merged_value x0
                               (deepTranslate host_get (VObj pe ee) "ar"
                                  (fullKey prefix k)))) = true /\
              flatten_entry host_get (flattenTranslatedObject host_get)
                (merged_value
                   (flatten_entry host_get (flattenTranslatedObject host_get)
                      (merged_value x0
                         (deepTranslate host_get (VObj pe ee) "ar" (fullKey prefix k))))
                   (deepTranslate host_get (VObj pe ee) "ar" (fullKey prefix k)))
              = flatten_entry host_get (flattenTranslatedObject host_get)
                  (merged_value x0
                     (deepTranslate host_get (VObj pe ee) "ar" (fullKey prefix k)))).
    { intros x0 Hx0. rewrite (object_entry _ _ x0 Hev Hx0).
      destruct (IH Hev Hwords (fullKey prefix k) x0 Hx0) as [T R].
      split; [now apply text_tree_entry |].
      now rewrite (object_entry _ _ _ Hev T). }
    destruct (assoc xs k) as [x |] eqn:A.
    + specialize (Hxs x eq_refl).
      destruct x as [| | b | n | a | ys | px xo | p | name]; try discriminate Hxs.
      * now split.
      * cbn [text_entry] in Hxs. exact (G _ Hxs).
    + specialize (G (obj []) eq_refl). rewrite E in G |- *.
      rewrite (merged_with_nothing ts Hdts) in G. exact G.
Qed.

Lemma run_settles (en : value) : settles en.
Proof.
  induction en as [| | b | n | s0 | ys IH | pe ee IHp IH | p | name] using value_ind;
    intros He; try discriminate He.
  intros Hwords prefix ar Har.
  destruct ar as [| | b | n | s0 | ys | px xs | p | name]; try discriminate Har.
  destruct (run_exact prefix pe px ee xs He Har) as [E Hd]. rewrite E.
  pose proof He as He'. apply text_tree_object in He'.
  destruct He' as (-> & Hde & Hpe & Hae & Hve & Halle).
  pose proof Har as Har'. apply text_tree_object in Har'.
  destruct Har' as (-> & Hdx & Hpx & Hax & Hvx & Hallx).
  set (A := List.map (fun kv => (fst kv, run_entry prefix xs kv)) ee) in *.
  set (B := List.filter (fresh ee) xs) in *.
  assert (KA : List.map fst A = List.map fst ee) by apply map_fst_map.
  (* every entry of the English object is settled *)
  assert (Hentry : forall k ev, In (k, ev) ee ->
            text_entry (run_entry prefix xs (k, ev)) = true /\
            flatten_entry host_get (flattenTranslatedObject host_get)
              (merged_value (run_entry prefix xs (k, ev))
                 (translated_entry host_get "ar" prefix (k, ev)))
            = run_entry prefix xs (k, ev)).
  { intros k ev Hin. apply entry_settles.
    - rewrite List.Forall_forall in Halle. exact (Halle _ Hin).
    - intros s Hs. apply Hwords. exact (texts_entry None ee k ev s Hin Hs).
    - rewrite List.Forall_forall in IH. exact (IH _ Hin).
    - intros x Hx. apply assoc_In in Hx.
      rewrite List.Forall_forall in Hallx. exact (Hallx _ Hx). }
  (* the first run wrote a file of texts *)
  assert (T : text_tree (VObj None (A ++ B)) = true).
  { apply text_tree_object. split; [reflexivity |]. split; [exact Hd |].
    assert (K : forall key, In key (List.map fst (A ++ B)) ->
                  In key (List.map fst ee) \/ In key (List.map fst xs)).
    { intros key C. rewrite List.map_app, KA in C. apply in_app_or in C.
      destruct C as [C | C]; [now left | right].
      apply in_map_iff in C. destruct C as (kv & <- & C).
      apply filter_In in C. apply in_map. tauto. }
    split; [intros C; destruct (K _ C); contradiction |].
    split; [intros C; destruct (K _ C); contradiction |].
    split; [intros C; destruct (K _ C); contradiction |].
    apply Forall_app. split.
    - apply List.Forall_forall. intros kv Hin. apply in_map_iff in Hin.
      destruct Hin as ([k ev] & <- & Hin). cbn [snd fst]. now apply Hentry.
    - apply List.Forall_forall. intros kv Hin. apply filter_In in Hin.
      rewrite List.Forall_forall in Hallx. apply Hallx. tauto. }
  split; [exact T |].
  destruct (run_exact prefix None None ee (A ++ B) He T) as [E2 _]. rewrite E2.
  f_equal. f_equal.
  - apply map_ext_in. intros [k ev] Hin. f_equal.
    unfold run_entry at 1. cbn [fst].
    rewrite (assoc_app_l A B k (run_entry prefix xs (k, ev))).
    + now apply Hentry.
    + unfold A. now apply (assoc_entries (run_entry prefix xs)).
  - rewrite List.filter_app. unfold A at 1. rewrite filter_fresh_entries.
    apply filter_twice.
Qed.

(** *** After the run no English key is missing *)

(** The Arabic file has the shape of the English one where they share keys:
    under a key where English has an object it has no text, and under a key
    where English has a text it has no empty text. *)
Fixpoint fits (en ar : value) {struct en} : bool :=
  match en with
  | VObj _ ee =>
      (fix all (ee : list (string * value)) : bool :=
         match ee with
         | [] => true
         | (k, ev) :: rest =>
             match assoc (Object_entries ar) k with
             | None => true
             | Some x =>
                 match ev with
                 | VObj _ _ => match x with VStr _ => false | _ => fits ev x end
                 | _ => match x with VStr a => negb (String.eqb a "") | _ => true end
                 end
             end && all rest
         end) ee
  | _ => true
  end.

Definition fits_entry (ev : value) (x : option value) : bool :=
  match x with
  | None => true
  | Some x =>
      match ev with
      | VObj _ _ => match x with VStr _ => false | _ => fits ev x end
      | _ => match x with VStr a => negb (String.eqb a "") | _ => true end
      end
  end.

Lemma fits_object (pe : option value) (ee : list (string * value)) (ar : value) :
  fits (VObj pe ee) ar = true ->
  forall k ev, In (k, ev) ee -> fits_entry ev (assoc (Object_entries ar) k) = true.
Proof.
  cbn [fits]. induction ee as [| [a y] ee IH]; intros H k ev Hin; [destruct Hin |].
  apply andb_true_iff in H. destruct H as [H1 H2]. destruct Hin as [E | Hin].
  - injection E as -> ->. exact H1.
  - now apply IH.
Qed.

Lemma fits_nothing (en : value) : fits en (obj []) = true.
Proof.
  destruct en as [| | b | n | s | ys | pe ee | p | name]; try reflexivity.
  cbn [fits Object_entries obj assoc]. induction ee as [| [k ev] ee IH]; [reflexivity |].
  exact IH.
Qed.

(** Every key, at every depth, is one [split('.')] gives back. *)
Fixpoint plain_keys (v : value) : bool :=
  match v with
  | VObj _ es =>
      (fix all (es : list (string * value)) : bool :=
         match es with
         | [] => true
         | (k, x) :: rest => ReportFacts.plain_key k && plain_keys x && all rest
         end) es
  | _ => true
  end.

Lemma plain_keys_entry (v : value) (k : string) (x : value) :
  plain_keys v = true -> In (k, x) (Object_entries v) ->
  ReportFacts.plain_key k = true /\ plain_keys x = true.
Proof.
  destruct v as [| | b | n | s | ys | pe es | p | name]; try (intros _ []).
  cbn [plain_keys Object_entries].
  induction es as [| [a y] es IH]; intros H Hin; [destruct Hin |].
  apply andb_true_iff in H. destruct H as [H1 H2].
  apply andb_true_iff in H1. destruct H1 as [Ha Hy]. destruct Hin as [E | Hin].
  - injection E as -> ->. now split.
  - now apply IH.
Qed.

Lemma plain_keys_path (v : value) (path : list string) :
  leaf_at v path -> plain_keys v = true ->
  List.Forall (fun key => ReportFacts.plain_key key = true) path.
Proof.
  induction 1 as [v key x Hin Hx | v key x path Hin Hx Hleaf IH]; intros H;
    destruct (plain_keys_entry v key x H Hin) as [Hk Hsub].
  - now repeat constructor.
  - constructor; [exact Hk | now apply IH].
Qed.

Lemma translateText_truthy (s : string) :
  own_word s -> truthy (translateText host_get s "ar") = true.
Proof.
  intros [Hp Hu]. unfold translateText.
  destruct (truthy (get host_get TRANSLATION_MAP s)) eqn:T; [exact T |].
  cbn [String.eqb Ascii.eqb Bool.eqb].
  destruct (isModelName s || isTechnicalTerm s) eqn:M; [| reflexivity].
  destruct s; [discriminate M | reflexivity].
Qed.

(** What a run stores under a key where English has an object. *)
Lemma run_entry_object (prefix : string) (xs : list (string * value))
    (k : string) (ev : value) :
  text_tree ev = true ->
  (forall x, assoc xs k = Some x -> text_entry x = true) ->
  run_entry prefix xs (k, ev)
  = match assoc xs k with
    | Some (VStr a) => VStr a
    | Some x => run (fullKey prefix k) ev x
    | None => run (fullKey prefix k) ev (obj [])
    end.
Proof.
  intros Hev Hxs. unfold run_entry, translated_entry. cbn [fst snd].
  destruct ev as [| | b | n | s | ys | pe ee | p | name]; try discriminate Hev.
  change (is_plain_object (VObj pe ee)) with true. cbn iota.
  destruct (assoc xs k) as [x |] eqn:A.
  - specialize (Hxs x eq_refl).
    destruct x as [| | b | n | a | ys | px xo | p | name]; try discriminate Hxs.
    + reflexivity.
    + cbn [text_entry] in Hxs. now apply object_entry.
  - rewrite <- (object_entry _ _ (obj []) Hev eq_refl).
    destruct (translated_object (fullKey prefix k) pe ee Hev) as (ts & E & Kts).
    rewrite E, merged_with_nothing; [reflexivity |].
    rewrite Kts. apply text_tree_object in Hev. tauto.
Qed.

(** Under a key where English has a text, a run stores something truthy
    unless the Arabic file has an empty text there. *)
Lemma run_entry_text (prefix : string) (xs : list (string * value))
    (k s : string) :
  own_word s ->
  (forall x, assoc xs k = Some x -> text_entry x = true) ->
  fits_entry (VStr s) (assoc xs k) = true ->
  truthy (run_entry prefix xs (k, VStr s)) = true.
Proof.
  intros Hs Hxs Hfit. unfold run_entry, translated_entry. cbn [fst snd].
  change (is_plain_object (VStr s)) with false. cbn iota.
  pose proof (translateText_truthy s Hs) as Ht.
  destruct (translateText_string s Hs) as [t Et]. rewrite Et in Ht.
  assert (L : translate_leaf host_get (VStr s) "ar" = VStr t \/
              translate_leaf host_get (VStr s) "ar" = review_marker (VStr t) s).
  { cbn [translate_leaf]. rewrite Et. destruct (differs_from _ _ && _); tauto. }
  destruct (assoc xs k) as [x |] eqn:A.
  - specialize (Hxs x eq_refl).
    destruct x as [| | b | n | a | ys | px xo | p | name]; try discriminate Hxs.
    + cbn [fits_entry] in Hfit. destruct L as [-> | ->]; exact Hfit.
    + cbn [text_entry] in Hxs. destruct L as [-> | ->].
      * assert (M : merged_value (VObj px xo) (VStr t) = VObj px xo).
        { unfold Translate.merged_value. cbn [typeof_object]. now rewrite andb_false_r. }
        rewrite M, (flatten_text_entry (VObj px xo) Hxs). reflexivity.
      * now rewrite (marker_wins _ t s Hxs).
  - destruct L as [-> | ->]; exact Ht.
Qed.

(** Every leaf of the English file leads to something truthy in the data
    of the run. *)
Lemma run_fills (en : value) (path : list string) :
  leaf_at en path ->
  forall prefix ar,
    text_tree en = true -> (forall s, In s (texts en) -> own_word s) ->
    text_tree ar = true -> fits en ar = true ->
    exists v, descend (run prefix en ar) path = Some v /\ truthy v = true.
Proof.
  induction 1 as [en key x Hin Hx | en key x path Hin Hx Hleaf IH];
    intros prefix ar He Hwords Har Hfit;
    destruct en as [| | b | n | s0 | ys | pe ee | p | name]; try discriminate He;
    destruct ar as [| | b | n | s0 | ys | px xs | p | name]; try discriminate Har;
    cbn [Object_entries] in Hin;
    destruct (run_exact prefix pe px ee xs He Har) as [E _]; rewrite E;
    pose proof (fits_object pe ee _ Hfit key x Hin) as Hf; cbn [Object_entries] in Hf;
    pose proof He as He'; apply text_tree_object in He';
    destruct He' as (_ & Hde & _ & _ & _ & Halle);
    pose proof Har as Har'; apply text_tree_object in Har';
    destruct Har' as (_ & _ & _ & _ & _ & Hallx);
    rewrite List.Forall_forall in Halle, Hallx;
    pose proof (Halle _ Hin) as Hentry; cbn [snd] in Hentry;
    assert (Hxs : forall y, assoc xs key = Some y -> text_entry y = true)
      by (intros y Hy; apply assoc_In in Hy; exact (Hallx _ Hy));
    cbn [descend];
    rewrite (assoc_app_l _ _ key (run_entry prefix xs (key, x))
               (assoc_entries (run_entry prefix xs) ee key x Hde Hin)).
  - (* the leaf is a text under this key *)
    destruct x as [| | b | n | s | ys | py ey | p | name]; try discriminate Hentry;
      [| discriminate Hx].
    eexists. split; [reflexivity |].
    apply run_entry_text; [| exact Hxs | exact Hf].
    apply Hwords. apply (texts_entry pe ee key (VStr s) s Hin). now left.
  - (* the leaf lies below this key *)
    destruct x as [| | b | n | s | ys | py ey | p | name]; try discriminate Hx;
      try discriminate Hentry.
    cbn [text_entry] in Hentry.
    assert (Hw : forall s, In s (texts (VObj py ey)) -> own_word s).
    { intros s Hs. apply Hwords. exact (texts_entry pe ee key _ s Hin Hs). }
    rewrite (run_entry_object prefix xs key _ Hentry Hxs).
    destruct (assoc xs key) as [y |] eqn:A.
    + specialize (Hxs y eq_refl).
      destruct y as [| | b | n | a | ys | qy yo | p | name]; try discriminate Hxs;
        [discriminate Hf |].
      cbn [text_entry] in Hxs. cbn [fits_entry] in Hf.
      destruct path as [| k2 rest]; [inversion Hleaf |].
      exact (IH (fullKey prefix key) _ Hentry Hw Hxs Hf).
    + destruct path as [| k2 rest]; [inversion Hleaf |].
      exact (IH (fullKey prefix key) (obj []) Hentry Hw eq_refl (fits_nothing _)).
Qed.

End Exact.


(** A file of texts holds no review marker. *)
Lemma text_tree_unmarked (host_get : value -> string -> value) (x : value) :
  standard_prototype host_get -> text_tree x = true ->
  countAutoTranslated host_get x = 0%nat.
Proof.
  intros standard.
  induction x as [| | b | n | s0 | ys IH | px xs IHp IH | p | name] using value_ind;
    try discriminate.
  intros H. apply text_tree_object in H. destruct H as (_ & _ & _ & _ & _ & Hall).
  cbn [countAutoTranslated].
  induction xs as [| [k x] xs IHxs]; [reflexivity |].
  inversion Hall as [| ? ? Hx Hrest]; subst. inversion IH as [| ? ? Px Prest]; subst.
  cbn [snd] in Hx, Px. rewrite (IHxs Prest Hrest), Nat.add_0_r.
  destruct x as [| | b | n | s | ys | py ey | p | name]; try discriminate Hx;
    [reflexivity |].
  cbn [text_entry] in Hx. change (is_plain_object (VObj py ey)) with true. cbn iota.
  pose proof Hx as Hy. apply text_tree_object in Hy.
  destruct Hy as (-> & _ & _ & Hay & _ & _).
  rewrite (get_absent host_get ey "_autoTranslated"); [| now apply assoc_none | discriminate].
  destruct standard as [_ ->]. cbn [is_true]. now apply Px.
Qed.

(** X19: the review markers never reach the Arabic file.  For files of
    texts as in X18, the data [main] writes holds no object marked
    [_autoTranslated]: [countAutoTranslated] finds nothing in it, and the
    report made from it gives [keys_auto_translated] as 0, whatever
    [deepTranslate] had marked for review. *)
Theorem written_file_unmarked (F : float_format) (host_get : value -> string -> value)
    (en ar : list (string * value)) (enData : value) :
  standard_prototype host_get ->
  text_tree (obj en) = true -> text_tree (obj ar) = true ->
  (forall s, In s (texts (obj en)) -> own_word host_get s) ->
  countAutoTranslated host_get (finalData host_get (obj en) (obj ar)) = 0%nat /\
  keys_auto_translated
    (report_language F host_get enData (finalData host_get (obj en) (obj ar)))
  = of_nat 0.
Proof.
  intros standard He Ha Hwords.
  destruct (run_settles host_get standard (obj en) He Hwords "" (obj ar) Ha) as [T _].
  assert (C : countAutoTranslated host_get (finalData host_get (obj en) (obj ar)) = 0%nat)
    by (apply text_tree_unmarked; assumption).
  split; [exact C |]. cbn [keys_auto_translated report_language]. now rewrite C.
Qed.

Lemma filter_none {A : Type} (p : A -> bool) (l : list A) :
  (forall x, In x l -> p x = false) -> List.filter p l = [].
Proof.
  induction l as [| a l IH]; intros H; [reflexivity |].
  cbn [List.filter]. rewrite (H a (or_introl eq_refl)).
  apply IH. intros x Hx. apply H. now right.
Qed.

(** X20: the script fills every gap the report would list.  For files of
    texts as in X18 whose English keys are non-empty and free of dots, and
    an Arabic file that fits the English one (no text where English has an
    object, no empty text where English has a text), the report made from
    the English file and the data [main] writes lists no missing key. *)
Theorem written_file_complete (F : float_format) (host_get : value -> string -> value)
    (en ar : list (string * value)) :
  standard_prototype host_get ->
  text_tree (obj en) = true -> plain_keys (obj en) = true ->
  text_tree (obj ar) = true -> fits (obj en) (obj ar) = true ->
  (forall s, In s (texts (obj en)) -> own_word host_get s) ->
  missing_keys
    (report_language F host_get (obj en) (finalData host_get (obj en) (obj ar))) = [] /\
  keys_missing
    (report_language F host_get (obj en) (finalData host_get (obj en) (obj ar)))
  = of_nat 0.
Proof.
  intros standard He Hk Ha Hfit Hwords.
  assert (M : missingIn host_get (deepKeys (obj en) "")
                (finalData host_get (obj en) (obj ar)) = []).
  { apply filter_none. intros key Hin.
    apply deepKeys_spec in Hin. destruct Hin as (path & Hleaf & ->).
    destruct (run_fills host_get standard (obj en) path Hleaf "" (obj ar)
                He Hwords Ha Hfit) as (v & Hv & Ht).
    assert (Hne : path <> []) by (intros ->; inversion Hleaf).
    change (finalData host_get (obj en) (obj ar)) with (run host_get "" (obj en) (obj ar)).
    unfold getValueByPath.
    rewrite (ReportFacts.split_dot_key path Hne (plain_keys_path _ _ Hleaf Hk)).
    rewrite (ReportFacts.getValueByPath_descend host_get path _ v Hv).
    now rewrite Ht. }
  cbn [missing_keys keys_missing report_language]. rewrite M. now split.
Qed.

Definition sample_en : list (string * value) :=
  [("nav", obj [("home", VStr "Home"); ("lab", VStr "Light curve lab")]);
   ("title", VStr "ExoAI")].

Definition sample_ar : list (string * value) :=
  [("nav", obj [("home", VStr "Manual")]); ("footer", VStr "Old footer")].


Lemma written_file_unmarked_witness :
  countAutoTranslated bare_host (finalData bare_host (obj sample_en) (obj sample_ar))
  = 0%nat /\
  keys_auto_translated
    (report_language binary64 bare_host (obj sample_en)
       (finalData bare_host (obj sample_en) (obj sample_ar)))
  = of_nat 0.
Proof.
  apply (written_file_unmarked binary64 bare_host sample_en sample_ar (obj sample_en)).
  - split; [intros key; now left | reflexivity].
  - reflexivity.
  - reflexivity.
  - intros s Hs. split; [| reflexivity].
    cbn in Hs. intuition (subst; discriminate).
Defined.

Lemma written_file_complete_witness :
  missing_keys
    (report_language binary64 bare_host (obj sample_en)
       (finalData bare_host (obj sample_en) (obj sample_ar))) = [] /\
  keys_missing
    (report_language binary64 bare_host (obj sample_en)
       (finalData bare_host (obj sample_en) (obj sample_ar)))
  = of_nat 0.
Proof.
  apply (written_file_complete binary64 bare_host sample_en sample_ar).
  - split; [intros key; now left | reflexivity].
  - reflexivity.
  - reflexivity.
  - reflexivity.
  - reflexivity.
  - intros s Hs. split; [| reflexivity].
    cbn in Hs. intuition (subst; discriminate).
Defined.

(** An Arabic file that does not fit: an empty text is kept, a text where
    English has an object hides the keys below, and both stay missing. *)
Example misfit_stays_missing :
  missing_keys
    (report_language binary64 bare_host (obj sample_en)
       (finalData bare_host (obj sample_en)
          (obj [("nav", VStr "Navigation"); ("title", VStr "")])))
  = ["nav.home"; "nav.lab"; "title"].
Proof. vm_compute. reflexivity. Qed.

(** Two texts of the sample are marked for review by [deepTranslate], and
    none is in the file the run writes. *)
Example markers_before_flattening :
  countAutoTranslated bare_host (deepTranslate bare_host (obj sample_en) "ar" "") = 2%nat.
Proof. vm_compute. reflexivity. Qed.

(** The file the sample run writes. *)
Example finalData_sample :
  finalData bare_host (obj sample_en) (obj sample_ar)
  = obj [("nav", obj [("home", VStr "Manual"); ("lab", VStr "[AR: Light curve lab]")]);
         ("title", VStr "[AR: ExoAI]"); ("footer", VStr "Old footer")].
Proof. vm_compute. reflexivity. Qed.

(** An Arabic file that uses [_value] as a key is no file of texts, and
    the script does not settle on it: each run peels one [_value]. *)
Example finalData_value_key :
  let en := obj [("greeting", VStr "Hello")] in
  let ar := obj [("greeting", obj [("_value", obj [("_value", VStr "Ahlan")])])] in
  finalData bare_host en ar = obj [("greeting", obj [("_value", VStr "Ahlan")])] /\
  finalData bare_host en (finalData bare_host en ar) = obj [("greeting", VStr "Ahlan")].
Proof. vm_compute. split; reflexivity. Qed.

End Rerun.
